(** * go-readability: content scoring, candidate selection and page classification

    A shallow embedding of the Go sources [internal/dom], [internal/util],
    [internal/parser], [preprocess.go], [core.go] and the page classifier.

    Modelling choices.
    - Go pointers ([*VElement], [*VText]) are locations [loc]; the object
      graph is a finite map from locations to nodes.  The [nil] pointer is
      [None]; a child location that the graph does not map is skipped like a
      nil child.
    - The [readabilityData] field of [baseNode] is kept in a store of its own,
      indexed by the node's location (one map per field): the scorer only
      writes that field and the preprocessor only writes [Children].
    - Go recursion over [Children] and loops over [Parent()] are not bounded
      by the language; the embedding gives them a recursion budget [fuel] and
      returns [None] when the budget is exhausted or a nil pointer is
      dereferenced.
    - A [float64] is the rational number it denotes ([Q]).  Sums, products
      and quotients of scores and lengths are kept exact, except the quotient
      of two scores in the classifier, which is rounded to the nearest
      binary64 value ([round64]) before it is compared with the constant
      [0.8]: there the rounding decides the comparison for scores the store
      can hold.  The densities are quotients of two lengths; as long as the
      lengths are below [2^50], such a quotient compares with 0.25, 0.3 and
      0.5 as its binary64 value does with the binary64 constant.  Infinities
      and NaN are not represented.
    - [int] is [Z]; a Go string is the [string] of its bytes.
      [strings.TrimSpace], the case-insensitive patterns of [adPatterns] and
      the patterns of [util.Regexps] read UTF-8 as Go does.
      [strings.ToLower] maps the letters A to Z only, which is what Go does
      on a string of ASCII bytes.
    - The regular expressions and constants of [internal/util] are translated
      from that package.  The functions that read [util.Regexps] take the
      record as an argument [R]; [utilRegexps] is the value the package
      defines.  The HTML tokenizer golang.org/x/net/html and the metadata
      extractors are passed in ([parser_ParseHTML], [Collaborators]). *)

From Stdlib Require Import Ascii String QArith Qround Qabs.
From stdpp Require Import gmap strings list fin_maps.

Open Scope string_scope.
Open Scope list_scope.

(** ** Go's [strings] package and the whitespace regexp, on bytes *)

Module Strings.

Definition is_upper (c : ascii) : bool :=
  let n := N_of_ascii c in ((65 <=? n) && (n <=? 90))%N.

Definition lower (c : ascii) : ascii :=
  if is_upper c then ascii_of_N (N_of_ascii c + 32) else c.

Fixpoint ToLower (s : string) : string :=
  match s with
  | EmptyString => EmptyString
  | String c s' => String (lower c) (ToLower s')
  end.

Definition HasPrefix (s prefix : string) : bool := String.prefix prefix s.

Fixpoint Contains (s substr : string) : bool :=
  String.prefix substr s ||
  match s with
  | EmptyString => false
  | String _ s' => Contains s' substr
  end.

(** [unicode.IsSpace] on the UTF-8 encoding of a rune.  The white space
    runes U+0009 to U+000D and U+0020 take one byte; U+0085 and U+00A0 take
    two; U+1680, U+2000 to U+200A, U+2028, U+2029, U+202F, U+205F and U+3000
    take three. *)
Definition IsSpace (c : ascii) : bool :=
  let n := N_of_ascii c in ((n =? 32) || ((9 <=? n) && (n <=? 13)))%N.

Definition IsSpace2 (a b : ascii) : bool :=
  let a := N_of_ascii a in
  let b := N_of_ascii b in
  ((a =? 194) && ((b =? 133) || (b =? 160)))%N.

Definition IsSpace3 (a b c : ascii) : bool :=
  let a := N_of_ascii a in
  let b := N_of_ascii b in
  let c := N_of_ascii c in
  (((a =? 225) && (b =? 154) && (c =? 128))
   || ((a =? 226) && (b =? 128)
       && (((128 <=? c) && (c <=? 138)) || (c =? 168) || (c =? 169)
           || (c =? 175)))
   || ((a =? 226) && (b =? 129) && (c =? 159))
   || ((a =? 227) && (b =? 128) && (c =? 128)))%N.

(** [strings.TrimLeftFunc(s, unicode.IsSpace)]: the runes are decoded from
    the left, and a byte that starts no white space rune ends the scan. *)
Fixpoint TrimLeft (s : string) : string :=
  match s with
  | EmptyString => EmptyString
  | String a s1 =>
      if IsSpace a then TrimLeft s1
      else
        match s1 with
        | EmptyString => s
        | String b s2 =>
            if IsSpace2 a b then TrimLeft s2
            else
              match s2 with
              | EmptyString => s
              | String c s3 => if IsSpace3 a b c then TrimLeft s3 else s
              end
        end
  end.

(** The scan of [strings.TrimRightFunc(s, unicode.IsSpace)], on the
    reversed string [r]: the last rune is decoded with
    [utf8.DecodeLastRuneInString], so [r] loses its head as long as that is
    the last byte of a white space rune whose other bytes follow. *)
Fixpoint TrimRight_rev (r : string) : string :=
  match r with
  | EmptyString => EmptyString
  | String c r1 =>
      if IsSpace c then TrimRight_rev r1
      else
        match r1 with
        | EmptyString => r
        | String b r2 =>
            if IsSpace2 b c then TrimRight_rev r2
            else
              match r2 with
              | EmptyString => r
              | String a r3 => if IsSpace3 a b c then TrimRight_rev r3 else r
              end
        end
  end.

Definition TrimRight (s : string) : string :=
  String.rev (TrimRight_rev (String.rev s)).

(** [strings.TrimSpace]: white space runes are cut off the left end, then
    off the right end of what is left. *)
Definition TrimSpace (s : string) : string := TrimRight (TrimLeft s).

(** Simple case folding, as a pattern compiled with [(?i)] sees the text:
    beside the letters A to Z, the runes U+017F (two bytes) and U+212A (three
    bytes) fold to [s] and [k]; no other rune folds to an ASCII letter. *)
Fixpoint fold (s : string) : string :=
  match s with
  | EmptyString => EmptyString
  | String a s1 =>
      match s1 with
      | EmptyString => String (lower a) EmptyString
      | String b s2 =>
          if ((N_of_ascii a =? 197) && (N_of_ascii b =? 191))%N
          then String "s" (fold s2)
          else
            match s2 with
            | EmptyString => String (lower a) (fold s1)
            | String c s3 =>
                if ((N_of_ascii a =? 226) && (N_of_ascii b =? 132)
                    && (N_of_ascii c =? 170))%N
                then String "k" (fold s3)
                else String (lower a) (fold s1)
            end
      end
  end.

(** [re.FindAllString(s, -1)] for a pattern that is an alternation of the
    literals [lits], none of which starts inside another or inside the
    encoding of another rune: the literals found, from the left. *)
Fixpoint FindAllString (lits : list string) (s : string) : list string :=
  match s with
  | EmptyString => []
  | String _ s' =>
      match List.find (fun lit => String.prefix lit s) lits with
      | Some lit => lit :: FindAllString lits s'
      | None => FindAllString lits s'
      end
  end.

Definition HasSuffix (s suffix : string) : bool :=
  String.prefix (String.rev suffix) (String.rev s).

Definition len (s : string) : Z := Z.of_nat (String.length s).

(** The class [\s] of Go regular expressions: tab, newline, form feed,
    carriage return and space. *)
Definition re_space (c : ascii) : bool :=
  let n := N_of_ascii c in
  ((n =? 32) || (n =? 9) || (n =? 10) || (n =? 12) || (n =? 13))%N.

Definition flush (run : list ascii) : string :=
  match run with
  | [] => ""
  | [c] => String c ""
  | _ => " "
  end.

(** [run] is the whitespace run read so far, most recent byte first. *)
Fixpoint replace_runs (run : list ascii) (s : string) : string :=
  match s with
  | EmptyString => flush run
  | String c s' =>
      if re_space c then replace_runs (c :: run) s'
      else flush run +:+ String c (replace_runs [] s')
  end.

(** Everything after the last occurrence of [sep], or [s] when [sep] does
    not occur: the last element of [strings.Split(s, sep)] for a one-byte
    separator. *)
Fixpoint after_last (sep : ascii) (s : string) : string :=
  match s with
  | EmptyString => EmptyString
  | String c s' =>
      if Contains s' (String sep "") then after_last sep s'
      else if Ascii.eqb c sep then s' else s
  end.

(** Everything before the first occurrence of [sep]: the first element of
    [strings.Split(s, sep)]. *)
Fixpoint before_first (sep : ascii) (s : string) : string :=
  match s with
  | EmptyString => EmptyString
  | String c s' =>
      if Ascii.eqb c sep then EmptyString else String c (before_first sep s')
  end.

Fixpoint forallb (p : ascii -> bool) (s : string) : bool :=
  match s with
  | EmptyString => true
  | String c s' => p c && forallb p s'
  end.

Fixpoint existsb (p : ascii -> bool) (s : string) : bool :=
  match s with
  | EmptyString => false
  | String c s' => p c || existsb p s'
  end.

End Strings.

(** [normalizeRegexp.ReplaceAllString(text, " ")] for the pattern [\s{2,}]:
    every maximal run of two or more whitespace bytes becomes one space. *)
Definition normalizeRegexp_ReplaceAllString (text : string) : string :=
  Strings.replace_runs [] text.

(** ** internal/dom/vnode.go *)

Definition loc := positive.

Record ReadabilityData := mkReadabilityData { ContentScore : Q }.

Record VText := mkVText {
  text_parent : option loc;
  TextContent : string
}.

Record VElement := mkVElement {
  parent : option loc;
  TagName : string;
  Attributes : gmap string string;
  Children : list loc
}.

(** A node is a text node or an element node ([VNodeType]). *)
Inductive VNode :=
| TextNode (t : VText)
| ElementNode (e : VElement).

(** The object graph. *)
Abbreviation Heap := (gmap loc VNode).

(** The [readabilityData] field of every node, by location; absent = nil. *)
Abbreviation Scores := (gmap loc ReadabilityData).

Record VDocument := mkVDocument {
  DocumentElement : option loc;
  Body : option loc;
  BaseURI : string;
  DocumentURI : string
}.

Definition AsVElement (h : Heap) (node : loc) : option VElement :=
  match h !! node with
  | Some (ElementNode e) => Some e
  | _ => None
  end.

Definition AsVText (h : Heap) (node : loc) : option VText :=
  match h !! node with
  | Some (TextNode t) => Some t
  | _ => None
  end.

(** [e.Attributes[name]]: the empty string when the key is absent. *)
Definition GetAttribute (e : VElement) (name : string) : string :=
  default "" (Attributes e !! name).

Definition HasAttribute (e : VElement) (name : string) : bool :=
  bool_decide (is_Some (Attributes e !! name)).

Definition ID (e : VElement) : string := GetAttribute e "id".

Definition ClassName (e : VElement) : string := GetAttribute e "class".

(** [element.Parent()] of the element at [p]. *)
Definition Parent (h : Heap) (p : loc) : option loc :=
  e ← AsVElement h p; parent e.

(** ** internal/dom/dom_utils.go *)

(** The loop [for _, child := range element.Children] that appends what [f]
    returns for every child. *)
Fixpoint collect (f : loc -> option (list loc)) (children : list loc)
  : option (list loc) :=
  match children with
  | [] => Some []
  | child :: rest =>
      r ← f child; rs ← collect f rest; Some (r ++ rs)
  end.

Definition tag_matches (tagNames : list string) (e : VElement) : bool :=
  existsb (fun tag => String.eqb tag "*" || String.eqb tag (TagName e)) tagNames.

Fixpoint getElementsByTagNameInternal (fuel : nat) (h : Heap) (element : loc)
    (tagNames : list string) : option (list loc) :=
  match fuel with
  | O => None
  | S fuel' =>
      e ← AsVElement h element;
      let result := if tag_matches tagNames e then [element] else [] in
      rest ← collect (fun child =>
                match AsVElement h child with
                | Some _ => getElementsByTagNameInternal fuel' h child tagNames
                | None => Some []
                end) (Children e);
      Some (result ++ rest)
  end.

Definition GetElementsByTagName (fuel : nat) (h : Heap) (element : option loc)
    (tagName : string) : option (list loc) :=
  element ← element;
  getElementsByTagNameInternal fuel h element [Strings.ToLower tagName].

(** The loop of [GetNodeAncestors]; [depth] counts the ancestors taken. *)
Fixpoint GetNodeAncestors_loop (fuel : nat) (h : Heap) (currentNode : option loc)
    (maxDepth depth : Z) : option (list loc) :=
  match currentNode with
  | None => Some []
  | Some cur =>
      if (maxDepth <=? 0)%Z || (depth <? maxDepth)%Z then
        match fuel with
        | O => None
        | S fuel' =>
            e ← AsVElement h cur;
            rest ← GetNodeAncestors_loop fuel' h (parent e) maxDepth (depth + 1);
            Some (cur :: rest)
        end
      else Some []
  end.

Definition GetNodeAncestors (fuel : nat) (h : Heap) (node : loc) (maxDepth : Z)
  : option (list loc) :=
  e ← AsVElement h node;
  GetNodeAncestors_loop fuel h (parent e) maxDepth 0.

(** The loop body of [GetInnerText] over the children of an element: [i] is
    the index of the head of [children], [text] the text built so far. *)
Fixpoint innerText_children (rec : loc -> option string) (h : Heap)
    (children : list loc) (i : nat) (text : string) : option string :=
  match children with
  | [] => Some text
  | child :: rest =>
      let text := if (0 <? i)%nat && negb (String.eqb text "")
                  then text +:+ " " else text in
      match h !! child with
      | Some (TextNode t) =>
          innerText_children rec h rest (S i) (text +:+ TextContent t)
      | Some (ElementNode _) =>
          childText ← rec child;
          innerText_children rec h rest (S i) (text +:+ childText)
      | None => innerText_children rec h rest (S i) text
      end
  end.

Fixpoint GetInnerText (fuel : nat) (h : Heap) (node : loc)
    (normalizeSpaces : bool) : option string :=
  match fuel with
  | O => None
  | S fuel' =>
      text ← match h !! node with
             | Some (TextNode t) => Some (TextContent t)
             | Some (ElementNode e) =>
                 innerText_children (fun c => GetInnerText fuel' h c false)
                   h (Children e) 0 ""
             | None => None
             end;
      let text := Strings.TrimSpace text in
      Some (if normalizeSpaces then normalizeRegexp_ReplaceAllString text
            else text)
  end.

(** [float64(n)] for an [int] and [int(x)] (truncation toward zero). *)
Definition float64 (n : Z) : Q := inject_Z n.
Definition int (x : Q) : Z := Z.quot (Qnum x) (Zpos (Qden x)).

(** The loop of [GetLinkDensity] that adds up the weighted link lengths. *)
Fixpoint linkLength_loop (fuel : nat) (h : Heap) (links : list loc)
    (linkLength : Z) : option Z :=
  match links with
  | [] => Some linkLength
  | link :: rest =>
      e ← AsVElement h link;
      let href := GetAttribute e "href" in
      let coefficient : Q := if Strings.HasPrefix href "#" then (3 # 10)%Q else 1%Q in
      text ← GetInnerText fuel h link true;
      linkLength_loop fuel h rest
        (linkLength + int (float64 (Strings.len text) * coefficient)%Q)%Z
  end.

Definition GetLinkDensity (fuel : nat) (h : Heap) (element : loc) : option Q :=
  text ← GetInnerText fuel h element true;
  let textLength := Strings.len text in
  if (textLength =? 0)%Z then Some 0%Q
  else
    links ← GetElementsByTagName fuel h (Some element) "a";
    linkLength ← linkLength_loop fuel h links 0;
    Some (float64 linkLength / float64 textLength)%Q.

Definition childElementCount (h : Heap) (e : VElement) : Z :=
  Z.of_nat (length (filter (fun c => is_Some (AsVElement h c)) (Children e))).

Definition GetTextDensity (fuel : nat) (h : Heap) (element : loc) : option Q :=
  text ← GetInnerText fuel h element true;
  let textLength := Strings.len text in
  if (textLength =? 0)%Z then Some 0%Q
  else
    e ← AsVElement h element;
    let count := childElementCount h e in
    let count := if (count =? 0)%Z then 1%Z else count in
    Some (float64 textLength / float64 count)%Q.

(** ** preprocess.go *)

Definition tagsToRemove : list string :=
  [ "aside"; "nav"; "header"; "footer"; "script"; "style"; "noscript";
    "iframe"; "form"; "button"; "object"; "embed"; "applet"; "map"; "dialog" ].

(** The two shapes of the patterns of [adPatterns]: [(?i)lit] and
    [(?i)^lit$]. *)
Inductive adPattern :=
| AdContains (lit : string)
| AdWhole (lit : string).

Definition adPatterns : list adPattern :=
  [ AdContains "ad-"; AdWhole "ad"; AdWhole "ads"; AdContains "advert";
    AdContains "banner"; AdContains "sponsor"; AdContains "promo";
    AdContains "google-ad"; AdContains "adsense"; AdContains "doubleclick";
    AdContains "amazon"; AdContains "affiliate"; AdContains "commercial";
    AdContains "paid"; AdContains "shopping"; AdContains "recommendation" ].

(** [pattern.MatchString(s)]: the literals are in lower case, and the text
    is matched after case folding. *)
Definition MatchString (pattern : adPattern) (s : string) : bool :=
  match pattern with
  | AdContains lit => Strings.Contains (Strings.fold s) lit
  | AdWhole lit => String.eqb (Strings.fold s) lit
  end.

Definition isLikelyAd (element : VElement) : bool :=
  let className := ClassName element in
  let id := ID element in
  let combinedString := className +:+ " " +:+ id in
  existsb (fun pattern => MatchString pattern combinedString) adPatterns
  || String.eqb (GetAttribute element "role") "advertisement"
  || HasAttribute element "data-ad"
  || HasAttribute element "data-ad-client"
  || HasAttribute element "data-ad-slot".

(** [append(s[:i], s[i+1:]...)] at the first index [i] with [s[i] == x]. *)
Fixpoint removeFirst (x : loc) (s : list loc) : list loc :=
  match s with
  | [] => []
  | y :: s' => if decide (y = x) then s' else y :: removeFirst x s'
  end.

Definition setChildren (e : VElement) (children : list loc) : VElement :=
  mkVElement (parent e) (TagName e) (Attributes e) children.

(** The body shared by the two removal loops: look [element] up in the child
    list of its parent and cut it out. *)
Definition removeFromParent (h : Heap) (element : loc) : Heap :=
  match Parent h element with
  | Some p =>
      match AsVElement h p with
      | Some pe =>
          <[p := ElementNode (setChildren pe (removeFirst element (Children pe)))]> h
      | None => h
      end
  | None => h
  end.

Definition removeUnwantedTags_tag (fuel : nat) (doc : VDocument) (h : Heap)
    (tagName : string) : option Heap :=
  elements ← GetElementsByTagName fuel h (DocumentElement doc) tagName;
  Some (foldl removeFromParent h elements).

(** [for _, x := range xs] over a body that may fail, threading the heap. *)
Fixpoint forEach {A S : Type} (body : S -> A -> option S) (s : S) (xs : list A)
  : option S :=
  match xs with
  | [] => Some s
  | x :: xs' => s' ← body s x; forEach body s' xs'
  end.

Definition removeUnwantedTags (fuel : nat) (doc : VDocument) (h : Heap)
  : option Heap :=
  forEach (removeUnwantedTags_tag fuel doc) h tagsToRemove.

Definition removeAds_step (h : Heap) (element : loc) : Heap :=
  match AsVElement h element with
  | Some e =>
      if isLikelyAd e && bool_decide (is_Some (parent e))
      then removeFromParent h element else h
  | None => h
  end.

Definition removeAds (fuel : nat) (doc : VDocument) (h : Heap) : option Heap :=
  allElements ← GetElementsByTagName fuel h (Body doc) "*";
  Some (foldl removeAds_step h allElements).

Definition PreprocessDocument (fuel : nat) (doc : VDocument) (h : Heap)
  : option Heap :=
  h ← removeUnwantedTags fuel doc h;
  removeAds fuel doc h.

(** ** internal/util: constants and compiled regular expressions *)

(** [util.DefaultCharThreshold] *)
Definition DefaultCharThreshold : Z := 500.

(** [util.DefaultNTopCandidates] *)
Definition DefaultNTopCandidates : Z := 5.

(** [util.DefaultTagsToScore] *)
Definition DefaultTagsToScore : list string :=
  [ "section"; "h2"; "h3"; "h4"; "h5"; "h6"; "p"; "td"; "pre" ].

(** The fields of [util.Regexps] that the scorer reads, each as the method
    called on it: [Positive.MatchString], [Negative.MatchString] and
    [Commas.FindAllString(_, -1)]. *)
Record Regexps := mkRegexps {
  Positive : string -> bool;
  Negative : string -> bool;
  Commas : string -> list string
}.

Definition bytes (l : list N) : string :=
  string_of_list_ascii (map ascii_of_N l).

(** [article|body|content|entry|hentry|h-entry|main|page|pagination|post|text|blog|story] *)
Definition Positive_MatchString (s : string) : bool :=
  existsb (Strings.Contains s)
    [ "article"; "body"; "content"; "entry"; "hentry"; "h-entry"; "main";
      "page"; "pagination"; "post"; "text"; "blog"; "story" ].

(** [-ad-|hidden|^hid$| hid$| hid |^hid |banner|combx|comment|com-|contact|footer|gdpr|masthead|media|meta|outbrain|promo|related|scroll|share|shoutbox|sidebar|skyscraper|sponsor|shopping|tags|widget] *)
Definition Negative_MatchString (s : string) : bool :=
  existsb (Strings.Contains s) [ "-ad-"; "hidden" ]
  || String.eqb s "hid"
  || Strings.HasSuffix s " hid"
  || Strings.Contains s " hid "
  || Strings.HasPrefix s "hid "
  || existsb (Strings.Contains s)
       [ "banner"; "combx"; "comment"; "com-"; "contact"; "footer"; "gdpr";
         "masthead"; "media"; "meta"; "outbrain"; "promo"; "related";
         "scroll"; "share"; "shoutbox"; "sidebar"; "skyscraper"; "sponsor";
         "shopping"; "tags"; "widget" ].

(** The alternatives of [Commas]: the comma of ASCII and the runes U+060C,
    U+FE50, U+FE10, U+FE11, U+2E41, U+2E54, U+2E52, U+FF0C and U+3001 in
    UTF-8. *)
Definition commaLiterals : list string :=
  [ ","; bytes [216; 140]; bytes [239; 185; 144]; bytes [239; 184; 144];
    bytes [239; 184; 145]; bytes [226; 185; 129]; bytes [226; 185; 148];
    bytes [226; 185; 146]; bytes [239; 188; 140]; bytes [227; 128; 129] ]%N.

(** [util.Regexps] *)
Definition utilRegexps : Regexps :=
  mkRegexps Positive_MatchString Negative_MatchString
    (Strings.FindAllString commaLiterals).

(** ** Comparison of scores and machine integers *)

Definition Qltb (x y : Q) : bool := negb (Qle_bool y x).

(** The exponent of the binade of [x]: the [e] with [2^e <= |x| < 2^(e+1)],
    for [x] other than 0. *)
Definition floor_log2 (x : Q) : Z :=
  let e := (Z.log2 (Z.abs (Qnum x)) - Z.log2 (Zpos (Qden x)))%Z in
  if Qle_bool (2 ^ e) (Qabs x) then e else (e - 1)%Z.

(** The integer nearest to [x], the even one of two that are equally near. *)
Definition round_half_even (x : Q) : Z :=
  let f := Qfloor x in
  match (x - inject_Z f ?= 1 # 2)%Q with
  | Lt => f
  | Gt => (f + 1)%Z
  | Eq => if Z.even f then f else (f + 1)%Z
  end.

(** The binary64 value nearest to [x], ties to even: 53 significant bits in
    the binade of [x], and multiples of [2^-1074] below [2^-1022].  Where Go
    has an infinity, for [|x|] beyond the largest finite binary64 value, the
    result is a rational of magnitude [2^1024] or more, which compares with
    every finite binary64 value as the infinity does. *)
Definition round64 (x : Q) : Q :=
  if Qeq_bool x 0 then 0%Q
  else
    let e := Z.max (floor_log2 x) (-1022) in
    let ulp := (2 ^ (e - 52))%Q in
    (inject_Z (round_half_even (x / ulp)) * ulp)%Q.

(** Two's complement wrap-around of a 64-bit [int]. *)
Definition wrap64 (n : Z) : Z :=
  ((n + 2 ^ 63) mod 2 ^ 64 - 2 ^ 63)%Z.

Definition in_list (x : string) (l : list string) : bool :=
  existsb (String.eqb x) l.

(** ** types *)

Definition PageType := string.
Definition PageTypeArticle : PageType := "article".
Definition PageTypeOther : PageType := "other".

Record ReadabilityOptions := mkReadabilityOptions {
  CharThreshold : Z;
  NbTopCandidates : Z;
  GenerateAriaTree : bool;
  ForcedPageType : PageType
}.

(** The result record; [AriaTree] is left out, [ExtractContent] always
    leaves it nil. *)
Record ReadabilityArticle := mkReadabilityArticle {
  Title : string;
  Byline : string;
  Root : option loc;
  NodeCount : Z;
  PageType_ : PageType;
  Header : option loc;
  Footer : option loc;
  OtherSignificantNodes : list loc
}.

(** What [Extract] and [ExtractContent] call outside the scorer: the HTML
    parser (a wrapper of golang.org/x/net/html) and the two metadata
    extractors of metadata.go. *)
Record Collaborators := mkCollaborators {
  ParseHTML : string -> string -> (VDocument * Heap) + string;
  GetArticleTitle : Heap -> VDocument -> string;
  GetArticleByline : Heap -> VDocument -> string
}.

(** ** core.go: class weight and node initialization *)

Definition GetClassWeight (R : Regexps) (node : VElement) : Q :=
  let weight := 0%Q in
  let className := ClassName node in
  let weight :=
    if negb (String.eqb className "") then
      let weight := if Negative R className then (weight - 25)%Q else weight in
      if Positive R className then (weight + 25)%Q else weight
    else weight in
  let id := ID node in
  let weight :=
    if negb (String.eqb id "") then
      let weight := if Negative R id then (weight - 25)%Q else weight in
      if Positive R id then (weight + 25)%Q else weight
    else weight in
  weight.

(** The [switch strings.ToLower(node.TagName)] of [InitializeNode]. *)
Definition tagScore (contentScore : Q) (tagName : string) : Q :=
  let t := Strings.ToLower tagName in
  if String.eqb t "div" then (contentScore + 5)%Q
  else if in_list t ["pre"; "td"; "blockquote"] then (contentScore + 3)%Q
  else if in_list t ["address"; "ol"; "ul"; "dl"; "dd"; "dt"; "li"; "form"]
       then (contentScore - 3)%Q
  else if in_list t ["h1"; "h2"; "h3"; "h4"; "h5"; "h6"; "th"]
       then (contentScore - 5)%Q
  else contentScore.

Definition InitializeNode (R : Regexps) (h : Heap) (scores : Scores)
    (node : loc) : option Scores :=
  e ← AsVElement h node;
  let contentScore := 0%Q in
  let contentScore := tagScore contentScore (TagName e) in
  let contentScore := (contentScore + GetClassWeight R e)%Q in
  Some (<[node := mkReadabilityData contentScore]> scores).

(** ** core.go: FindMainCandidates *)

Record scoredCandidate := mkScoredCandidate {
  element : loc;
  score : Q
}.

Definition min (x y : Z) : Z := if (x <? y)%Z then x else y.

Definition minFloat (x y : Q) : Q := if Qltb x y then x else y.

(** [scoreDivider] for an ancestor at [level]. *)
Definition scoreDivider (level : Z) : Z :=
  if (level =? 1)%Z then 2
  else if (level >=? 2)%Z then (level * 3)%Z
  else 1.

(** The base score of a scorable element from its inner text. *)
Definition baseContentScore (R : Regexps) (innerText : string) : Q :=
  let contentScore := 1%Q in
  let contentScore :=
    (contentScore + float64 (Z.of_nat (length (Commas R innerText))))%Q in
  (contentScore + float64 (min (Strings.len innerText / 100) 3))%Q.

(** One iteration of [for level, ancestor := range ancestors]: the state is
    the score store and the slice [candidates]. *)
Definition scoreAncestor (R : Regexps) (h : Heap) (contentScore : Q)
    (level : Z) (st : Scores * list loc) (ancestor : loc)
  : option (Scores * list loc) :=
  let '(scores, candidates) := st in
  '(scores, candidates) ←
    match scores !! ancestor with
    | None =>
        scores ← InitializeNode R h scores ancestor;
        Some (scores, candidates ++ [ancestor])
    | Some _ => Some (scores, candidates)
    end;
  let scoreDivider := scoreDivider level in
  let scores :=
    match scores !! ancestor with
    | Some d =>
        <[ancestor := mkReadabilityData
            (ContentScore d + contentScore / float64 scoreDivider)%Q]> scores
    | None => scores
    end in
  Some (scores, candidates).

Fixpoint scoreAncestors (R : Regexps) (h : Heap) (contentScore : Q)
    (level : Z) (st : Scores * list loc) (ancestors : list loc)
  : option (Scores * list loc) :=
  match ancestors with
  | [] => Some st
  | ancestor :: rest =>
      st ← scoreAncestor R h contentScore level st ancestor;
      scoreAncestors R h contentScore (level + 1) st rest
  end.

(** One iteration of [for _, elementToScore := range elementsToScore]. *)
Definition scoreElement (R : Regexps) (fuel : nat) (h : Heap)
    (st : Scores * list loc) (elementToScore : loc)
  : option (Scores * list loc) :=
  innerText ← GetInnerText fuel h elementToScore false;
  if (Strings.len innerText <? 25)%Z then Some st
  else
    ancestors ← GetNodeAncestors fuel h elementToScore 3;
    if (Z.of_nat (length ancestors) =? 0)%Z then Some st
    else
      scoreAncestors R h (baseContentScore R innerText) 0 st ancestors.

(** The loop that walks from a candidate towards the body and keeps the
    best scored ancestor. *)
Fixpoint promote (fuel : nat) (h : Heap) (scores : Scores)
    (currentCandidate : loc) (parentOfCandidate : option loc) : option loc :=
  match parentOfCandidate with
  | None => Some currentCandidate
  | Some p =>
      match fuel with
      | O => None
      | S fuel' =>
          pe ← AsVElement h p;
          if String.eqb (Strings.ToLower (TagName pe)) "body"
          then Some currentCandidate
          else
            let currentCandidate :=
              match scores !! p, scores !! currentCandidate with
              | Some dp, Some dc =>
                  if Qltb (ContentScore dc) (ContentScore dp) then p
                  else currentCandidate
              | _, _ => currentCandidate
              end in
            promote fuel' h scores currentCandidate (parent pe)
      end
  end.

Definition isDuplicate (scoredCandidates : list scoredCandidate)
    (currentCandidate : loc) : bool :=
  existsb (fun sc => bool_decide (element sc = currentCandidate))
    scoredCandidates.

(** One iteration of [for _, candidate := range candidates]: the state is
    the score store and the slice [scoredCandidates]. *)
Definition adjustCandidate (fuel : nat) (h : Heap)
    (st : Scores * list scoredCandidate) (candidate : loc)
  : option (Scores * list scoredCandidate) :=
  let '(scores, scoredCandidates) := st in
  match scores !! candidate with
  | None => Some st
  | Some d =>
      linkDensity ← GetLinkDensity fuel h candidate;
      let d := mkReadabilityData (ContentScore d * (1 - linkDensity))%Q in
      textDensity ← GetTextDensity fuel h candidate;
      let d :=
        if Qltb 0 textDensity
        then mkReadabilityData
               (ContentScore d * (1 + minFloat (textDensity / 10) (1 # 10)))%Q
        else d in
      let scores := <[candidate := d]> scores in
      currentCandidate ← promote fuel h scores candidate (Parent h candidate);
      match scores !! currentCandidate with
      | Some dc =>
          if isDuplicate scoredCandidates currentCandidate
          then Some (scores, scoredCandidates)
          else Some (scores, scoredCandidates ++
                       [mkScoredCandidate currentCandidate (ContentScore dc)])
      | None => Some (scores, scoredCandidates)
      end
  end.

(** The inner loop of the bubble sort, [for j := 0; j < k; j++]. *)
Fixpoint bubble (k : nat) (s : list scoredCandidate) : list scoredCandidate :=
  match k, s with
  | S k', a :: b :: rest =>
      if Qltb (score a) (score b) then b :: bubble k' (a :: rest)
      else a :: bubble k' (b :: rest)
  | _, _ => s
  end.

(** [for i := 0; i < len(s)-1; i++] around the inner loop with bound
    [len(s)-i-1]. *)
Definition bubbleSort (s : list scoredCandidate) : list scoredCandidate :=
  let n := length s in
  foldl (fun s i => bubble (n - i - 1) s) s (seq 0 (n - 1)).

(** The end of [FindMainCandidates]: the first [nbTopCandidates] elements of
    the sorted slice, or the body when there is none. *)
Definition topCandidatesOrBody (doc : VDocument)
    (scoredCandidates : list scoredCandidate) (nbTopCandidates : Z)
  : list loc :=
  let topCandidates :=
    map element
      (take (Z.to_nat (min (Z.of_nat (length scoredCandidates)) nbTopCandidates))
         scoredCandidates) in
  match topCandidates, Body doc with
  | [], Some b => [b]
  | _, _ => topCandidates
  end.

Definition FindMainCandidates (R : Regexps) (fuel : nat) (h : Heap)
    (scores : Scores) (doc : VDocument) (nbTopCandidates : Z)
  : option (list loc * Scores) :=
  let nbTopCandidates :=
    if (nbTopCandidates <=? 0)%Z then DefaultNTopCandidates
    else nbTopCandidates in
  articles ← GetElementsByTagName fuel h (DocumentElement doc) "article";
  match articles with
  | [a] => Some ([a], scores)
  | _ =>
  mains ← GetElementsByTagName fuel h (DocumentElement doc) "main";
  match mains with
  | [m] => Some ([m], scores)
  | _ =>
  let body := Body doc in
  elementsToScore ←
    forEach (fun acc tag =>
               elements ← GetElementsByTagName fuel h body tag;
               Some (acc ++ elements)) [] DefaultTagsToScore;
  '(scores, candidates) ←
    forEach (scoreElement R fuel h) (scores, []) elementsToScore;
  '(scores, scoredCandidates) ←
    forEach (adjustCandidate fuel h) (scores, []) candidates;
  let scoredCandidates := bubbleSort scoredCandidates in
  Some (topCandidatesOrBody doc scoredCandidates nbTopCandidates, scores)
  end
  end.

(** ** The page classifier *)

Definition IsSemanticTag (h : Heap) (element : VElement) : bool :=
  let tagName := Strings.ToLower (TagName element) in
  if String.eqb tagName "main" || String.eqb tagName "article" then true
  else
    let className := Strings.ToLower (ClassName element) in
    let id := Strings.ToLower (ID element) in
    if Strings.Contains className "content" || Strings.Contains id "content"
    then true
    else
      existsb (fun child =>
                 match AsVElement h child with
                 | Some childElem =>
                     let childTagName := Strings.ToLower (TagName childElem) in
                     String.eqb childTagName "main"
                     || String.eqb childTagName "article"
                 | None => false
                 end) (Children element).

Definition is_digit (c : ascii) : bool :=
  let n := N_of_ascii c in ((48 <=? n) && (n <=? 57))%N.

Definition is_alpha (c : ascii) : bool :=
  let n := N_of_ascii c in
  (((65 <=? n) && (n <=? 90)) || ((97 <=? n) && (n <=? 122)))%N.

(** [^\d+$] *)
Definition digitOnlyPattern (s : string) : bool :=
  negb (String.eqb s "") && Strings.forallb is_digit s.

(** [^[a-zA-Z0-9-_]+$] *)
Definition alphaNumericPattern (s : string) : bool :=
  negb (String.eqb s "") &&
  Strings.forallb (fun c => is_alpha c || is_digit c
                            || Ascii.eqb c "-" || Ascii.eqb c "_")%char s.

(** [\d] *)
Definition hasDigitPattern (s : string) : bool := Strings.existsb is_digit s.

(** The text after [http://] or [https://], if [url] starts with one. *)
Definition after_scheme (url : string) : option string :=
  if Strings.HasPrefix url "https://"
  then Some (String.substring 8 (String.length url - 8) url)
  else if Strings.HasPrefix url "http://"
  then Some (String.substring 7 (String.length url - 7) url)
  else None.

(** [s] after its leading run of bytes other than [/]. *)
Fixpoint after_segment (s : string) : string :=
  match s with
  | EmptyString => EmptyString
  | String c s' => if Ascii.eqb c "/" then s else after_segment s'
  end.

Definition segment_then (s : string) (k : string -> bool) : bool :=
  negb (String.eqb (Strings.before_first "/" s) "") && k (after_segment s).

Definition optional_slash_end (s : string) : bool :=
  String.eqb s "" || String.eqb s "/".

(** [^https?://[^/]+/?$] *)
Definition topLevelPattern (url : string) : bool :=
  match after_scheme url with
  | Some rest => segment_then rest optional_slash_end
  | None => false
  end.

(** [^https?://[^/]+/[^/]+/?$] *)
Definition userPagePattern (url : string) : bool :=
  match after_scheme url with
  | Some rest =>
      segment_then rest (fun tail =>
        match tail with
        | String "/" tail' => segment_then tail' optional_slash_end
        | _ => false
        end)
  | None => false
  end.

Definition scoreOf (scores : Scores) (p : loc) : Q :=
  match scores !! p with
  | Some d => ContentScore d
  | None => 0%Q
  end.

(** The URL rules of [ClassifyPageType]: [Some] page type when one of them
    decides. *)
Definition classifyByUrl (fuel : nat) (h : Heap) (candidates : list loc)
    (charThreshold : Z) (url : string) : option (option PageType) :=
  if Strings.Contains url "/articles/" then
    Some (Some (if (0 <? Z.of_nat (length candidates))%Z
                then PageTypeArticle else PageTypeOther))
  else
    let lastPart := Strings.after_last "/" url in
    let lastPartWithoutExt := Strings.before_first "." lastPart in
    if digitOnlyPattern lastPartWithoutExt
       || (alphaNumericPattern lastPartWithoutExt
           && hasDigitPattern lastPartWithoutExt
           && (5 <=? Strings.len lastPartWithoutExt)%Z)
    then
      Some (Some (if (0 <? Z.of_nat (length candidates))%Z
                  then PageTypeArticle else PageTypeOther))
    else if topLevelPattern url || userPagePattern url then
      match candidates with
      | c0 :: _ =>
          textLength ← GetInnerText fuel h c0 false;
          if (wrap64 (charThreshold * 2) <? Strings.len textLength)%Z
          then
            linkDensity ← GetLinkDensity fuel h c0;
            if Qltb linkDensity (3 # 10) then Some (Some PageTypeArticle)
            else Some (Some PageTypeOther)
          else Some (Some PageTypeOther)
      | [] => Some (Some PageTypeOther)
      end
    else Some None.

Definition isCard (h : Heap) (child : loc) : bool :=
  match AsVElement h child with
  | Some childElem =>
      let className := Strings.ToLower (ClassName childElem) in
      Strings.Contains className "card"
      || Strings.Contains className "item"
      || Strings.Contains className "entry"
  | None => false
  end.

(** What section 1 of [ClassifyPageType] counts in the body. *)
Record pageCounts := mkPageCounts {
  headingCount : Z;
  imageCount : Z;
  linkCount : Z;
  listElementCount : Z
}.

(** Section 1, "page structure analysis". *)
Definition countStructure (fuel : nat) (h : Heap) (doc : VDocument)
  : option pageCounts :=
  h1Elements ← GetElementsByTagName fuel h (Body doc) "h1";
  h2Elements ← GetElementsByTagName fuel h (Body doc) "h2";
  h3Elements ← GetElementsByTagName fuel h (Body doc) "h3";
  let headingCount :=
    Z.of_nat (length h1Elements + length h2Elements + length h3Elements) in
  imgElements ← GetElementsByTagName fuel h (Body doc) "img";
  let imageCount := Z.of_nat (length imgElements) in
  aElements ← GetElementsByTagName fuel h (Body doc) "a";
  let linkCount := Z.of_nat (length aElements) in
  articleElements ← GetElementsByTagName fuel h (Body doc) "article";
  listItemElements ← GetElementsByTagName fuel h (Body doc) "li";
  body ← Body doc;
  bodyElem ← AsVElement h body;
  let cardElements := filter (fun c => isCard h c = true) (Children bodyElem) in
  let listElementCount :=
    Z.of_nat (length articleElements + length listItemElements
              + length cardElements) in
  Some (mkPageCounts headingCount imageCount linkCount listElementCount).

(** Section 2, the index page characteristics. *)
Definition hasIndexPageCharacteristics (n : pageCounts) : bool :=
  (10 <? listElementCount n)%Z
  || ((50 <? linkCount n)%Z && (20 <? imageCount n)%Z)
  || (10 <? headingCount n)%Z
  || (headingCount n =? 0)%Z.

(** Section 3, the semantic tag with its text length check: [Some] page
    type when it returns. *)
Definition semanticTagRule (fuel : nat) (h : Heap) (topCandidate : loc)
    (charThreshold : Z) (n : pageCounts) : option (option PageType) :=
  top ← AsVElement h topCandidate;
  let isSemanticTag := IsSemanticTag h top in
  if isSemanticTag then
    textLength ← GetInnerText fuel h topCandidate false;
    linkDensity ← GetLinkDensity fuel h topCandidate;
    if (Z.quot charThreshold 2 <=? Strings.len textLength)%Z
       && Qle_bool linkDensity (1 # 2)
    then
      if (10 <? listElementCount n)%Z then Some (Some PageTypeOther)
      else Some (Some PageTypeArticle)
    else if (Strings.len textLength <? 100)%Z
    then Some (Some PageTypeOther)
    else Some None
  else Some None.

(** Section 4, text length, link density and heading count. *)
Definition articleFeatures (charThreshold : Z) (textLength : string)
    (linkDensity : Q) (n : pageCounts) : bool :=
  (charThreshold <=? Strings.len textLength)%Z
  && Qle_bool linkDensity (1 # 2)
  && (1 <=? headingCount n)%Z && (headingCount n <=? 10)%Z.

(** [scoreRatio] of section 5: the float64 quotient of the two scores. *)
Definition scoreRatio (scores : Scores) (topCandidate second : loc) : Q :=
  let topScore := scoreOf scores topCandidate in
  let secondScore := scoreOf scores second in
  if Qltb 0 topScore then round64 (secondScore / topScore) else 1%Q.

(** [bodyLinkDensity] of section 5: the number of links over the length of
    the body text. *)
Definition bodyLinkDensity (n : pageCounts) (bodyTextLength : Z) : Q :=
  if (0 <? bodyTextLength)%Z
  then (float64 (linkCount n) / float64 bodyTextLength)%Q else 0%Q.

(** Section 5, the score difference of the candidates: does it return
    [PageTypeOther]? *)
Definition scoreParityRule (fuel : nat) (h : Heap) (scores : Scores)
    (doc : VDocument) (candidates : list loc) (linkDensity : Q)
    (n : pageCounts) : option bool :=
  match candidates with
  | topCandidate :: second :: _ =>
      if Qltb (round64 (8 # 10)) (scoreRatio scores topCandidate second) then
        body ← Body doc;
        bodyText ← GetInnerText fuel h body false;
        let bodyTextLength := Strings.len bodyText in
        Some (Qltb (25 # 100) (bodyLinkDensity n bodyTextLength)
              || Qltb (3 # 10) linkDensity)
      else Some false
  | _ => Some false
  end.

(** Sections 6 and 7, the link to text ratio and the final decision. *)
Definition finalRules (charThreshold : Z) (textLength : string)
    (linkDensity : Q) (bodyTextLength : Z) (n : pageCounts) : PageType :=
  if (30 <? linkCount n)%Z
     && (bodyTextLength <? int (float64 charThreshold * (3 # 2))%Q)%Z
  then PageTypeOther
  else if (140 <=? Strings.len textLength)%Z && Qle_bool linkDensity (1 # 2)
  then
    if (10 <? listElementCount n)%Z then PageTypeOther
    else PageTypeArticle
  else PageTypeOther.

(** The rules of [ClassifyPageType] after the URL rules. *)
Definition classifyByContent (fuel : nat) (h : Heap) (scores : Scores)
    (doc : VDocument) (candidates : list loc) (charThreshold : Z)
  : option PageType :=
  match candidates with
  | [] => Some PageTypeOther
  | topCandidate :: _ =>
      n ← countStructure fuel h doc;
      if hasIndexPageCharacteristics n then Some PageTypeOther
      else
        semantic ← semanticTagRule fuel h topCandidate charThreshold n;
        match semantic with
        | Some pageType => Some pageType
        | None =>
            textLength ← GetInnerText fuel h topCandidate false;
            linkDensity ← GetLinkDensity fuel h topCandidate;
            if articleFeatures charThreshold textLength linkDensity n
            then Some PageTypeArticle
            else
              balanced ← scoreParityRule fuel h scores doc candidates
                           linkDensity n;
              if balanced : bool then Some PageTypeOther
              else
                body ← Body doc;
                bodyText ← GetInnerText fuel h body false;
                Some (finalRules charThreshold textLength linkDensity
                        (Strings.len bodyText) n)
        end
  end.

Definition ClassifyPageType (fuel : nat) (h : Heap) (scores : Scores)
    (doc : VDocument) (candidates : list loc) (charThreshold : Z)
    (url : string) : option PageType :=
  let charThreshold :=
    if (charThreshold <=? 0)%Z then DefaultCharThreshold else charThreshold in
  byUrl ←
    (if negb (String.eqb url "")
     then classifyByUrl fuel h candidates charThreshold url
     else Some None);
  match byUrl with
  | Some pageType => Some pageType
  | None => classifyByContent fuel h scores doc candidates charThreshold
  end.

(** ** core.go: structural elements *)

Definition IsProbablyVisible (node : VElement) : bool :=
  let style := GetAttribute node "style" in
  let hidden := HasAttribute node "hidden" in
  let ariaHidden := String.eqb (GetAttribute node "aria-hidden") "true" in
  negb (Strings.Contains style "display: none"
        || Strings.Contains style "visibility: hidden"
        || hidden || ariaHidden).

Definition IsSignificantNode (node : VElement) : bool :=
  let tagName := Strings.ToLower (TagName node) in
  if in_list tagName ["header"; "footer"; "main"; "article"; "aside"; "nav"]
  then true
  else
    let role := Strings.ToLower (GetAttribute node "role") in
    if in_list role ["banner"; "contentinfo"; "main"; "navigation";
                     "complementary"]
    then true
    else
      let className := Strings.ToLower (ClassName node) in
      let id := Strings.ToLower (ID node) in
      existsb (fun pattern =>
                 Strings.Contains className pattern
                 || Strings.Contains id pattern)
        [ "header"; "footer"; "main"; "content"; "article"; "navigation";
          "nav"; "sidebar"; "menu"; "banner"; "mainContent"; "mainContainer" ].

Definition significantPatterns : list string :=
  [ "content"; "main"; "article"; "post"; "entry"; "body"; "text"; "story";
    "container"; "wrapper"; "page"; "blog"; "section" ].

Definition AddSignificantElementsByClassOrId (fuel : nat) (h : Heap)
    (body : option loc) (potentialNodes : list loc) : option (list loc) :=
  allElements ← GetElementsByTagName fuel h body "*";
  forEach (fun potentialNodes el =>
             e ← AsVElement h el;
             let className := Strings.ToLower (ClassName e) in
             let id := Strings.ToLower (ID e) in
             let combinedString := className +:+ " " +:+ id in
             if existsb (Strings.Contains combinedString) significantPatterns
             then
               if bool_decide (el ∈ potentialNodes) then Some potentialNodes
               else Some (potentialNodes ++ [el])
             else Some potentialNodes)
    potentialNodes allElements.

(** [for current != nil && current != body]: is one of [targets] met on the
    way up from [current]? *)
Fixpoint isInside (fuel : nat) (h : Heap) (body : option loc)
    (targets : list (option loc)) (current : option loc) : option bool :=
  match current with
  | None => Some false
  | Some c =>
      if bool_decide (current = body) then Some false
      else if bool_decide (current ∈ targets) then Some true
      else
        match fuel with
        | O => None
        | S fuel' =>
            e ← AsVElement h c;
            isInside fuel' h body targets (parent e)
        end
  end.

Definition isHeaderLike (e : VElement) : bool :=
  let role := Strings.ToLower (GetAttribute e "role") in
  let id := Strings.ToLower (ID e) in
  let className := Strings.ToLower (ClassName e) in
  String.eqb role "banner" || String.eqb id "header"
  || String.eqb id "masthead" || Strings.Contains className "header"
  || Strings.Contains className "masthead".

Definition isFooterLike (e : VElement) : bool :=
  let role := Strings.ToLower (GetAttribute e "role") in
  let id := Strings.ToLower (ID e) in
  let className := Strings.ToLower (ClassName e) in
  String.eqb role "contentinfo" || String.eqb id "footer"
  || String.eqb id "colophon" || Strings.Contains className "footer"
  || Strings.Contains className "site-info".

Definition findHeader (fuel : nat) (h : Heap) (doc : VDocument)
  : option (option loc) :=
  headerTags ← GetElementsByTagName fuel h (DocumentElement doc) "header";
  match headerTags with
  | [x] => Some (Some x)
  | _ =>
      allElements ← GetElementsByTagName fuel h (Body doc) "*";
      forEach (fun header el =>
                 e ← AsVElement h el;
                 if isHeaderLike e then
                   match header with
                   | None => Some (Some el)
                   | Some hd =>
                       if bool_decide (parent e = Body doc)
                          && negb (bool_decide (Parent h hd = Body doc))
                       then Some (Some el) else Some header
                   end
                 else Some header)
        None allElements
  end.

Definition findFooter (fuel : nat) (h : Heap) (doc : VDocument)
    (header : option loc) : option (option loc) :=
  footerTags ← GetElementsByTagName fuel h (DocumentElement doc) "footer";
  match footerTags with
  | [x] => Some (Some x)
  | _ =>
      allElements ← GetElementsByTagName fuel h (Body doc) "*";
      forEach (fun footer el =>
                 e ← AsVElement h el;
                 if isFooterLike e then
                   match footer with
                   | None =>
                       isInsideHeader ←
                         isInside fuel h (Body doc) [header] (Some el);
                       if isInsideHeader : bool then Some footer
                       else Some (Some el)
                   | Some _ => Some footer
                   end
                 else Some footer)
        None (rev allElements)
  end.

Definition FindStructuralElements (fuel : nat) (h : Heap) (doc : VDocument)
  : option (option loc * option loc * list loc) :=
  let body := Body doc in
  header ← findHeader fuel h doc;
  footer ← findFooter fuel h doc header;
  mainTags ← GetElementsByTagName fuel h body "main";
  articleTags ← GetElementsByTagName fuel h body "article";
  sectionTags ← GetElementsByTagName fuel h body "section";
  asideTags ← GetElementsByTagName fuel h body "aside";
  navTags ← GetElementsByTagName fuel h body "nav";
  let potentialNodes :=
    mainTags ++ articleTags ++ sectionTags ++ asideTags ++ navTags in
  potentialNodes ← AddSignificantElementsByClassOrId fuel h body potentialNodes;
  otherSignificantNodes ←
    forEach (fun otherSignificantNodes node =>
               isInsideHeaderOrFooter ←
                 isInside fuel h body [header; footer] (Some node);
               let alreadyIncluded :=
                 bool_decide (node ∈ otherSignificantNodes) in
               if negb isInsideHeaderOrFooter && negb alreadyIncluded then
                 e ← AsVElement h node;
                 if IsProbablyVisible e
                    && (IsSignificantNode e || IsSemanticTag h e)
                 then Some (otherSignificantNodes ++ [node])
                 else Some otherSignificantNodes
               else Some otherSignificantNodes)
      [] potentialNodes;
  Some (header, footer, otherSignificantNodes).

(** ** format.go: CountNodes *)

Fixpoint countChildren (rec : loc -> option Z) (h : Heap) (children : list loc)
    (count : Z) : option Z :=
  match children with
  | [] => Some count
  | child :: rest =>
      match AsVElement h child with
      | Some _ => n ← rec child; countChildren rec h rest (count + n)
      | None => countChildren rec h rest (count + 1)
      end
  end.

Fixpoint CountNodes_elem (fuel : nat) (h : Heap) (element : loc) : option Z :=
  match fuel with
  | O => None
  | S fuel' =>
      e ← AsVElement h element;
      countChildren (CountNodes_elem fuel' h) h (Children e) 1
  end.

Definition CountNodes (fuel : nat) (h : Heap) (element : option loc)
  : option Z :=
  match element with
  | None => Some 0%Z
  | Some p => CountNodes_elem fuel h p
  end.

(** ** core.go: ExtractContent and Extract *)

Definition ExtractContent (X : Collaborators) (R : Regexps) (fuel : nat)
    (h : Heap) (scores : Scores) (doc : VDocument)
    (options : ReadabilityOptions) : option (ReadabilityArticle * Scores) :=
  let charThreshold :=
    if (CharThreshold options <=? 0)%Z then DefaultCharThreshold
    else CharThreshold options in
  let nbTopCandidates :=
    if (NbTopCandidates options <=? 0)%Z then DefaultNTopCandidates
    else NbTopCandidates options in
  '(candidates, scores) ← FindMainCandidates R fuel h scores doc nbTopCandidates;
  articleContent ←
    match candidates with
    | topCandidate :: _ =>
        text ← GetInnerText fuel h topCandidate false;
        let textLength := Strings.len text in
        linkDensity ← GetLinkDensity fuel h topCandidate;
        if (charThreshold <=? textLength)%Z && Qle_bool linkDensity (1 # 2)
        then Some (Some topCandidate) else Some None
    | [] => Some None
    end;
  pageType ←
    (if String.eqb (ForcedPageType options) "" then
       match articleContent with
       | Some _ => Some PageTypeArticle
       | None => ClassifyPageType fuel h scores doc candidates charThreshold ""
       end
     else Some (ForcedPageType options));
  let title := GetArticleTitle X h doc in
  let byline := GetArticleByline X h doc in
  '(header, footer, otherSignificantNodes) ←
    (if String.eqb pageType PageTypeArticle
        && bool_decide (articleContent = None)
     then FindStructuralElements fuel h doc
     else Some (None, None, []));
  nodeCount ← CountNodes fuel h articleContent;
  Some (mkReadabilityArticle title byline articleContent nodeCount pageType
          header footer otherSignificantNodes, scores).

(** [Extract] returns the article or the parser's error; a parsed document
    starts with no readability data. *)
Definition Extract (X : Collaborators) (R : Regexps) (fuel : nat)
    (html : string) (options : ReadabilityOptions)
  : option (ReadabilityArticle + string) :=
  match ParseHTML X html "" with
  | inr err => Some (inr err)
  | inl (doc, h) =>
      h ← PreprocessDocument fuel doc h;
      let options :=
        if (CharThreshold options <=? 0)%Z
        then mkReadabilityOptions DefaultCharThreshold (NbTopCandidates options)
               (GenerateAriaTree options) (ForcedPageType options)
        else options in
      let options :=
        if (NbTopCandidates options <=? 0)%Z
        then mkReadabilityOptions (CharThreshold options) DefaultNTopCandidates
               (GenerateAriaTree options) (ForcedPageType options)
        else options in
      let options :=
        if String.eqb (ForcedPageType options) ""
        then mkReadabilityOptions (CharThreshold options)
               (NbTopCandidates options) (GenerateAriaTree options)
               PageTypeArticle
        else options in
      r ← ExtractContent X R fuel h ∅ doc options;
      Some (inl (fst r))
  end.

(** ** Shape of the object graph *)

(** [l'] is [l] with some element nodes cut out, the rest in the same order. *)
Definition children_cut (h : Heap) (l' l : list loc) : Prop :=
  l' `sublist_of` l /\
  forall c, c ∈ l -> c ∉ l' -> is_Some (AsVElement h c).

(** What a node may become when subtrees are unlinked: a text node stays as
    it is, an element keeps its parent pointer, tag name and attributes and
    loses some element children. *)
Definition node_cut (h : Heap) (n n' : option VNode) : Prop :=
  match n, n' with
  | None, None => True
  | Some (TextNode t), Some (TextNode t') => t' = t
  | Some (ElementNode e), Some (ElementNode e') =>
      parent e' = parent e /\ TagName e' = TagName e /\
      Attributes e' = Attributes e /\
      children_cut h (Children e') (Children e)
  | _, _ => False
  end.

(** [h'] is [h] after unlinking element subtrees. *)
Definition unlinks_only (h h' : Heap) : Prop :=
  forall p, node_cut h (h !! p) (h' !! p).

Definition node_NoDup (n : VNode) : Prop :=
  match n with
  | ElementNode e => NoDup (Children e)
  | TextNode _ => True
  end.

(** No element is listed twice in its container. *)
Definition NoDupChildren (h : Heap) : Prop :=
  forall p e, AsVElement h p = Some e -> NoDup (Children e).

(** The element at [p] is not in the child list of the element its parent
    pointer names. *)
Definition unlinked (h : Heap) (p : loc) : Prop :=
  forall q qe, Parent h p = Some q -> AsVElement h q = Some qe ->
    p ∉ Children qe.

(** The walk over the subtree of [root] completes within recursion depth
    [fuel]. *)
Definition traversable (fuel : nat) (h : Heap) (root : option loc) : Prop :=
  is_Some (GetElementsByTagName fuel h root "*").

(** Every element with tag [tagName] that the walk from the document element
    finds is already unlinked, now and after further unlinking. *)
Definition tag_removed (fuel : nat) (doc : VDocument) (h : Heap)
    (tagName : string) : Prop :=
  forall h', unlinks_only h h' ->
  forall l, GetElementsByTagName fuel h' (DocumentElement doc) tagName = Some l ->
  Forall (unlinked h') l.

(** [removeAds] has nothing to do at [p]: if it is an ad, it is unlinked. *)
Definition ad_removed (h : Heap) (p : loc) : Prop :=
  forall e, AsVElement h p = Some e -> isLikelyAd e = true -> unlinked h p.

(** The element at [p] has tag name [tagName]. *)
Definition hasTag (h : Heap) (tagName : string) (p : loc) : bool :=
  match AsVElement h p with
  | Some e => String.eqb tagName (TagName e)
  | None => false
  end.

Definition is_elem (h : Heap) (p : loc) : Prop := is_Some (AsVElement h p).

(** Every element of the graph heads a subtree that the walk covers within
    recursion depth [fuel], and its chain of parent pointers ends, through
    elements only, in fewer than [fuel] steps. *)
Definition node_ok (fuel : nat) (h : Heap) (p : loc) (n : VNode) : Prop :=
  match n with
  | TextNode _ => True
  | ElementNode _ =>
      is_Some (getElementsByTagNameInternal fuel h p ["*"]) /\
      is_Some (GetNodeAncestors_loop fuel h (Some p) 0 0)
  end.

Definition WellFormed (fuel : nat) (h : Heap) : Prop :=
  map_Forall (node_ok fuel h) h.

(** ** Example data *)

Definition mkElement (parent : option loc) (tagName : string)
    (attrs : list (string * string)) (children : list loc) : VNode :=
  ElementNode (mkVElement parent tagName (list_to_map attrs) children).

Definition mkText (parent : loc) (content : string) : VNode :=
  TextNode (mkVText (Some parent) content).

Definition defaultOptions : ReadabilityOptions :=
  mkReadabilityOptions 500 5 false "".

(** [<html><body></body></html>] *)
Definition emptyBodyHeap : Heap :=
  list_to_map
    [ (1%positive, mkElement None "html" [] [2%positive]);
      (2%positive, mkElement (Some 1%positive) "body" [] []) ].

Definition emptyBodyDoc : VDocument :=
  mkVDocument (Some 1%positive) (Some 2%positive) "" "".

(** ** The scoring loop *)

(** The score an element starts from when it is initialized. *)
Definition initialScore (R : Regexps) (e : VElement) : Q :=
  (tagScore 0 (TagName e) + GetClassWeight R e)%Q.

(** What the scoring loop keeps true of its state, from the store [scores0]
    it started with: [candidates] lists, without repetition, the elements
    that had no score at the start and have one now. *)
Definition scoring_inv (h : Heap) (scores0 : Scores)
    (st : Scores * list loc) : Prop :=
  NoDup (snd st) /\
  Forall (is_elem h) (snd st) /\
  (forall a, is_Some (fst st !! a) <->
             (is_Some (scores0 !! a) \/ a ∈ snd st)) /\
  forall a, a ∈ snd st -> scores0 !! a = None.


(** ** More example documents *)

Fixpoint Repeat (s : string) (count : nat) : string :=
  match count with
  | O => ""
  | S n => s +:+ Repeat s n
  end.

(** [<html><body><article><p>An article ...</p></article></body></html>] *)
Definition articleHeap : Heap :=
  list_to_map
    [ (1%positive, mkElement None "html" [] [2%positive]);
      (2%positive, mkElement (Some 1%positive) "body" [] [3%positive]);
      (3%positive, mkElement (Some 2%positive) "article" [] [4%positive]);
      (4%positive, mkElement (Some 3%positive) "p" [] [5%positive]);
      (5%positive, mkText 4%positive
         "This is an article with enough text to be considered.") ].

Definition articleDoc : VDocument :=
  mkVDocument (Some 1%positive) (Some 2%positive) "" "".

(** A body with a [div class="content"] and a [div class="sidebar"], each
    holding one paragraph. *)
Definition twoDivsHeap : Heap :=
  list_to_map
    [ (1%positive, mkElement None "html" [] [2%positive]);
      (2%positive, mkElement (Some 1%positive) "body" []
                     [3%positive; 6%positive]);
      (3%positive, mkElement (Some 2%positive) "div" [("class", "content")]
                     [4%positive]);
      (4%positive, mkElement (Some 3%positive) "p" [] [5%positive]);
      (5%positive, mkText 4%positive
         "This is a paragraph with enough text to be considered. It has commas, and more text.");
      (6%positive, mkElement (Some 2%positive) "div" [("class", "sidebar")]
                     [7%positive]);
      (7%positive, mkElement (Some 6%positive) "p" [] [8%positive]);
      (8%positive, mkText 7%positive
         "This is another paragraph with enough text to be considered.") ].

Definition twoDivsDoc : VDocument :=
  mkVDocument (Some 1%positive) (Some 2%positive) "" "".

(** A body with a [nav], a [div class="promo-box"] and a paragraph. *)
Definition noisyHeap : Heap :=
  list_to_map
    [ (1%positive, mkElement None "html" [] [2%positive]);
      (2%positive, mkElement (Some 1%positive) "body" []
                     [3%positive; 5%positive; 7%positive]);
      (3%positive, mkElement (Some 2%positive) "nav" [] [4%positive]);
      (4%positive, mkText 3%positive "menu");
      (5%positive, mkElement (Some 2%positive) "div" [("class", "promo-box")]
                     [6%positive]);
      (6%positive, mkText 5%positive "buy");
      (7%positive, mkElement (Some 2%positive) "p" [] [8%positive]);
      (8%positive, mkText 7%positive "hello") ].

Definition noisyDoc : VDocument :=
  mkVDocument (Some 1%positive) (Some 2%positive) "" "".

(** A body with a heading that is one long link and two plain blocks of
    text: [<h2><a>...</a></h2><div><p>...</p></div><div><p>...</p></div>]. *)
Definition linkHeadingHeap : Heap :=
  list_to_map
    [ (1%positive, mkElement None "html" [] [2%positive]);
      (2%positive, mkElement (Some 1%positive) "body" []
                     [3%positive; 6%positive; 9%positive]);
      (3%positive, mkElement (Some 2%positive) "h2" [] [4%positive]);
      (4%positive, mkElement (Some 3%positive) "a" [("href", "/next")]
                     [5%positive]);
      (5%positive, mkText 4%positive (Repeat "link " 30));
      (6%positive, mkElement (Some 2%positive) "div" [] [7%positive]);
      (7%positive, mkElement (Some 6%positive) "p" [] [8%positive]);
      (8%positive, mkText 7%positive (Repeat "word " 30));
      (9%positive, mkElement (Some 2%positive) "div" [] [10%positive]);
      (10%positive, mkElement (Some 9%positive) "p" [] [11%positive]);
      (11%positive, mkText 10%positive (Repeat "text " 6)) ].

Definition linkHeadingDoc : VDocument :=
  mkVDocument (Some 1%positive) (Some 2%positive) "" "".

(** The two blocks as candidates, with scores 10 and 9. *)
Definition linkHeadingCandidates : list loc := [6%positive; 9%positive].

Definition linkHeadingScores : Scores :=
  list_to_map [ (6%positive, mkReadabilityData 10);
                (9%positive, mkReadabilityData 9) ].

(** The weight of one attribute value in the words of the specification:
    nothing for an absent or empty value, otherwise -25 for a negative match
    plus +25 for a positive match. *)
Definition attributeWeight_spec (R : Regexps) (value : string) : Q :=
  if String.eqb value "" then 0%Q
  else ((if Negative R value then - (25) else 0)
        + (if Positive R value then 25 else 0))%Q.

(** An element whose [class] and [id] are both [value]. *)
Definition elementWithClassAndId (value : string) : VElement :=
  mkVElement None "div" (<["class" := value]> (<["id" := value]> ∅)) [].

(** Collaborators for the examples: a parser that knows one page, the empty
    body, and no metadata. *)
Definition exampleCollaborators : Collaborators :=
  mkCollaborators
    (fun html _ =>
       if String.eqb html "<html><body></body></html>"
       then inl (emptyBodyDoc, emptyBodyHeap)
       else inr "unsupported page")
    (fun _ _ => "")
    (fun _ _ => "").

(** The elements of the slice [scoredCandidates] are elements of the graph. *)
Definition scored_elems (h : Heap) (st : Scores * list scoredCandidate) : Prop :=
  Forall (fun sc => is_elem h (element sc)) (snd st).

(** ** Deciding the shape predicates on a given graph *)

#[global] Instance node_ok_dec fuel h p n : Decision (node_ok fuel h p n).
Proof. destruct n; simpl; apply _. Defined.

#[global] Instance WellFormed_dec fuel h : Decision (WellFormed fuel h).
Proof. unfold WellFormed. apply _. Defined.

#[global] Instance node_NoDup_dec n : Decision (node_NoDup n).
Proof. destruct n; simpl; apply _. Defined.


(** ** internal/dom/dom_utils.go: the remaining queries *)

Definition GetElementsByTagNames (fuel : nat) (h : Heap) (element : option loc)
    (tagNames : list string) : option (list loc) :=
  let lowerTagNames := map Strings.ToLower tagNames in
  element ← element;
  getElementsByTagNameInternal fuel h element lowerTagNames.

(** The loop of [HasAncestorTag]; [depth] counts the ancestors visited. *)
Fixpoint HasAncestorTag_loop (fuel : nat) (h : Heap) (currentNode : option loc)
    (tagName : string) (maxDepth depth : Z) : option bool :=
  match currentNode with
  | None => Some false
  | Some cur =>
      if (0 <? maxDepth)%Z && (maxDepth <=? depth)%Z then Some false
      else
        match fuel with
        | O => None
        | S fuel' =>
            e ← AsVElement h cur;
            if String.eqb (TagName e) tagName then Some true
            else HasAncestorTag_loop fuel' h (parent e) tagName maxDepth
                   (depth + 1)
        end
  end.

Definition HasAncestorTag (fuel : nat) (h : Heap) (node : loc)
    (tagName : string) (maxDepth : Z) : option bool :=
  let tagName := Strings.ToLower tagName in
  match h !! node with
  | Some (ElementNode element) =>
      HasAncestorTag_loop fuel h (parent element) tagName maxDepth 0
  | Some (TextNode text) =>
      HasAncestorTag_loop fuel h (text_parent text) tagName maxDepth 0
  | None => Some false
  end.

(** ** internal/dom/vnode.go: building the graph *)

(** [&VText{...}] and [&VElement{...}] allocate: the new object lives at a
    location the graph does not use yet. *)
Definition alloc (h : Heap) : loc := fresh (dom h).

Definition NewVText (h : Heap) (textContent : string) : loc * Heap :=
  let p := alloc h in
  (p, <[p := TextNode (mkVText None textContent)]> h).

Definition NewVElement (h : Heap) (tagName : string) : loc * Heap :=
  let p := alloc h in
  (p, <[p := ElementNode (mkVElement None tagName ∅ [])]> h).

Definition CreateElement (h : Heap) (tagName : string) : loc * Heap :=
  NewVElement h (Strings.ToLower tagName).

Definition CreateTextNode (h : Heap) (content : string) : loc * Heap :=
  NewVText h content.

(** [node.SetParent(parent)]; a nil [node] panics. *)
Definition SetParent (h : Heap) (node : loc) (newParent : option loc)
  : option Heap :=
  match h !! node with
  | Some (TextNode t) =>
      Some (<[node := TextNode (mkVText newParent (TextContent t))]> h)
  | Some (ElementNode e) =>
      Some (<[node := ElementNode (mkVElement newParent (TagName e)
                                     (Attributes e) (Children e))]> h)
  | None => None
  end.

(** [e.AppendChild(child)]: the parent pointer of [child] is written first,
    then [child] is appended to [e.Children]. *)
Definition AppendChild (h : Heap) (e child : loc) : option Heap :=
  h ← SetParent h child (Some e);
  pe ← AsVElement h e;
  Some (<[e := ElementNode (setChildren pe (Children pe ++ [child]))]> h).

(** [e.SetAttribute(name, value)] *)
Definition SetAttribute (h : Heap) (e : loc) (name value : string)
  : option Heap :=
  pe ← AsVElement h e;
  Some (<[e := ElementNode (mkVElement (parent pe) (TagName pe)
                              (<[name := value]> (Attributes pe))
                              (Children pe))]> h).

Definition NewVDocument (documentElement body : option loc) : VDocument :=
  mkVDocument documentElement body "" "".

(** ** preprocess.go: isVisible *)

Definition isVisible (element : VElement) : bool :=
  let style := GetAttribute element "style" in
  if Strings.Contains style "display: none"
     || Strings.Contains style "visibility: hidden"
     || Strings.Contains style "opacity: 0"
  then false
  else if HasAttribute element "hidden" then false
  else if String.eqb (GetAttribute element "aria-hidden") "true" then false
  else true.

(** ** types: DefaultOptions and GetContentByPageType *)

Definition DefaultOptions : ReadabilityOptions :=
  mkReadabilityOptions 500 5 false "".

(** [ArticleContent] and [OtherContent], the two values that
    [GetContentByPageType] returns as [interface{}]; [A] is the type of the
    ARIA tree. *)
Inductive Content (A : Type) :=
| ArticleContent (title byline : string) (root : option loc)
| OtherContent (title : string) (header footer : option loc)
    (otherSignificantNodes : list loc) (ariaTree : option A).

Arguments ArticleContent {A} title byline root.
Arguments OtherContent {A} title header footer otherSignificantNodes ariaTree.

(** The [AriaTree] field of the article, which the record above leaves out,
    is passed beside it. *)
Definition GetContentByPageType {A : Type} (r : ReadabilityArticle)
    (ariaTree : option A) : Content A :=
  if String.eqb (PageType_ r) PageTypeArticle
  then ArticleContent (Title r) (Byline r) (Root r)
  else OtherContent (Title r) (Header r) (Footer r)
         (OtherSignificantNodes r) ariaTree.

(** ** The page classifier: GetExpectedPageTypeByUrl *)

(** [[^/]*$] *)
Definition no_slash_end (s : string) : bool :=
  negb (Strings.Contains s "/").

Definition slash_then (s : string) (k : string -> bool) : bool :=
  match s with
  | String "/" s' => k s'
  | _ => false
  end.

(** [^https?://[^/]+/[^/]+/[^/]+/[^/]*$] *)
Definition threeDepthPattern (url : string) : bool :=
  match after_scheme url with
  | Some rest =>
      segment_then rest (fun s => slash_then s (fun s =>
      segment_then s (fun s => slash_then s (fun s =>
      segment_then s (fun s => slash_then s no_slash_end)))))
  | None => false
  end.

Definition GetExpectedPageTypeByUrl (url : string) : PageType :=
  if Strings.Contains url "/articles/" then PageTypeArticle
  else if threeDepthPattern url then PageTypeArticle
  else
    let lastPart := Strings.after_last "/" url in
    let lastPartWithoutExt := Strings.before_first "." lastPart in
    if digitOnlyPattern lastPartWithoutExt
       || (alphaNumericPattern lastPartWithoutExt
           && hasDigitPattern lastPartWithoutExt
           && (5 <=? Strings.len lastPartWithoutExt)%Z)
    then PageTypeArticle
    else PageTypeOther.

(** ** More shape predicates *)

Definition node_parents (h : Heap) (q : loc) (n : VNode) : Prop :=
  match n with
  | ElementNode qe =>
      Forall (fun c => match AsVElement h c with
                       | Some ce => parent ce = Some q
                       | None => True
                       end) (Children qe)
  | TextNode _ => True
  end.

(** Every element listed in a container names that container as its
    parent. *)
Definition ParentConsistent (h : Heap) : Prop :=
  map_Forall (node_parents h) h.

#[global] Instance node_parents_dec h q n : Decision (node_parents h q n).
Proof.
  destruct n as [t|qe]; simpl; [apply _|].
  apply Forall_dec. intros c. destruct (AsVElement h c); apply _.
Defined.

#[global] Instance ParentConsistent_dec h : Decision (ParentConsistent h).
Proof. unfold ParentConsistent. apply _. Defined.

(** No two adjacent bytes of [s] are both whitespace of the class [\s]. *)
Fixpoint no_space_run (s : string) : bool :=
  match s with
  | String a ((String b _) as s') =>
      negb (Strings.re_space a && Strings.re_space b) && no_space_run s'
  | _ => true
  end.

(** The scores of a slice of candidates, in order. *)
Definition scoresOf (s : list scoredCandidate) : list Q := map score s.

(** [l] is in descending order: no element is smaller than a later one. *)
Fixpoint descending (l : list Q) : Prop :=
  match l with
  | [] => True
  | x :: l' => Forall (fun y => (y <= x)%Q) l' /\ descending l'
  end.

(** [l] is a chain of parent pointers that starts at [first]. *)
Fixpoint parent_chain (h : Heap) (first : option loc) (l : list loc) : Prop :=
  match l with
  | [] => True
  | a :: l' =>
      first = Some a /\ exists e, AsVElement h a = Some e /\
      parent_chain h (parent e) l'
  end.

(** [s] does not start with a white space rune. *)
Definition head_ok (s : string) : Prop :=
  match s with
  | EmptyString => True
  | String a s1 =>
      Strings.IsSpace a = false /\
      match s1 with
      | EmptyString => True
      | String b s2 =>
          Strings.IsSpace2 a b = false /\
          match s2 with
          | EmptyString => True
          | String c _ => Strings.IsSpace3 a b c = false
          end
      end
  end.

(** [r] is a string reversed that does not end with a white space rune. *)
Definition last_ok_rev (r : string) : Prop :=
  match r with
  | EmptyString => True
  | String c r1 =>
      Strings.IsSpace c = false /\
      match r1 with
      | EmptyString => True
      | String b r2 =>
          Strings.IsSpace2 b c = false /\
          match r2 with
          | EmptyString => True
          | String a _ => Strings.IsSpace3 a b c = false
          end
      end
  end.

(** [s] does not end with a white space rune. *)
Definition last_ok (s : string) : Prop := last_ok_rev (String.rev s).

(** The element at [c] is one the preprocessor looks for: it has a tag of
    [tagsToRemove] or looks like an ad. *)
Definition isNoise (h : Heap) (c : loc) : bool :=
  match AsVElement h c with
  | Some ce => in_list (TagName ce) tagsToRemove || isLikelyAd ce
  | None => false
  end.

(** Every entry of a child list of [h] that is not noise is still in that
    child list in [h']. *)
Definition keeps_clean (h h' : Heap) : Prop :=
  forall q qe c, AsVElement h q = Some qe -> c ∈ Children qe ->
    isNoise h c = false ->
    exists qe', AsVElement h' q = Some qe' /\ c ∈ Children qe'.

(** [<html><body class="shopping-page"><p>hello</p></body></html>] *)
Definition adBodyHeap : Heap :=
  list_to_map
    [ (1%positive, mkElement None "html" [] [2%positive]);
      (2%positive, mkElement (Some 1%positive) "body"
                     [("class", "shopping-page")] [3%positive]);
      (3%positive, mkElement (Some 2%positive) "p" [] [4%positive]);
      (4%positive, mkText 3%positive "hello") ].

Definition adBodyDoc : VDocument :=
  mkVDocument (Some 1%positive) (Some 2%positive) "" "".

(** The number of entries in the child list of the element at [p] that are
    not elements: its text nodes, and entries the graph does not map. *)
Definition nonElementChildren (h : Heap) (p : loc) : Z :=
  match AsVElement h p with
  | Some e =>
      Z.of_nat (length (filter (fun c => AsVElement h c = None) (Children e)))
  | None => 0
  end.

Definition sumZ (l : list Z) : Z := foldr Z.add 0%Z l.

(** ** internal/parser/parser.go: from the parsed HTML to the object graph *)

#[local] Set Warnings "-register-all".

(** [html.NodeType] of golang.org/x/net/html. *)
Inductive NodeType :=
| html_ErrorNode
| html_TextNode
| html_DocumentNode
| html_ElementNode
| html_CommentNode
| html_DoctypeNode
| html_RawNode.

(** [html.Node] as [html.Parse] returns it: a finite tree.  [FirstChild] and
    [NextSibling] are given as the list of children, and of every attribute
    the key and the value are kept. *)
Inductive HtmlNode :=
| mkHtmlNode (Type_ : NodeType) (Data : string)
    (Attr : list (string * string)) (childNodes : list HtmlNode).

Definition html_Type (n : HtmlNode) : NodeType :=
  match n with mkHtmlNode ty _ _ _ => ty end.

Definition html_Data (n : HtmlNode) : string :=
  match n with mkHtmlNode _ data _ _ => data end.

Definition html_Attr (n : HtmlNode) : list (string * string) :=
  match n with mkHtmlNode _ _ attr _ => attr end.

Definition html_children (n : HtmlNode) : list HtmlNode :=
  match n with mkHtmlNode _ _ _ cs => cs end.

(** The helper [findNodes] of [ParseHTML]: the last [html] element and the
    last [body] element in document order. *)
Fixpoint findNodes (n : HtmlNode)
    (found : option HtmlNode * option HtmlNode)
  : option HtmlNode * option HtmlNode :=
  match n with
  | mkHtmlNode ty data _ cs =>
      let found :=
        match ty with
        | html_ElementNode =>
            if String.eqb (Strings.ToLower data) "html"
            then (Some n, snd found)
            else if String.eqb (Strings.ToLower data) "body"
            then (fst found, Some n)
            else found
        | _ => found
        end in
      (fix children (cs : list HtmlNode)
           (found : option HtmlNode * option HtmlNode) :=
         match cs with
         | [] => found
         | c :: cs' => children cs' (findNodes c found)
         end) cs found
  end.

Definition setAttributes (h : Heap) (element : loc)
    (attr : list (string * string)) : option Heap :=
  forEach (fun h a => SetAttribute h element (fst a) (snd a)) h attr.

Fixpoint processNode (node : HtmlNode) (parentElement : loc) (h : Heap)
  : option Heap :=
  match node with
  | mkHtmlNode ty data attr cs =>
      let children :=
        fix children (cs : list HtmlNode) (parentElement : loc) (h : Heap)
          : option Heap :=
          match cs with
          | [] => Some h
          | c :: cs' =>
              h ← processNode c parentElement h;
              children cs' parentElement h
          end in
      match ty with
      | html_ElementNode =>
          let '(element, h) := NewVElement h (Strings.ToLower data) in
          h ← setAttributes h element attr;
          h ← AppendChild h parentElement element;
          children cs element h
      | html_TextNode =>
          let '(text, h) := NewVText h data in
          AppendChild h parentElement text
      | html_DocumentNode => children cs parentElement h
      | _ => Some h
      end
  end.

(** [for child := n.FirstChild; child != nil; child = child.NextSibling
    { processNode(child, parent) }] *)
Definition processChildren (n : HtmlNode) (parentElement : loc) (h : Heap)
  : option Heap :=
  forEach (fun h c => processNode c parentElement h) h (html_children n).

(** The first child of [htmlElement] that is an element with tag [body]. *)
Definition findBodyElement (h : Heap) (children : list loc) : option loc :=
  List.find (fun child =>
               match AsVElement h child with
               | Some element => String.eqb (TagName element) "body"
               | None => false
               end) children.

(** [ParseHTML] after [html.Parse] has returned the tree [doc]. *)
Definition convertDocument (doc : HtmlNode) (baseURI : string)
  : option (VDocument * Heap) :=
  let '(htmlNode, bodyNode) := findNodes doc (None, None) in
  let '(htmlElement, h) := NewVElement ∅ "html" in
  '(h, bodyElement) ←
    match htmlNode with
    | Some hn =>
        h ← processChildren hn htmlElement h;
        e ← AsVElement h htmlElement;
        Some (h, findBodyElement h (Children e))
    | None =>
        h ← processChildren doc htmlElement h;
        Some (h, None)
    end;
  '(h, bodyElement) ←
    match bodyElement with
    | Some b => Some (h, b)
    | None =>
        let '(b, h) := NewVElement h "body" in
        h ← match bodyNode with
            | Some bn => processChildren bn b h
            | None => Some h
            end;
        h ← AppendChild h htmlElement b;
        Some (h, b)
    end;
  let vdoc := NewVDocument (Some htmlElement) (Some bodyElement) in
  Some (mkVDocument (DocumentElement vdoc) (Body vdoc) baseURI baseURI, h).

(** [parser.ParseHTML], over the parser [Parse] of golang.org/x/net/html;
    a nil dereference while converting would be a panic, reported here as
    an error. *)
Definition parser_ParseHTML (Parse : string -> HtmlNode + string)
    (htmlContent baseURI : string) : (VDocument * Heap) + string :=
  match Parse htmlContent with
  | inr err => inr err
  | inl doc =>
      match convertDocument doc baseURI with
      | Some r => inl r
      | None => inr "panic: nil pointer dereference"
      end
  end.

(** The height of a parsed tree. *)
Fixpoint html_height (n : HtmlNode) : nat :=
  match n with
  | mkHtmlNode _ _ _ cs =>
      S ((fix children (cs : list HtmlNode) : nat :=
            match cs with
            | [] => O
            | c :: cs' => Nat.max (html_height c) (children cs')
            end) cs)
  end.

(** The element at [p] has [d] ancestors. *)
Fixpoint has_depth (h : Heap) (d : nat) (p : loc) : Prop :=
  match d with
  | O => exists e, AsVElement h p = Some e /\ parent e = None
  | S d' =>
      exists e q, AsVElement h p = Some e /\ parent e = Some q /\
                  has_depth h d' q
  end.

(** A forest of depth at most [M]: every element has at most [M] ancestors,
    parent pointers and child lists agree, no child is listed twice, every
    child is a node of the graph and every tag name is in lower case. *)
Definition Shaped (M : nat) (h : Heap) : Prop :=
  (forall p e, AsVElement h p = Some e ->
     exists d, (d <= M)%nat /\ has_depth h d p) /\
  ParentConsistent h /\
  NoDupChildren h /\
  (forall q qe c, AsVElement h q = Some qe -> c ∈ Children qe ->
     is_Some (h !! c)) /\
  (forall p e, AsVElement h p = Some e ->
     Strings.ToLower (TagName e) = TagName e).

(** [h'] keeps every element of [h], with its parent pointer and its tag
    name. *)
Definition keeps_elements (h h' : Heap) : Prop :=
  forall p e, AsVElement h p = Some e ->
    exists e', AsVElement h' p = Some e' /\ parent e' = parent e /\
               TagName e' = TagName e.

(** The element [e] after [SetAttribute] for every attribute of [attr]. *)
Definition withAttributes (e : VElement) (attr : list (string * string))
  : VElement :=
  mkVElement (parent e) (TagName e)
    (foldl (fun m a => <[fst a := snd a]> m) (Attributes e) attr)
    (Children e).

(** The graph [h] with the new node [n] at [p], appended to the children of
    the element [pe] at [par]. *)
Definition attach (h : Heap) (par : loc) (pe : VElement) (p : loc)
    (n : VNode) : Heap :=
  <[par := ElementNode (setChildren pe (Children pe ++ [p]))]> (<[p := n]> h).

(** [n] is a node without children whose parent pointer names [par]. *)
Definition leaf_of (par : loc) (n : VNode) : Prop :=
  match n with
  | TextNode t => text_parent t = Some par
  | ElementNode e =>
      parent e = Some par /\ Children e = [] /\
      Strings.ToLower (TagName e) = TagName e
  end.

(** The graph of a parsed document: the forest is in shape, the document
    element is a parentless [html] element and the body is one of its
    children, with tag [body]. *)
Definition parsed_shape (M : nat) (vdoc : VDocument) (h : Heap) : Prop :=
  Shaped M h /\
  exists root body re be,
    DocumentElement vdoc = Some root /\ Body vdoc = Some body /\
    AsVElement h root = Some re /\ TagName re = "html" /\
    parent re = None /\
    AsVElement h body = Some be /\ TagName be = "body" /\
    parent be = Some root /\ body ∈ Children re.

(** [<html><head><title>T</title></head><body><p>Hello</p></body></html>]
    as [html.Parse] returns it. *)
Definition exampleTree : HtmlNode :=
  mkHtmlNode html_DocumentNode "" []
    [ mkHtmlNode html_ElementNode "html" []
        [ mkHtmlNode html_ElementNode "head" []
            [ mkHtmlNode html_ElementNode "title" []
                [ mkHtmlNode html_TextNode "T" [] [] ] ];
          mkHtmlNode html_ElementNode "body" []
            [ mkHtmlNode html_ElementNode "p" [("class", "lead")]
                [ mkHtmlNode html_TextNode "Hello" [] [] ] ] ] ].

(** A parser that knows one page. *)
Definition exampleParse (htmlContent : string) : HtmlNode + string :=
  if String.eqb htmlContent
       "<html><head><title>T</title></head><body><p class=lead>Hello</p></body></html>"
  then inl exampleTree else inr "unsupported page".

(** Collaborators whose parser is [parser.ParseHTML] over [Parse]; the
    metadata extractors find nothing. *)
Definition parsingCollaborators (Parse : string -> HtmlNode + string)
  : Collaborators :=
  mkCollaborators (parser_ParseHTML Parse) (fun _ _ => "") (fun _ _ => "").

(** The element at [p] has one of the tag names [tagNames]. *)
Definition hasAnyTag (h : Heap) (tagNames : list string) (p : loc) : bool :=
  existsb (fun t => hasTag h t p) tagNames.

(** A page with a script, a navigation bar and an advertisement around one
    paragraph, as [html.Parse] returns it. *)
Definition noisyTree : HtmlNode :=
  mkHtmlNode html_DocumentNode "" []
    [ mkHtmlNode html_DoctypeNode "html" [] [];
      mkHtmlNode html_ElementNode "html" []
        [ mkHtmlNode html_ElementNode "head" []
            [ mkHtmlNode html_ElementNode "script" []
                [ mkHtmlNode html_TextNode "var x;" [] [] ] ];
          mkHtmlNode html_ElementNode "body" []
            [ mkHtmlNode html_ElementNode "nav" []
                [ mkHtmlNode html_TextNode "menu" [] [] ];
              mkHtmlNode html_CommentNode "ad" [] [];
              mkHtmlNode html_ElementNode "div" [("class", "ad-banner")]
                [ mkHtmlNode html_TextNode "buy" [] [] ];
              mkHtmlNode html_ElementNode "p" []
                [ mkHtmlNode html_TextNode "Hello" [] [] ] ] ] ].


(** ** Example documents for the classifier and the preprocessor *)

(** A body with a heading, two blocks of plain text and a block of sixty
    empty links:
    [<h2>News</h2><div><p>...</p></div><div><p>...</p></div><div><a></a>...</div>]. *)
Definition linkListHeap : Heap :=
  list_to_map
    ([ (1%positive, mkElement None "html" [] [2%positive]);
       (2%positive, mkElement (Some 1%positive) "body" []
                      [3%positive; 5%positive; 8%positive; 11%positive]);
       (3%positive, mkElement (Some 2%positive) "h2" [] [4%positive]);
       (4%positive, mkText 3%positive "News");
       (5%positive, mkElement (Some 2%positive) "div" [] [6%positive]);
       (6%positive, mkElement (Some 5%positive) "p" [] [7%positive]);
       (7%positive, mkText 6%positive (Repeat "word " 30));
       (8%positive, mkElement (Some 2%positive) "div" [] [9%positive]);
       (9%positive, mkElement (Some 8%positive) "p" [] [10%positive]);
       (10%positive, mkText 9%positive (Repeat "text " 15));
       (11%positive, mkElement (Some 2%positive) "div" []
                       (map Pos.of_nat (seq 12 60))) ]
     ++ map (fun i => (Pos.of_nat i, mkElement (Some 11%positive) "a" [] []))
          (seq 12 60)).

Definition linkListDoc : VDocument :=
  mkVDocument (Some 1%positive) (Some 2%positive) "" "".

(** The two blocks of text with scores 10 and 9. *)
Definition linkListScores : Scores :=
  list_to_map [ (5%positive, mkReadabilityData 10);
                (8%positive, mkReadabilityData 9) ].

(** The two blocks of text with scores [5 + 2^-50] and [4 + 2^-50], both
    binary64 values. *)
Definition closeScores : Scores :=
  list_to_map
    [ (5%positive, mkReadabilityData (5 + (1 # 1125899906842624)));
      (8%positive, mkReadabilityData (4 + (1 # 1125899906842624))) ].

(** [<html><head><link id="banner-css"></head><body><p>hello</p></body></html>] *)
Definition adInHeadHeap : Heap :=
  list_to_map
    [ (1%positive, mkElement None "html" [] [2%positive; 4%positive]);
      (2%positive, mkElement (Some 1%positive) "head" [] [3%positive]);
      (3%positive, mkElement (Some 2%positive) "link" [("id", "banner-css")] []);
      (4%positive, mkElement (Some 1%positive) "body" [] [5%positive]);
      (5%positive, mkElement (Some 4%positive) "p" [] [6%positive]);
      (6%positive, mkText 5%positive "hello") ].

Definition adInHeadDoc : VDocument :=
  mkVDocument (Some 1%positive) (Some 4%positive) "" "".

(** A graph that is no tree: the element 3, [<div class="promo">], is listed
    twice in the element 2 that its parent pointer names, and once more in
    the element 5 under the body. *)
Definition repeatedChildHeap : Heap :=
  list_to_map
    [ (1%positive, mkElement None "html" [] [2%positive; 4%positive]);
      (2%positive, mkElement (Some 1%positive) "head" []
                     [3%positive; 3%positive]);
      (3%positive, mkElement (Some 2%positive) "div" [("class", "promo")] []);
      (4%positive, mkElement (Some 1%positive) "body" [] [5%positive]);
      (5%positive, mkElement (Some 4%positive) "div" [] [3%positive]) ].

Definition repeatedChildDoc : VDocument :=
  mkVDocument (Some 1%positive) (Some 4%positive) "" "".

(** * Proofs: the preprocessor *)

(** * Lists with one element cut out *)

Lemma removeFirst_sublist x l : removeFirst x l `sublist_of` l.
Proof.
  induction l as [|y l IH]; simpl; [constructor|].
  destruct (decide (y = x)); [by apply sublist_cons | by apply sublist_skip].
Qed.

Lemma removeFirst_notin x l : x ∉ l -> removeFirst x l = l.
Proof.
  induction l as [|y l IH]; simpl; [done|].
  intros Hn. apply not_elem_of_cons in Hn as [Hne Hn].
  destruct (decide (y = x)); [congruence | by rewrite IH].
Qed.

Lemma removeFirst_NoDup x l : NoDup l -> x ∉ removeFirst x l.
Proof.
  induction 1 as [|y l Hy Hl IH]; simpl; [apply not_elem_of_nil|].
  destruct (decide (y = x)) as [->|Hne]; [done|].
  apply not_elem_of_cons; split; [congruence | done].
Qed.

Lemma removeFirst_gone x l c : c ∈ l -> c ∉ removeFirst x l -> c = x.
Proof.
  induction l as [|y l IH]; simpl; [by intros ?%elem_of_nil|].
  destruct (decide (y = x)) as [->|Hne].
  - intros [->|Hc]%elem_of_cons Hn; [done | contradiction].
  - intros [->|Hc]%elem_of_cons Hn.
    + exfalso. apply Hn. by left.
    + apply IH; [done|]. intros ?. apply Hn. by right.
Qed.

Lemma removeFirst_fixed x l : removeFirst x l = l -> x ∉ l.
Proof.
  induction l as [|y l IH]; simpl; [intros; apply not_elem_of_nil|].
  destruct (decide (y = x)) as [->|Hne].
  - intros Heq. apply (f_equal length) in Heq. simpl in Heq. lia.
  - intros [= Heq]. apply not_elem_of_cons. split; [congruence | auto].
Qed.

(** * Heaps related by unlinking *)

Lemma children_cut_refl h l : children_cut h l l.
Proof. split; [done | intros c Hc Hn; contradiction]. Qed.

Lemma unlinks_only_refl h : unlinks_only h h.
Proof.
  intros p. unfold node_cut. destruct (h !! p) as [[t|e]|]; auto.
  repeat split; auto. apply children_cut_refl.
Qed.

Lemma unlinks_elem h h' p e :
  unlinks_only h h' -> AsVElement h p = Some e ->
  exists e', AsVElement h' p = Some e' /\ parent e' = parent e /\
    TagName e' = TagName e /\ Attributes e' = Attributes e /\
    children_cut h (Children e') (Children e).
Proof.
  intros H He. specialize (H p). unfold AsVElement, node_cut in *.
  destruct (h !! p) as [[t|e0]|]; try discriminate. injection He as ->.
  destruct (h' !! p) as [[t'|e']|]; try contradiction. eauto.
Qed.

Lemma unlinks_elem_inv h h' p e' :
  unlinks_only h h' -> AsVElement h' p = Some e' ->
  exists e, AsVElement h p = Some e /\ parent e' = parent e /\
    TagName e' = TagName e /\ Attributes e' = Attributes e /\
    children_cut h (Children e') (Children e).
Proof.
  intros H He. specialize (H p). unfold AsVElement, node_cut in *.
  destruct (h' !! p) as [[t'|e0]|]; try discriminate. injection He as ->.
  destruct (h !! p) as [[t|e]|]; try contradiction. eauto.
Qed.

Lemma unlinks_is_elem h h' p :
  unlinks_only h h' -> is_Some (AsVElement h p) <-> is_Some (AsVElement h' p).
Proof.
  intros H; split; intros [e He].
  - destruct (unlinks_elem _ _ _ _ H He) as (e' & -> & _); eauto.
  - destruct (unlinks_elem_inv _ _ _ _ H He) as (e' & -> & _); eauto.
Qed.

Lemma unlinks_Parent h h' p : unlinks_only h h' -> Parent h' p = Parent h p.
Proof.
  intros H. unfold Parent.
  destruct (AsVElement h p) as [e|] eqn:He.
  - destruct (unlinks_elem _ _ _ _ H He) as (e' & -> & Hp & _). simpl. done.
  - destruct (AsVElement h' p) as [e'|] eqn:He'; [|done].
    destruct (unlinks_elem_inv _ _ _ _ H He') as (e & He2 & _). congruence.
Qed.

Lemma unlinks_only_trans h1 h2 h3 :
  unlinks_only h1 h2 -> unlinks_only h2 h3 -> unlinks_only h1 h3.
Proof.
  intros H12 H23 p. pose proof (H12 p) as A. pose proof (H23 p) as B.
  unfold node_cut in *.
  destruct (h1 !! p) as [[t1|e1]|], (h2 !! p) as [[t2|e2]|],
    (h3 !! p) as [[t3|e3]|]; try contradiction; try done; try congruence.
  destruct A as (A1 & A2 & A3 & A4 & A5), B as (B1 & B2 & B3 & B4 & B5).
  repeat split; try congruence.
  - by etrans.
  - intros c Hc Hn. destruct (decide (c ∈ Children e2)) as [Hin|Hout].
    + apply (unlinks_is_elem h1 h2 c H12). auto.
    + auto.
Qed.

Lemma NoDupChildren_unlinks h h' :
  unlinks_only h h' -> NoDupChildren h -> NoDupChildren h'.
Proof.
  intros H Hnd p e' He'.
  destruct (unlinks_elem_inv _ _ _ _ H He') as (e & He & _ & _ & _ & Hs & _).
  eapply sublist_NoDup; eauto.
Qed.

Lemma unlinked_unlinks h h' p :
  unlinks_only h h' -> unlinked h p -> unlinked h' p.
Proof.
  intros H Hu q qe' Hp Hq. rewrite (unlinks_Parent _ _ _ H) in Hp.
  destruct (unlinks_elem_inv _ _ _ _ H Hq) as (qe & Hqe & _ & _ & _ & Hs & _).
  intros Hin. eapply Hu; eauto. eapply elem_of_sublist; eauto.
Qed.

(** * One removal *)

Lemma removeFromParent_unlinks h x : unlinks_only h (removeFromParent h x).
Proof.
  unfold removeFromParent.
  destruct (Parent h x) as [q|] eqn:Hp; [|apply unlinks_only_refl].
  destruct (AsVElement h q) as [qe|] eqn:Hq; [|apply unlinks_only_refl].
  intros p. destruct (decide (p = q)) as [->|Hne].
  - rewrite lookup_insert_eq. unfold AsVElement in Hq.
    destruct (h !! q) as [[t|e]|]; try discriminate. injection Hq as ->.
    simpl. repeat split; auto.
    + apply removeFirst_sublist.
    + intros c Hc Hn. rewrite (removeFirst_gone _ _ _ Hc Hn).
      unfold Parent in Hp. destruct (AsVElement h x); [eauto | discriminate].
  - rewrite lookup_insert_ne by done. apply unlinks_only_refl.
Qed.

Lemma removeFromParent_unlinked h x :
  unlinked h x -> removeFromParent h x = h.
Proof.
  intros Hu. unfold removeFromParent.
  destruct (Parent h x) as [q|] eqn:Hp; [|done].
  destruct (AsVElement h q) as [qe|] eqn:Hq; [|done].
  rewrite removeFirst_notin by eauto.
  apply insert_id. unfold AsVElement in Hq.
  destruct (h !! q) as [[t|e]|]; try discriminate. injection Hq as ->.
  by destruct qe.
Qed.

Lemma removeFromParent_makes_unlinked h x :
  NoDupChildren h -> unlinked (removeFromParent h x) x.
Proof.
  intros Hnd q qe Hp Hq.
  rewrite (unlinks_Parent _ _ _ (removeFromParent_unlinks h x)) in Hp.
  unfold removeFromParent in Hq. rewrite Hp in Hq.
  destruct (AsVElement h q) as [qe0|] eqn:Hq0; [|congruence].
  unfold AsVElement in Hq. rewrite lookup_insert_eq in Hq. injection Hq as <-.
  simpl. apply removeFirst_NoDup. eauto.
Qed.

Lemma foldl_removeFromParent_unlinks es : forall h,
  unlinks_only h (foldl removeFromParent h es).
Proof.
  induction es as [|x es IH]; intros h; simpl; [apply unlinks_only_refl|].
  eapply unlinks_only_trans; [apply removeFromParent_unlinks | apply IH].
Qed.

Lemma foldl_removeFromParent_unlinked es : forall h,
  NoDupChildren h -> Forall (unlinked (foldl removeFromParent h es)) es.
Proof.
  induction es as [|x es IH]; intros h Hnd; simpl; constructor.
  - eapply unlinked_unlinks; [apply foldl_removeFromParent_unlinks|].
    by apply removeFromParent_makes_unlinked.
  - apply IH. eapply NoDupChildren_unlinks; [apply removeFromParent_unlinks|done].
Qed.

Lemma foldl_removeFromParent_id es h :
  Forall (unlinked h) es -> foldl removeFromParent h es = h.
Proof.
  induction 1 as [|x es Hx Hes IH]; simpl; [done|].
  by rewrite removeFromParent_unlinked.
Qed.

(** * The walk over a graph with fewer links *)

Lemma collect_Some_cons f c cs l :
  collect f (c :: cs) = Some l ->
  exists r rs, f c = Some r /\ collect f cs = Some rs /\ l = r ++ rs.
Proof.
  simpl. destruct (f c) as [r|]; simpl; [|discriminate].
  destruct (collect f cs) as [rs|]; simpl; [|discriminate].
  intros [= <-]. eauto.
Qed.

Lemma collect_mono (f f' : loc -> option (list loc)) cs' cs :
  cs' `sublist_of` cs ->
  (forall c r, f c = Some r -> exists r', f' c = Some r' /\ r' ⊆ r) ->
  forall l, collect f cs = Some l ->
  exists l', collect f' cs' = Some l' /\ l' ⊆ l.
Proof.
  intros Hs Hf. induction Hs as [|x l1 l2 Hs IH|x l1 l2 Hs IH]; intros l Hl.
  - exists []. split; [done | apply list_subseteq_nil].
  - apply collect_Some_cons in Hl as (r & rs & Hr & Hrs & ->).
    destruct (Hf _ _ Hr) as (r' & Hr' & Hsub).
    destruct (IH _ Hrs) as (rs' & Hrs' & Hsub').
    exists (r' ++ rs'). simpl. rewrite Hr', Hrs'. simpl. split; [done|].
    intros y [Hy|Hy]%elem_of_app; apply elem_of_app; auto.
  - apply collect_Some_cons in Hl as (r & rs & Hr & Hrs & ->).
    destruct (IH _ Hrs) as (rs' & Hrs' & Hsub').
    exists rs'. split; [done|].
    intros y Hy. apply elem_of_app; auto.
Qed.

Lemma tag_matches_TagName tags e e' :
  TagName e' = TagName e -> tag_matches tags e' = tag_matches tags e.
Proof. intros H. unfold tag_matches. by rewrite H. Qed.

Lemma getElementsByTagNameInternal_mono fuel h h' tags :
  unlinks_only h h' ->
  forall p l, getElementsByTagNameInternal fuel h p tags = Some l ->
  exists l', getElementsByTagNameInternal fuel h' p tags = Some l' /\ l' ⊆ l.
Proof.
  intros H. induction fuel as [|fuel IH]; intros p l; simpl; [discriminate|].
  destruct (AsVElement h p) as [e|] eqn:He; simpl; [|discriminate].
  destruct (unlinks_elem _ _ _ _ H He) as (e' & -> & _ & Ht & _ & Hc & _).
  simpl. rewrite (tag_matches_TagName _ _ _ Ht).
  destruct (collect _ (Children e)) as [rest|] eqn:Hrest; simpl; [|discriminate].
  intros [= <-].
  eapply collect_mono in Hrest as (rest' & -> & Hsub); [|exact Hc|].
  - simpl. eexists; split; [done|].
    intros y [Hy|Hy]%elem_of_app; apply elem_of_app; auto.
  - intros c r. simpl.
    destruct (AsVElement h c) as [ce|] eqn:Hce.
    + destruct (unlinks_elem _ _ _ _ H Hce) as (ce' & -> & _). apply IH.
    + intros [= <-]. destruct (AsVElement h' c) as [ce'|] eqn:Hce'.
      * destruct (unlinks_elem_inv _ _ _ _ H Hce') as (? & ? & _). congruence.
      * eauto.
Qed.

Lemma GetElementsByTagName_mono fuel h h' root tag l :
  unlinks_only h h' ->
  GetElementsByTagName fuel h root tag = Some l ->
  exists l', GetElementsByTagName fuel h' root tag = Some l' /\ l' ⊆ l.
Proof.
  intros H. destruct root as [r|]; simpl; [|discriminate].
  by apply getElementsByTagNameInternal_mono.
Qed.

(** The walk succeeds or fails whatever the tags looked for. *)
Lemma getElementsByTagNameInternal_tags fuel h tags tags' :
  forall p, is_Some (getElementsByTagNameInternal fuel h p tags) ->
            is_Some (getElementsByTagNameInternal fuel h p tags').
Proof.
  induction fuel as [|fuel IH]; intros p; simpl; [by intros [? ?]|].
  destruct (AsVElement h p) as [e|]; simpl; [|by intros [? ?]].
  set (f := fun child => match AsVElement h child with
     | Some _ => getElementsByTagNameInternal fuel h child tags
     | None => Some [] end).
  set (f' := fun child => match AsVElement h child with
     | Some _ => getElementsByTagNameInternal fuel h child tags'
     | None => Some [] end).
  assert (Hc : forall cs, is_Some (collect f cs) -> is_Some (collect f' cs)).
  { induction cs as [|c cs IHcs]; simpl; [eauto|].
    destruct (f c) as [r|] eqn:Hr; simpl; [|by intros [? ?]].
    destruct (collect f cs) as [rs|]; simpl; [|by intros [? ?]].
    intros _. destruct IHcs as [rs' ->]; [eauto|].
    assert (is_Some (f' c)) as [r' ->]; [|simpl; eauto].
    subst f f'. simpl in *. destruct (AsVElement h c); [|eauto].
    apply IH. eauto. }
  destruct (collect f (Children e)) as [rest|] eqn:Hrest; simpl;
    [|by intros [? ?]].
  intros _. destruct (Hc (Children e)) as [rest' ->]; [eauto|]. simpl. eauto.
Qed.

Lemma traversable_tag fuel h root tag :
  traversable fuel h root -> is_Some (GetElementsByTagName fuel h root tag).
Proof.
  unfold traversable. destruct root as [r|]; simpl; [|done].
  apply getElementsByTagNameInternal_tags.
Qed.

Lemma traversable_of_tag fuel h root tag :
  is_Some (GetElementsByTagName fuel h root tag) -> traversable fuel h root.
Proof.
  unfold traversable. destruct root as [r|]; simpl; [|done].
  apply getElementsByTagNameInternal_tags.
Qed.

Lemma traversable_unlinks fuel h h' root :
  unlinks_only h h' -> traversable fuel h root -> traversable fuel h' root.
Proof.
  intros H [l Hl]. unfold traversable.
  destruct (GetElementsByTagName_mono _ _ _ _ _ _ H Hl) as (l' & -> & _). eauto.
Qed.

(** * removeUnwantedTags *)

Lemma forEach_Some_cons {A S} (body : S -> A -> option S) s x xs s2 :
  forEach body s (x :: xs) = Some s2 ->
  exists s1, body s x = Some s1 /\ forEach body s1 xs = Some s2.
Proof. simpl. destruct (body s x) as [s1|]; simpl; [eauto | discriminate]. Qed.

Lemma tag_removed_unlinks fuel doc h h' t :
  unlinks_only h h' -> tag_removed fuel doc h t -> tag_removed fuel doc h' t.
Proof.
  intros H Ht h'' H'' l Hl. apply Ht; [|done]. by eapply unlinks_only_trans.
Qed.

Lemma removeUnwantedTags_tag_spec fuel doc h t h1 :
  removeUnwantedTags_tag fuel doc h t = Some h1 ->
  unlinks_only h h1 /\ (NoDupChildren h -> tag_removed fuel doc h1 t).
Proof.
  unfold removeUnwantedTags_tag.
  destruct (GetElementsByTagName fuel h (DocumentElement doc) t) as [es|] eqn:Hes;
    simpl; [|discriminate].
  intros [= <-]. split; [apply foldl_removeFromParent_unlinks|].
  intros Hnd h' H' l Hl.
  assert (Hh : unlinks_only h h').
  { eapply unlinks_only_trans; [apply foldl_removeFromParent_unlinks | done]. }
  destruct (GetElementsByTagName_mono _ _ _ _ _ _ Hh Hes) as (l' & Hl' & Hsub).
  rewrite Hl in Hl'. injection Hl' as <-.
  apply Forall_forall. intros x Hx. eapply unlinked_unlinks; [exact H'|].
  pose proof (foldl_removeFromParent_unlinked es h Hnd) as Hall.
  rewrite Forall_forall in Hall. apply Hall. by apply Hsub.
Qed.

Lemma removeUnwantedTags_spec fuel doc ts : forall h h1,
  forEach (removeUnwantedTags_tag fuel doc) h ts = Some h1 ->
  unlinks_only h h1 /\
  (NoDupChildren h -> Forall (tag_removed fuel doc h1) ts).
Proof.
  induction ts as [|t ts IH]; intros h h1 Hrun.
  - injection Hrun as <-. split; [apply unlinks_only_refl | constructor].
  - apply forEach_Some_cons in Hrun as (ht & Ht & Hrest).
    apply removeUnwantedTags_tag_spec in Ht as [Hu Hclean].
    apply IH in Hrest as [Hu' Hclean'].
    split; [by eapply unlinks_only_trans|].
    intros Hnd. constructor.
    + eapply tag_removed_unlinks; [exact Hu' | auto].
    + apply Hclean'. by eapply NoDupChildren_unlinks.
Qed.

Lemma removeUnwantedTags_tag_settled fuel doc h t :
  traversable fuel h (DocumentElement doc) ->
  tag_removed fuel doc h t ->
  removeUnwantedTags_tag fuel doc h t = Some h.
Proof.
  intros Htr Ht. unfold removeUnwantedTags_tag.
  destruct (traversable_tag _ _ _ t Htr) as [l Hl]. rewrite Hl.
  cbn [mbind option_bind].
  rewrite foldl_removeFromParent_id; [done|].
  apply (Ht h (unlinks_only_refl h) l Hl).
Qed.

Lemma removeUnwantedTags_settled fuel doc h ts :
  traversable fuel h (DocumentElement doc) ->
  Forall (tag_removed fuel doc h) ts ->
  forEach (removeUnwantedTags_tag fuel doc) h ts = Some h.
Proof.
  intros Htr. induction 1 as [|t ts Ht Hts IH]; [done|].
  cbn [forEach]. by rewrite removeUnwantedTags_tag_settled.
Qed.

Lemma removeUnwantedTags_total fuel doc ts : forall h,
  traversable fuel h (DocumentElement doc) ->
  is_Some (forEach (removeUnwantedTags_tag fuel doc) h ts).
Proof.
  induction ts as [|t ts IH]; intros h Htr; [simpl; eauto|].
  cbn [forEach].
  destruct (removeUnwantedTags_tag fuel doc h t) as [ht|] eqn:Hstep.
  - cbn [mbind option_bind]. apply IH.
    apply removeUnwantedTags_tag_spec in Hstep as [Hu _].
    by eapply traversable_unlinks.
  - unfold removeUnwantedTags_tag in Hstep.
    destruct (traversable_tag _ _ _ t Htr) as [l Hl]. rewrite Hl in Hstep.
    discriminate.
Qed.

(** * removeAds *)

Lemma isLikelyAd_Attributes e e' :
  Attributes e' = Attributes e -> isLikelyAd e' = isLikelyAd e.
Proof.
  intros H. unfold isLikelyAd, ClassName, ID, GetAttribute, HasAttribute.
  by rewrite H.
Qed.

Lemma removeAds_step_unlinks h x : unlinks_only h (removeAds_step h x).
Proof.
  unfold removeAds_step. destruct (AsVElement h x) as [e|];
    [|apply unlinks_only_refl].
  destruct (isLikelyAd e && _); [apply removeFromParent_unlinks|].
  apply unlinks_only_refl.
Qed.

Lemma ad_removed_unlinks h h' x :
  unlinks_only h h' -> ad_removed h x -> ad_removed h' x.
Proof.
  intros H Hx e' He' Had.
  destruct (unlinks_elem_inv _ _ _ _ H He') as (e & He & _ & _ & Hat & _).
  eapply unlinked_unlinks; [done|]. apply (Hx e He).
  by rewrite <- (isLikelyAd_Attributes _ _ Hat).
Qed.

Lemma removeAds_step_removed h x :
  NoDupChildren h -> ad_removed (removeAds_step h x) x.
Proof.
  intros Hnd. unfold removeAds_step.
  destruct (AsVElement h x) as [e|] eqn:He; [|intros e0 He0; congruence].
  destruct (isLikelyAd e) eqn:Had;
    [|cbn [andb]; intros e0 He0 Had0; congruence].
  destruct (parent e) as [q|] eqn:Hq.
  - rewrite bool_decide_eq_true_2 by eauto. cbn [andb].
    intros ? _ _. by apply removeFromParent_makes_unlinked.
  - rewrite bool_decide_eq_false_2 by (by intros [? ?]). cbn [andb].
    intros ? _ _ q qe Hp. unfold Parent in Hp. rewrite He in Hp.
    simpl in Hp. congruence.
Qed.

Lemma removeAds_step_id h x : ad_removed h x -> removeAds_step h x = h.
Proof.
  intros Hx. unfold removeAds_step.
  destruct (AsVElement h x) as [e|] eqn:He; [|done].
  destruct (isLikelyAd e) eqn:Had; [|done]. simpl.
  destruct (bool_decide _); [|done].
  apply removeFromParent_unlinked. eauto.
Qed.

Lemma foldl_removeAds_step_unlinks es : forall h,
  unlinks_only h (foldl removeAds_step h es).
Proof.
  induction es as [|x es IH]; intros h; simpl; [apply unlinks_only_refl|].
  eapply unlinks_only_trans; [apply removeAds_step_unlinks | apply IH].
Qed.

Lemma foldl_removeAds_step_removed es : forall h,
  NoDupChildren h -> Forall (ad_removed (foldl removeAds_step h es)) es.
Proof.
  induction es as [|x es IH]; intros h Hnd; simpl; constructor.
  - eapply ad_removed_unlinks; [apply foldl_removeAds_step_unlinks|].
    by apply removeAds_step_removed.
  - apply IH. eapply NoDupChildren_unlinks; [apply removeAds_step_unlinks|done].
Qed.

Lemma foldl_removeAds_step_id es h :
  Forall (ad_removed h) es -> foldl removeAds_step h es = h.
Proof.
  induction 1 as [|x es Hx Hes IH]; simpl; [done|].
  by rewrite removeAds_step_id.
Qed.

Lemma removeAds_unlinks fuel doc h h1 :
  removeAds fuel doc h = Some h1 -> unlinks_only h h1.
Proof.
  unfold removeAds. destruct (GetElementsByTagName _ _ _ _) as [es|]; simpl;
    [|discriminate].
  intros [= <-]. apply foldl_removeAds_step_unlinks.
Qed.

Lemma removeAds_idempotent fuel doc h h1 :
  NoDupChildren h ->
  removeAds fuel doc h = Some h1 -> removeAds fuel doc h1 = Some h1.
Proof.
  intros Hnd. unfold removeAds.
  destruct (GetElementsByTagName fuel h (Body doc) "*") as [es|] eqn:Hes; simpl;
    [|discriminate].
  intros [= <-].
  pose proof (foldl_removeAds_step_unlinks es h) as Hu.
  destruct (GetElementsByTagName_mono _ _ _ _ _ _ Hu Hes) as (l' & -> & Hsub).
  simpl. f_equal. apply foldl_removeAds_step_id.
  apply Forall_forall. intros x Hx.
  pose proof (foldl_removeAds_step_removed es h Hnd) as Hall.
  rewrite Forall_forall in Hall. apply Hall. by apply Hsub.
Qed.

(** * PreprocessDocument *)

Lemma PreprocessDocument_unlinks fuel doc h h1 :
  PreprocessDocument fuel doc h = Some h1 -> unlinks_only h h1.
Proof.
  unfold PreprocessDocument, removeUnwantedTags.
  destruct (forEach _ h tagsToRemove) as [ha|] eqn:Ha; simpl; [|discriminate].
  intros Hb. apply removeUnwantedTags_spec in Ha as [Hu _].
  apply removeAds_unlinks in Hb. by eapply unlinks_only_trans.
Qed.

Lemma PreprocessDocument_total fuel doc h :
  traversable fuel h (DocumentElement doc) ->
  traversable fuel h (Body doc) ->
  is_Some (PreprocessDocument fuel doc h).
Proof.
  intros Hr Hb. unfold PreprocessDocument, removeUnwantedTags.
  destruct (removeUnwantedTags_total fuel doc tagsToRemove h Hr) as [ha Ha].
  rewrite Ha. simpl. unfold removeAds.
  apply removeUnwantedTags_spec in Ha as [Hu _].
  destruct (traversable_unlinks _ _ _ _ Hu Hb) as [l Hl].
  unfold traversable in Hl. rewrite Hl. simpl. eauto.
Qed.

Lemma PreprocessDocument_twice fuel doc h h1 :
  NoDupChildren h ->
  PreprocessDocument fuel doc h = Some h1 ->
  PreprocessDocument fuel doc h1 = Some h1.
Proof.
  intros Hnd. unfold PreprocessDocument, removeUnwantedTags.
  destruct (forEach _ h tagsToRemove) as [ha|] eqn:Ha; [|discriminate].
  cbn [mbind option_bind]. intros Hb.
  assert (Htr : traversable fuel h (DocumentElement doc)).
  { unfold tagsToRemove in Ha.
    apply forEach_Some_cons in Ha as (h0 & Ha & _).
    unfold removeUnwantedTags_tag in Ha.
    destruct (GetElementsByTagName fuel h (DocumentElement doc) "aside")
      as [l|] eqn:Hl; [|discriminate].
    eapply traversable_of_tag. eauto. }
  apply removeUnwantedTags_spec in Ha as [Hu Hclean].
  pose proof (removeAds_unlinks _ _ _ _ Hb) as Hu'.
  rewrite removeUnwantedTags_settled.
  - cbn [mbind option_bind]. eapply removeAds_idempotent; [|exact Hb].
    by eapply NoDupChildren_unlinks.
  - eapply traversable_unlinks; [|exact Htr]. by eapply unlinks_only_trans.
  - eapply Forall_impl; [apply Hclean; done|].
    intros t Ht. by eapply tag_removed_unlinks.
Qed.

(** * Proofs: the DOM utilities return *)

#[global] Arguments GetElementsByTagName : simpl never.

(** * Well-formed graphs *)


Lemma WellFormed_elem fuel h p :
  WellFormed fuel h -> is_elem h p ->
  is_Some (getElementsByTagNameInternal fuel h p ["*"]) /\
  is_Some (GetNodeAncestors_loop fuel h (Some p) 0 0).
Proof.
  intros Hwf [e He]. unfold AsVElement in He.
  destruct (h !! p) as [[t|e0]|] eqn:Hp; try discriminate.
  apply (Hwf p _ Hp).
Qed.

Lemma WellFormed_traversable fuel h p :
  WellFormed fuel h -> is_elem h p -> traversable fuel h (Some p).
Proof. intros Hwf He. by apply WellFormed_elem. Qed.

Lemma WellFormed_tag fuel h p tag :
  WellFormed fuel h -> is_elem h p ->
  is_Some (GetElementsByTagName fuel h (Some p) tag).
Proof. intros. apply traversable_tag. by apply WellFormed_traversable. Qed.

(** * What the walk returns are elements *)

Lemma collect_Forall (P : loc -> Prop) f cs : forall l,
  collect f cs = Some l ->
  (forall c r, f c = Some r -> Forall P r) -> Forall P l.
Proof.
  induction cs as [|c cs IH]; intros l Hl Hf.
  - injection Hl as <-. constructor.
  - apply collect_Some_cons in Hl as (r & rs & Hr & Hrs & ->).
    apply Forall_app. split; [eauto | apply IH; auto].
Qed.

Lemma getElementsByTagNameInternal_elems fuel h tags : forall p l,
  getElementsByTagNameInternal fuel h p tags = Some l -> Forall (is_elem h) l.
Proof.
  induction fuel as [|fuel IH]; intros p l; simpl; [discriminate|].
  destruct (AsVElement h p) as [e|] eqn:He; simpl; [|discriminate].
  destruct (collect _ (Children e)) as [rest|] eqn:Hrest; simpl; [|discriminate].
  intros [= <-]. apply Forall_app. split.
  - destruct (tag_matches tags e); constructor; [|constructor].
    unfold is_elem. rewrite He. eauto.
  - eapply collect_Forall; [exact Hrest|].
    intros c r. simpl. destruct (AsVElement h c).
    + apply IH.
    + intros [= <-]. constructor.
Qed.

Lemma GetElementsByTagName_elems fuel h root tag l :
  GetElementsByTagName fuel h root tag = Some l -> Forall (is_elem h) l.
Proof.
  unfold GetElementsByTagName. destruct root as [r|]; simpl; [|discriminate].
  apply getElementsByTagNameInternal_elems.
Qed.

(** * Inner text *)

Lemma innerText_children_total rec h cs :
  (forall c, c ∈ cs -> is_elem h c -> is_Some (rec c)) ->
  forall i text, is_Some (innerText_children rec h cs i text).
Proof.
  induction cs as [|c cs IH]; intros Hrec i text; simpl; [eauto|].
  destruct (h !! c) as [[t|e]|] eqn:Hc.
  - apply IH. intros c' Hc'. apply Hrec. by right.
  - destruct (Hrec c) as [s ->]; [by left| |].
    + unfold is_elem, AsVElement. rewrite Hc. eauto.
    + simpl. apply IH. intros c' Hc'. apply Hrec. by right.
  - apply IH. intros c' Hc'. apply Hrec. by right.
Qed.

Lemma collect_is_Some_elem f cs :
  is_Some (collect f cs) -> forall c, c ∈ cs -> is_Some (f c).
Proof.
  induction cs as [|c cs IH]; intros [l Hl] c' Hc'.
  - by apply elem_of_nil in Hc'.
  - apply collect_Some_cons in Hl as (r & rs & Hr & Hrs & ->).
    apply elem_of_cons in Hc' as [->|Hc']; [eauto|]. apply IH; eauto.
Qed.

Lemma GetInnerText_total fuel h tags : forall p b,
  is_Some (getElementsByTagNameInternal fuel h p tags) ->
  is_Some (GetInnerText fuel h p b).
Proof.
  induction fuel as [|fuel IH]; intros p b; simpl; [by intros [? ?]|].
  unfold AsVElement. destruct (h !! p) as [[t|e]|] eqn:Hp; simpl;
    try (by intros [? ?]).
  destruct (collect _ (Children e)) as [rest|] eqn:Hrest; simpl;
    [|by intros [? ?]].
  intros _.
  destruct (innerText_children_total (fun c => GetInnerText fuel h c false)
              h (Children e)) with (i := 0%nat) (text := "") as [s ->].
  - intros c Hc [ce Hce].
    assert (Hs : is_Some (collect (fun child =>
        match AsVElement h child with
        | Some _ => getElementsByTagNameInternal fuel h child tags
        | None => Some []
        end) (Children e))) by (unfold AsVElement; rewrite Hrest; eauto).
    pose proof (collect_is_Some_elem _ _ Hs c Hc) as Hcc. simpl in Hcc.
    rewrite Hce in Hcc. by apply IH.
  - simpl. eauto.
Qed.

Lemma GetInnerText_wf fuel h p b :
  WellFormed fuel h -> is_elem h p -> is_Some (GetInnerText fuel h p b).
Proof.
  intros Hwf He. eapply GetInnerText_total. by apply WellFormed_elem.
Qed.

(** * Densities *)

Lemma linkLength_loop_total fuel h links :
  WellFormed fuel h -> Forall (is_elem h) links ->
  forall n, is_Some (linkLength_loop fuel h links n).
Proof.
  intros Hwf. induction 1 as [|link links [e He] Hl IH]; intros n; simpl;
    [eauto|].
  rewrite He. simpl.
  destruct (GetInnerText_wf fuel h link true Hwf) as [s ->];
    [unfold is_elem; rewrite He; eauto|].
  simpl. apply IH.
Qed.

Lemma GetLinkDensity_total fuel h p :
  WellFormed fuel h -> is_elem h p -> is_Some (GetLinkDensity fuel h p).
Proof.
  intros Hwf He. unfold GetLinkDensity.
  destruct (GetInnerText_wf fuel h p true Hwf He) as [s ->]. simpl.
  destruct (Strings.len s =? 0)%Z; [eauto|].
  destruct (WellFormed_tag fuel h p "a" Hwf He) as [links Hlinks].
  rewrite Hlinks. cbn [mbind option_bind].
  destruct (linkLength_loop_total fuel h links Hwf) with (n := 0%Z) as [n ->].
  - eapply GetElementsByTagName_elems; eauto.
  - simpl. eauto.
Qed.

Lemma GetTextDensity_total fuel h p :
  WellFormed fuel h -> is_elem h p -> is_Some (GetTextDensity fuel h p).
Proof.
  intros Hwf He. unfold GetTextDensity.
  destruct (GetInnerText_wf fuel h p true Hwf He) as [s ->]. simpl.
  destruct (Strings.len s =? 0)%Z; [eauto|].
  destruct He as [e ->]. simpl. eauto.
Qed.

(** * Parent chains *)

Lemma is_Some_bind_inv {A B} (m : option A) (f : A -> option B) :
  is_Some (m ≫= f) -> is_Some m.
Proof. destruct m; [eauto | by intros [? ?]]. Qed.

Lemma ancestors_loop_total f h : forall cur d f' m d',
  is_Some (GetNodeAncestors_loop f h cur 0 d) -> (f <= f')%nat ->
  exists l, GetNodeAncestors_loop f' h cur m d' = Some l /\
            Forall (is_elem h) l.
Proof.
  induction f as [|f IH]; intros cur d f' m d' Hs Hle.
  - destruct cur as [c|]; simpl in Hs; [by destruct Hs|].
    exists []. by destruct f'.
  - destruct cur as [c|]; [|exists []; by destruct f'].
    simpl in Hs. destruct (AsVElement h c) as [e|] eqn:He;
      simpl in Hs; [|by destruct Hs].
    destruct (GetNodeAncestors_loop f h (parent e) 0 (d + 1)) as [l0|] eqn:Hl0;
      [|by destruct Hs].
    destruct f' as [|f']; [lia|].
    simpl. destruct ((m <=? 0)%Z || (d' <? m)%Z); [|exists []; eauto].
    rewrite He. simpl.
    destruct (IH (parent e) (d + 1)%Z f' m (d' + 1)%Z) as (l & -> & Hl);
      [rewrite Hl0; eauto | lia |].
    simpl. eexists; split; [done|]. constructor; [|done].
    unfold is_elem. rewrite He. eauto.
Qed.

Lemma wf_parent_chain fuel h p e :
  WellFormed fuel h -> AsVElement h p = Some e ->
  exists f, (S f <= fuel)%nat /\
            is_Some (GetNodeAncestors_loop f h (parent e) 0 1).
Proof.
  intros Hwf He.
  destruct (WellFormed_elem fuel h p Hwf) as [_ Hs];
    [unfold is_elem; rewrite He; eauto|].
  destruct fuel as [|f]; simpl in Hs; [by destruct Hs|].
  rewrite He in Hs. simpl in Hs. exists f. split; [lia|].
  by apply is_Some_bind_inv in Hs.
Qed.

Lemma GetNodeAncestors_total fuel h p m :
  WellFormed fuel h -> is_elem h p ->
  exists l, GetNodeAncestors fuel h p m = Some l /\ Forall (is_elem h) l.
Proof.
  intros Hwf [e He]. unfold GetNodeAncestors. rewrite He. simpl.
  destruct (wf_parent_chain fuel h p e Hwf He) as (f & Hle & Hs).
  eapply ancestors_loop_total; [exact Hs | lia].
Qed.

Lemma promote_total f h scores : forall cur d f' c,
  is_Some (GetNodeAncestors_loop f h cur 0 d) -> (f <= f')%nat ->
  is_Some (promote f' h scores c cur).
Proof.
  induction f as [|f IH]; intros cur d f' c Hs Hle.
  - destruct cur as [q|]; simpl in Hs; [by destruct Hs|].
    destruct f'; simpl; eauto.
  - destruct cur as [q|]; [|destruct f'; simpl; eauto].
    simpl in Hs. destruct (AsVElement h q) as [e|] eqn:He;
      simpl in Hs; [|by destruct Hs].
    destruct (GetNodeAncestors_loop f h (parent e) 0 (d + 1)) as [l0|] eqn:Hl0;
      [|by destruct Hs].
    destruct f' as [|f']; [lia|].
    simpl. rewrite He. simpl.
    destruct (String.eqb _ "body"); [eauto|].
    eapply IH; [rewrite Hl0; eauto | lia].
Qed.

Lemma promote_wf fuel h scores p :
  WellFormed fuel h -> is_elem h p ->
  is_Some (promote fuel h scores p (Parent h p)).
Proof.
  intros Hwf [e He]. unfold Parent. rewrite He. simpl.
  destruct (wf_parent_chain fuel h p e Hwf He) as (f & Hle & Hs).
  eapply promote_total; [exact Hs | lia].
Qed.

Lemma isInside_total f h body targets : forall cur d f',
  is_Some (GetNodeAncestors_loop f h cur 0 d) -> (f <= f')%nat ->
  is_Some (isInside f' h body targets cur).
Proof.
  induction f as [|f IH]; intros cur d f' Hs Hle.
  - destruct cur as [q|]; simpl in Hs; [by destruct Hs|].
    destruct f'; simpl; eauto.
  - destruct cur as [q|]; [|destruct f'; simpl; eauto].
    simpl in Hs. destruct (AsVElement h q) as [e|] eqn:He;
      simpl in Hs; [|by destruct Hs].
    destruct (GetNodeAncestors_loop f h (parent e) 0 (d + 1)) as [l0|] eqn:Hl0;
      [|by destruct Hs].
    destruct f' as [|f']; [lia|].
    simpl. destruct (bool_decide (Some q = body)); [eauto|].
    destruct (bool_decide (Some q ∈ targets)); [eauto|].
    rewrite He. simpl.
    eapply IH; [rewrite Hl0; eauto | lia].
Qed.

Lemma isInside_wf fuel h body targets p :
  WellFormed fuel h -> is_elem h p ->
  is_Some (isInside fuel h body targets (Some p)).
Proof.
  intros Hwf He.
  destruct (WellFormed_elem fuel h p Hwf He) as [_ Hs].
  eapply isInside_total; [exact Hs | lia].
Qed.

(** * CountNodes *)

Lemma countChildren_total rec h cs :
  (forall c, c ∈ cs -> is_elem h c -> is_Some (rec c)) ->
  forall n, is_Some (countChildren rec h cs n).
Proof.
  induction cs as [|c cs IH]; intros Hrec n; simpl; [eauto|].
  destruct (AsVElement h c) as [e|] eqn:Hc.
  - destruct (Hrec c) as [k ->]; [by left | unfold is_elem; rewrite Hc; eauto|].
    simpl. apply IH. intros c' Hc'. apply Hrec. by right.
  - apply IH. intros c' Hc'. apply Hrec. by right.
Qed.

Lemma CountNodes_elem_total fuel h tags : forall p,
  is_Some (getElementsByTagNameInternal fuel h p tags) ->
  is_Some (CountNodes_elem fuel h p).
Proof.
  induction fuel as [|fuel IH]; intros p; simpl; [by intros [? ?]|].
  destruct (AsVElement h p) as [e|] eqn:Hp; simpl; [|by intros [? ?]].
  destruct (collect _ (Children e)) as [rest|] eqn:Hrest; simpl;
    [|by intros [? ?]].
  intros _. apply countChildren_total.
  intros c Hc [ce Hce].
  assert (Hs : is_Some (collect (fun child =>
      match AsVElement h child with
      | Some _ => getElementsByTagNameInternal fuel h child tags
      | None => Some []
      end) (Children e))) by (rewrite Hrest; eauto).
  pose proof (collect_is_Some_elem _ _ Hs c Hc) as Hcc. simpl in Hcc.
  rewrite Hce in Hcc. by apply IH.
Qed.

Lemma CountNodes_total fuel h root :
  WellFormed fuel h -> (forall p, root = Some p -> is_elem h p) ->
  is_Some (CountNodes fuel h root).
Proof.
  intros Hwf Hr. destruct root as [p|]; simpl; [|eauto].
  eapply CountNodes_elem_total. apply WellFormed_elem; auto.
Qed.

(** * Proofs: the candidate scorer *)

(** * Searching by tag name is filtering the list of all elements *)

Lemma collect_filter (P : loc -> Prop) `{!forall x, Decision (P x)} f g cs :
  forall l, collect f cs = Some l ->
  (forall c r, f c = Some r -> g c = Some (filter P r)) ->
  collect g cs = Some (filter P l).
Proof.
  induction cs as [|c cs IH]; intros l Hl Hfg.
  - by injection Hl as <-.
  - apply collect_Some_cons in Hl as (r & rs & Hr & Hrs & ->).
    simpl. rewrite (Hfg _ _ Hr). simpl. rewrite (IH _ Hrs Hfg). simpl.
    by rewrite filter_app.
Qed.

Lemma getElementsByTagNameInternal_filter fuel h t :
  t <> "*" ->
  forall p all, getElementsByTagNameInternal fuel h p ["*"] = Some all ->
  getElementsByTagNameInternal fuel h p [t]
  = Some (filter (fun x => hasTag h t x = true) all).
Proof.
  intros Ht. induction fuel as [|fuel IH]; intros p all; simpl; [discriminate|].
  destruct (AsVElement h p) as [e|] eqn:He; simpl; [|discriminate].
  destruct (collect _ (Children e)) as [rest|] eqn:Hrest; simpl; [|discriminate].
  intros [= <-].
  erewrite collect_filter; [|exact Hrest|].
  - simpl. f_equal. rewrite filter_cons.
    assert (Hp : hasTag h t p = String.eqb t (TagName e))
      by (unfold hasTag; by rewrite He).
    unfold tag_matches. simpl.
    assert (String.eqb t "*" = false) as -> by (by apply String.eqb_neq).
    simpl. rewrite orb_false_r.
    destruct (String.eqb t (TagName e)) eqn:Heq.
    + by rewrite decide_True.
    + rewrite decide_False; [done | congruence].
  - intros c r. simpl. destruct (AsVElement h c).
    + apply IH.
    + by intros [= <-].
Qed.

Lemma GetElementsByTagName_filter fuel h root tag all :
  Strings.ToLower tag <> "*" ->
  GetElementsByTagName fuel h root "*" = Some all ->
  GetElementsByTagName fuel h root tag
  = Some (filter (fun x => hasTag h (Strings.ToLower tag) x = true) all).
Proof.
  unfold GetElementsByTagName. destruct root as [r|]; simpl; [|discriminate].
  intros. by apply getElementsByTagNameInternal_filter.
Qed.

(** * The shortcut on a single article or main element *)

Lemma FindMainCandidates_article R fuel h scores doc nb a :
  GetElementsByTagName fuel h (DocumentElement doc) "article" = Some [a] ->
  FindMainCandidates R fuel h scores doc nb = Some ([a], scores).
Proof. intros H. unfold FindMainCandidates. by rewrite H. Qed.

Lemma FindMainCandidates_main R fuel h scores doc nb l m :
  GetElementsByTagName fuel h (DocumentElement doc) "article" = Some l ->
  length l <> 1%nat ->
  GetElementsByTagName fuel h (DocumentElement doc) "main" = Some [m] ->
  FindMainCandidates R fuel h scores doc nb = Some ([m], scores).
Proof.
  intros Hl Hlen Hm. unfold FindMainCandidates. rewrite Hl.
  cbn [mbind option_bind]. rewrite Hm. cbn [mbind option_bind].
  destruct l as [|x [|y l]]; simpl in *; congruence.
Qed.

(** * Loops *)

Lemma forEach_inv {A S} (body : S -> A -> option S)
    (I : S -> Prop) (P : A -> Prop) xs :
  Forall P xs ->
  (forall s x s', I s -> P x -> body s x = Some s' -> I s') ->
  forall s s', I s -> forEach body s xs = Some s' -> I s'.
Proof.
  intros HP Hstep. induction HP as [|x xs Hx Hxs IH]; intros s s' Hs Hrun.
  - by injection Hrun as <-.
  - apply forEach_Some_cons in Hrun as (s1 & H1 & Hrest). eauto.
Qed.

Lemma forEach_total {A S} (body : S -> A -> option S)
    (I : S -> Prop) (P : A -> Prop) xs :
  Forall P xs ->
  (forall s x, I s -> P x -> exists s', body s x = Some s' /\ I s') ->
  forall s, I s -> exists s', forEach body s xs = Some s' /\ I s'.
Proof.
  intros HP Hstep. induction HP as [|x xs Hx Hxs IH]; intros s Hs.
  - exists s. done.
  - destruct (Hstep s x Hs Hx) as (s1 & H1 & Hs1).
    destruct (IH s1 Hs1) as (s' & Hrun & Hs').
    exists s'. simpl. rewrite H1. simpl. done.
Qed.

(** * The scoring loop *)

Lemma scoreAncestor_scored R h c level scores candidates a d :
  scores !! a = Some d ->
  scoreAncestor R h c level (scores, candidates) a
  = Some (<[a := mkReadabilityData
              (ContentScore d + c / float64 (scoreDivider level))%Q]> scores,
          candidates).
Proof.
  intros Hd. unfold scoreAncestor. rewrite Hd. simpl. by rewrite Hd.
Qed.

Lemma scoreAncestor_unscored R h c level scores candidates a e :
  scores !! a = None -> AsVElement h a = Some e ->
  scoreAncestor R h c level (scores, candidates) a
  = Some (<[a := mkReadabilityData
              (initialScore R e + c / float64 (scoreDivider level))%Q]> scores,
          candidates ++ [a]).
Proof.
  intros Hd He. unfold scoreAncestor, InitializeNode. rewrite Hd, He. simpl.
  rewrite lookup_insert_eq. simpl. by rewrite insert_insert_eq.
Qed.

Lemma scoring_inv_init h scores0 : scoring_inv h scores0 (scores0, []).
Proof.
  repeat split; simpl; [constructor | constructor | auto | |].
  - intros [?|Hn]; [done | by apply elem_of_nil in Hn].
  - intros a Hn. by apply elem_of_nil in Hn.
Qed.

Lemma scoreAncestor_inv R h scores0 c level st a st' :
  scoring_inv h scores0 st ->
  scoreAncestor R h c level st a = Some st' ->
  scoring_inv h scores0 st'.
Proof.
  destruct st as [scores candidates]. intros (Hnd & Hel & Hiff & Hfresh) Hstep.
  cbn [fst snd] in *. destruct (scores !! a) as [d|] eqn:Hd.
  - rewrite (scoreAncestor_scored _ _ _ _ _ _ _ _ Hd) in Hstep.
    injection Hstep as <-. repeat split; simpl; auto.
    + intros Hs. apply Hiff. destruct (decide (a0 = a)) as [->|Hne].
      * rewrite Hd. eauto.
      * by rewrite lookup_insert_ne in Hs.
    + intros Hs. destruct (decide (a0 = a)) as [->|Hne].
      * rewrite lookup_insert_eq. eauto.
      * rewrite lookup_insert_ne by done. by apply Hiff.
  - destruct (AsVElement h a) as [e|] eqn:He.
    + rewrite (scoreAncestor_unscored _ _ _ _ _ _ _ _ Hd He) in Hstep.
      assert (Hnew : scores0 !! a = None).
      { destruct (scores0 !! a) eqn:H0; [|done].
        assert (is_Some (scores !! a)) as [? ?] by (apply Hiff; eauto).
        congruence. }
      injection Hstep as <-. repeat split; simpl.
      * apply NoDup_app. repeat split; [done | | apply NoDup_singleton].
        intros x Hx ->%list_elem_of_singleton.
        assert (is_Some (scores !! a)) as [? ?] by (apply Hiff; auto).
        congruence.
      * apply Forall_app. split; [done|]. constructor; [|constructor].
        unfold is_elem. rewrite He. eauto.
      * intros Hs. destruct (decide (a0 = a)) as [->|Hne].
        -- right. apply elem_of_app. right. by left.
        -- rewrite lookup_insert_ne in Hs by done.
           destruct (proj1 (Hiff a0) Hs); [by left|].
           right. apply elem_of_app. by left.
      * intros Hs. destruct (decide (a0 = a)) as [->|Hne].
        -- rewrite lookup_insert_eq. eauto.
        -- rewrite lookup_insert_ne by done. apply Hiff.
           destruct Hs as [?|[?|Hin%list_elem_of_singleton]%elem_of_app];
             auto. congruence.
      * intros b [Hb|Hb%list_elem_of_singleton]%elem_of_app; [auto|].
        by subst b.
    + unfold scoreAncestor, InitializeNode in Hstep. rewrite Hd, He in Hstep.
      discriminate.
Qed.

Lemma scoreAncestors_inv R h scores0 c ancestors : forall level st st',
  scoring_inv h scores0 st ->
  scoreAncestors R h c level st ancestors = Some st' ->
  scoring_inv h scores0 st'.
Proof.
  induction ancestors as [|a ancestors IH]; intros level st st' Hinv; simpl.
  - by intros [= <-].
  - destruct (scoreAncestor R h c level st a) as [st1|] eqn:H1; simpl;
      [|discriminate].
    apply IH. by eapply scoreAncestor_inv.
Qed.

Lemma scoreElement_inv R fuel h scores0 st x st' :
  scoring_inv h scores0 st ->
  scoreElement R fuel h st x = Some st' ->
  scoring_inv h scores0 st'.
Proof.
  intros Hinv. unfold scoreElement.
  destruct (GetInnerText fuel h x false) as [text|]; simpl; [|discriminate].
  destruct (Strings.len text <? 25)%Z; [by intros [= <-]|].
  destruct (GetNodeAncestors fuel h x 3) as [ancestors|]; simpl;
    [|discriminate].
  destruct (Z.of_nat (length ancestors) =? 0)%Z; [by intros [= <-]|].
  by apply scoreAncestors_inv.
Qed.

Lemma scoreAncestors_total R h c ancestors : forall level st,
  Forall (is_elem h) ancestors ->
  is_Some (scoreAncestors R h c level st ancestors).
Proof.
  induction ancestors as [|a ancestors IH]; intros level st Hel; simpl;
    [eauto|].
  apply Forall_cons in Hel as [[e He] Hel]. destruct st as [scores cands].
  destruct (scores !! a) as [d|] eqn:Hd.
  - rewrite (scoreAncestor_scored _ _ _ _ _ _ _ _ Hd). simpl. by apply IH.
  - rewrite (scoreAncestor_unscored _ _ _ _ _ _ _ _ Hd He). simpl. by apply IH.
Qed.

Lemma scoreElement_total R fuel h st x :
  WellFormed fuel h -> is_elem h x ->
  is_Some (scoreElement R fuel h st x).
Proof.
  intros Hwf Hx. unfold scoreElement.
  destruct (GetInnerText_wf fuel h x false Hwf Hx) as [text ->]. simpl.
  destruct (Strings.len text <? 25)%Z; [eauto|].
  destruct (GetNodeAncestors_total fuel h x 3 Hwf Hx) as (l & -> & Hl). simpl.
  destruct (Z.of_nat (length l) =? 0)%Z; [eauto|].
  by apply scoreAncestors_total.
Qed.

(** * Adjusting and promoting the candidates *)

Lemma adjustCandidate_total fuel h st c :
  WellFormed fuel h -> is_elem h c ->
  is_Some (adjustCandidate fuel h st c).
Proof.
  intros Hwf Hc. unfold adjustCandidate. destruct st as [scores scored].
  destruct (scores !! c) as [d|]; [|eauto].
  destruct (GetLinkDensity_total fuel h c Hwf Hc) as [ld ->]. simpl.
  destruct (GetTextDensity_total fuel h c Hwf Hc) as [td ->]. simpl.
  match goal with |- context [promote fuel h ?s c (Parent h c)] =>
    destruct (promote_wf fuel h s c Hwf Hc) as [cur ->] end.
  simpl.
  match goal with |- context [?m !! cur] => destruct (m !! cur) end; [|eauto].
  destruct (isDuplicate scored cur); eauto.
Qed.

(** * Sorting keeps the length *)

Lemma bubble_length k : forall s, length (bubble k s) = length s.
Proof.
  induction k as [|k IH]; intros s; [by destruct s|].
  destruct s as [|a [|b rest]]; simpl; try done.
  destruct (Qltb (score a) (score b)); simpl; by rewrite IH.
Qed.

Lemma bubbleSort_length s : length (bubbleSort s) = length s.
Proof.
  unfold bubbleSort. generalize (length s) at 1 2 as n.
  intros n. generalize (seq 0 (n - 1)) as idx. intros idx. revert s.
  induction idx as [|i idx IH]; intros s; simpl; [done|].
  by rewrite IH, bubble_length.
Qed.

(** * The number of candidates returned *)


Lemma topCandidatesOrBody_nil doc nb b :
  Body doc = Some b -> topCandidatesOrBody doc [] nb = [b].
Proof. intros Hb. unfold topCandidatesOrBody. rewrite Hb. by rewrite take_nil. Qed.



(** * FindMainCandidates returns *)

Lemma elementsToScore_total fuel h body tags : forall acc,
  WellFormed fuel h -> is_elem h body -> Forall (is_elem h) acc ->
  exists els,
    forEach (fun acc tag =>
               elements ← GetElementsByTagName fuel h (Some body) tag;
               Some (acc ++ elements)) acc tags = Some els /\
    Forall (is_elem h) els.
Proof.
  intros acc Hwf Hb. revert acc.
  induction tags as [|t tags IH]; intros acc Hacc; simpl; [eauto|].
  destruct (WellFormed_tag fuel h body t Hwf Hb) as [l Hl]. rewrite Hl.
  simpl. apply IH. apply Forall_app. split; [done|].
  by eapply GetElementsByTagName_elems.
Qed.

Lemma FindMainCandidates_total R fuel h scores doc nb root body :
  WellFormed fuel h ->
  DocumentElement doc = Some root -> is_elem h root ->
  Body doc = Some body -> is_elem h body ->
  is_Some (FindMainCandidates R fuel h scores doc nb).
Proof.
  intros Hwf Hr Hre Hb Hbe. unfold FindMainCandidates. rewrite Hr, Hb.
  destruct (WellFormed_tag fuel h root "article" Hwf Hre) as [articles ->].
  cbn [mbind option_bind].
  destruct (WellFormed_tag fuel h root "main" Hwf Hre) as [mains ->].
  cbn [mbind option_bind].
  assert (Hfull : forall nb',
    is_Some (
      elementsToScore ←
         forEach (fun acc tag =>
                    elements ← GetElementsByTagName fuel h (Some body) tag;
                    Some (acc ++ elements)) [] DefaultTagsToScore;
       '(scores, candidates) ←
         forEach (scoreElement R fuel h) (scores, []) elementsToScore;
       '(scores, scoredCandidates) ←
         forEach (adjustCandidate fuel h) (scores, []) candidates;
       Some (topCandidatesOrBody doc (bubbleSort scoredCandidates) nb',
             scores))).
  { intros nb'.
    destruct (elementsToScore_total fuel h body DefaultTagsToScore [] Hwf Hbe)
      as (els & -> & Hels); [constructor|].
    cbn [mbind option_bind].
    destruct (forEach_total (scoreElement R fuel h)
                (scoring_inv h scores) (is_elem h) els Hels) with
      (s := (scores, @nil loc)) as ([s1 cands] & -> & Hinv).
    { intros s x Hs Hx.
      destruct (scoreElement_total R fuel h s x Hwf Hx) as [s' Hs'].
      exists s'. split; [done|]. by eapply scoreElement_inv. }
    { apply scoring_inv_init. }
    cbn [mbind option_bind].
    destruct Hinv as (_ & Hcands & _ & _). cbn [snd] in Hcands.
    destruct (forEach_total (adjustCandidate fuel h)
                (fun _ => True) (is_elem h) cands Hcands) with
      (s := (s1, @nil scoredCandidate)) as ([s2 scored] & -> & _); [|done|].
    { intros s x _ Hx.
      destruct (adjustCandidate_total fuel h s x Hwf Hx) as [s' Hs'].
      eauto. }
    cbn [mbind option_bind]. eauto. }
  destruct articles as [|a [|a' articles]]; try (by eauto);
    destruct mains as [|m [|m' mains]]; try (by eauto); apply Hfull.
Qed.

(** * Proofs: extraction and classification return *)

(** * Unlinking keeps a graph well formed *)

Lemma ancestors_loop_unlinks h h' :
  unlinks_only h h' ->
  forall f cur m d,
    GetNodeAncestors_loop f h' cur m d = GetNodeAncestors_loop f h cur m d.
Proof.
  intros H f. induction f as [|f IH]; intros cur m d; destruct cur as [c|];
    simpl; try done.
  destruct ((m <=? 0)%Z || (d <? m)%Z); [|done].
  destruct (AsVElement h c) as [e|] eqn:He.
  - destruct (unlinks_elem _ _ _ _ H He) as (e' & -> & Hp & _). simpl.
    by rewrite Hp, IH.
  - destruct (AsVElement h' c) as [e'|] eqn:He'; [|done].
    destruct (unlinks_elem_inv _ _ _ _ H He') as (e & He2 & _). congruence.
Qed.

Lemma WellFormed_unlinks fuel h h' :
  unlinks_only h h' -> WellFormed fuel h -> WellFormed fuel h'.
Proof.
  intros H Hwf p n Hp. destruct n as [t|e']; simpl; [done|].
  assert (He' : AsVElement h' p = Some e') by (unfold AsVElement; by rewrite Hp).
  destruct (unlinks_elem_inv _ _ _ _ H He') as (e & He & _).
  assert (Hel : is_elem h p) by (exists e; exact He).
  destruct (WellFormed_elem fuel h p Hwf Hel) as [[l Hl] Hc].
  split.
  - destruct (getElementsByTagNameInternal_mono _ _ _ _ H _ _ Hl)
      as (l' & -> & _). eauto.
  - by rewrite (ancestors_loop_unlinks _ _ H).
Qed.

Lemma is_elem_unlinks h h' p :
  unlinks_only h h' -> is_elem h p -> is_elem h' p.
Proof. intros H He. unfold is_elem. by apply (unlinks_is_elem h h' p H). Qed.

(** * The candidates returned are elements *)

Lemma promote_elem h scores : forall fuel c cur r,
  is_elem h c -> promote fuel h scores c cur = Some r -> is_elem h r.
Proof.
  induction fuel as [|fuel IH]; intros c cur r Hc; destruct cur as [p|];
    simpl; try (by intros [= <-]); try discriminate.
  destruct (AsVElement h p) as [pe|] eqn:Hp; simpl; [|discriminate].
  destruct (String.eqb _ "body"); [by intros [= <-]|].
  apply IH.
  destruct (scores !! p), (scores !! c); try done.
  destruct (Qltb _ _); [|done]. unfold is_elem. rewrite Hp. eauto.
Qed.

Lemma adjustCandidate_elems fuel h st c st' :
  is_elem h c -> scored_elems h st ->
  adjustCandidate fuel h st c = Some st' -> scored_elems h st'.
Proof.
  intros Hc Hst. unfold adjustCandidate. destruct st as [scores scored].
  destruct (scores !! c) as [d|]; [|by intros [= <-]].
  destruct (GetLinkDensity fuel h c) as [ld|]; simpl; [|discriminate].
  destruct (GetTextDensity fuel h c) as [td|]; simpl; [|discriminate].
  match goal with |- context [promote fuel h ?s c (Parent h c)] =>
    destruct (promote fuel h s c (Parent h c)) as [cur|] eqn:Hcur end;
    simpl; [|discriminate].
  apply promote_elem in Hcur; [|done].
  match goal with |- context [?m !! cur] => destruct (m !! cur) end;
    [|by intros [= <-]].
  destruct (isDuplicate scored cur); intros [= <-]; [done|].
  unfold scored_elems in *. simpl in *. apply Forall_app. split; [done|].
  by constructor.
Qed.

Lemma bubble_Forall (P : scoredCandidate -> Prop) k : forall s,
  Forall P s -> Forall P (bubble k s).
Proof.
  induction k as [|k IH]; intros s Hs; [by destruct s|].
  destruct s as [|a [|b rest]]; simpl; try done.
  apply Forall_cons in Hs as [Ha Hs]. apply Forall_cons in Hs as [Hb Hs].
  destruct (Qltb (score a) (score b)); constructor; auto.
Qed.

Lemma bubbleSort_Forall (P : scoredCandidate -> Prop) s :
  Forall P s -> Forall P (bubbleSort s).
Proof.
  unfold bubbleSort. generalize (length s) as n.
  intros n. generalize (seq 0 (n - 1)) as idx. intros idx. revert s.
  induction idx as [|i idx IH]; intros s Hs; simpl; [done|].
  apply IH. by apply bubble_Forall.
Qed.

Lemma topCandidatesOrBody_elems h doc scored nb :
  Forall (fun sc => is_elem h (element sc)) scored ->
  (forall b, Body doc = Some b -> is_elem h b) ->
  Forall (is_elem h) (topCandidatesOrBody doc scored nb).
Proof.
  intros Hs Hb. unfold topCandidatesOrBody.
  set (k := Z.to_nat _).
  assert (Ht : Forall (is_elem h) (map element (take k scored))).
  { apply Forall_map. by apply Forall_take. }
  destruct (map element (take k scored)) as [|x l]; [|done].
  destruct (Body doc) as [b|]; [|done]. constructor; auto.
Qed.

Lemma FindMainCandidates_elems R fuel h scores doc nb res scores' :
  (forall b, Body doc = Some b -> is_elem h b) ->
  FindMainCandidates R fuel h scores doc nb = Some (res, scores') ->
  Forall (is_elem h) res.
Proof.
  intros Hb. unfold FindMainCandidates.
  destruct (GetElementsByTagName fuel h (DocumentElement doc) "article")
    as [articles|] eqn:Ha; cbn [mbind option_bind]; [|discriminate].
  apply GetElementsByTagName_elems in Ha.
  intros Hrun.
  assert (Hrest :
    (mains ← GetElementsByTagName fuel h (DocumentElement doc) "main";
     match mains with
     | [m] => Some ([m], scores)
     | _ =>
       elementsToScore ←
         forEach (fun acc tag =>
                    elements ← GetElementsByTagName fuel h (Body doc) tag;
                    Some (acc ++ elements)) [] DefaultTagsToScore;
       '(scores, candidates) ←
         forEach (scoreElement R fuel h) (scores, []) elementsToScore;
       '(scores, scoredCandidates) ←
         forEach (adjustCandidate fuel h) (scores, []) candidates;
       Some (topCandidatesOrBody doc (bubbleSort scoredCandidates)
               (if (nb <=? 0)%Z then DefaultNTopCandidates else nb), scores)
     end) = Some (res, scores') -> Forall (is_elem h) res).
  { clear Hrun.
    destruct (GetElementsByTagName fuel h (DocumentElement doc) "main")
      as [mains|] eqn:Hm; cbn [mbind option_bind]; [|discriminate].
    apply GetElementsByTagName_elems in Hm.
    assert (Hfull :
      (elementsToScore ←
         forEach (fun acc tag =>
                    elements ← GetElementsByTagName fuel h (Body doc) tag;
                    Some (acc ++ elements)) [] DefaultTagsToScore;
       '(scores, candidates) ←
         forEach (scoreElement R fuel h) (scores, []) elementsToScore;
       '(scores, scoredCandidates) ←
         forEach (adjustCandidate fuel h) (scores, []) candidates;
       Some (topCandidatesOrBody doc (bubbleSort scoredCandidates)
               (if (nb <=? 0)%Z then DefaultNTopCandidates else nb), scores))
      = Some (res, scores') -> Forall (is_elem h) res).
    { destruct (forEach _ [] DefaultTagsToScore) as [els|];
        cbn [mbind option_bind]; [|discriminate].
      destruct (forEach (scoreElement R fuel h) (scores, []) els)
        as [[s1 cands]|] eqn:Hscore; cbn [mbind option_bind]; [|discriminate].
      destruct (forEach (adjustCandidate fuel h) (s1, []) cands)
        as [[s2 scored]|] eqn:Hadj; cbn [mbind option_bind]; [|discriminate].
      intros [= <- <-]. apply topCandidatesOrBody_elems; [|done].
      apply bubbleSort_Forall.
      assert (Hcands : Forall (is_elem h) cands).
      { assert (Hinv : scoring_inv h scores (s1, cands)).
        { eapply (forEach_inv (scoreElement R fuel h) (scoring_inv h scores)
                    (fun _ => True));
            [apply Forall_true; done | | apply scoring_inv_init | exact Hscore].
          intros s x s' Hs _ Hstep. by eapply scoreElement_inv. }
        by destruct Hinv as (_ & ? & _ & _). }
      change (scored_elems h (s2, scored)).
      eapply (forEach_inv (adjustCandidate fuel h) (scored_elems h)
                (is_elem h)); [exact Hcands | | | exact Hadj].
      - intros s x s' Hs Hx Hstep. by eapply adjustCandidate_elems.
      - constructor. }
    destruct mains as [|m [|m' mains]]; auto.
    intros [= <- <-]. done. }
  destruct articles as [|a [|a' articles]]; auto.
  injection Hrun as <- <-. done.
Qed.

(** * FindStructuralElements returns *)

Lemma forEach_is_Some {A S} (body : S -> A -> option S)
    (I : S -> Prop) (P : A -> Prop) xs s :
  Forall P xs -> I s ->
  (forall s x, I s -> P x -> exists s', body s x = Some s' /\ I s') ->
  exists s', forEach body s xs = Some s' /\ I s'.
Proof. intros HP Hs Hstep. by eapply forEach_total. Qed.

Lemma findHeader_total fuel h doc root body :
  WellFormed fuel h ->
  DocumentElement doc = Some root -> is_elem h root ->
  Body doc = Some body -> is_elem h body ->
  is_Some (findHeader fuel h doc).
Proof.
  intros Hwf Hr Hre Hb Hbe. unfold findHeader. rewrite Hr, Hb.
  destruct (WellFormed_tag fuel h root "header" Hwf Hre) as [hs ->].
  cbn [mbind option_bind].
  destruct (WellFormed_tag fuel h body "*" Hwf Hbe) as [all Hall].
  rewrite Hall. cbn [mbind option_bind].
  apply GetElementsByTagName_elems in Hall.
  match goal with |- context [forEach ?f None all] =>
    destruct (forEach_is_Some f (fun _ => True) (is_elem h) all None Hall I)
      as (r & Hrun & _) end.
  { intros s x _ [e He]. rewrite He. simpl.
    destruct (isHeaderLike e); [|eauto].
    destruct s as [hd|]; [|eauto].
    destruct (_ && _); eauto. }
  rewrite Hrun. destruct hs as [|x [|y hs]]; eauto.
Qed.

Lemma findFooter_total fuel h doc header root body :
  WellFormed fuel h ->
  DocumentElement doc = Some root -> is_elem h root ->
  Body doc = Some body -> is_elem h body ->
  is_Some (findFooter fuel h doc header).
Proof.
  intros Hwf Hr Hre Hb Hbe. unfold findFooter. rewrite Hr, Hb.
  destruct (WellFormed_tag fuel h root "footer" Hwf Hre) as [fs ->].
  cbn [mbind option_bind].
  destruct (WellFormed_tag fuel h body "*" Hwf Hbe) as [all Hall].
  rewrite Hall. cbn [mbind option_bind].
  apply GetElementsByTagName_elems in Hall. apply Forall_rev in Hall.
  match goal with |- context [forEach ?f None (rev all)] =>
    destruct (forEach_is_Some f (fun _ => True) (is_elem h) (rev all) None
                Hall I) as (r & Hrun & _) end.
  { intros s x _ Hx. pose proof Hx as [e He]. rewrite He. simpl.
    destruct (isFooterLike e); [|eauto].
    destruct s as [ft|]; [eauto|].
    destruct (isInside_wf fuel h (Some body) [header] x Hwf Hx) as [b ->].
    simpl. destruct b; eauto. }
  rewrite Hrun. destruct fs as [|x [|y fs]]; eauto.
Qed.

Lemma AddSignificantElementsByClassOrId_total fuel h body nodes :
  WellFormed fuel h -> is_elem h body -> Forall (is_elem h) nodes ->
  exists nodes',
    AddSignificantElementsByClassOrId fuel h (Some body) nodes = Some nodes' /\
    Forall (is_elem h) nodes'.
Proof.
  intros Hwf Hbe Hn. unfold AddSignificantElementsByClassOrId.
  destruct (WellFormed_tag fuel h body "*" Hwf Hbe) as [all Hall].
  rewrite Hall. cbn [mbind option_bind].
  apply GetElementsByTagName_elems in Hall.
  apply (forEach_is_Some _ (Forall (is_elem h)) (is_elem h)); [done|done|].
  intros s x Hs Hx. pose proof Hx as [e He]. rewrite He.
  cbn [mbind option_bind].
  destruct (existsb _ significantPatterns); [|eauto].
  destruct (bool_decide (x ∈ s)); [eauto|].
  eexists; split; [done|]. apply Forall_app. split; [done|]. by constructor.
Qed.

Lemma FindStructuralElements_total fuel h doc root body :
  WellFormed fuel h ->
  DocumentElement doc = Some root -> is_elem h root ->
  Body doc = Some body -> is_elem h body ->
  is_Some (FindStructuralElements fuel h doc).
Proof.
  intros Hwf Hr Hre Hb Hbe. unfold FindStructuralElements.
  destruct (findHeader_total fuel h doc root body) as [header ->]; try done.
  cbn [mbind option_bind].
  destruct (findFooter_total fuel h doc header root body) as [footer ->];
    try done.
  cbn [mbind option_bind]. rewrite Hb.
  destruct (WellFormed_tag fuel h body "main" Hwf Hbe) as [l1 H1]. rewrite H1.
  cbn [mbind option_bind].
  destruct (WellFormed_tag fuel h body "article" Hwf Hbe) as [l2 H2]. rewrite H2.
  cbn [mbind option_bind].
  destruct (WellFormed_tag fuel h body "section" Hwf Hbe) as [l3 H3]. rewrite H3.
  cbn [mbind option_bind].
  destruct (WellFormed_tag fuel h body "aside" Hwf Hbe) as [l4 H4]. rewrite H4.
  cbn [mbind option_bind].
  destruct (WellFormed_tag fuel h body "nav" Hwf Hbe) as [l5 H5]. rewrite H5.
  cbn [mbind option_bind].
  apply GetElementsByTagName_elems in H1, H2, H3, H4, H5.
  destruct (AddSignificantElementsByClassOrId_total fuel h body
              (l1 ++ l2 ++ l3 ++ l4 ++ l5) Hwf Hbe) as (nodes & -> & Hnodes).
  { repeat (apply Forall_app; split); done. }
  cbn [mbind option_bind].
  match goal with |- context [forEach ?f [] nodes] =>
    destruct (forEach_is_Some f (fun _ => True) (is_elem h) nodes [] Hnodes I)
      as (r & Hrun & _) end.
  { intros s x _ Hx. pose proof Hx as [e He].
    destruct (isInside_wf fuel h (Some body) [header; footer] x Hwf Hx)
      as [b ->].
    simpl. destruct (negb b && _); [|eauto].
    rewrite He. simpl. destruct (_ && _); eauto. }
  rewrite Hrun. cbn [mbind option_bind]. eauto.
Qed.

(** * ClassifyPageType returns *)

Lemma classifyByUrl_total fuel h candidates charThreshold url :
  WellFormed fuel h -> Forall (is_elem h) candidates ->
  is_Some (classifyByUrl fuel h candidates charThreshold url).
Proof.
  intros Hwf Hc. unfold classifyByUrl.
  destruct (Strings.Contains url "/articles/"); [eauto|].
  destruct (_ || _); [eauto|].
  destruct (_ || _); [|eauto].
  destruct Hc as [|c0 cs Hc0 _]; [eauto|].
  destruct (GetInnerText_wf fuel h c0 false Hwf Hc0) as [t ->]. simpl.
  destruct (_ <? _)%Z; [|eauto].
  destruct (GetLinkDensity_total fuel h c0 Hwf Hc0) as [ld ->]. simpl.
  destruct (Qltb ld _); eauto.
Qed.

Lemma countStructure_total fuel h doc body :
  WellFormed fuel h -> Body doc = Some body -> is_elem h body ->
  is_Some (countStructure fuel h doc).
Proof.
  intros Hwf Hb Hbe. unfold countStructure. rewrite Hb.
  destruct (WellFormed_tag fuel h body "h1" Hwf Hbe) as [l1 ->].
  cbn [mbind option_bind].
  destruct (WellFormed_tag fuel h body "h2" Hwf Hbe) as [l2 ->].
  cbn [mbind option_bind].
  destruct (WellFormed_tag fuel h body "h3" Hwf Hbe) as [l3 ->].
  cbn [mbind option_bind].
  destruct (WellFormed_tag fuel h body "img" Hwf Hbe) as [l4 ->].
  cbn [mbind option_bind].
  destruct (WellFormed_tag fuel h body "a" Hwf Hbe) as [l5 ->].
  cbn [mbind option_bind].
  destruct (WellFormed_tag fuel h body "article" Hwf Hbe) as [l6 ->].
  cbn [mbind option_bind].
  destruct (WellFormed_tag fuel h body "li" Hwf Hbe) as [l7 ->].
  cbn [mbind option_bind].
  destruct Hbe as [be ->]. cbn [mbind option_bind]. eauto.
Qed.

Lemma semanticTagRule_total fuel h top charThreshold n :
  WellFormed fuel h -> is_elem h top ->
  is_Some (semanticTagRule fuel h top charThreshold n).
Proof.
  intros Hwf Htop. unfold semanticTagRule.
  pose proof Htop as [te ->]. cbn [mbind option_bind].
  destruct (IsSemanticTag h te); [|eauto].
  destruct (GetInnerText_wf fuel h top false Hwf Htop) as [t ->].
  destruct (GetLinkDensity_total fuel h top Hwf Htop) as [ld ->].
  cbn [mbind option_bind].
  destruct (_ && _); [destruct (_ <? _)%Z; eauto|].
  destruct (_ <? _)%Z; eauto.
Qed.

Lemma scoreParityRule_total fuel h scores doc candidates ld n body :
  WellFormed fuel h -> Body doc = Some body -> is_elem h body ->
  is_Some (scoreParityRule fuel h scores doc candidates ld n).
Proof.
  intros Hwf Hb Hbe. unfold scoreParityRule.
  destruct candidates as [|top [|second cs]]; [eauto|eauto|].
  destruct (Qltb _ _); [|eauto]. rewrite Hb. cbn [mbind option_bind].
  destruct (GetInnerText_wf fuel h body false Hwf Hbe) as [bt ->].
  cbn [mbind option_bind]. eauto.
Qed.

Lemma classifyByContent_total fuel h scores doc candidates charThreshold body :
  WellFormed fuel h -> Body doc = Some body -> is_elem h body ->
  Forall (is_elem h) candidates ->
  is_Some (classifyByContent fuel h scores doc candidates charThreshold).
Proof.
  intros Hwf Hb Hbe Hc. unfold classifyByContent.
  destruct Hc as [|top cs Htop Hcs]; [eauto|].
  destruct (countStructure_total fuel h doc body Hwf Hb Hbe) as [n ->].
  cbn [mbind option_bind].
  destruct (hasIndexPageCharacteristics n); [eauto|].
  destruct (semanticTagRule_total fuel h top charThreshold n Hwf Htop)
    as [sem ->].
  cbn [mbind option_bind]. destruct sem as [pt|]; [eauto|].
  destruct (GetInnerText_wf fuel h top false Hwf Htop) as [t ->].
  destruct (GetLinkDensity_total fuel h top Hwf Htop) as [ld ->].
  cbn [mbind option_bind].
  destruct (articleFeatures _ _ _ _); [eauto|].
  destruct (scoreParityRule_total fuel h scores doc (top :: cs) ld n body
              Hwf Hb Hbe) as [bal ->].
  cbn [mbind option_bind]. destruct bal; [eauto|].
  rewrite Hb. cbn [mbind option_bind].
  destruct (GetInnerText_wf fuel h body false Hwf Hbe) as [bt ->].
  cbn [mbind option_bind]. eauto.
Qed.

Lemma ClassifyPageType_total fuel h scores doc candidates charThreshold url body :
  WellFormed fuel h -> Body doc = Some body -> is_elem h body ->
  Forall (is_elem h) candidates ->
  is_Some (ClassifyPageType fuel h scores doc candidates charThreshold url).
Proof.
  intros Hwf Hb Hbe Hc. unfold ClassifyPageType.
  set (ct := if (charThreshold <=? 0)%Z then _ else _).
  assert (Hurl : is_Some (if negb (String.eqb url "")
                          then classifyByUrl fuel h candidates ct url
                          else Some None)).
  { destruct (negb _); [by apply classifyByUrl_total | eauto]. }
  destruct Hurl as [byUrl ->]. cbn [mbind option_bind].
  destruct byUrl as [pt|]; [eauto|]. by eapply classifyByContent_total.
Qed.

(** * ExtractContent and Extract return *)

Lemma ExtractContent_total X R fuel h scores doc options root body :
  WellFormed fuel h ->
  DocumentElement doc = Some root -> is_elem h root ->
  Body doc = Some body -> is_elem h body ->
  is_Some (ExtractContent X R fuel h scores doc options).
Proof.
  intros Hwf Hr Hre Hb Hbe. unfold ExtractContent.
  set (ct := if (CharThreshold options <=? 0)%Z then _ else _).
  set (nb := if (NbTopCandidates options <=? 0)%Z then _ else _).
  destruct (FindMainCandidates_total R fuel h scores doc nb root body)
    as [[cands scores'] Hfind]; try done.
  rewrite Hfind. cbn [mbind option_bind].
  apply FindMainCandidates_elems in Hfind;
    [|intros b Hb'; congruence].
  assert (Hart : exists art,
    match cands with
    | topCandidate :: _ =>
        text ← GetInnerText fuel h topCandidate false;
        linkDensity ← GetLinkDensity fuel h topCandidate;
        if (ct <=? Strings.len text)%Z && Qle_bool linkDensity (1 # 2)
        then Some (Some topCandidate) else Some None
    | [] => Some None
    end = Some art /\ (forall p, art = Some p -> is_elem h p)).
  { destruct Hfind as [|top cs Htop _]; [exists None; split; [done|congruence]|].
    destruct (GetInnerText_wf fuel h top false Hwf Htop) as [t ->].
    destruct (GetLinkDensity_total fuel h top Hwf Htop) as [ld ->].
    cbn [mbind option_bind]. destruct (_ && _); eexists; (split; [done|]).
    - by intros p [= <-].
    - congruence. }
  destruct Hart as (art & -> & Hartel). cbn [mbind option_bind].
  assert (Hpt : is_Some (
    if String.eqb (ForcedPageType options) ""
    then match art with
         | Some _ => Some PageTypeArticle
         | None => ClassifyPageType fuel h scores' doc cands ct ""
         end
    else Some (ForcedPageType options))).
  { destruct (String.eqb _ ""); [|eauto]. destruct art; [eauto|].
    by eapply ClassifyPageType_total. }
  destruct Hpt as [pt ->]. cbn [mbind option_bind].
  assert (Hst : is_Some (
    if String.eqb pt PageTypeArticle && bool_decide (art = None)
    then FindStructuralElements fuel h doc
    else Some (None, None, []))).
  { destruct (_ && _); [|eauto]. by eapply FindStructuralElements_total. }
  destruct Hst as [[[hd ft] others] ->]. cbn [mbind option_bind].
  destruct (CountNodes_total fuel h art Hwf Hartel) as [n ->].
  cbn [mbind option_bind]. eauto.
Qed.

Lemma ExtractContent_forced X R fuel h scores doc options r scores' :
  ForcedPageType options <> "" ->
  ExtractContent X R fuel h scores doc options = Some (r, scores') ->
  PageType_ r = ForcedPageType options.
Proof.
  intros Hf. unfold ExtractContent.
  destruct (FindMainCandidates _ _ _ _ _ _) as [[cands s1]|];
    cbn [mbind option_bind]; [|discriminate].
  match goal with |- context [match cands with [] => _ | _ :: _ => _ end] =>
    destruct (match cands with [] => _ | _ :: _ => _ end) as [art|] end;
    cbn [mbind option_bind]; [|discriminate].
  assert (String.eqb (ForcedPageType options) "" = false) as ->
    by (by apply String.eqb_neq).
  cbn [mbind option_bind].
  destruct (if _ && _ then _ else _) as [[[hd ft] others]|];
    cbn [mbind option_bind]; [|discriminate].
  destruct (CountNodes fuel h art) as [n|]; cbn [mbind option_bind];
    [|discriminate].
  by intros [= <- _].
Qed.

(** The options [Extract] hands to [ExtractContent]. *)
Lemma Extract_unfold X R fuel html options doc h :
  ParseHTML X html "" = inl (doc, h) ->
  Extract X R fuel html options =
  (h1 ← PreprocessDocument fuel doc h;
   r ← ExtractContent X R fuel h1 ∅ doc
         (mkReadabilityOptions
            (if (CharThreshold options <=? 0)%Z then DefaultCharThreshold
             else CharThreshold options)
            (if (NbTopCandidates options <=? 0)%Z then DefaultNTopCandidates
             else NbTopCandidates options)
            (GenerateAriaTree options)
            (if String.eqb (ForcedPageType options) "" then PageTypeArticle
             else ForcedPageType options));
   Some (inl (fst r))).
Proof.
  intros Hp. unfold Extract. rewrite Hp.
  destruct (PreprocessDocument fuel doc h) as [h1|]; [|done].
  cbn [mbind option_bind].
  destruct options as [ct nb aria forced].
  cbn [CharThreshold NbTopCandidates GenerateAriaTree ForcedPageType].
  destruct (ct <=? 0)%Z;
    cbn [CharThreshold NbTopCandidates GenerateAriaTree ForcedPageType];
    destruct (nb <=? 0)%Z;
    cbn [CharThreshold NbTopCandidates GenerateAriaTree ForcedPageType];
    destruct (String.eqb forced "");
    cbn [CharThreshold NbTopCandidates GenerateAriaTree ForcedPageType];
    reflexivity.
Qed.

(** * What one pass of the preprocessor leaves behind *)

Lemma removeAds_settled fuel doc h h1 :
  NoDupChildren h -> removeAds fuel doc h = Some h1 ->
  forall l, GetElementsByTagName fuel h1 (Body doc) "*" = Some l ->
  Forall (ad_removed h1) l.
Proof.
  intros Hnd. unfold removeAds.
  destruct (GetElementsByTagName fuel h (Body doc) "*") as [es|] eqn:Hes;
    cbn [mbind option_bind]; [|discriminate].
  intros [= <-] l Hl.
  pose proof (foldl_removeAds_step_unlinks es h) as Hu.
  destruct (GetElementsByTagName_mono _ _ _ _ _ _ Hu Hes) as (l' & Hl' & Hsub).
  rewrite Hl in Hl'. injection Hl' as <-.
  apply Forall_forall. intros x Hx.
  pose proof (foldl_removeAds_step_removed es h Hnd) as Hall.
  rewrite Forall_forall in Hall. apply Hall. by apply Hsub.
Qed.

Lemma PreprocessDocument_settled fuel doc h h1 :
  NoDupChildren h -> PreprocessDocument fuel doc h = Some h1 ->
  Forall (tag_removed fuel doc h1) tagsToRemove /\
  forall l, GetElementsByTagName fuel h1 (Body doc) "*" = Some l ->
            Forall (ad_removed h1) l.
Proof.
  intros Hnd. unfold PreprocessDocument, removeUnwantedTags.
  destruct (forEach _ h tagsToRemove) as [ha|] eqn:Ha; [|discriminate].
  cbn [mbind option_bind]. intros Hb.
  apply removeUnwantedTags_spec in Ha as [Hu Hclean].
  pose proof (removeAds_unlinks _ _ _ _ Hb) as Hu'.
  split.
  - eapply Forall_impl; [apply Hclean; done|].
    intros t Ht. by eapply tag_removed_unlinks.
  - eapply removeAds_settled; [|exact Hb]. by eapply NoDupChildren_unlinks.
Qed.

Lemma NoDupChildren_check (h : Heap) :
  map_Forall (fun _ n => node_NoDup n) h -> NoDupChildren h.
Proof.
  intros H p e He. unfold AsVElement in He.
  destruct (h !! p) as [[t|e0]|] eqn:Hp; try discriminate.
  injection He as ->. apply (H p _ Hp).
Qed.

(** * Proofs: parent chains and tree-shaped graphs *)

(** ** The chain of parent pointers *)

Lemma ancestors_loop_chain fuel h m : forall cur d l,
  GetNodeAncestors_loop fuel h cur m d = Some l ->
  parent_chain h cur l /\
  ((0 < m)%Z -> (d <= m)%Z -> (Z.of_nat (length l) <= m - d)%Z) /\
  ((m <= 0)%Z \/ (d + Z.of_nat (length l) < m)%Z ->
   match last l with
   | Some a => Parent h a = None
   | None => cur = None
   end).
Proof.
  induction fuel as [|fuel IH]; intros cur d l; simpl.
  - destruct cur as [c|].
    + destruct ((m <=? 0)%Z || (d <? m)%Z) eqn:Hc; [discriminate|].
      intros [= <-]. simpl. split; [done|]. split; [lia|].
      intros Hm. apply orb_false_iff in Hc as [H1 H2]. lia.
    + intros [= <-]. simpl. split; [done|]. split; [lia|done].
  - destruct cur as [c|].
    + destruct ((m <=? 0)%Z || (d <? m)%Z) eqn:Hc.
      * destruct (AsVElement h c) as [e|] eqn:He; simpl; [|discriminate].
        destruct (GetNodeAncestors_loop fuel h (parent e) m (d + 1))
          as [rest|] eqn:Hrest; simpl; [|discriminate].
        intros [= <-]. destruct (IH _ _ _ Hrest) as (Hch & Hlen & Hlast).
        split; [|split].
        -- simpl. split; [done|]. by exists e.
        -- intros Hm Hd. simpl length.
           apply orb_true_iff in Hc as [Hc|Hc]; [lia|].
           specialize (Hlen Hm). lia.
        -- intros Hm. simpl length in Hm.
           assert (Hm' : (m <= 0)%Z \/ (d + 1 + Z.of_nat (length rest) < m)%Z)
             by lia.
           specialize (Hlast Hm').
           destruct rest as [|b rest'].
           ++ simpl in Hlast. simpl. unfold Parent. rewrite He. exact Hlast.
           ++ rewrite last_cons_cons.
              destruct (last (b :: rest')) as [a|] eqn:Hl; [exact Hlast|].
              by apply last_None in Hl.
      * intros [= <-]. simpl. split; [done|]. split; [lia|].
        intros Hm. apply orb_false_iff in Hc as [H1 H2]. lia.
    + intros [= <-]. simpl. split; [done|]. split; [lia|done].
Qed.

(** ** Tree-shaped graphs *)

Lemma ParentConsistent_spec h :
  ParentConsistent h <->
  forall q qe c ce, AsVElement h q = Some qe -> c ∈ Children qe ->
    AsVElement h c = Some ce -> parent ce = Some q.
Proof.
  split.
  - intros H q qe c ce Hq Hc Hce. unfold AsVElement in Hq.
    destruct (h !! q) as [[t|e]|] eqn:E; try discriminate.
    injection Hq as ->. specialize (H q _ E). simpl in H.
    rewrite Forall_forall in H. specialize (H c Hc). by rewrite Hce in H.
  - intros H q n Hq. destruct n as [t|qe]; simpl; [done|].
    apply Forall_forall. intros c Hc.
    destruct (AsVElement h c) as [ce|] eqn:Hce; [|done].
    apply (H q qe c ce); [|done..]. unfold AsVElement. by rewrite Hq.
Qed.

Lemma ParentConsistent_unlinks h h' :
  unlinks_only h h' -> ParentConsistent h -> ParentConsistent h'.
Proof.
  intros Hu H. apply ParentConsistent_spec.
  intros q qe' c ce' Hq Hc Hce.
  destruct (unlinks_elem_inv _ _ _ _ Hu Hq) as (qe & Hqe & _ & _ & _ & Hcut).
  destruct (unlinks_elem_inv _ _ _ _ Hu Hce) as (ce & Hce0 & Hp & _).
  rewrite Hp. rewrite ParentConsistent_spec in H.
  apply (H q qe c ce); [done| |done].
  destruct Hcut as [Hsub _]. eapply elem_of_sublist; eauto.
Qed.

Lemma collect_elem_of f cs : forall l p,
  collect f cs = Some l -> p ∈ l ->
  exists c r, c ∈ cs /\ f c = Some r /\ p ∈ r.
Proof.
  induction cs as [|c cs IH]; intros l p Hl Hp.
  - injection Hl as <-. by apply elem_of_nil in Hp.
  - apply collect_Some_cons in Hl as (r & rs & Hr & Hrs & ->).
    apply elem_of_app in Hp as [Hp|Hp].
    + exists c, r. split; [left|done].
    + destruct (IH _ _ Hrs Hp) as (c' & r' & Hc' & Hr' & Hp').
      exists c', r'. split; [by right|done].
Qed.

(** What the walk returns is its start or is listed as a child of some
    element. *)
Lemma walk_elem_of fuel h tags : forall r l p,
  getElementsByTagNameInternal fuel h r tags = Some l -> p ∈ l ->
  p = r \/ exists q qe, AsVElement h q = Some qe /\ p ∈ Children qe.
Proof.
  induction fuel as [|fuel IH]; intros r l p; simpl; [discriminate|].
  destruct (AsVElement h r) as [e|] eqn:He; cbn [mbind option_bind];
    [|discriminate].
  destruct (collect _ (Children e)) as [rest|] eqn:Hrest;
    cbn [mbind option_bind]; [|discriminate].
  intros [= <-] Hp. apply elem_of_app in Hp as [Hp|Hp].
  - left. destruct (tag_matches tags e).
    + by apply list_elem_of_singleton in Hp.
    + by apply elem_of_nil in Hp.
  - destruct (collect_elem_of _ _ _ _ Hrest Hp) as (c & rc & Hc & Hrc & Hpc).
    destruct (AsVElement h c) as [ce|] eqn:Hce.
    + destruct (IH _ _ _ Hrc Hpc) as [-> | Hq]; [|by right].
      right. by exists r, e.
    + injection Hrc as <-. by apply elem_of_nil in Hpc.
Qed.

Lemma found_is_linked fuel h root tag l p :
  ParentConsistent h ->
  GetElementsByTagName fuel h root tag = Some l -> p ∈ l ->
  unlinked h p -> root = Some p.
Proof.
  intros Hpc Hl Hp Hun. destruct root as [r|]; [|discriminate].
  pose proof (GetElementsByTagName_elems _ _ _ _ _ Hl) as Hel.
  rewrite Forall_forall in Hel. destruct (Hel p Hp) as [pe Hpe].
  unfold GetElementsByTagName in Hl. cbn [mbind option_bind] in Hl.
  destruct (walk_elem_of _ _ _ _ _ _ Hl Hp) as [-> | (q & qe & Hq & Hin)];
    [done|].
  exfalso. rewrite ParentConsistent_spec in Hpc.
  pose proof (Hpc q qe p pe Hq Hin Hpe) as Hpar.
  apply (Hun q qe); [|done..]. unfold Parent. rewrite Hpe. exact Hpar.
Qed.

(** * The claims *)

(** C1. In a document where exactly one element has the tag name [article],
    or exactly one has the tag name [main], [FindMainCandidates] returns
    that element alone and leaves the score store as it found it: nothing is
    scored, and the answer does not depend on the scores, the patterns or
    the number of candidates asked for.  The single article is preferred
    when there is also a single main. *)
Theorem single_semantic_tag_shortcut R fuel h scores doc nb all :
  GetElementsByTagName fuel h (DocumentElement doc) "*" = Some all ->
  let articles := filter (fun p => hasTag h "article" p = true) all in
  let mains := filter (fun p => hasTag h "main" p = true) all in
  length articles = 1%nat \/ length mains = 1%nat ->
  exists e,
    FindMainCandidates R fuel h scores doc nb = Some ([e], scores) /\
    (articles = [e] \/ (mains = [e] /\ length articles <> 1%nat)).
Proof.
  intros Hall articles mains Hone.
  assert (Ha : GetElementsByTagName fuel h (DocumentElement doc) "article"
               = Some articles)
    by (by apply (GetElementsByTagName_filter fuel h _ "article" all)).
  assert (Hm : GetElementsByTagName fuel h (DocumentElement doc) "main"
               = Some mains)
    by (by apply (GetElementsByTagName_filter fuel h _ "main" all)).
  destruct (decide (length articles = 1%nat)) as [Hlen|Hlen].
  - destruct articles as [|a [|a' l]] eqn:E; try discriminate.
    exists a. split; [by apply FindMainCandidates_article | by left].
  - destruct Hone as [?|Hlm]; [done|].
    destruct mains as [|m [|m' l]] eqn:E; try discriminate.
    exists m. split; [|by right].
    by eapply FindMainCandidates_main.
Qed.

Lemma single_semantic_tag_shortcut_witness :
  GetElementsByTagName 6 articleHeap (DocumentElement articleDoc) "*"
  = Some [1; 2; 3; 4]%positive /\
  exists e,
    FindMainCandidates utilRegexps 6 articleHeap ∅ articleDoc 5
    = Some ([e], ∅) /\
    (filter (fun p => hasTag articleHeap "article" p = true)
       [1; 2; 3; 4]%positive = [e] \/
     (filter (fun p => hasTag articleHeap "main" p = true)
        [1; 2; 3; 4]%positive = [e] /\
      length (filter (fun p => hasTag articleHeap "article" p = true)
                [1; 2; 3; 4]%positive) <> 1%nat)).
Proof.
  split; [vm_compute; reflexivity|].
  apply (single_semantic_tag_shortcut utilRegexps 6 articleHeap ∅
           articleDoc 5 [1; 2; 3; 4]%positive).
  - vm_compute; reflexivity.
  - left. vm_compute; reflexivity.
Defined.



(** C7. In the scoring loop of [FindMainCandidates] an element is
    initialized at most once.  A visit to an ancestor that already has
    readability data only adds the contribution to its score and records
    nothing; a visit to one that has none initializes it from its tag and
    class weight and records it.  So after the loop the recorded elements
    are pairwise distinct, had no data at the start and have data at the
    end, and no element that had data has lost it. *)
Theorem initialized_at_most_once R fuel h scores0 elementsToScore scores
    candidates :
  forEach (scoreElement R fuel h) (scores0, []) elementsToScore
  = Some (scores, candidates) ->
  (forall c level sc cs a d,
     sc !! a = Some d ->
     scoreAncestor R h c level (sc, cs) a
     = Some (<[a := mkReadabilityData
                 (ContentScore d + c / float64 (scoreDivider level))%Q]> sc,
             cs)) /\
  (forall c level sc cs a e,
     sc !! a = None -> AsVElement h a = Some e ->
     scoreAncestor R h c level (sc, cs) a
     = Some (<[a := mkReadabilityData
                 (initialScore R e + c / float64 (scoreDivider level))%Q]> sc,
             cs ++ [a])) /\
  NoDup candidates /\
  (forall a, a ∈ candidates -> scores0 !! a = None /\ is_Some (scores !! a)) /\
  (forall a, is_Some (scores0 !! a) -> is_Some (scores !! a) /\ a ∉ candidates).
Proof.
  intros Hrun.
  split; [intros; by apply scoreAncestor_scored|].
  split; [intros; by apply scoreAncestor_unscored|].
  assert (Hinv : scoring_inv h scores0 (scores, candidates)).
  { eapply (forEach_inv (scoreElement R fuel h) (scoring_inv h scores0)
              (fun _ => True));
      [apply Forall_true; done | | apply scoring_inv_init | exact Hrun].
    intros s x s' Hs _ Hstep. by eapply scoreElement_inv. }
  destruct Hinv as (Hnd & Hel & Hiff & Hfresh). cbn [fst snd] in *.
  split; [done|]. split.
  - intros a Ha. split; [auto|]. apply Hiff. by right.
  - intros a Ha. split; [apply Hiff; by left|].
    intros Hin. apply Hfresh in Hin. destruct Ha. congruence.
Qed.

Lemma initialized_at_most_once_witness :
  forEach (scoreElement utilRegexps 6 twoDivsHeap) (∅, [])
    [4; 7]%positive
  = Some (list_to_map
            [ (3%positive, mkReadabilityData 32);
              (6%positive, mkReadabilityData (-19));
              (2%positive, mkReadabilityData (6 # 4));
              (1%positive, mkReadabilityData (18 # 36)) ],
          [3; 2; 1; 6]%positive) /\
  NoDup [3; 2; 1; 6]%positive.
Proof.
  assert (Hrun :
    forEach (scoreElement utilRegexps 6 twoDivsHeap) (∅, [])
      [4; 7]%positive
    = Some (list_to_map
              [ (3%positive, mkReadabilityData 32);
                (6%positive, mkReadabilityData (-19));
                (2%positive, mkReadabilityData (6 # 4));
                (1%positive, mkReadabilityData (18 # 36)) ],
            [3; 2; 1; 6]%positive))
    by (vm_compute; reflexivity).
  split; [exact Hrun|].
  exact (proj1 (proj2 (proj2
    (initialized_at_most_once utilRegexps 6 twoDivsHeap ∅ _ _ _ Hrun)))).
Defined.

(** * Rational arithmetic for the score increments *)

Lemma baseContentScore_pos R innerText : (0 < baseContentScore R innerText)%Q.
Proof.
  unfold baseContentScore, float64.
  set (a := Z.of_nat (length (Commas R innerText))).
  set (b := min (Strings.len innerText / 100) 3).
  assert (Ha : (0 <= a)%Z) by (subst a; lia).
  assert (Hb : (0 <= b)%Z).
  { subst b. unfold min, Strings.len.
    destruct (_ <? 3)%Z; [|lia]. apply Z.div_pos; lia. }
  unfold Qlt, Qplus, inject_Z. simpl. lia.
Qed.

Lemma Qdiv_le_divisor (c : Q) (m n : Z) :
  (0 <= c)%Q -> (0 < m <= n)%Z -> (c / float64 n <= c / float64 m)%Q.
Proof.
  intros Hc [Hm Hmn]. unfold float64.
  destruct c as [p q]. unfold Qle in Hc. simpl in Hc.
  destruct m as [|m|m]; try lia. destruct n as [|n|n]; try lia.
  unfold Qle, Qdiv, Qmult, Qinv, inject_Z. simpl. nia.
Qed.

Lemma parent_chain_elems h l : forall first,
  parent_chain h first l -> Forall (is_elem h) l.
Proof.
  induction l as [|a l IH]; intros first; simpl; [constructor|].
  intros (_ & e & He & Hrest). constructor; [by exists e|by eapply IH].
Qed.

(** The scoring of the ancestors of one element, when no ancestor is listed
    twice: every ancestor gets one increment, on top of the score it had or
    of its initial score, and no other score changes. *)
Lemma scoreAncestors_increments R h c ancestors :
  forall level scores candidates,
  NoDup ancestors -> Forall (is_elem h) ancestors ->
  exists scores' candidates',
    scoreAncestors R h c level (scores, candidates) ancestors
    = Some (scores', candidates') /\
    (forall i a, ancestors !! i = Some a ->
       exists ae, AsVElement h a = Some ae /\
         scores' !! a
         = Some (mkReadabilityData
                   ((match scores !! a with
                     | Some d => ContentScore d
                     | None => initialScore R ae
                     end)
                    + c / float64 (scoreDivider (level + Z.of_nat i)))%Q)) /\
    (forall p, p ∉ ancestors -> scores' !! p = scores !! p).
Proof.
  induction ancestors as [|a rest IH]; intros level scores candidates Hnd Hel.
  - exists scores, candidates. split; [done|]. split; [|done].
    intros i a Hi. by rewrite lookup_nil in Hi.
  - apply NoDup_cons in Hnd as [Ha Hnd].
    apply Forall_cons in Hel as [[ae Hae] Hel].
    set (start := match scores !! a with
                  | Some d => ContentScore d
                  | None => initialScore R ae
                  end).
    set (scores1 := <[a := mkReadabilityData
                        (start + c / float64 (scoreDivider level))%Q]> scores).
    assert (Hstep : exists candidates1,
      scoreAncestor R h c level (scores, candidates) a
      = Some (scores1, candidates1)).
    { subst scores1 start. destruct (scores !! a) as [d|] eqn:Hd.
      - exists candidates. by apply scoreAncestor_scored.
      - exists (candidates ++ [a]). by apply scoreAncestor_unscored. }
    destruct Hstep as [candidates1 Hstep].
    destruct (IH (level + 1)%Z scores1 candidates1 Hnd Hel)
      as (scores' & candidates' & Hrun & Hinc & Hframe).
    exists scores', candidates'. split; [|split].
    + cbn [scoreAncestors]. rewrite Hstep. exact Hrun.
    + intros [|i] x Hx; simpl in Hx.
      * injection Hx as <-. exists ae. split; [done|].
        rewrite (Hframe a Ha). subst scores1. rewrite lookup_insert_eq.
        change (Z.of_nat 0) with 0%Z. by rewrite Z.add_0_r.
      * destruct (Hinc i x Hx) as (xe & Hxe & Hs). exists xe. split; [done|].
        assert (Hne : x <> a).
        { intros ->. apply Ha. by eapply list_elem_of_lookup_2. }
        rewrite Hs. subst scores1. rewrite lookup_insert_ne by done.
        by replace (level + 1 + Z.of_nat i)%Z
          with (level + Z.of_nat (S i))%Z by lia.
    + intros p Hp. apply not_elem_of_cons in Hp as [Hpa Hp].
      rewrite (Hframe p Hp). subst scores1. by rewrite lookup_insert_ne.
Qed.

(** C8. When the scoring loop of [FindMainCandidates] processes an element
    with at least 25 bytes of text, every ancestor that [GetNodeAncestors]
    returns for it (the parent at level 0, the grandparent at level 1, the
    great-grandparent at level 2, and no more) ends with the score it had, or
    its initial score if it had none, plus the contribution of the element
    divided by [scoreDivider level]; no other score changes, and the loop
    goes on from these scores.  This is for ancestors that are pairwise
    distinct, as in a tree; in any graph a visit to a scored ancestor adds
    that quotient.  The divisor is 1 at level 0, 2
    at level 1 and [3 * level] from level 2 on, and the contribution is
    positive, so the grandparent's increment is at most the parent's and the
    great-grandparent's at most the grandparent's. *)
Theorem score_decay_with_distance R fuel h scores candidates elementToScore e
    innerText ancestors :
  AsVElement h elementToScore = Some e ->
  GetInnerText fuel h elementToScore false = Some innerText ->
  (25 <= Strings.len innerText)%Z ->
  GetNodeAncestors fuel h elementToScore 3 = Some ancestors ->
  NoDup ancestors ->
  let c := baseContentScore R innerText in
  let increment level := (c / float64 (scoreDivider level))%Q in
  parent_chain h (parent e) ancestors /\
  (length ancestors <= 3)%nat /\
  (exists scores' candidates',
     scoreElement R fuel h (scores, candidates) elementToScore
     = Some (scores', candidates') /\
     (forall rest,
        forEach (scoreElement R fuel h) (scores, candidates)
          (elementToScore :: rest)
        = forEach (scoreElement R fuel h) (scores', candidates') rest) /\
     (forall level a, ancestors !! level = Some a ->
        exists ae, AsVElement h a = Some ae /\
          scores' !! a
          = Some (mkReadabilityData
                    ((match scores !! a with
                      | Some d => ContentScore d
                      | None => initialScore R ae
                      end) + increment (Z.of_nat level))%Q)) /\
     (forall p, p ∉ ancestors -> scores' !! p = scores !! p)) /\
  (forall level sc cs a d,
     scoreAncestor R h c level (<[a := d]> sc, cs) a
     = Some (<[a := mkReadabilityData
                 (ContentScore d + increment level)%Q]> sc, cs)) /\
  scoreDivider 0 = 1%Z /\ scoreDivider 1 = 2%Z /\
  (forall k : nat, scoreDivider (2 + Z.of_nat k) = (3 * (2 + Z.of_nat k))%Z) /\
  (0 < c)%Q /\
  (increment 1%Z <= increment 0%Z)%Q /\
  (increment 2%Z <= increment 1%Z)%Q.
Proof.
  intros He Htext Hlen Hanc Hnd c increment.
  assert (Hpos : (0 < c)%Q) by apply baseContentScore_pos.
  assert (Hloop : GetNodeAncestors_loop fuel h (parent e) 3 0 = Some ancestors).
  { unfold GetNodeAncestors in Hanc. rewrite He in Hanc. exact Hanc. }
  destruct (ancestors_loop_chain _ _ _ _ _ _ Hloop) as (Hchain & Hbound & _).
  split; [exact Hchain|]. split; [specialize (Hbound ltac:(lia) ltac:(lia)); lia|].
  split.
  - assert (Hstep : exists scores' candidates',
      scoreElement R fuel h (scores, candidates) elementToScore
      = Some (scores', candidates') /\
      (forall level a, ancestors !! level = Some a ->
         exists ae, AsVElement h a = Some ae /\
           scores' !! a
           = Some (mkReadabilityData
                     ((match scores !! a with
                       | Some d => ContentScore d
                       | None => initialScore R ae
                       end) + increment (Z.of_nat level))%Q)) /\
      (forall p, p ∉ ancestors -> scores' !! p = scores !! p)).
    { unfold scoreElement. rewrite Htext. cbn [mbind option_bind].
      assert ((Strings.len innerText <? 25)%Z = false) as -> by lia.
      rewrite Hanc. cbn [mbind option_bind].
      destruct (Z.of_nat (length ancestors) =? 0)%Z eqn:Hz.
      - destruct ancestors; [|simpl in Hz; lia].
        exists scores, candidates. split; [done|]. split; [|done].
        intros level a Hl. by rewrite lookup_nil in Hl.
      - destruct (scoreAncestors_increments R h c ancestors 0 scores candidates
                    Hnd (parent_chain_elems _ _ _ Hchain))
          as (scores' & candidates' & Hrun & Hinc & Hframe).
        exists scores', candidates'. split; [exact Hrun|].
        split; [|exact Hframe].
        intros level a Hl. destruct (Hinc level a Hl) as (ae & Hae & Hs).
        exists ae. split; [done|]. rewrite Hs. by rewrite Z.add_0_l. }
    destruct Hstep as (scores' & candidates' & Hrun & Hinc & Hframe).
    exists scores', candidates'. split; [exact Hrun|]. split; [|by split].
    intros rest. cbn [forEach]. by rewrite Hrun.
  - repeat split.
    + intros level sc cs a d.
      rewrite (scoreAncestor_scored R h c level _ cs a d)
        by apply lookup_insert_eq.
      by rewrite insert_insert_eq.
    + intros k. unfold scoreDivider.
      destruct (2 + Z.of_nat k =? 1)%Z eqn:E1; [lia|].
      destruct (2 + Z.of_nat k >=? 2)%Z eqn:E2; lia.
    + done.
    + apply Qdiv_le_divisor; [by apply Qlt_le_weak | vm_compute; done].
    + apply Qdiv_le_divisor; [by apply Qlt_le_weak | vm_compute; done].
Qed.

Lemma score_decay_with_distance_witness :
  parent_chain twoDivsHeap (Some 3%positive) [3; 2; 1]%positive /\
  exists scores' candidates',
    scoreElement utilRegexps 6 twoDivsHeap (∅, []) 4%positive
    = Some (scores', candidates') /\
    forall p, p ∉ [3; 2; 1]%positive -> scores' !! p = (∅ : Scores) !! p.
Proof.
  destruct (score_decay_with_distance utilRegexps 6 twoDivsHeap ∅ [] 4%positive
              (mkVElement (Some 3%positive) "p" ∅ [5%positive])
              "This is a paragraph with enough text to be considered. It has commas, and more text."
              [3; 2; 1]%positive)
    as (Hchain & _ & (scores' & candidates' & Hrun & _ & _ & Hframe) & _).
  - vm_compute. reflexivity.
  - vm_compute. reflexivity.
  - vm_compute. discriminate.
  - vm_compute. reflexivity.
  - apply (bool_decide_eq_true_1 _). vm_compute. reflexivity.
  - split; [exact Hchain|]. exists scores', candidates'. split; [exact Hrun|].
    exact Hframe.
Defined.

Lemma noisyHeap_NoDupChildren : NoDupChildren noisyHeap.
Proof.
  apply NoDupChildren_check. apply (bool_decide_eq_true_1 _).
  vm_compute. reflexivity.
Defined.

(** C9, as the specification states it, fails: it is not so that after one
    pass no reachable element matches the ad criteria.  [removeAds] walks
    the body only.  In the example the [link] element in the head has the id
    [banner-css], which the pattern [banner] matches; the document is a
    tree; [PreprocessDocument] returns the graph as it was, and the walk
    from the document element still finds the [link]. *)
Lemma ad_outside_body_counterexample :
  NoDupChildren adInHeadHeap /\ ParentConsistent adInHeadHeap /\
  WellFormed 6 adInHeadHeap /\
  PreprocessDocument 6 adInHeadDoc adInHeadHeap = Some adInHeadHeap /\
  GetElementsByTagName 6 adInHeadHeap (DocumentElement adInHeadDoc) "*"
  = Some [1; 2; 3; 4; 5]%positive /\
  exists e, AsVElement adInHeadHeap 3%positive = Some e /\
            TagName e = "link" /\ ID e = "banner-css" /\
            isLikelyAd e = true.
Proof.
  split.
  { apply NoDupChildren_check. apply (bool_decide_eq_true_1 _).
    vm_compute. reflexivity. }
  split; [apply (bool_decide_eq_true_1 _); vm_compute; reflexivity|].
  split; [apply (bool_decide_eq_true_1 _); vm_compute; reflexivity|].
  split; [vm_compute; reflexivity|]. split; [vm_compute; reflexivity|].
  eexists. split; [vm_compute; reflexivity|].
  repeat split; vm_compute; reflexivity.
Qed.

(** Without the condition on the child lists the second run can remove
    something.  In the example the ad is listed twice in the element that its
    parent pointer names and is found once, from the body: each run cuts one
    entry out. *)
Remark repeated_child_breaks_idempotence :
  exists h1 h2 e1 e2,
    PreprocessDocument 6 repeatedChildDoc repeatedChildHeap = Some h1 /\
    PreprocessDocument 6 repeatedChildDoc h1 = Some h2 /\
    AsVElement h1 2%positive = Some e1 /\ Children e1 = [3%positive] /\
    AsVElement h2 2%positive = Some e2 /\ Children e2 = [].
Proof.
  do 4 eexists. split; [vm_compute; reflexivity|].
  split; [vm_compute; reflexivity|].
  split; [vm_compute; reflexivity|]. split; [reflexivity|].
  split; [vm_compute; reflexivity|]. reflexivity.
Qed.

(** C9, amended. On a document whose child lists hold no element twice,
    [PreprocessDocument] is idempotent: one run returns a graph [h1] and a
    second run on [h1] returns [h1] again.  After the first run every
    element with a noise tag that the walk from the document element finds,
    and every ad that the walk from the body finds, is already cut out of
    its parent's child list, so the second run removes nothing.  When the
    document is a tree, only the document element itself can still be found
    with a noise tag, and only the body itself among the elements found from
    the body can still look like an ad; an ad outside the body stays. *)
Theorem preprocess_idempotent fuel doc h :
  NoDupChildren h ->
  traversable fuel h (DocumentElement doc) ->
  traversable fuel h (Body doc) ->
  exists h1,
    PreprocessDocument fuel doc h = Some h1 /\
    PreprocessDocument fuel doc h1 = Some h1 /\
    Forall (tag_removed fuel doc h1) tagsToRemove /\
    (forall l, GetElementsByTagName fuel h1 (Body doc) "*" = Some l ->
               Forall (ad_removed h1) l) /\
    (ParentConsistent h ->
     (forall tagName l p,
        tagName ∈ tagsToRemove ->
        GetElementsByTagName fuel h1 (DocumentElement doc) tagName = Some l ->
        p ∈ l -> DocumentElement doc = Some p) /\
     (forall l p e,
        GetElementsByTagName fuel h1 (Body doc) "*" = Some l ->
        p ∈ l -> AsVElement h1 p = Some e -> isLikelyAd e = true ->
        Body doc = Some p)).
Proof.
  intros Hnd Hr Hb.
  destruct (PreprocessDocument_total fuel doc h Hr Hb) as [h1 Hrun].
  exists h1. split; [done|]. split; [by eapply PreprocessDocument_twice|].
  destruct (PreprocessDocument_settled _ _ _ _ Hnd Hrun) as [Htags Hads].
  split; [done|]. split; [done|].
  intros Hpc.
  assert (Hpc1 : ParentConsistent h1).
  { eapply ParentConsistent_unlinks; [|exact Hpc].
    by eapply PreprocessDocument_unlinks. }
  split.
  - intros t l p Ht Hl Hp. rewrite Forall_forall in Htags.
    specialize (Htags t Ht h1 (unlinks_only_refl h1) l Hl).
    rewrite Forall_forall in Htags.
    eapply found_is_linked; [exact Hpc1|exact Hl|exact Hp|by apply Htags].
  - intros l p e Hl Hp He Had. specialize (Hads l Hl).
    rewrite Forall_forall in Hads.
    eapply found_is_linked; [exact Hpc1|exact Hl|exact Hp|].
    by apply (Hads p Hp e).
Qed.

Lemma preprocess_idempotent_witness :
  exists h1,
    PreprocessDocument 6 noisyDoc noisyHeap = Some h1 /\
    PreprocessDocument 6 noisyDoc h1 = Some h1 /\
    h1 <> noisyHeap.
Proof.
  destruct (preprocess_idempotent 6 noisyDoc noisyHeap)
    as (h1 & Hrun & Htwice & _).
  - exact noisyHeap_NoDupChildren.
  - vm_compute. eauto.
  - vm_compute. eauto.
  - exists h1. split; [exact Hrun|]. split; [exact Htwice|].
    intros ->. vm_compute in Hrun. discriminate Hrun.
Defined.

(** C10. [PreprocessDocument] only unlinks element subtrees.  The graph it
    returns has the same nodes; every text node is as it was; every element
    keeps its parent pointer, tag name and attribute map; its child list is
    the old one with some entries cut out, the others in their old order;
    and every entry cut out is an element. *)
Theorem preprocess_only_unlinks fuel doc h :
  traversable fuel h (DocumentElement doc) ->
  traversable fuel h (Body doc) ->
  exists h1,
    PreprocessDocument fuel doc h = Some h1 /\
    (forall p, is_Some (h1 !! p) <-> is_Some (h !! p)) /\
    (forall p t, h !! p = Some (TextNode t) -> h1 !! p = Some (TextNode t)) /\
    (forall p e, h !! p = Some (ElementNode e) ->
       exists e1, h1 !! p = Some (ElementNode e1) /\
         parent e1 = parent e /\ TagName e1 = TagName e /\
         Attributes e1 = Attributes e /\
         Children e1 `sublist_of` Children e /\
         forall c, c ∈ Children e -> c ∉ Children e1 -> is_elem h c).
Proof.
  intros Hr Hb.
  destruct (PreprocessDocument_total fuel doc h Hr Hb) as [h1 Hrun].
  exists h1. split; [done|].
  pose proof (PreprocessDocument_unlinks _ _ _ _ Hrun) as Hu.
  repeat split.
  - intros [n Hn]. specialize (Hu p). unfold node_cut in Hu. rewrite Hn in Hu.
    destruct (h !! p) as [[t|e]|]; eauto. contradiction.
  - intros [n Hn]. specialize (Hu p). unfold node_cut in Hu. rewrite Hn in Hu.
    destruct n as [t|e], (h1 !! p) as [[t1|e1]|]; eauto; contradiction.
  - intros p t Hp. specialize (Hu p). unfold node_cut in Hu. rewrite Hp in Hu.
    destruct (h1 !! p) as [[t1|e1]|]; try contradiction. by subst.
  - intros p e Hp. specialize (Hu p). unfold node_cut in Hu. rewrite Hp in Hu.
    destruct (h1 !! p) as [[t1|e1]|]; try contradiction.
    destruct Hu as (H1 & H2 & H3 & H4 & H5). exists e1. repeat split; auto.
Qed.

Lemma preprocess_only_unlinks_witness :
  exists h1,
    PreprocessDocument 6 noisyDoc noisyHeap = Some h1 /\
    (forall p, is_Some (h1 !! p) <-> is_Some (noisyHeap !! p)) /\
    (forall p t, noisyHeap !! p = Some (TextNode t) ->
                 h1 !! p = Some (TextNode t)) /\
    (forall p e, noisyHeap !! p = Some (ElementNode e) ->
       exists e1, h1 !! p = Some (ElementNode e1) /\
         parent e1 = parent e /\ TagName e1 = TagName e /\
         Attributes e1 = Attributes e /\
         Children e1 `sublist_of` Children e /\
         forall c, c ∈ Children e -> c ∉ Children e1 -> is_elem noisyHeap c).
Proof.
  apply (preprocess_only_unlinks 6 noisyDoc noisyHeap).
  - vm_compute. eauto.
  - vm_compute. eauto.
Defined.

(** * Class weight *)

Lemma GetClassWeight_values R e :
  let w := GetClassWeight R e in
  w = (-50 # 1)%Q \/ w = (-25 # 1)%Q \/ w = (0 # 1)%Q \/ w = (25 # 1)%Q
  \/ w = (50 # 1)%Q.
Proof.
  unfold GetClassWeight.
  destruct (negb (String.eqb (ClassName e) "")),
    (Negative R (ClassName e)), (Positive R (ClassName e)),
    (negb (String.eqb (ID e) "")), (Negative R (ID e)), (Positive R (ID e));
    vm_compute; auto 6.
Qed.

(** C5, as the specification states it, fails: no element gains 100 and no
    element loses 100 in the class-weight step, whatever the patterns. *)
Lemma class_weight_never_100 :
  ~ (exists (R : Regexps) (e : VElement), (GetClassWeight R e == 100)%Q) /\
  ~ (exists (R : Regexps) (e : VElement), (GetClassWeight R e == -100)%Q).
Proof.
  split; intros (R & e & H);
    destruct (GetClassWeight_values R e) as [Hw|[Hw|[Hw|[Hw|Hw]]]];
    rewrite Hw in H; vm_compute in H; discriminate.
Qed.

(** C5, amended. The class-weight step adds, for the class value and for
    the id value independently, -25 on a negative match and +25 on a
    positive match (both can apply to one value, which then adds nothing),
    so the contribution lies in [-50, +50]; +50 is reached by an element
    whose class and id match the positive pattern only, -50 by one whose
    class and id match the negative pattern only. *)
Theorem class_weight_range R :
  (forall e,
     (GetClassWeight R e
      == attributeWeight_spec R (ClassName e) + attributeWeight_spec R (ID e))%Q
     /\ (-50 <= GetClassWeight R e)%Q /\ (GetClassWeight R e <= 50)%Q) /\
  (forall value,
     value <> "" -> Positive R value = true -> Negative R value = false ->
     GetClassWeight R (elementWithClassAndId value) = 50%Q) /\
  (forall value,
     value <> "" -> Negative R value = true -> Positive R value = false ->
     GetClassWeight R (elementWithClassAndId value) = (-50)%Q).
Proof.
  assert (Hattr : forall value,
    ClassName (elementWithClassAndId value) = value /\
    ID (elementWithClassAndId value) = value).
  { intros value. unfold ClassName, ID, GetAttribute, elementWithClassAndId.
    simpl. rewrite lookup_insert_eq.
    rewrite lookup_insert_ne by done. rewrite lookup_insert_eq. done. }
  split; [|split].
  - intros e. split.
    + unfold GetClassWeight, attributeWeight_spec.
      destruct (String.eqb (ClassName e) ""), (Negative R (ClassName e)),
        (Positive R (ClassName e)), (String.eqb (ID e) ""),
        (Negative R (ID e)), (Positive R (ID e)); vm_compute; done.
    + destruct (GetClassWeight_values R e) as [Hw|[Hw|[Hw|[Hw|Hw]]]];
        rewrite Hw; split; vm_compute; discriminate.
  - intros value Hne Hp Hn. destruct (Hattr value) as [Hc Hi].
    unfold GetClassWeight. rewrite Hc, Hi, Hp, Hn.
    assert (String.eqb value "" = false) as -> by (by apply String.eqb_neq).
    vm_compute. reflexivity.
  - intros value Hne Hn Hp. destruct (Hattr value) as [Hc Hi].
    unfold GetClassWeight. rewrite Hc, Hi, Hp, Hn.
    assert (String.eqb value "" = false) as -> by (by apply String.eqb_neq).
    vm_compute. reflexivity.
Qed.

Lemma class_weight_range_witness :
  GetClassWeight utilRegexps (elementWithClassAndId "content") = 50%Q /\
  GetClassWeight utilRegexps (elementWithClassAndId "sidebar") = (-50)%Q.
Proof.
  split.
  - apply (proj1 (proj2 (class_weight_range utilRegexps)) "content");
      [discriminate | reflexivity | reflexivity].
  - apply (proj2 (proj2 (class_weight_range utilRegexps)) "sidebar");
      [discriminate | reflexivity | reflexivity].
Defined.

(** C3. When the HTML parses to a well-formed document, [Extract] returns
    an article whose page type is the forced page type of the options, and
    [PageTypeArticle] when that is empty: [Extract] fills the forced page
    type in before it calls [ExtractContent], which then takes it without
    consulting [ClassifyPageType].  So the result has [PageTypeOther] only
    if the caller forced it. *)
Theorem extract_defaults_to_article X R fuel html options doc h root body :
  ParseHTML X html "" = inl (doc, h) ->
  WellFormed fuel h ->
  DocumentElement doc = Some root -> is_elem h root ->
  Body doc = Some body -> is_elem h body ->
  exists r,
    Extract X R fuel html options = Some (inl r) /\
    PageType_ r = (if String.eqb (ForcedPageType options) ""
                   then PageTypeArticle else ForcedPageType options) /\
    (ForcedPageType options = "" -> PageType_ r = PageTypeArticle) /\
    (PageType_ r = PageTypeOther -> ForcedPageType options = PageTypeOther).
Proof.
  intros Hparse Hwf Hr Hre Hb Hbe.
  rewrite (Extract_unfold X R fuel html options doc h Hparse).
  destruct (PreprocessDocument_total fuel doc h) as [h1 Hpre].
  { rewrite Hr. by apply WellFormed_traversable. }
  { rewrite Hb. by apply WellFormed_traversable. }
  rewrite Hpre. cbn [mbind option_bind].
  pose proof (PreprocessDocument_unlinks _ _ _ _ Hpre) as Hu.
  set (options' := mkReadabilityOptions _ _ _ _).
  destruct (ExtractContent_total X R fuel h1 ∅ doc options' root body)
    as [[r scores] Hrun]; try done.
  { by eapply WellFormed_unlinks. }
  { by eapply is_elem_unlinks. }
  { by eapply is_elem_unlinks. }
  rewrite Hrun. cbn [mbind option_bind fst]. exists r. split; [done|].
  assert (Hpt : PageType_ r = ForcedPageType options').
  { eapply ExtractContent_forced; [|exact Hrun].
    subst options'. cbn [ForcedPageType].
    destruct (String.eqb (ForcedPageType options) "") eqn:E; [done|].
    by apply String.eqb_neq. }
  subst options'. cbn [ForcedPageType] in Hpt. split; [done|]. split.
  - intros Hf. rewrite Hpt, Hf. done.
  - rewrite Hpt. destruct (String.eqb (ForcedPageType options) "");
      [discriminate | done].
Qed.

Lemma extract_defaults_to_article_witness :
  exists r,
    Extract exampleCollaborators utilRegexps 6
      "<html><body></body></html>" defaultOptions = Some (inl r) /\
    PageType_ r = PageTypeArticle.
Proof.
  destruct (extract_defaults_to_article exampleCollaborators utilRegexps 6
              "<html><body></body></html>" defaultOptions
              emptyBodyDoc emptyBodyHeap 1%positive 2%positive)
    as (r & Hrun & _ & Hart & _).
  - reflexivity.
  - apply (bool_decide_eq_true_1 _). vm_compute. reflexivity.
  - reflexivity.
  - vm_compute. eauto.
  - reflexivity.
  - vm_compute. eauto.
  - exists r. split; [exact Hrun | apply Hart; reflexivity].
Defined.

(** * A body without children *)

Lemma GetElementsByTagName_childless f h p e tag :
  AsVElement h p = Some e -> Children e = [] ->
  GetElementsByTagName (S f) h (Some p) tag
  = Some (if tag_matches [Strings.ToLower tag] e then [p] else []).
Proof.
  intros He Hc. unfold GetElementsByTagName. simpl. rewrite He. simpl.
  rewrite Hc. simpl. by rewrite app_nil_r.
Qed.

Lemma GetInnerText_childless f h p e b :
  AsVElement h p = Some e -> Children e = [] ->
  GetInnerText (S f) h p b = Some "".
Proof.
  intros He Hc. unfold AsVElement in He. simpl.
  destruct (h !! p) as [[t|e0]|]; try discriminate. injection He as ->.
  rewrite Hc. simpl. by destruct b.
Qed.

Lemma GetLinkDensity_childless f h p e :
  AsVElement h p = Some e -> Children e = [] ->
  GetLinkDensity (S f) h p = Some 0%Q.
Proof.
  intros He Hc. unfold GetLinkDensity.
  by rewrite (GetInnerText_childless f h p e true He Hc).
Qed.

(** C4. In a document whose body element has no children (and which has
    no single article or main element elsewhere), [FindMainCandidates]
    returns the body alone, for every number of candidates asked for, and
    [ExtractContent] with the default options (character threshold 500, 5
    top candidates, no forced page type) returns page type [PageTypeOther]
    and no content root. *)
Theorem empty_body_scenario X R f h scores doc root body be articles mains :
  DocumentElement doc = Some root ->
  Body doc = Some body -> AsVElement h body = Some be ->
  TagName be = "body" -> Children be = [] ->
  GetElementsByTagName (S f) h (Some root) "article" = Some articles ->
  length articles <> 1%nat ->
  GetElementsByTagName (S f) h (Some root) "main" = Some mains ->
  length mains <> 1%nat ->
  (forall nb,
     FindMainCandidates R (S f) h scores doc nb = Some ([body], scores)) /\
  exists r,
    ExtractContent X R (S f) h scores doc defaultOptions = Some (r, scores) /\
    PageType_ r = PageTypeOther /\ Root r = None.
Proof.
  intros Hr Hb Hbe Htag Hc Ha Hla Hm Hlm.
  assert (Hnone : forall tag,
    String.eqb (Strings.ToLower tag) "*" = false ->
    String.eqb (Strings.ToLower tag) "body" = false ->
    GetElementsByTagName (S f) h (Some body) tag = Some []).
  { intros tag H1 H2.
    rewrite (GetElementsByTagName_childless f h body be tag Hbe Hc).
    unfold tag_matches. simpl. by rewrite Htag, H1, H2. }
  assert (Hfind : forall nb,
    FindMainCandidates R (S f) h scores doc nb = Some ([body], scores)).
  { intros nb. unfold FindMainCandidates. rewrite Hr, Hb, Ha.
    cbn [mbind option_bind]. rewrite Hm. cbn [mbind option_bind].
    assert (Hels :
      forEach (fun acc tag =>
                 elements ← GetElementsByTagName (S f) h (Some body) tag;
                 Some (acc ++ elements)) [] DefaultTagsToScore = Some []).
    { unfold DefaultTagsToScore. cbn [forEach].
      repeat (rewrite Hnone by reflexivity; cbn [mbind option_bind app]).
      reflexivity. }
    rewrite Hels. cbn [mbind option_bind forEach].
    rewrite (topCandidatesOrBody_nil doc _ body Hb).
    destruct articles as [|a [|a' articles]]; try done;
      destruct mains as [|m [|m' mains]]; done. }
  split; [exact Hfind|].
  unfold ExtractContent, defaultOptions.
  cbn [CharThreshold NbTopCandidates ForcedPageType].
  change (500 <=? 0)%Z with false. change (5 <=? 0)%Z with false.
  cbn match. rewrite Hfind. cbn [mbind option_bind].
  rewrite (GetInnerText_childless f h body be false Hbe Hc).
  rewrite (GetLinkDensity_childless f h body be Hbe Hc).
  cbn [mbind option_bind].
  change ((500 <=? Strings.len "")%Z && Qle_bool 0 (1 # 2)) with false.
  cbn match. cbn [mbind option_bind String.eqb].
  assert (Hclass :
    ClassifyPageType (S f) h scores doc [body] 500 "" = Some PageTypeOther).
  { unfold ClassifyPageType. change (500 <=? 0)%Z with false. cbn match.
    cbn [String.eqb negb mbind option_bind]. unfold classifyByContent.
    assert (Hcount : countStructure (S f) h doc
                     = Some (mkPageCounts 0 0 0 0)).
    { unfold countStructure. rewrite Hb.
      repeat (rewrite Hnone by reflexivity; cbn [mbind option_bind]).
      rewrite Hbe. cbn [mbind option_bind]. rewrite Hc. reflexivity. }
    rewrite Hcount. reflexivity. }
  rewrite Hclass. cbn [mbind option_bind].
  change (String.eqb PageTypeOther PageTypeArticle) with false.
  cbn [andb]. cbn [mbind option_bind CountNodes].
  eexists. split; [reflexivity|]. split; reflexivity.
Qed.

Lemma empty_body_scenario_witness :
  (forall nb,
     FindMainCandidates utilRegexps 3 emptyBodyHeap ∅ emptyBodyDoc nb
     = Some ([2%positive], ∅)) /\
  exists r,
    ExtractContent exampleCollaborators utilRegexps 3 emptyBodyHeap ∅
      emptyBodyDoc defaultOptions = Some (r, ∅) /\
    PageType_ r = PageTypeOther /\ Root r = None.
Proof.
  apply (empty_body_scenario exampleCollaborators utilRegexps 2
           emptyBodyHeap ∅ emptyBodyDoc 1%positive 2%positive
           (mkVElement (Some 1%positive) "body" ∅ []) [] []).
  - reflexivity.
  - reflexivity.
  - vm_compute; reflexivity.
  - reflexivity.
  - reflexivity.
  - vm_compute; reflexivity.
  - simpl; lia.
  - vm_compute; reflexivity.
  - simpl; lia.
Defined.

(** * The score parity rule *)

Lemma Qltb_true x y : (x < y)%Q -> Qltb x y = true.
Proof.
  intros H. unfold Qltb. destruct (Qle_bool y x) eqn:E; [|done].
  apply Qle_bool_iff in E. exfalso. by apply (Qlt_not_le x y).
Qed.

(** C6, as the specification states it, fails.  The body of the example
    holds a heading that is one long link and two blocks of plain text; the
    blocks are the candidates, with scores 10 and 9.  No URL is given, rules
    3 to 5 do not decide, the second score is above 80% of the first, and
    the link density of the body, the fraction of its text that lies in
    anchors, is 149/329 and so above 0.25: yet [ClassifyPageType] returns
    [PageTypeArticle].  The code compares the number of links over the
    length of the body text, 1/329, with 0.25. *)
Lemma body_link_density_counterexample :
  let n := mkPageCounts 1 0 1 0 in
  countStructure 6 linkHeadingHeap linkHeadingDoc = Some n /\
  hasIndexPageCharacteristics n = false /\
  semanticTagRule 6 linkHeadingHeap 6%positive 500 n = Some None /\
  (exists text linkDensity,
     GetInnerText 6 linkHeadingHeap 6%positive false = Some text /\
     GetLinkDensity 6 linkHeadingHeap 6%positive = Some linkDensity /\
     articleFeatures 500 text linkDensity n = false) /\
  (2 <= length linkHeadingCandidates)%nat /\
  ((8 # 10) * scoreOf linkHeadingScores 6%positive
   < scoreOf linkHeadingScores 9%positive)%Q /\
  GetLinkDensity 6 linkHeadingHeap 2%positive = Some (149 # 329)%Q /\
  ((25 # 100) < (149 # 329))%Q /\
  ClassifyPageType 6 linkHeadingHeap linkHeadingScores linkHeadingDoc
    linkHeadingCandidates 500 "" = Some PageTypeArticle /\
  PageTypeArticle <> PageTypeOther.
Proof.
  intros n. split; [vm_compute; reflexivity|].
  split; [vm_compute; reflexivity|]. split; [vm_compute; reflexivity|].
  split.
  { exists (Strings.TrimSpace (Repeat "word " 30)), (0 # 149)%Q.
    repeat split; vm_compute; reflexivity. }
  split; [simpl; lia|]. split; [vm_compute; reflexivity|].
  split; [vm_compute; reflexivity|]. split; [vm_compute; reflexivity|].
  split; [vm_compute; reflexivity | discriminate].
Qed.

(** [round64] on some values: the constants 0.8, 0.3 and 0.1 of the code,
    a value that is a binary64 value already, a tie that goes to the even
    neighbour, and the smallest positive binary64 value, below half of which
    everything rounds to 0. *)
Remark round64_values :
  (round64 (8 # 10) == 3602879701896397 # 4503599627370496)%Q /\
  (round64 (3 # 10) == 5404319552844595 # 18014398509481984)%Q /\
  (round64 (1 # 10) == 3602879701896397 # 36028797018963968)%Q /\
  (round64 (9 # 8) == 9 # 8)%Q /\
  (round64 (9007199254740993 # 1) == 9007199254740992 # 1)%Q /\
  (round64 (9007199254740995 # 1) == 9007199254740996 # 1)%Q /\
  (round64 (1 # 2 ^ 1074) == 1 # 2 ^ 1074)%Q /\
  (round64 (1 # 2 ^ 1075) == 0)%Q /\
  (round64 (- (1 # 3)) == - round64 (1 # 3))%Q.
Proof. repeat split; vm_compute; reflexivity. Qed.

(** The comparison of the scores is one of binary64 values.  In the example
    the body has sixty links on 229 bytes of text, more than 0.25 links a
    byte; the candidates have the scores [5 + 2^-50] and [4 + 2^-50], so the
    second is above 80% of the first.  But the quotient rounds to the
    binary64 value of the constant [0.8], the test [scoreRatio > 0.8] fails
    and the page is an article. *)
Remark score_ratio_rounding_example :
  let n := mkPageCounts 1 0 60 0 in
  countStructure 6 linkListHeap linkListDoc = Some n /\
  hasIndexPageCharacteristics n = false /\
  semanticTagRule 6 linkListHeap 5%positive 150 n = Some None /\
  (exists text linkDensity,
     GetInnerText 6 linkListHeap 5%positive false = Some text /\
     GetLinkDensity 6 linkListHeap 5%positive = Some linkDensity /\
     articleFeatures 150 text linkDensity n = false) /\
  ((8 # 10) * scoreOf closeScores 5%positive < scoreOf closeScores 8%positive)%Q /\
  (scoreRatio closeScores 5%positive 8%positive == round64 (8 # 10))%Q /\
  (exists bodyText,
     GetInnerText 6 linkListHeap 2%positive false = Some bodyText /\
     ((25 # 100) < bodyLinkDensity n (Strings.len bodyText))%Q) /\
  ClassifyPageType 6 linkListHeap closeScores linkListDoc [5; 8]%positive 150 ""
  = Some PageTypeArticle.
Proof.
  intros n. split; [vm_compute; reflexivity|].
  split; [vm_compute; reflexivity|]. split; [vm_compute; reflexivity|].
  split.
  { exists (Strings.TrimSpace (Repeat "word " 30)), (0 # 149)%Q.
    repeat split; vm_compute; reflexivity. }
  split; [vm_compute; reflexivity|]. split; [vm_compute; reflexivity|].
  split.
  { eexists. split; [vm_compute; reflexivity|]. vm_compute. reflexivity. }
  vm_compute. reflexivity.
Qed.

(** C6, amended. With no URL, at least two candidates and rules 3 to 5
    undecided: if the binary64 quotient of the second score by the first
    (taken as 1 when the first score is not positive) is above the binary64
    constant [0.8], and either the number of links in the body divided by
    the length of the body text is above 0.25 or the link density of the top
    candidate is above 0.3, [ClassifyPageType] returns [PageTypeOther]. *)
Theorem score_parity_rule fuel h scores doc top second rest charThreshold
    n text linkDensity body bodyText :
  (0 < charThreshold)%Z ->
  countStructure fuel h doc = Some n ->
  hasIndexPageCharacteristics n = false ->
  semanticTagRule fuel h top charThreshold n = Some None ->
  GetInnerText fuel h top false = Some text ->
  GetLinkDensity fuel h top = Some linkDensity ->
  articleFeatures charThreshold text linkDensity n = false ->
  Body doc = Some body ->
  GetInnerText fuel h body false = Some bodyText ->
  (round64 (8 # 10) < scoreRatio scores top second)%Q ->
  ((25 # 100) < bodyLinkDensity n (Strings.len bodyText))%Q
  \/ ((3 # 10) < linkDensity)%Q ->
  ClassifyPageType fuel h scores doc (top :: second :: rest) charThreshold ""
  = Some PageTypeOther.
Proof.
  intros Hct Hn Hidx Hsem Htext Hld Hfeat Hb Hbt Hratio Hdens.
  unfold ClassifyPageType.
  assert ((charThreshold <=? 0)%Z = false) as -> by lia.
  cbn [String.eqb negb mbind option_bind]. unfold classifyByContent.
  rewrite Hn. cbn [mbind option_bind]. rewrite Hidx, Hsem.
  cbn [mbind option_bind]. rewrite Htext, Hld. cbn [mbind option_bind].
  rewrite Hfeat. unfold scoreParityRule.
  rewrite (Qltb_true _ _ Hratio), Hb. cbn [mbind option_bind].
  rewrite Hbt. cbn [mbind option_bind].
  assert (Qltb (25 # 100) (bodyLinkDensity n (Strings.len bodyText))
          || Qltb (3 # 10) linkDensity = true) as ->; [|done].
  destruct Hdens as [Hd|Hd]; rewrite (Qltb_true _ _ Hd); [done|].
  by rewrite orb_true_r.
Qed.

Lemma score_parity_rule_witness :
  (0 < scoreOf linkListScores 5%positive)%Q /\
  ClassifyPageType 6 linkListHeap linkListScores linkListDoc
    [5; 8]%positive 150 "" = Some PageTypeOther.
Proof.
  split; [vm_compute; reflexivity|].
  apply (score_parity_rule 6 linkListHeap linkListScores linkListDoc
           5%positive 8%positive [] 150 (mkPageCounts 1 0 60 0)
           (Strings.TrimSpace (Repeat "word " 30)) (0 # 149)%Q 2%positive
           (Strings.TrimSpace
              ("News " +:+ Strings.TrimSpace (Repeat "word " 30) +:+ " "
               +:+ Repeat "text " 15))).
  - lia.
  - vm_compute; reflexivity.
  - vm_compute; reflexivity.
  - vm_compute; reflexivity.
  - vm_compute; reflexivity.
  - vm_compute; reflexivity.
  - vm_compute; reflexivity.
  - reflexivity.
  - vm_compute; reflexivity.
  - vm_compute; reflexivity.
  - left. vm_compute; reflexivity.
Defined.

(** * Further properties: the DOM queries *)

(** ** Case folding *)

Lemma lower_idem c : Strings.lower (Strings.lower c) = Strings.lower c.
Proof. destruct c as [[] [] [] [] [] [] [] []]; reflexivity. Qed.

Lemma ToLower_idem s : Strings.ToLower (Strings.ToLower s) = Strings.ToLower s.
Proof. induction s as [|c s IH]; simpl; [done|]. by rewrite lower_idem, IH. Qed.

Lemma hasTag_TagName h t p :
  hasTag h t p = true -> exists e, AsVElement h p = Some e /\ TagName e = t.
Proof.
  unfold hasTag. destruct (AsVElement h p) as [e|]; [|discriminate].
  intros Ht. apply String.eqb_eq in Ht. by exists e.
Qed.

(** ** The walk of [getElementsByTagNameInternal] *)

Lemma getElementsByTagNameInternal_head fuel h p l :
  getElementsByTagNameInternal fuel h p ["*"] = Some l ->
  exists rest, l = p :: rest.
Proof.
  destruct fuel as [|fuel]; simpl; [discriminate|].
  destruct (AsVElement h p) as [e|]; simpl; [|discriminate].
  destruct (collect _ (Children e)) as [rest|]; simpl; [|discriminate].
  intros [= <-]. by exists rest.
Qed.

Lemma tag_matches_hasAnyTag h tags p e :
  "*" ∉ tags -> AsVElement h p = Some e ->
  tag_matches tags e = hasAnyTag h tags p.
Proof.
  intros Hstar He. unfold tag_matches, hasAnyTag.
  induction tags as [|t tags IH]; [done|]. cbn [existsb].
  assert (Hne : String.eqb t "*" = false).
  { apply String.eqb_neq. intros ->. apply Hstar. by left. }
  rewrite Hne. cbn [orb]. unfold hasTag at 1. rewrite He. f_equal.
  apply IH. intros Hin. apply Hstar. by right.
Qed.

Lemma getElementsByTagNameInternal_filter_any fuel h tags :
  "*" ∉ tags ->
  forall p all, getElementsByTagNameInternal fuel h p ["*"] = Some all ->
  getElementsByTagNameInternal fuel h p tags
  = Some (filter (fun x => hasAnyTag h tags x = true) all).
Proof.
  intros Ht. induction fuel as [|fuel IH]; intros p all; simpl; [discriminate|].
  destruct (AsVElement h p) as [e|] eqn:He; simpl; [|discriminate].
  destruct (collect _ (Children e)) as [rest|] eqn:Hrest; simpl; [|discriminate].
  intros [= <-].
  erewrite collect_filter; [|exact Hrest|].
  - simpl. f_equal. rewrite filter_cons.
    rewrite (tag_matches_hasAnyTag h tags p e Ht He).
    destruct (hasAnyTag h tags p) eqn:Heq.
    + by rewrite decide_True.
    + rewrite decide_False; [done | congruence].
  - intros c r. simpl. destruct (AsVElement h c).
    + apply IH.
    + by intros [= <-].
Qed.

(** X1. A search by tag name returns exactly the elements of the whole walk
    ([*]) whose stored tag name equals the lower-cased query, in the order
    of the walk; a search for several tag names returns those that carry
    one of them, each once and again in the order of the walk, not one tag
    after the other.  The walk starts with the element searched from: the
    start element itself is a possible result. *)
Theorem tag_search_is_filtered_walk fuel h root all :
  GetElementsByTagName fuel h (Some root) "*" = Some all ->
  (forall tag, Strings.ToLower tag <> "*" ->
     GetElementsByTagName fuel h (Some root) tag
     = Some (filter (fun p => hasTag h (Strings.ToLower tag) p = true) all)) /\
  (forall tagNames, "*" ∉ map Strings.ToLower tagNames ->
     GetElementsByTagNames fuel h (Some root) tagNames
     = Some (filter (fun p => hasAnyTag h (map Strings.ToLower tagNames) p
                              = true) all)) /\
  (exists rest, all = root :: rest) /\
  Forall (is_elem h) all.
Proof.
  intros Hall. split; [|split; [|split]].
  - intros tag Htag. by apply GetElementsByTagName_filter.
  - intros tagNames Hstar. unfold GetElementsByTagNames.
    cbn [mbind option_bind].
    unfold GetElementsByTagName in Hall. cbn [mbind option_bind] in Hall.
    by apply getElementsByTagNameInternal_filter_any.
  - unfold GetElementsByTagName in Hall. cbn [mbind option_bind] in Hall.
    by apply getElementsByTagNameInternal_head with fuel h.
  - by apply GetElementsByTagName_elems in Hall.
Qed.

Lemma tag_search_is_filtered_walk_witness :
  GetElementsByTagName 6 twoDivsHeap (Some 1%positive) "P"
  = Some [4; 7]%positive /\
  GetElementsByTagNames 6 twoDivsHeap (Some 1%positive) ["P"; "Div"]
  = Some [3; 4; 6; 7]%positive.
Proof.
  destruct (tag_search_is_filtered_walk 6 twoDivsHeap 1%positive
              [1; 2; 3; 4; 6; 7]%positive) as (H1 & H2 & _).
  - vm_compute. reflexivity.
  - split.
    + etransitivity; [apply (H1 "P"); vm_compute; discriminate|].
      vm_compute. reflexivity.
    + etransitivity; [apply (H2 ["P"; "Div"])|vm_compute; reflexivity].
      apply (bool_decide_eq_true_1 _). vm_compute. reflexivity.
Defined.

(** X2. The query is lower-cased but the stored tag names are not: an
    element whose tag name contains an upper-case letter is never found by a
    search for a tag name, whatever the case of the query. *)
Theorem tag_search_misses_upper_case fuel h root tag l p e :
  GetElementsByTagName fuel h root tag = Some l ->
  Strings.ToLower tag <> "*" ->
  AsVElement h p = Some e ->
  Strings.ToLower (TagName e) <> TagName e ->
  p ∉ l.
Proof.
  intros Hl Htag He Hup Hin.
  destruct root as [r|]; [|discriminate].
  assert (Hall : is_Some (GetElementsByTagName fuel h (Some r) "*")).
  { apply (traversable_of_tag fuel h (Some r) tag). by exists l. }
  destruct Hall as [all Hall].
  rewrite (GetElementsByTagName_filter fuel h (Some r) tag all Htag Hall) in Hl.
  injection Hl as <-.
  apply list_elem_of_filter in Hin as [Hp _].
  apply hasTag_TagName in Hp as (e' & He' & Ht).
  rewrite He in He'. injection He' as <-.
  apply Hup. rewrite Ht. apply ToLower_idem.
Qed.

Lemma tag_search_misses_upper_case_witness :
  let h : Heap :=
    <[2%positive := mkElement (Some 1%positive) "DIV" [] []]>
      (<[1%positive := mkElement None "html" [] [2%positive]]> ∅) in
  2%positive ∉ ([] : list loc).
Proof.
  intros h.
  apply (tag_search_misses_upper_case 3 h (Some 1%positive) "DIV" []
           2%positive (mkVElement (Some 1%positive) "DIV" ∅ [])).
  - vm_compute. reflexivity.
  - vm_compute. discriminate.
  - vm_compute. reflexivity.
  - vm_compute. discriminate.
Defined.

(** ** Ancestors *)

(** X3. [GetNodeAncestors] returns the chain of parent pointers of the
    element, nearest first: its first entry is the parent, every further
    entry is the parent of the one before.  With a positive [maxDepth] the
    chain has at most [maxDepth] entries; when it was not cut by the limit,
    it ends at an element without parent. *)
Theorem ancestors_are_the_parent_chain fuel h node e maxDepth l :
  AsVElement h node = Some e ->
  GetNodeAncestors fuel h node maxDepth = Some l ->
  parent_chain h (parent e) l /\
  ((0 < maxDepth)%Z -> (Z.of_nat (length l) <= maxDepth)%Z) /\
  ((maxDepth <= 0)%Z \/ (Z.of_nat (length l) < maxDepth)%Z ->
   match last l with
   | Some a => Parent h a = None
   | None => parent e = None
   end).
Proof.
  intros He. unfold GetNodeAncestors. rewrite He. cbn [mbind option_bind].
  intros Hl. destruct (ancestors_loop_chain _ _ _ _ _ _ Hl) as (Hch & Hlen & Hlast).
  split; [done|]. split.
  - intros Hm. specialize (Hlen Hm). lia.
  - intros Hm. apply Hlast. lia.
Qed.

Lemma ancestors_are_the_parent_chain_witness :
  parent_chain twoDivsHeap (Some 3%positive) [3; 2]%positive /\
  ((0 < 2)%Z -> (Z.of_nat (length [3; 2]%positive) <= 2)%Z) /\
  ((2 <= 0)%Z \/ (Z.of_nat (length [3; 2]%positive) < 2)%Z ->
   match last [3; 2]%positive with
   | Some a => Parent twoDivsHeap a = None
   | None => Some 3%positive = None
   end).
Proof.
  apply (ancestors_are_the_parent_chain 6 twoDivsHeap 4%positive
           (mkVElement (Some 3%positive) "p" ∅ [5%positive]) 2
           [3; 2]%positive).
  - vm_compute. reflexivity.
  - vm_compute. reflexivity.
Defined.

Lemma HasAncestorTag_loop_ancestors fuel h t m : forall cur d l,
  GetNodeAncestors_loop fuel h cur m d = Some l ->
  HasAncestorTag_loop fuel h cur t m d
  = Some (existsb (fun a => hasTag h t a) l).
Proof.
  induction fuel as [|fuel IH]; intros cur d l; simpl.
  - destruct cur as [c|]; [|by intros [= <-]].
    destruct ((m <=? 0)%Z || (d <? m)%Z) eqn:Hc; [discriminate|].
    intros [= <-]. apply orb_false_iff in Hc as [H1 H2].
    replace ((0 <? m)%Z && (m <=? d)%Z) with true; [done|].
    symmetry. apply andb_true_iff. split; lia.
  - destruct cur as [c|]; [|by intros [= <-]].
    destruct ((m <=? 0)%Z || (d <? m)%Z) eqn:Hc.
    + replace ((0 <? m)%Z && (m <=? d)%Z) with false.
      2:{ symmetry. apply andb_false_iff.
          apply orb_true_iff in Hc as [Hc|Hc]; [left|right]; lia. }
      destruct (AsVElement h c) as [e|] eqn:He; simpl; [|discriminate].
      destruct (GetNodeAncestors_loop fuel h (parent e) m (d + 1))
        as [rest|] eqn:Hrest; simpl; [|discriminate].
      intros [= <-]. simpl. unfold hasTag at 1. rewrite He.
      rewrite (String.eqb_sym t (TagName e)).
      destruct (String.eqb (TagName e) t); simpl; [done|].
      by apply IH.
    + intros [= <-]. apply orb_false_iff in Hc as [H1 H2].
      replace ((0 <? m)%Z && (m <=? d)%Z) with true; [done|].
      symmetry. apply andb_true_iff. split; lia.
Qed.

(** X4. [HasAncestorTag] of an element agrees with [GetNodeAncestors]: it
    answers whether one of the ancestors returned for the same [maxDepth]
    has the lower-cased tag name. *)
Theorem HasAncestorTag_agrees_with_ancestors fuel h node e tagName maxDepth l :
  AsVElement h node = Some e ->
  GetNodeAncestors fuel h node maxDepth = Some l ->
  HasAncestorTag fuel h node tagName maxDepth
  = Some (existsb (fun a => hasTag h (Strings.ToLower tagName) a) l).
Proof.
  intros He. unfold GetNodeAncestors, HasAncestorTag.
  rewrite He. cbn [mbind option_bind].
  unfold AsVElement in He. destruct (h !! node) as [[t|e']|]; try discriminate.
  injection He as ->. apply HasAncestorTag_loop_ancestors.
Qed.

Lemma HasAncestorTag_agrees_with_ancestors_witness :
  HasAncestorTag 6 twoDivsHeap 4%positive "BODY" 0
  = Some (existsb (fun a => hasTag twoDivsHeap (Strings.ToLower "BODY") a)
            [3; 2; 1]%positive).
Proof.
  apply (HasAncestorTag_agrees_with_ancestors 6 twoDivsHeap 4%positive
           (mkVElement (Some 3%positive) "p" ∅ [5%positive]) "BODY" 0
           [3; 2; 1]%positive).
  - vm_compute. reflexivity.
  - vm_compute. reflexivity.
Defined.

(** * Further properties: inner text and densities *)

(** ** Strings *)

Lemma app_cons x (a b : string) : String x a +:+ b = String x (a +:+ b).
Proof. reflexivity. Qed.

Lemma app_nil (b : string) : "" +:+ b = b.
Proof. reflexivity. Qed.

Ltac sapp := rewrite ?app_cons, ?app_nil.

Lemma append_assoc (a b c : string) : (a +:+ b) +:+ c = a +:+ (b +:+ c).
Proof. induction a as [|x a IH]; sapp; [done|]. by rewrite IH. Qed.

Lemma append_nil_r (a : string) : a +:+ "" = a.
Proof. induction a as [|x a IH]; sapp; [done|]. by rewrite IH. Qed.

Lemma length_append (a b : string) :
  String.length (a +:+ b) = (String.length a + String.length b)%nat.
Proof. induction a as [|x a IH]; sapp; simpl; [done|]. by rewrite IH. Qed.

Lemma rev_app_append s1 : forall s2,
  String.rev_app s1 s2 = String.rev s1 +:+ s2.
Proof.
  unfold String.rev. induction s1 as [|a s1 IH]; intros s2; simpl; [done|].
  rewrite (IH (String a s2)), (IH (String a "")), append_assoc. done.
Qed.

Lemma rev_cons a s : String.rev (String a s) = String.rev s +:+ String a "".
Proof. unfold String.rev at 1. simpl. apply rev_app_append. Qed.

Lemma rev_append s1 s2 :
  String.rev (s1 +:+ s2) = String.rev s2 +:+ String.rev s1.
Proof.
  induction s1 as [|a s1 IH]; sapp.
  - change (String.rev "") with "". by rewrite append_nil_r.
  - by rewrite !rev_cons, IH, append_assoc.
Qed.

Lemma rev_involutive s : String.rev (String.rev s) = s.
Proof.
  induction s as [|a s IH]; [done|].
  by rewrite rev_cons, rev_append, IH.
Qed.

(** ** Trimming *)

Lemma TrimLeft_length s :
  (String.length (Strings.TrimLeft s) <= String.length s)%nat.
Proof.
  assert (H : forall n s, (String.length s <= n)%nat ->
            (String.length (Strings.TrimLeft s) <= String.length s)%nat).
  { clear s. induction n as [|n IH]; intros s Hn.
    - destruct s; simpl in *; [done | lia].
    - destruct s as [|a [|b [|c s3]]]; simpl in *.
      + done.
      + destruct (Strings.IsSpace a); simpl; lia.
      + destruct (Strings.IsSpace a).
        * specialize (IH (String b "")). simpl in IH. lia.
        * destruct (Strings.IsSpace2 a b); simpl; lia.
      + destruct (Strings.IsSpace a).
        * specialize (IH (String b (String c s3))). simpl in IH. lia.
        * destruct (Strings.IsSpace2 a b).
          -- specialize (IH (String c s3)). simpl in IH. lia.
          -- destruct (Strings.IsSpace3 a b c); [|simpl; lia].
             specialize (IH s3). lia. }
  by apply (H (String.length s)).
Qed.

Lemma TrimLeft_head_ok s : head_ok (Strings.TrimLeft s).
Proof.
  assert (H : forall n s, (String.length s <= n)%nat ->
            head_ok (Strings.TrimLeft s)).
  { clear s. induction n as [|n IH]; intros s Hn.
    - destruct s; simpl in *; [done | lia].
    - destruct s as [|a [|b [|c s3]]]; simpl in *.
      + done.
      + by destruct (Strings.IsSpace a) eqn:Ha; simpl.
      + destruct (Strings.IsSpace a) eqn:Ha.
        * apply (IH (String b "")). simpl. lia.
        * by destruct (Strings.IsSpace2 a b) eqn:Hb; simpl.
      + destruct (Strings.IsSpace a) eqn:Ha.
        * apply (IH (String b (String c s3))). simpl. lia.
        * destruct (Strings.IsSpace2 a b) eqn:Hb.
          -- apply (IH (String c s3)). simpl. lia.
          -- destruct (Strings.IsSpace3 a b c) eqn:Hc; [|by simpl].
             apply IH. lia. }
  by apply (H (String.length s)).
Qed.

Lemma TrimLeft_fixed s : head_ok s -> Strings.TrimLeft s = s.
Proof.
  destruct s as [|a [|b [|c s3]]]; simpl; [done|..].
  - by intros [-> _].
  - by intros (-> & -> & _).
  - by intros (-> & -> & ->).
Qed.

Lemma TrimLeft_split s : exists w, s = w +:+ Strings.TrimLeft s.
Proof.
  assert (H : forall n s, (String.length s <= n)%nat ->
            exists w, s = w +:+ Strings.TrimLeft s).
  { clear s. induction n as [|n IH]; intros s Hn.
    - destruct s; simpl in *; [by exists "" | lia].
    - destruct s as [|a s1]; [by exists ""|].
      cbn [Strings.TrimLeft].
      destruct (Strings.IsSpace a).
      { destruct (IH s1) as [w Hw]; [simpl in Hn; lia|].
        exists (String a w). sapp. by rewrite <- Hw. }
      destruct s1 as [|b s2]; [by exists ""|].
      destruct (Strings.IsSpace2 a b).
      { destruct (IH s2) as [w Hw]; [simpl in Hn; lia|].
        exists (String a (String b w)). sapp. by rewrite <- Hw. }
      destruct s2 as [|c s3]; [by exists ""|].
      destruct (Strings.IsSpace3 a b c); [|by exists ""].
      destruct (IH s3) as [w Hw]; [simpl in Hn; lia|].
      exists (String a (String b (String c w))). sapp. by rewrite <- Hw. }
  by apply (H (String.length s)).
Qed.

Lemma head_ok_prefix t u : head_ok (t +:+ u) -> head_ok t.
Proof.
  destruct t as [|a [|b [|c t3]]]; sapp; simpl; [done|..].
  - by intros [-> _].
  - by intros (-> & -> & _).
  - by intros (-> & -> & ->).
Qed.

Lemma TrimRight_rev_ok r : last_ok_rev (Strings.TrimRight_rev r).
Proof.
  assert (H : forall n r, (String.length r <= n)%nat ->
            last_ok_rev (Strings.TrimRight_rev r)).
  { clear r. induction n as [|n IH]; intros r Hn.
    - destruct r; simpl in *; [done | lia].
    - destruct r as [|c [|b [|a r3]]]; simpl in *.
      + done.
      + by destruct (Strings.IsSpace c) eqn:Hc; simpl.
      + destruct (Strings.IsSpace c) eqn:Hc.
        * apply (IH (String b "")). simpl. lia.
        * by destruct (Strings.IsSpace2 b c) eqn:Hb; simpl.
      + destruct (Strings.IsSpace c) eqn:Hc.
        * apply (IH (String b (String a r3))). simpl. lia.
        * destruct (Strings.IsSpace2 b c) eqn:Hb.
          -- apply (IH (String a r3)). simpl. lia.
          -- destruct (Strings.IsSpace3 a b c) eqn:Ha; [|by simpl].
             apply IH. lia. }
  by apply (H (String.length r)).
Qed.

Lemma TrimRight_rev_fixed r : last_ok_rev r -> Strings.TrimRight_rev r = r.
Proof.
  destruct r as [|c [|b [|a r3]]]; simpl; [done|..].
  - by intros [-> _].
  - by intros (-> & -> & _).
  - by intros (-> & -> & ->).
Qed.

Lemma TrimRight_rev_split r : exists w, r = w +:+ Strings.TrimRight_rev r.
Proof.
  assert (H : forall n r, (String.length r <= n)%nat ->
            exists w, r = w +:+ Strings.TrimRight_rev r).
  { clear r. induction n as [|n IH]; intros r Hn.
    - destruct r; simpl in *; [by exists "" | lia].
    - destruct r as [|c r1]; [by exists ""|].
      cbn [Strings.TrimRight_rev].
      destruct (Strings.IsSpace c).
      { destruct (IH r1) as [w Hw]; [simpl in Hn; lia|].
        exists (String c w). sapp. by rewrite <- Hw. }
      destruct r1 as [|b r2]; [by exists ""|].
      destruct (Strings.IsSpace2 b c).
      { destruct (IH r2) as [w Hw]; [simpl in Hn; lia|].
        exists (String c (String b w)). sapp. by rewrite <- Hw. }
      destruct r2 as [|a r3]; [by exists ""|].
      destruct (Strings.IsSpace3 a b c); [|by exists ""].
      destruct (IH r3) as [w Hw]; [simpl in Hn; lia|].
      exists (String c (String b (String a w))). sapp. by rewrite <- Hw. }
  by apply (H (String.length r)).
Qed.

Lemma TrimSpace_ends s :
  head_ok (Strings.TrimSpace s) /\ last_ok (Strings.TrimSpace s).
Proof.
  unfold Strings.TrimSpace, Strings.TrimRight, last_ok.
  set (A := Strings.TrimLeft s).
  set (B := Strings.TrimRight_rev (String.rev A)).
  split.
  - destruct (TrimRight_rev_split (String.rev A)) as [w Hw]. fold B in Hw.
    assert (HA : A = String.rev B +:+ String.rev w).
    { rewrite <- rev_append, <- Hw. by rewrite rev_involutive. }
    apply (head_ok_prefix _ (String.rev w)).
    rewrite <- HA. apply TrimLeft_head_ok.
  - rewrite rev_involutive. apply TrimRight_rev_ok.
Qed.

Lemma TrimSpace_fixed t :
  head_ok t -> last_ok t -> Strings.TrimSpace t = t.
Proof.
  intros H1 H2. unfold Strings.TrimSpace, Strings.TrimRight.
  by rewrite (TrimLeft_fixed t H1), (TrimRight_rev_fixed _ H2), rev_involutive.
Qed.

Lemma TrimSpace_idem s :
  Strings.TrimSpace (Strings.TrimSpace s) = Strings.TrimSpace s.
Proof. destruct (TrimSpace_ends s). by apply TrimSpace_fixed. Qed.

(** ** The bytes of white space *)

Lemma re_space_IsSpace c : Strings.re_space c = true -> Strings.IsSpace c = true.
Proof. destruct c as [[] [] [] [] [] [] [] []]; vm_compute; done. Qed.

Lemma re_space_low c :
  Strings.re_space c = true -> (N_of_ascii c < 128)%N.
Proof. destruct c as [[] [] [] [] [] [] [] []]; vm_compute; done. Qed.

Lemma IsSpace_low c : Strings.IsSpace c = true -> (N_of_ascii c < 128)%N.
Proof. destruct c as [[] [] [] [] [] [] [] []]; vm_compute; done. Qed.

Lemma IsSpace2_high a b :
  Strings.IsSpace2 a b = true -> (128 <= N_of_ascii a)%N /\ (128 <= N_of_ascii b)%N.
Proof.
  unfold Strings.IsSpace2. cbv zeta.
  rewrite andb_true_iff, orb_true_iff, !N.eqb_eq. lia.
Qed.

Lemma IsSpace3_high a b c :
  Strings.IsSpace3 a b c = true ->
  (128 <= N_of_ascii a)%N /\ (128 <= N_of_ascii b)%N /\ (128 <= N_of_ascii c)%N.
Proof.
  unfold Strings.IsSpace3. cbv zeta.
  rewrite !orb_true_iff, !andb_true_iff, !orb_true_iff, !andb_true_iff,
    !N.eqb_eq, !N.leb_le. lia.
Qed.

Lemma high_not_re_space c :
  (128 <= N_of_ascii c)%N -> Strings.re_space c = false.
Proof.
  intros H. destruct (Strings.re_space c) eqn:E; [|done].
  apply re_space_low in E. lia.
Qed.

(** ** Collapsing runs of white space *)

Lemma no_space_run_cons c rest :
  Strings.re_space c = false ->
  no_space_run (String c rest) = no_space_run rest.
Proof. intros Hc. destruct rest as [|b rest]; simpl; [done|]. by rewrite Hc. Qed.

Lemma no_space_run_flush run c rest :
  Strings.re_space c = false ->
  no_space_run (Strings.flush run +:+ String c rest) = no_space_run rest.
Proof.
  intros Hc. destruct run as [|w [|w2 run]]; simpl Strings.flush; sapp.
  - by apply no_space_run_cons.
  - change (no_space_run (String w (String c rest)))
      with (negb (Strings.re_space w && Strings.re_space c)
            && no_space_run (String c rest)).
    rewrite Hc, andb_false_r. simpl negb. rewrite andb_true_l.
    by apply no_space_run_cons.
  - change (no_space_run (String " " (String c rest)))
      with (negb (Strings.re_space " " && Strings.re_space c)
            && no_space_run (String c rest)).
    rewrite Hc, andb_false_r. simpl negb. rewrite andb_true_l.
    by apply no_space_run_cons.
Qed.

Lemma replace_runs_no_run s : forall run,
  no_space_run (Strings.replace_runs run s) = true.
Proof.
  induction s as [|c s IH]; intros run; simpl.
  - by destruct run as [|w [|w2 run]].
  - destruct (Strings.re_space c) eqn:Hc; [apply IH|].
    rewrite (no_space_run_flush _ _ _ Hc). apply IH.
Qed.

Lemma flush_length run : (String.length (Strings.flush run) <= length run)%nat.
Proof. destruct run as [|w [|w2 run]]; simpl; lia. Qed.

Lemma replace_runs_length s : forall run,
  (String.length (Strings.replace_runs run s)
   <= length run + String.length s)%nat.
Proof.
  induction s as [|c s IH]; intros run; simpl.
  - pose proof (flush_length run). lia.
  - destruct (Strings.re_space c).
    + specialize (IH (c :: run)). simpl in IH. lia.
    + rewrite length_append. simpl.
      pose proof (flush_length run). specialize (IH []). simpl in IH. lia.
Qed.

Lemma replace_runs_empty s : forall run,
  Strings.replace_runs run s = "" -> run = [] /\ s = "".
Proof.
  induction s as [|c s IH]; intros run; simpl.
  - by destruct run as [|w [|w2 run]].
  - destruct (Strings.re_space c).
    + intros H. by destruct (IH _ H).
    + destruct (Strings.flush run); sapp; done.
Qed.

(** A string of white space bytes only. *)
Lemma flush_spaces run :
  Forall (fun c => Strings.re_space c = true) run ->
  Strings.forallb Strings.re_space (Strings.flush run) = true.
Proof.
  destruct run as [|w [|w2 run]]; simpl; [done| |done].
  intros Hw%Forall_cons. destruct Hw as [-> _]. done.
Qed.

Lemma forallb_append p a b :
  Strings.forallb p (a +:+ b) = Strings.forallb p a && Strings.forallb p b.
Proof.
  induction a as [|x a IH]; sapp; simpl; [done|].
  by rewrite IH, andb_assoc.
Qed.

(** After a run the output starts with a white space byte. *)
Lemma replace_runs_run_head s : forall run,
  run <> [] -> Forall (fun c => Strings.re_space c = true) run ->
  exists c rest,
    Strings.replace_runs run s = String c rest /\ Strings.re_space c = true.
Proof.
  assert (Hflush : forall run rest,
    run <> [] -> Forall (fun c => Strings.re_space c = true) run ->
    exists c rest', Strings.flush run +:+ rest = String c rest'
                    /\ Strings.re_space c = true).
  { intros run rest Hne Hall. destruct run as [|w [|w2 run]]; [done|..].
    - apply Forall_cons in Hall as [Hw _]. simpl. sapp. eauto.
    - simpl. sapp. eauto. }
  induction s as [|c s IH]; intros run Hne Hall; simpl.
  - destruct (Hflush run "" Hne Hall) as (x & rest & Hx & Hs).
    rewrite append_nil_r in Hx. eauto.
  - destruct (Strings.re_space c) eqn:Hc.
    + apply IH; [done|]. by constructor.
    + by apply Hflush.
Qed.

(** The output starts with the bytes the input starts with, up to the first
    white space byte. *)
Lemma replace_runs_prefix u : forall s q,
  Strings.forallb (fun c => negb (Strings.re_space c)) u = true ->
  Strings.replace_runs [] s = u +:+ q ->
  exists q', s = u +:+ q'.
Proof.
  induction u as [|x u IH]; intros s q Hu Hout; [by exists s|].
  simpl in Hu. apply andb_true_iff in Hu as [Hx Hu].
  apply negb_true_iff in Hx. revert Hout. sapp.
  destruct s as [|c s]; simpl; [done|].
  destruct (Strings.re_space c) eqn:Hc.
  - destruct (replace_runs_run_head s [c]) as (y & rest & -> & Hy);
      [done | by repeat constructor |].
    intros [= -> _]. congruence.
  - sapp. intros [= -> Hrest].
    destruct (IH _ _ Hu Hrest) as [q' ->]. by exists q'.
Qed.

Lemma replace_runs_space_head s c q :
  Strings.replace_runs [] s = String c q -> Strings.re_space c = true ->
  exists c0 q0, s = String c0 q0 /\ Strings.re_space c0 = true.
Proof.
  destruct s as [|c0 s]; simpl; [done|].
  destruct (Strings.re_space c0) eqn:Hc0; [eauto|].
  sapp. intros [= -> _] Hc. congruence.
Qed.

Lemma replace_runs_head_ok s :
  head_ok s -> head_ok (Strings.replace_runs [] s).
Proof.
  intros Hs.
  (* a leading white space byte of the output is one of the input *)
  assert (H1 : forall c q, Strings.replace_runs [] s = String c q ->
                 Strings.IsSpace c = false).
  { intros c q Hout. destruct (Strings.IsSpace c) eqn:Hc; [|done]. exfalso.
    destruct (Strings.re_space c) eqn:Hr.
    - destruct (replace_runs_space_head _ _ _ Hout Hr) as (c0 & q0 & -> & Hr0).
      apply re_space_IsSpace in Hr0. simpl in Hs. destruct Hs. congruence.
    - destruct (replace_runs_prefix (String c "") s q) as [q' ->];
        [simpl; by rewrite Hr | by sapp |].
      revert Hs. sapp. simpl. intros [? _]. congruence. }
  destruct (Strings.replace_runs [] s) as [|a [|b [|c o3]]] eqn:Hout; simpl;
    [done|..].
  - split; [by eapply H1|done].
  - split; [by eapply H1|]. split; [|done].
    destruct (Strings.IsSpace2 a b) eqn:E; [|done]. exfalso.
    destruct (IsSpace2_high _ _ E) as [Ha Hb].
    destruct (replace_runs_prefix (String a (String b "")) s "") as [q' ->].
    { simpl. by rewrite !high_not_re_space. }
    { by sapp. }
    revert Hs. sapp. simpl. intros (_ & ? & _). congruence.
  - split; [by eapply H1|]. split.
    + destruct (Strings.IsSpace2 a b) eqn:E; [|done]. exfalso.
      destruct (IsSpace2_high _ _ E) as [Ha Hb].
      destruct (replace_runs_prefix (String a (String b "")) s (String c o3))
        as [q' ->].
      { simpl. by rewrite !high_not_re_space. }
      { by sapp. }
      revert Hs. sapp. simpl. intros (_ & ? & _). congruence.
    + destruct (Strings.IsSpace3 a b c) eqn:E; [|done]. exfalso.
      destruct (IsSpace3_high _ _ _ E) as (Ha & Hb & Hc).
      destruct (replace_runs_prefix (String a (String b (String c ""))) s o3)
        as [q' ->].
      { simpl. by rewrite !high_not_re_space. }
      { by sapp. }
      revert Hs. sapp. simpl. intros (_ & _ & ?). congruence.
Qed.

(** The same at the other end. *)
Lemma append_eq_split (x y p u : string) :
  x +:+ y = p +:+ u ->
  (exists m, y = m +:+ u /\ p = x +:+ m)
  \/ (exists m, m <> "" /\ u = m +:+ y /\ x = p +:+ m).
Proof.
  revert p. induction x as [|a x IH]; intros p; sapp.
  - intros ->. left. by exists p.
  - destruct p as [|b p]; sapp.
    + intros <-. right. exists (String a x). by sapp.
    + intros [= -> H]. destruct (IH _ H) as [(m & -> & ->)|(m & Hm & -> & ->)].
      * left. by exists m.
      * right. by exists m.
Qed.

Lemma replace_runs_no_space s :
  Strings.forallb (fun c => negb (Strings.re_space c))
    (Strings.replace_runs [] s) = true ->
  Strings.replace_runs [] s = s.
Proof.
  induction s as [|c s IH]; simpl; [done|].
  destruct (Strings.re_space c) eqn:Hc.
  - destruct (replace_runs_run_head s [c]) as (y & rest & -> & Hy);
      [done | by repeat constructor |].
    simpl. by rewrite Hy.
  - sapp. simpl. rewrite Hc. simpl. intros H. by rewrite IH.
Qed.

Lemma replace_runs_suffix u :
  u <> "" -> Strings.forallb (fun c => negb (Strings.re_space c)) u = true ->
  forall s run p,
    Forall (fun c => Strings.re_space c = true) run ->
    Strings.replace_runs run s = p +:+ u ->
    exists p', s = p' +:+ u.
Proof.
  intros Hne Hu.
  assert (Hmix : forall m, m <> "" ->
    Strings.forallb Strings.re_space m = true ->
    forall y, u <> m +:+ y).
  { intros m Hm Hsp y ->. destruct m as [|a m]; [done|].
    revert Hu Hsp. sapp. simpl. intros [Ha _]%andb_true_iff [Ha' _]%andb_true_iff.
    by rewrite Ha' in Ha. }
  induction s as [|c s IH]; intros run p Hrun; simpl.
  - intros Hout. exfalso.
    pose proof (flush_spaces run Hrun) as Hsp. rewrite Hout in Hsp.
    rewrite forallb_append in Hsp. apply andb_true_iff in Hsp as [_ Hsp].
    apply (Hmix u Hne Hsp ""). by rewrite append_nil_r.
  - destruct (Strings.re_space c) eqn:Hc.
    + intros Hout. destruct (IH (c :: run) p) as [p' ->];
        [by constructor | done |].
      by exists (String c p').
    + intros Hout.
      apply append_eq_split in Hout as [(m & Hm & _)|(m & Hm & Hu' & Hf)].
      * destruct m as [|a m]; revert Hm; sapp.
        -- intros Hm. exists "". sapp. rewrite <- Hm. f_equal. symmetry.
           apply replace_runs_no_space. rewrite <- Hm in Hu. simpl in Hu.
           by apply andb_true_iff in Hu as [_ ?].
        -- intros [= <- Hm]. destruct (IH [] m) as [p' ->]; [done..|].
           by exists (String c p').
      * exfalso. apply (Hmix m Hm) in Hu'; [done|].
        pose proof (flush_spaces run Hrun) as Hsp. rewrite Hf in Hsp.
        rewrite forallb_append in Hsp. by apply andb_true_iff in Hsp as [_ ?].
Qed.

Lemma replace_runs_space_last s : forall run p c,
  Strings.replace_runs run s = p +:+ String c "" ->
  Strings.re_space c = true ->
  s = "" \/ exists p' c', s = p' +:+ String c' "" /\ Strings.re_space c' = true.
Proof.
  induction s as [|d s IH]; intros run p c; simpl; [by left|].
  intros Hout Hc. right. destruct (Strings.re_space d) eqn:Hd.
  - destruct (IH _ _ _ Hout Hc) as [-> | (p' & c' & -> & Hc')].
    + by exists "", d.
    + by exists (String d p'), c'.
  - apply append_eq_split in Hout as [(m & Hm & _)|(m & Hm & Hu' & _)].
    + destruct m as [|a m]; revert Hm; sapp; [intros [= -> _]; congruence|].
      intros [= <- Hm]. destruct (IH _ _ _ Hm Hc) as [-> | (p' & c' & -> & Hc')].
      * simpl in Hm. by destruct m.
      * by exists (String d p'), c'.
    + destruct m as [|a [|b m]]; [done|..]; revert Hu'; sapp; intros Hu';
        discriminate Hu'.
Qed.

Lemma rev_cons_eq s c r : String.rev s = String c r -> s = String.rev r +:+ String c "".
Proof.
  intros H. rewrite <- (rev_involutive s), H. by rewrite rev_cons.
Qed.

Lemma replace_runs_last_ok s :
  last_ok s -> last_ok (Strings.replace_runs [] s).
Proof.
  unfold last_ok. intros Hs.
  set (out := Strings.replace_runs [] s).
  (* the bytes the output ends with, when none is a white space byte of the
     regular expression, are bytes the input ends with *)
  assert (Hsuf : forall u p, u <> "" ->
    Strings.forallb (fun c => negb (Strings.re_space c)) u = true ->
    out = p +:+ u -> exists r, String.rev s = String.rev u +:+ r).
  { intros u p Hne Hu Hout.
    destruct (replace_runs_suffix u Hne Hu s [] p) as [p' ->]; [done..|].
    exists (String.rev p'). by rewrite rev_append. }
  assert (H1 : forall c r, String.rev out = String c r ->
                 Strings.IsSpace c = false).
  { intros c r Hout%rev_cons_eq. destruct (Strings.IsSpace c) eqn:Hc; [|done].
    exfalso. destruct (Strings.re_space c) eqn:Hr.
    - destruct (replace_runs_space_last s [] _ _ Hout Hr)
        as [-> | (p' & c' & -> & Hc')]; [by destruct (String.rev r)|].
      rewrite rev_append in Hs. simpl in Hs. destruct Hs as [Hs _].
      apply re_space_IsSpace in Hc'. congruence.
    - destruct (Hsuf (String c "") (String.rev r)) as [r' Hr'];
        [done | simpl; by rewrite Hr | done |].
      rewrite Hr' in Hs. simpl in Hs. destruct Hs. congruence. }
  destruct (String.rev out) as [|c [|b [|a r3]]] eqn:Hout; simpl; [done|..].
  - split; [by eapply H1|done].
  - split; [by eapply H1|]. split; [|done].
    destruct (Strings.IsSpace2 b c) eqn:E; [|done]. exfalso.
    destruct (IsSpace2_high _ _ E) as [Hb Hc].
    apply rev_cons_eq in Hout. simpl in Hout.
    destruct (Hsuf (String b (String c "")) "") as [r' Hr'];
      [done | simpl; by rewrite !high_not_re_space | done |].
    rewrite Hr' in Hs. simpl in Hs. destruct Hs as (_ & ? & _). congruence.
  - split; [by eapply H1|]. split.
    + destruct (Strings.IsSpace2 b c) eqn:E; [|done]. exfalso.
      destruct (IsSpace2_high _ _ E) as [Hb Hc].
      apply rev_cons_eq in Hout. rewrite rev_cons, append_assoc in Hout.
      destruct (Hsuf (String b (String c "")) (String.rev (String a r3)))
        as [r' Hr']; [done | simpl; by rewrite !high_not_re_space | |].
      { rewrite Hout. by rewrite rev_cons. }
      rewrite Hr' in Hs. simpl in Hs. destruct Hs as (_ & ? & _). congruence.
    + destruct (Strings.IsSpace3 a b c) eqn:E; [|done]. exfalso.
      destruct (IsSpace3_high _ _ _ E) as (Ha & Hb & Hc).
      apply rev_cons_eq in Hout. rewrite !rev_cons, !append_assoc in Hout.
      destruct (Hsuf (String a (String b (String c ""))) (String.rev r3))
        as [r' Hr']; [done | simpl; by rewrite !high_not_re_space | done |].
      rewrite Hr' in Hs. simpl in Hs. destruct Hs as (_ & _ & ?). congruence.
Qed.

(** ** GetInnerText *)

Lemma GetInnerText_normalize fuel h node text :
  GetInnerText fuel h node false = Some text ->
  GetInnerText fuel h node true
  = Some (normalizeRegexp_ReplaceAllString text).
Proof.
  destruct fuel as [|fuel]; simpl; [discriminate|].
  destruct (match h !! node with
            | Some (TextNode t) => Some (TextContent t)
            | Some (ElementNode e) => _
            | None => None
            end) as [t|]; cbn [mbind option_bind]; [|discriminate].
  by intros [= <-].
Qed.

Lemma GetInnerText_raw fuel h node text :
  GetInnerText fuel h node true = Some text ->
  exists raw, GetInnerText fuel h node false = Some raw /\
              text = normalizeRegexp_ReplaceAllString raw.
Proof.
  destruct fuel as [|fuel]; simpl; [discriminate|].
  destruct (match h !! node with
            | Some (TextNode t) => Some (TextContent t)
            | Some (ElementNode e) => _
            | None => None
            end) as [t|]; cbn [mbind option_bind]; [|discriminate].
  intros [= <-]. by eexists.
Qed.

Lemma GetInnerText_false_trimmed fuel h node text :
  GetInnerText fuel h node false = Some text ->
  Strings.TrimSpace text = text.
Proof.
  destruct fuel as [|fuel]; simpl; [discriminate|].
  destruct (match h !! node with
            | Some (TextNode t) => Some (TextContent t)
            | Some (ElementNode e) => _
            | None => None
            end) as [t|]; cbn [mbind option_bind]; [|discriminate].
  intros [= <-]. apply TrimSpace_idem.
Qed.

Lemma normalize_trimmed text :
  Strings.TrimSpace text = text ->
  Strings.TrimSpace (normalizeRegexp_ReplaceAllString text)
  = normalizeRegexp_ReplaceAllString text.
Proof.
  intros Ht. unfold normalizeRegexp_ReplaceAllString.
  destruct (TrimSpace_ends text) as [H1 H2]. rewrite Ht in H1, H2.
  apply TrimSpace_fixed.
  - by apply replace_runs_head_ok.
  - by apply replace_runs_last_ok.
Qed.

(** X5. The text [GetInnerText] returns is trimmed, with or without
    normalization: trimming it again changes nothing, so it neither starts
    nor ends with white space. *)
Theorem inner_text_is_trimmed fuel h node normalizeSpaces text :
  GetInnerText fuel h node normalizeSpaces = Some text ->
  Strings.TrimSpace text = text.
Proof.
  destruct normalizeSpaces.
  - intros H. apply GetInnerText_raw in H as (raw & Hraw & ->).
    apply normalize_trimmed. by apply GetInnerText_false_trimmed in Hraw.
  - apply GetInnerText_false_trimmed.
Qed.

Lemma inner_text_is_trimmed_witness :
  Strings.TrimSpace "menu" = "menu".
Proof.
  apply (inner_text_is_trimmed 6 noisyHeap 3%positive true "menu").
  vm_compute. reflexivity.
Defined.

(** X6. The normalized inner text is the plain inner text with its runs of
    white space collapsed: it has no two adjacent white space bytes, is never
    longer than the plain text, and is empty exactly when the plain text
    is. *)
Theorem inner_text_normalized fuel h node text :
  GetInnerText fuel h node false = Some text ->
  exists normalized,
    GetInnerText fuel h node true = Some normalized /\
    no_space_run normalized = true /\
    (Strings.len normalized <= Strings.len text)%Z /\
    (normalized = "" <-> text = "").
Proof.
  intros H. exists (normalizeRegexp_ReplaceAllString text).
  split; [by apply GetInnerText_normalize|].
  unfold normalizeRegexp_ReplaceAllString. split; [apply replace_runs_no_run|].
  split.
  - unfold Strings.len. pose proof (replace_runs_length text []).
    simpl in *. lia.
  - split.
    + intros He. by apply replace_runs_empty in He as [_ ?].
    + by intros ->.
Qed.

Lemma inner_text_normalized_witness :
  exists normalized,
    GetInnerText 6 twoDivsHeap 2%positive true = Some normalized /\
    no_space_run normalized = true /\
    (Strings.len normalized
     <= Strings.len
          "This is a paragraph with enough text to be considered. It has commas, and more text. This is another paragraph with enough text to be considered.")%Z /\
    (normalized = "" <->
     "This is a paragraph with enough text to be considered. It has commas, and more text. This is another paragraph with enough text to be considered." = "").
Proof.
  apply (inner_text_normalized 6 twoDivsHeap 2%positive).
  vm_compute. reflexivity.
Defined.

(** ** Densities *)

Lemma int_nonneg (x : Q) : (0 <= x)%Q -> (0 <= int x)%Z.
Proof.
  intros Hx. unfold int. apply Z.quot_pos; [|done].
  unfold Qle in Hx. simpl in Hx. lia.
Qed.

Lemma len_nonneg s : (0 <= Strings.len s)%Z.
Proof. unfold Strings.len. lia. Qed.

Lemma float64_nonneg n : (0 <= n)%Z -> (0 <= float64 n)%Q.
Proof. intros Hn. unfold float64, Qle. simpl. lia. Qed.

Lemma float64_pos n : (0 < n)%Z -> (0 < float64 n)%Q.
Proof. intros Hn. unfold float64, Qlt. simpl. lia. Qed.

Lemma linkLength_loop_nonneg fuel h links : forall n r,
  (0 <= n)%Z -> linkLength_loop fuel h links n = Some r -> (0 <= r)%Z.
Proof.
  induction links as [|link rest IH]; intros n r Hn; simpl.
  - by intros [= <-].
  - destruct (AsVElement h link) as [e|]; cbn [mbind option_bind];
      [|discriminate].
    destruct (GetInnerText fuel h link true) as [text|];
      cbn [mbind option_bind]; [|discriminate].
    apply IH.
    assert (0 <= int (float64 (Strings.len text)
                      * (if Strings.HasPrefix (GetAttribute e "href") "#"
                         then 3 # 10 else 1))%Q)%Z; [|lia].
    apply int_nonneg. apply Qmult_le_0_compat.
    + apply float64_nonneg, len_nonneg.
    + by destruct (Strings.HasPrefix _ _).
Qed.

(** X7. The link density is never negative; it is zero for an element
    without text and for an element under which no [a] element is found. *)
Theorem link_density_nonneg fuel h element d :
  GetLinkDensity fuel h element = Some d ->
  (0 <= d)%Q /\
  (GetInnerText fuel h element true = Some "" -> d = 0%Q) /\
  (GetElementsByTagName fuel h (Some element) "a" = Some [] -> (d == 0)%Q).
Proof.
  unfold GetLinkDensity.
  destruct (GetInnerText fuel h element true) as [text|] eqn:Ht;
    cbn [mbind option_bind]; [|discriminate].
  destruct (Strings.len text =? 0)%Z eqn:Hz.
  - intros [= <-]. split; [done|]. split; [done|]. done.
  - destruct (GetElementsByTagName fuel h (Some element) "a") as [links|]
      eqn:Hl; cbn [mbind option_bind]; [|discriminate].
    destruct (linkLength_loop fuel h links 0) as [ll|] eqn:Hll;
      cbn [mbind option_bind]; [|discriminate].
    intros [= <-].
    assert (Hpos : (0 < float64 (Strings.len text))%Q).
    { apply float64_pos. pose proof (len_nonneg text). lia. }
    split; [|split].
    + apply Qle_shift_div_l; [done|]. rewrite Qmult_0_l.
      apply float64_nonneg. by apply (linkLength_loop_nonneg fuel h links 0).
    + intros [= ->]. done.
    + intros [= ->]. simpl in Hll. injection Hll as <-.
      unfold Qdiv. by rewrite Qmult_0_l.
Qed.

Lemma link_density_nonneg_witness :
  (0 <= 149 # 329)%Q /\
  (GetInnerText 6 linkHeadingHeap 2%positive true = Some "" ->
   (149 # 329)%Q = 0%Q) /\
  (GetElementsByTagName 6 linkHeadingHeap (Some 2%positive) "a" = Some [] ->
   (149 # 329 == 0)%Q).
Proof.
  apply (link_density_nonneg 6 linkHeadingHeap 2%positive).
  vm_compute. reflexivity.
Defined.

(** X8. The text density lies between zero and the length of the normalized
    text, and it is positive exactly when the element has text: the boost
    that [FindMainCandidates] gives for a positive text density goes to
    every candidate with text. *)
Theorem text_density_bounds fuel h element text d :
  GetInnerText fuel h element true = Some text ->
  GetTextDensity fuel h element = Some d ->
  (0 <= d)%Q /\ (d <= float64 (Strings.len text))%Q /\
  (text <> "" <-> (0 < d)%Q).
Proof.
  intros Ht. unfold GetTextDensity. rewrite Ht. cbn [mbind option_bind].
  destruct (Strings.len text =? 0)%Z eqn:Hz.
  - intros [= <-]. apply Z.eqb_eq in Hz. split; [done|]. split.
    + rewrite Hz. done.
    + split; [|by intros H].
      intros Hne. destruct text; [done|]. unfold Strings.len in Hz.
      simpl in Hz. lia.
  - destruct (AsVElement h element) as [e|]; cbn [mbind option_bind];
      [|discriminate].
    intros [= <-]. apply Z.eqb_neq in Hz.
    set (count := if (childElementCount h e =? 0)%Z then 1%Z
                  else childElementCount h e).
    assert (Hc : (1 <= count)%Z).
    { subst count. unfold childElementCount.
      destruct (_ =? 0)%Z eqn:E; [lia|]. apply Z.eqb_neq in E. lia. }
    assert (Hl : (0 < Strings.len text)%Z)
      by (pose proof (len_nonneg text); lia).
    assert (Hcq : (0 < float64 count)%Q) by (apply float64_pos; lia).
    split; [|split].
    + apply Qle_shift_div_l; [done|]. rewrite Qmult_0_l.
      apply float64_nonneg. lia.
    + apply Qle_shift_div_r; [done|].
      unfold float64, Qle, Qmult. simpl. nia.
    + split; [|intros _ ->; by apply Hz].
      intros _. apply Qlt_shift_div_l; [done|]. rewrite Qmult_0_l.
      by apply float64_pos.
Qed.

Lemma text_density_bounds_witness :
  (0 <= 84)%Q /\
  (84 <= float64 (Strings.len
      "This is a paragraph with enough text to be considered. It has commas, and more text."))%Q /\
  ("This is a paragraph with enough text to be considered. It has commas, and more text." <> ""
   <-> (0 < 84)%Q).
Proof.
  apply (text_density_bounds 6 twoDivsHeap 3%positive).
  - vm_compute. reflexivity.
  - vm_compute. reflexivity.
Defined.

(** * Further properties: the preprocessor *)

(** ** The ad patterns *)

Lemma ToLower_append a b :
  Strings.ToLower (a +:+ b) = Strings.ToLower a +:+ Strings.ToLower b.
Proof. induction a as [|x a IH]; sapp; simpl; [done|]. by rewrite IH. Qed.

Lemma fold_unfold a s1 :
  Strings.fold (String a s1)
  = match s1 with
    | EmptyString => String (Strings.lower a) EmptyString
    | String b s2 =>
        if ((N_of_ascii a =? 197) && (N_of_ascii b =? 191))%N
        then String "s" (Strings.fold s2)
        else
          match s2 with
          | EmptyString => String (Strings.lower a) (Strings.fold s1)
          | String c s3 =>
              if ((N_of_ascii a =? 226) && (N_of_ascii b =? 132)
                  && (N_of_ascii c =? 170))%N
              then String "k" (Strings.fold s3)
              else String (Strings.lower a) (Strings.fold s1)
          end
    end.
Proof. destruct s1 as [|b [|c s3]]; reflexivity. Qed.

(** Case folding keeps the space that follows the class name. *)
Lemma fold_keeps_space a b :
  Strings.existsb (Ascii.eqb " ") (Strings.fold (a +:+ String " " b)) = true.
Proof.
  assert (Hcons : forall x s,
    Strings.existsb (Ascii.eqb " ") s = true ->
    Strings.existsb (Ascii.eqb " ") (String x s) = true).
  { intros x s Hs. simpl. rewrite Hs. apply orb_true_r. }
  assert (H : forall n a, (String.length a <= n)%nat ->
    Strings.existsb (Ascii.eqb " ") (Strings.fold (a +:+ String " " b)) = true).
  { clear a. induction n as [|n IH]; intros a Hn.
    - destruct a as [|x a]; [|simpl in Hn; lia]. sapp.
      destruct b as [|c [|d b]]; reflexivity.
    - destruct a as [|x a]; [apply (IH ""); simpl; lia|].
      sapp. rewrite fold_unfold.
      pose proof (IH a ltac:(simpl in *; lia)) as IH1.
      destruct a as [|y a]; revert IH1; sapp; intros IH1.
      { destruct ((N_of_ascii x =? 197) && (N_of_ascii " " =? 191))%N eqn:E.
        { apply andb_true_iff in E as [_ E]. discriminate E. }
        destruct b as [|c b]; [by apply Hcons|].
        destruct ((N_of_ascii x =? 226) && (N_of_ascii " " =? 132)
                  && (N_of_ascii c =? 170))%N eqn:E2.
        { apply andb_true_iff in E2 as [E2 _].
          apply andb_true_iff in E2 as [_ E2]. discriminate E2. }
        by apply Hcons. }
      pose proof (IH a ltac:(simpl in *; lia)) as IH2.
      destruct ((N_of_ascii x =? 197) && (N_of_ascii y =? 191))%N;
        [by apply Hcons|].
      destruct a as [|z a]; revert IH2; sapp; intros IH2.
      { destruct ((N_of_ascii x =? 226) && (N_of_ascii y =? 132)
                  && (N_of_ascii " " =? 170))%N eqn:E2.
        { apply andb_true_iff in E2 as [_ E2]. discriminate E2. }
        by apply Hcons. }
      pose proof (IH a ltac:(simpl in *; lia)) as IH3.
      destruct ((N_of_ascii x =? 226) && (N_of_ascii y =? 132)
                && (N_of_ascii z =? 170))%N; by apply Hcons. }
  by apply (H (String.length a)).
Qed.

(** X9. The two anchored ad patterns, [^ad$] and [^ads$], can never match:
    they are tried on the class name, a space and the id joined together,
    and that string always holds a space.  Whenever a pattern of
    [adPatterns] matches, it is one of the unanchored ones. *)
Theorem anchored_ad_patterns_never_match (element : VElement) pattern :
  pattern ∈ adPatterns ->
  MatchString pattern (ClassName element +:+ " " +:+ ID element) = true ->
  exists lit, pattern = AdContains lit.
Proof.
  intros Hin Hm. destruct pattern as [lit|lit]; [by exists lit|].
  exfalso. simpl in Hm. apply String.eqb_eq in Hm.
  pose proof (fold_keeps_space (ClassName element) (ID element)) as Hsp.
  change (ClassName element +:+ " " +:+ ID element)
    with (ClassName element +:+ String " " (ID element)) in Hm.
  rewrite Hm in Hsp.
  unfold adPatterns in Hin.
  repeat (apply elem_of_cons in Hin as [Hin|Hin];
          [first [discriminate Hin
                 | injection Hin as ->; vm_compute in Hsp; discriminate Hsp]|]).
  by apply elem_of_nil in Hin.
Qed.

Lemma anchored_ad_patterns_never_match_witness :
  exists lit, AdContains "promo" = AdContains lit.
Proof.
  apply (anchored_ad_patterns_never_match
           (mkVElement None "div" (<["class" := "promo-box"]> ∅) [])
           (AdContains "promo")).
  - unfold adPatterns. do 6 apply list_elem_of_further.
    apply list_elem_of_here.
  - vm_compute. reflexivity.
Defined.

Lemma lower_a x : Strings.lower x = "a"%char -> x = "a"%char \/ x = "A"%char.
Proof. destruct x as [[] [] [] [] [] [] [] []]; vm_compute; intros [=]; auto. Qed.

Lemma lower_d x : Strings.lower x = "d"%char -> x = "d"%char \/ x = "D"%char.
Proof. destruct x as [[] [] [] [] [] [] [] []]; vm_compute; intros [=]; auto. Qed.

Lemma lower_s x : Strings.lower x = "s"%char -> x = "s"%char \/ x = "S"%char.
Proof. destruct x as [[] [] [] [] [] [] [] []]; vm_compute; intros [=]; auto. Qed.

Lemma ToLower_ad cls :
  Strings.ToLower cls = "ad" -> Strings.fold (cls +:+ " ") = "ad ".
Proof.
  destruct cls as [|a [|b [|c cls]]]; simpl; try discriminate.
  intros [= Ha Hb].
  destruct (lower_a _ Ha) as [-> | ->], (lower_d _ Hb) as [-> | ->];
    reflexivity.
Qed.

Lemma ToLower_ads cls :
  Strings.ToLower cls = "ads" -> Strings.fold (cls +:+ " ") = "ads ".
Proof.
  destruct cls as [|a [|b [|c [|d cls]]]]; simpl; try discriminate.
  intros [= Ha Hb Hc].
  destruct (lower_a _ Ha) as [-> | ->], (lower_d _ Hb) as [-> | ->],
    (lower_s _ Hc) as [-> | ->]; reflexivity.
Qed.

(** X10. The case the anchored patterns look written for is not covered: an
    element whose class is just [ad] or [ads], in any case, with no id and
    none of the ad attributes, is not taken for an ad. *)
Theorem bare_ad_class_is_not_an_ad (element : VElement) :
  Strings.ToLower (ClassName element) = "ad"
  \/ Strings.ToLower (ClassName element) = "ads" ->
  ID element = "" ->
  GetAttribute element "role" <> "advertisement" ->
  HasAttribute element "data-ad" = false ->
  HasAttribute element "data-ad-client" = false ->
  HasAttribute element "data-ad-slot" = false ->
  isLikelyAd element = false.
Proof.
  intros Hc Hid Hrole H1 H2 H3. unfold isLikelyAd.
  rewrite H1, H2, H3, !orb_false_r.
  apply String.eqb_neq in Hrole. rewrite Hrole, orb_false_r.
  rewrite Hid. change (" " +:+ "") with " ".
  unfold adPatterns, MatchString. cbn [existsb].
  destruct Hc as [Hc|Hc].
  - rewrite (ToLower_ad _ Hc). vm_compute. reflexivity.
  - rewrite (ToLower_ads _ Hc). vm_compute. reflexivity.
Qed.

Lemma bare_ad_class_is_not_an_ad_witness :
  isLikelyAd (mkVElement None "div" (<["class" := "Ad"]> ∅) []) = false.
Proof.
  apply bare_ad_class_is_not_an_ad.
  - left. vm_compute. reflexivity.
  - vm_compute. reflexivity.
  - vm_compute. discriminate.
  - vm_compute. reflexivity.
  - vm_compute. reflexivity.
  - vm_compute. reflexivity.
Defined.

(** ** Tree-shaped graphs *)

(** X11. After [PreprocessDocument] on a tree-shaped document, a search from
    the document element for one of the tags of [tagsToRemove] finds
    nothing, except the document element itself should it carry such a
    tag. *)
Theorem preprocess_leaves_no_noise_tag fuel doc h :
  NoDupChildren h -> ParentConsistent h ->
  traversable fuel h (DocumentElement doc) ->
  traversable fuel h (Body doc) ->
  exists h1,
    PreprocessDocument fuel doc h = Some h1 /\
    forall tagName, tagName ∈ tagsToRemove ->
    exists l,
      GetElementsByTagName fuel h1 (DocumentElement doc) tagName = Some l /\
      forall p, p ∈ l -> DocumentElement doc = Some p.
Proof.
  intros Hnd Hpc Hr Hb.
  destruct (PreprocessDocument_total fuel doc h Hr Hb) as [h1 Hrun].
  exists h1. split; [done|]. intros t Ht.
  pose proof (PreprocessDocument_unlinks _ _ _ _ Hrun) as Hu.
  destruct (PreprocessDocument_settled _ _ _ _ Hnd Hrun) as [Htags _].
  assert (Hr1 : traversable fuel h1 (DocumentElement doc))
    by (by eapply traversable_unlinks).
  destruct (traversable_tag fuel h1 _ t Hr1) as [l Hl].
  exists l. split; [done|]. intros p Hp.
  rewrite Forall_forall in Htags. specialize (Htags t Ht).
  specialize (Htags h1 (unlinks_only_refl h1) l Hl).
  rewrite Forall_forall in Htags.
  eapply found_is_linked; [|exact Hl|exact Hp|by apply Htags].
  by eapply ParentConsistent_unlinks.
Qed.

Lemma preprocess_leaves_no_noise_tag_witness :
  exists h1,
    PreprocessDocument 6 noisyDoc noisyHeap = Some h1 /\
    forall tagName, tagName ∈ tagsToRemove ->
    exists l,
      GetElementsByTagName 6 h1 (DocumentElement noisyDoc) tagName = Some l /\
      forall p, p ∈ l -> DocumentElement noisyDoc = Some p.
Proof.
  apply (preprocess_leaves_no_noise_tag 6 noisyDoc noisyHeap).
  - exact noisyHeap_NoDupChildren.
  - apply (bool_decide_eq_true_1 _). vm_compute. reflexivity.
  - vm_compute. eauto.
  - vm_compute. eauto.
Defined.

(** X12. After [PreprocessDocument] on a tree-shaped document, no element
    that the walk from the body finds looks like an ad, except the body
    itself should it look like one. *)
Theorem preprocess_leaves_no_ad fuel doc h :
  NoDupChildren h -> ParentConsistent h ->
  traversable fuel h (DocumentElement doc) ->
  traversable fuel h (Body doc) ->
  exists h1 l,
    PreprocessDocument fuel doc h = Some h1 /\
    GetElementsByTagName fuel h1 (Body doc) "*" = Some l /\
    forall p e, p ∈ l -> AsVElement h1 p = Some e -> isLikelyAd e = true ->
      Body doc = Some p.
Proof.
  intros Hnd Hpc Hr Hb.
  destruct (PreprocessDocument_total fuel doc h Hr Hb) as [h1 Hrun].
  pose proof (PreprocessDocument_unlinks _ _ _ _ Hrun) as Hu.
  destruct (PreprocessDocument_settled _ _ _ _ Hnd Hrun) as [_ Hads].
  assert (Hb1 : traversable fuel h1 (Body doc))
    by (by eapply traversable_unlinks).
  destruct Hb1 as [l Hl]. exists h1, l. split; [done|]. split; [done|].
  intros p e Hp He Had. specialize (Hads l Hl).
  rewrite Forall_forall in Hads.
  eapply found_is_linked; [|exact Hl|exact Hp|by apply (Hads p Hp e)].
  by eapply ParentConsistent_unlinks.
Qed.

Lemma preprocess_leaves_no_ad_witness :
  exists h1 l,
    PreprocessDocument 6 noisyDoc noisyHeap = Some h1 /\
    GetElementsByTagName 6 h1 (Body noisyDoc) "*" = Some l /\
    forall p e, p ∈ l -> AsVElement h1 p = Some e -> isLikelyAd e = true ->
      Body noisyDoc = Some p.
Proof.
  apply (preprocess_leaves_no_ad 6 noisyDoc noisyHeap).
  - exact noisyHeap_NoDupChildren.
  - apply (bool_decide_eq_true_1 _). vm_compute. reflexivity.
  - vm_compute. eauto.
  - vm_compute. eauto.
Defined.

(** X13. A body element whose class or id looks like an ad is itself cut
    out: after [PreprocessDocument] on a tree-shaped document the walk from
    the document element no longer reaches the body, although [doc.Body]
    still points to it. *)
Theorem ad_like_body_is_cut_out fuel doc h root body be :
  NoDupChildren h -> ParentConsistent h ->
  traversable fuel h (DocumentElement doc) ->
  traversable fuel h (Body doc) ->
  DocumentElement doc = Some root -> Body doc = Some body ->
  body <> root ->
  AsVElement h body = Some be -> isLikelyAd be = true ->
  exists h1 l,
    PreprocessDocument fuel doc h = Some h1 /\
    GetElementsByTagName fuel h1 (Some root) "*" = Some l /\
    body ∉ l.
Proof.
  intros Hnd Hpc Hr Hb Hroot Hbody Hne Hbe Had.
  destruct (PreprocessDocument_total fuel doc h Hr Hb) as [h1 Hrun].
  pose proof (PreprocessDocument_unlinks _ _ _ _ Hrun) as Hu.
  destruct (PreprocessDocument_settled _ _ _ _ Hnd Hrun) as [_ Hads].
  assert (Hr1 : traversable fuel h1 (DocumentElement doc))
    by (by eapply traversable_unlinks).
  assert (Hb1 : traversable fuel h1 (Body doc))
    by (by eapply traversable_unlinks).
  rewrite Hroot in Hr1. destruct Hr1 as [l Hl].
  exists h1, l. split; [done|]. split; [done|]. intros Hin.
  destruct Hb1 as [lb Hlb]. specialize (Hads lb Hlb).
  rewrite Forall_forall in Hads.
  assert (Hbl : body ∈ lb).
  { rewrite Hbody in Hlb. unfold GetElementsByTagName in Hlb.
    cbn [mbind option_bind] in Hlb.
    apply getElementsByTagNameInternal_head in Hlb as [rest ->]. by left. }
  destruct (unlinks_elem _ _ _ _ Hu Hbe) as (be1 & Hbe1 & _ & _ & Hattr & _).
  assert (Hun : unlinked h1 body).
  { apply (Hads body Hbl be1 Hbe1).
    by rewrite (isLikelyAd_Attributes be be1 Hattr). }
  assert (Hpc1 : ParentConsistent h1) by (by eapply ParentConsistent_unlinks).
  pose proof (found_is_linked _ _ _ _ _ _ Hpc1 Hl Hin Hun) as Heq.
  by injection Heq as ->.
Qed.

Lemma ad_like_body_is_cut_out_witness :
  exists h1 l,
    PreprocessDocument 6 adBodyDoc adBodyHeap = Some h1 /\
    GetElementsByTagName 6 h1 (Some 1%positive) "*" = Some l /\
    2%positive ∉ l.
Proof.
  apply (ad_like_body_is_cut_out 6 adBodyDoc adBodyHeap 1%positive 2%positive
           (mkVElement (Some 1%positive) "body"
              (<["class" := "shopping-page"]> ∅) [3%positive])).
  - apply NoDupChildren_check. apply (bool_decide_eq_true_1 _).
    vm_compute. reflexivity.
  - apply (bool_decide_eq_true_1 _). vm_compute. reflexivity.
  - vm_compute. eauto.
  - vm_compute. eauto.
  - reflexivity.
  - reflexivity.
  - discriminate.
  - vm_compute. reflexivity.
  - vm_compute. reflexivity.
Defined.

(** X14. [PreprocessDocument] keeps the shape the later passes rely on: a
    graph that is well formed, without repeated children and with
    consistent parent pointers stays so, and its elements stay elements. *)
Theorem preprocess_keeps_shape fuel doc h root body :
  WellFormed fuel h -> NoDupChildren h -> ParentConsistent h ->
  DocumentElement doc = Some root -> is_elem h root ->
  Body doc = Some body -> is_elem h body ->
  exists h1,
    PreprocessDocument fuel doc h = Some h1 /\
    WellFormed fuel h1 /\ NoDupChildren h1 /\ ParentConsistent h1 /\
    forall p, is_elem h1 p <-> is_elem h p.
Proof.
  intros Hwf Hnd Hpc Hroot Hre Hbody Hbe.
  assert (Hr : traversable fuel h (DocumentElement doc))
    by (rewrite Hroot; by apply WellFormed_traversable).
  assert (Hb : traversable fuel h (Body doc))
    by (rewrite Hbody; by apply WellFormed_traversable).
  destruct (PreprocessDocument_total fuel doc h Hr Hb) as [h1 Hrun].
  pose proof (PreprocessDocument_unlinks _ _ _ _ Hrun) as Hu.
  exists h1. split; [done|]. split; [by eapply WellFormed_unlinks|].
  split; [by eapply NoDupChildren_unlinks|].
  split; [by eapply ParentConsistent_unlinks|].
  intros p. symmetry. by apply unlinks_is_elem.
Qed.

Lemma preprocess_keeps_shape_witness :
  exists h1,
    PreprocessDocument 6 noisyDoc noisyHeap = Some h1 /\
    WellFormed 6 h1 /\ NoDupChildren h1 /\ ParentConsistent h1 /\
    forall p, is_elem h1 p <-> is_elem noisyHeap p.
Proof.
  apply (preprocess_keeps_shape 6 noisyDoc noisyHeap 1%positive 2%positive).
  - apply (bool_decide_eq_true_1 _). vm_compute. reflexivity.
  - exact noisyHeap_NoDupChildren.
  - apply (bool_decide_eq_true_1 _). vm_compute. reflexivity.
  - reflexivity.
  - vm_compute. eauto.
  - reflexivity.
  - vm_compute. eauto.
Defined.

(** ** What the preprocessor leaves in place *)

Lemma isNoise_unlinks h h' c :
  unlinks_only h h' -> isNoise h' c = isNoise h c.
Proof.
  intros Hu. unfold isNoise.
  destruct (AsVElement h c) as [ce|] eqn:Hc.
  - destruct (unlinks_elem _ _ _ _ Hu Hc) as (ce' & -> & _ & Ht & Ha & _).
    by rewrite Ht, (isLikelyAd_Attributes ce ce' Ha).
  - destruct (AsVElement h' c) as [ce'|] eqn:Hc'; [|done].
    destruct (unlinks_elem_inv _ _ _ _ Hu Hc') as (ce & Hce & _).
    congruence.
Qed.

Lemma keeps_clean_refl h : keeps_clean h h.
Proof. intros q qe c Hq Hc _. by exists qe. Qed.

Lemma keeps_clean_trans h1 h2 h3 :
  unlinks_only h1 h2 -> keeps_clean h1 h2 -> keeps_clean h2 h3 ->
  keeps_clean h1 h3.
Proof.
  intros Hu H12 H23 q qe c Hq Hc Hn.
  destruct (H12 q qe c Hq Hc Hn) as (qe2 & Hq2 & Hc2).
  apply (H23 q qe2 c Hq2 Hc2). by rewrite (isNoise_unlinks h1 h2 c Hu).
Qed.

Lemma removeFirst_other x l c : c ∈ l -> c <> x -> c ∈ removeFirst x l.
Proof.
  induction l as [|y l IH]; simpl; intros Hc Hne; [done|].
  destruct (decide (y = x)) as [->|Hy].
  - apply elem_of_cons in Hc as [->|Hc]; done.
  - apply elem_of_cons in Hc as [->|Hc]; [left|right; by apply IH].
Qed.

Lemma removeFromParent_keeps h x :
  isNoise h x = true -> keeps_clean h (removeFromParent h x).
Proof.
  intros Hx q qe c Hq Hc Hn. unfold removeFromParent.
  destruct (Parent h x) as [p|]; [|by exists qe].
  destruct (AsVElement h p) as [pe|] eqn:Hp; [|by exists qe].
  destruct (decide (q = p)) as [->|Hqp].
  - rewrite Hp in Hq. injection Hq as <-.
    exists (setChildren pe (removeFirst x (Children pe))). split.
    + unfold AsVElement. by rewrite lookup_insert_eq.
    + simpl. apply removeFirst_other; [done|]. intros ->. congruence.
  - exists qe. split; [|done]. unfold AsVElement.
    rewrite lookup_insert_ne; [|done]. exact Hq.
Qed.

Lemma foldl_removeFromParent_keeps es : forall h,
  Forall (fun x => isNoise h x = true) es ->
  keeps_clean h (foldl removeFromParent h es).
Proof.
  induction es as [|x es IH]; intros h Hall; simpl; [apply keeps_clean_refl|].
  apply Forall_cons in Hall as [Hx Hes].
  pose proof (removeFromParent_unlinks h x) as Hu.
  eapply keeps_clean_trans; [exact Hu|by apply removeFromParent_keeps|].
  apply IH. eapply Forall_impl; [exact Hes|].
  intros y Hy. simpl. by rewrite (isNoise_unlinks _ _ y Hu).
Qed.

Lemma tagsToRemove_lower t :
  t ∈ tagsToRemove -> Strings.ToLower t = t /\ t <> "*".
Proof.
  unfold tagsToRemove. intros Hin.
  repeat (apply elem_of_cons in Hin as [->|Hin]; [by split|]).
  by apply elem_of_nil in Hin.
Qed.

Lemma in_list_elem_of t l : t ∈ l -> in_list t l = true.
Proof.
  unfold in_list. induction l as [|y l IH]; intros Hin.
  - by apply elem_of_nil in Hin.
  - simpl. apply elem_of_cons in Hin as [->|Hin].
    + by rewrite String.eqb_refl.
    + rewrite IH; [apply orb_true_r|done].
Qed.

Lemma removeUnwantedTags_tag_keeps fuel doc h t h1 :
  t ∈ tagsToRemove ->
  removeUnwantedTags_tag fuel doc h t = Some h1 -> keeps_clean h h1.
Proof.
  intros Ht. unfold removeUnwantedTags_tag.
  destruct (GetElementsByTagName fuel h (DocumentElement doc) t)
    as [es|] eqn:Hes; cbn [mbind option_bind]; [|discriminate].
  intros [= <-]. apply foldl_removeFromParent_keeps.
  destruct (tagsToRemove_lower t Ht) as [Hlow Hstar].
  assert (Hall : is_Some (GetElementsByTagName fuel h (DocumentElement doc) "*")).
  { apply (traversable_of_tag fuel h _ t). by exists es. }
  destruct Hall as [all Hall].
  rewrite (GetElementsByTagName_filter fuel h _ t all) in Hes;
    [|by rewrite Hlow|done].
  injection Hes as <-. apply Forall_forall. intros x Hx.
  apply list_elem_of_filter in Hx as [Hx _].
  apply hasTag_TagName in Hx as (e & He & Htag).
  unfold isNoise. rewrite He, Htag, Hlow.
  by rewrite (in_list_elem_of t tagsToRemove Ht).
Qed.

Lemma removeUnwantedTags_keeps fuel doc ts : forall h h1,
  Forall (fun t => t ∈ tagsToRemove) ts ->
  forEach (removeUnwantedTags_tag fuel doc) h ts = Some h1 ->
  keeps_clean h h1.
Proof.
  induction ts as [|t ts IH]; intros h h1 Hts; simpl.
  - intros [= <-]. apply keeps_clean_refl.
  - apply Forall_cons in Hts as [Ht Hts].
    destruct (removeUnwantedTags_tag fuel doc h t) as [h'|] eqn:Hstep;
      cbn [mbind option_bind]; [|discriminate].
    intros Hrest.
    eapply keeps_clean_trans.
    + by apply (removeUnwantedTags_tag_spec _ _ _ _ _ Hstep).
    + by eapply removeUnwantedTags_tag_keeps.
    + by apply IH.
Qed.

Lemma removeAds_step_keeps h x : keeps_clean h (removeAds_step h x).
Proof.
  unfold removeAds_step.
  destruct (AsVElement h x) as [e|] eqn:He; [|apply keeps_clean_refl].
  destruct (isLikelyAd e) eqn:Had; simpl; [|apply keeps_clean_refl].
  destruct (bool_decide _); [|apply keeps_clean_refl].
  apply removeFromParent_keeps. unfold isNoise. rewrite He, Had.
  apply orb_true_r.
Qed.

Lemma foldl_removeAds_step_keeps es : forall h,
  keeps_clean h (foldl removeAds_step h es).
Proof.
  induction es as [|x es IH]; intros h; simpl; [apply keeps_clean_refl|].
  eapply keeps_clean_trans; [apply removeAds_step_unlinks| |apply IH].
  apply removeAds_step_keeps.
Qed.

(** X15. The preprocessor cuts out nothing but the elements it looks for: a
    child that is neither an element with a tag of [tagsToRemove] nor an
    element that looks like an ad is still in its parent's child list after
    [PreprocessDocument]. *)
Theorem preprocess_keeps_clean_children fuel doc h h1 q qe c :
  PreprocessDocument fuel doc h = Some h1 ->
  AsVElement h q = Some qe -> c ∈ Children qe ->
  isNoise h c = false ->
  exists qe1, AsVElement h1 q = Some qe1 /\ c ∈ Children qe1.
Proof.
  unfold PreprocessDocument, removeUnwantedTags.
  destruct (forEach _ h tagsToRemove) as [ha|] eqn:Ha;
    cbn [mbind option_bind]; [|discriminate].
  unfold removeAds.
  destruct (GetElementsByTagName fuel ha (Body doc) "*") as [es|];
    cbn [mbind option_bind]; [|discriminate].
  intros [= <-].
  assert (Hk : keeps_clean h (foldl removeAds_step ha es)).
  { eapply keeps_clean_trans.
    - by apply (removeUnwantedTags_spec _ _ _ _ _ Ha).
    - eapply removeUnwantedTags_keeps; [|exact Ha].
      by apply Forall_forall.
    - apply foldl_removeAds_step_keeps. }
  apply Hk.
Qed.

Lemma preprocess_keeps_clean_children_witness :
  exists qe1,
    AsVElement
      (<[2%positive := mkElement (Some 1%positive) "body" [] [7%positive]]>
         noisyHeap) 2%positive = Some qe1 /\
    7%positive ∈ Children qe1.
Proof.
  apply (preprocess_keeps_clean_children 6 noisyDoc noisyHeap
           (<[2%positive := mkElement (Some 1%positive) "body" [] [7%positive]]>
              noisyHeap)
           2%positive
           (mkVElement (Some 1%positive) "body" ∅
              [3%positive; 5%positive; 7%positive])
           7%positive).
  - vm_compute. reflexivity.
  - vm_compute. reflexivity.
  - do 2 apply list_elem_of_further. apply list_elem_of_here.
  - vm_compute. reflexivity.
Defined.

(** ** isVisible *)

(** [isVisible] is [IsProbablyVisible] with one more test, for a style that
    contains [opacity: 0]. *)
Lemma isVisible_IsProbablyVisible (element : VElement) :
  isVisible element
  = IsProbablyVisible element
    && negb (Strings.Contains (GetAttribute element "style") "opacity: 0").
Proof.
  unfold isVisible, IsProbablyVisible.
  destruct (Strings.Contains _ "display: none"); [done|].
  destruct (Strings.Contains _ "visibility: hidden"); [done|].
  destruct (Strings.Contains _ "opacity: 0"); simpl.
  - by rewrite andb_false_r.
  - destruct (HasAttribute element "hidden"); [done|].
    by destruct (String.eqb _ "true").
Qed.

(** * Further properties: the scorer and the extraction *)

(** ** The sort of the candidates *)

Lemma Qltb_lt x y : Qltb x y = true -> (x < y)%Q.
Proof.
  unfold Qltb. destruct (Qle_bool y x) eqn:E; [discriminate|]. intros _.
  apply Qnot_le_lt. intros Hle. apply Qle_bool_iff in Hle. congruence.
Qed.

Lemma Qltb_ge x y : Qltb x y = false -> (y <= x)%Q.
Proof.
  unfold Qltb. destruct (Qle_bool y x) eqn:E; [|discriminate]. intros _.
  by apply Qle_bool_iff.
Qed.

Lemma bubble_Permutation k : forall s, bubble k s ≡ₚ s.
Proof.
  induction k as [|k IH]; intros s; [by destruct s|].
  destruct s as [|a [|b rest]]; simpl; try done.
  destruct (Qltb (score a) (score b)).
  - rewrite IH. apply perm_swap.
  - by rewrite IH.
Qed.

Lemma bubbleSort_Permutation s : bubbleSort s ≡ₚ s.
Proof.
  unfold bubbleSort. generalize (length s) as n.
  intros n. generalize (seq 0 (n - 1)) as idx. intros idx. revert s.
  induction idx as [|i idx IH]; intros s; simpl; [done|].
  by rewrite IH, bubble_Permutation.
Qed.

Lemma bubble_app k : forall pre suf,
  (k < length pre)%nat -> bubble k (pre ++ suf) = bubble k pre ++ suf.
Proof.
  induction k as [|k IH]; intros pre suf Hk.
  - destruct pre as [|a pre]; [simpl in Hk; lia|]. by destruct pre, suf.
  - destruct pre as [|a [|b pre]]; simpl in Hk; [lia|lia|].
    simpl. destruct (Qltb (score a) (score b)); simpl; f_equal.
    + apply (IH (a :: pre) suf). simpl. lia.
    + apply (IH (b :: pre) suf). simpl. lia.
Qed.

(** One pass moves the smallest score to the end. *)
Lemma bubble_min k : forall l,
  length l = S k ->
  exists l' m, bubble k l = l' ++ [m] /\
    Forall (fun x => (score m <= score x)%Q) l.
Proof.
  induction k as [|k IH]; intros l Hl.
  - destruct l as [|a [|b l]]; simpl in Hl; try lia.
    exists [], a. split; [done|]. constructor; [apply Qle_refl|constructor].
  - destruct l as [|a [|b rest]]; simpl in Hl; try lia.
    simpl. destruct (Qltb (score a) (score b)) eqn:E.
    + destruct (IH (a :: rest)) as (l' & m & Hb & Hm); [simpl; lia|].
      exists (b :: l'), m. rewrite Hb. split; [done|].
      apply Forall_cons in Hm as [Ha Hrest].
      constructor; [done|]. constructor; [|done].
      apply Qltb_lt in E. apply Qle_trans with (score a); [done|].
      by apply Qlt_le_weak.
    + destruct (IH (b :: rest)) as (l' & m & Hb & Hm); [simpl; lia|].
      exists (a :: l'), m. rewrite Hb. split; [done|].
      apply Forall_cons in Hm as [Hb' Hrest].
      constructor; [|by constructor].
      apply Qltb_ge in E. by apply Qle_trans with (score b).
Qed.

Lemma descending_passes n cnt : forall i pre suf,
  length pre = S cnt -> (n = length pre + i)%nat ->
  descending (scoresOf suf) ->
  (forall x y, x ∈ pre -> y ∈ suf -> (score y <= score x)%Q) ->
  descending (scoresOf
    (foldl (fun s i => bubble (n - i - 1) s) (pre ++ suf) (seq i cnt))).
Proof.
  induction cnt as [|cnt IH]; intros i pre suf Hlen Hn Hsuf Hle.
  - destruct pre as [|x [|y pre]]; simpl in Hlen; try lia.
    simpl. split; [|done]. unfold scoresOf in *.
    apply Forall_forall. intros q Hq.
    apply list_elem_of_fmap in Hq as (y & -> & Hy).
    apply Hle; [by left|done].
  - simpl seq. simpl foldl.
    replace (n - i - 1)%nat with (S cnt) by lia.
    rewrite bubble_app by lia.
    destruct (bubble_min (S cnt) pre Hlen) as (l' & m & Hb & Hm).
    rewrite Hb, <- app_assoc. simpl.
    assert (Hperm : l' ++ [m] ≡ₚ pre)
      by (rewrite <- Hb; apply bubble_Permutation).
    assert (Hmin : m ∈ pre).
    { rewrite <- Hperm. apply elem_of_app. right. by left. }
    assert (Hsub : forall x, x ∈ l' -> x ∈ pre).
    { intros x Hx. rewrite <- Hperm. apply elem_of_app. by left. }
    apply (IH (S i) l' (m :: suf)).
    + apply (f_equal length) in Hb. rewrite bubble_length in Hb.
      rewrite length_app in Hb. simpl in Hb. lia.
    + apply (f_equal length) in Hb. rewrite bubble_length in Hb.
      rewrite length_app in Hb. simpl in Hb. lia.
    + simpl. split; [|done]. unfold scoresOf.
      apply Forall_forall. intros q Hq.
      apply list_elem_of_fmap in Hq as (y & -> & Hy). by apply Hle.
    + intros x y Hx Hy. apply elem_of_cons in Hy as [->|Hy].
      * rewrite Forall_forall in Hm. apply Hm. by apply Hsub.
      * apply Hle; [by apply Hsub|done].
Qed.

(** A swap needs a strictly smaller score on the left, so two candidates
    with the same score are never swapped. *)
Lemma bubble_stable q k : forall s,
  filter (fun c => Qeq_bool (score c) q = true) (bubble k s)
  = filter (fun c => Qeq_bool (score c) q = true) s.
Proof.
  induction k as [|k IH]; intros s; [by destruct s|].
  destruct s as [|a [|b rest]]; simpl; try done.
  destruct (Qltb (score a) (score b)) eqn:E.
  - rewrite !filter_cons, IH, !filter_cons.
    destruct (decide (Qeq_bool (score b) q = true)) as [Hb|Hb];
      destruct (decide (Qeq_bool (score a) q = true)) as [Ha|Ha]; try done.
    exfalso. apply Qltb_lt in E.
    apply Qeq_bool_iff in Ha. apply Qeq_bool_iff in Hb.
    rewrite Ha, Hb in E. by apply (Qlt_irrefl q).
  - by rewrite !filter_cons, IH, !filter_cons.
Qed.

Lemma bubbleSort_stable q s :
  filter (fun c => Qeq_bool (score c) q = true) (bubbleSort s)
  = filter (fun c => Qeq_bool (score c) q = true) s.
Proof.
  unfold bubbleSort. generalize (length s) as n.
  intros n. generalize (seq 0 (n - 1)) as idx. intros idx. revert s.
  induction idx as [|i idx IH]; intros s; simpl; [done|].
  by rewrite IH, bubble_stable.
Qed.

(** X16. The hand-written bubble sort of [FindMainCandidates] sorts, and it
    is stable: its result holds the same scored candidates, their scores are
    in descending order, and the candidates that share a score stay in the
    order they had. *)
Theorem bubbleSort_sorts (s : list scoredCandidate) :
  bubbleSort s ≡ₚ s /\
  descending (scoresOf (bubbleSort s)) /\
  forall q, filter (fun c => Qeq_bool (score c) q = true) (bubbleSort s)
            = filter (fun c => Qeq_bool (score c) q = true) s.
Proof.
  split; [apply bubbleSort_Permutation|].
  split; [|intros q; apply bubbleSort_stable].
  unfold bubbleSort. destruct s as [|a s]; [done|].
  simpl length. replace (S (length s) - 1)%nat with (length s) by lia.
  pose proof (descending_passes (S (length s)) (length s) 0 (a :: s) [])
    as H.
  rewrite app_nil_r in H. apply H.
  - done.
  - simpl. lia.
  - done.
  - intros x y _ Hy. by apply elem_of_nil in Hy.
Qed.

(** ** The candidates returned *)

(** The two ways [FindMainCandidates] returns: the single [article] or
    [main] element, or the sorted slice of scored candidates. *)
Lemma FindMainCandidates_cases R fuel h scores doc nb res scores' :
  FindMainCandidates R fuel h scores doc nb = Some (res, scores') ->
  (exists a, res = [a] /\ scores' = scores) \/
  exists els scores1 candidates scored,
    forEach (scoreElement R fuel h) (scores, []) els
    = Some (scores1, candidates) /\
    forEach (adjustCandidate fuel h) (scores1, []) candidates
    = Some (scores', scored) /\
    res = topCandidatesOrBody doc (bubbleSort scored)
            (if (nb <=? 0)%Z then DefaultNTopCandidates else nb).
Proof.
  unfold FindMainCandidates.
  destruct (GetElementsByTagName fuel h (DocumentElement doc) "article")
    as [articles|]; cbn [mbind option_bind]; [|discriminate].
  assert (Hscore :
    (elementsToScore ←
       forEach (fun acc tag =>
                  elements ← GetElementsByTagName fuel h (Body doc) tag;
                  Some (acc ++ elements)) [] DefaultTagsToScore;
     '(scores, candidates) ←
       forEach (scoreElement R fuel h) (scores, []) elementsToScore;
     '(scores, scoredCandidates) ←
       forEach (adjustCandidate fuel h) (scores, []) candidates;
     Some (topCandidatesOrBody doc (bubbleSort scoredCandidates)
             (if (nb <=? 0)%Z then DefaultNTopCandidates else nb), scores))
    = Some (res, scores') ->
    exists els scores1 candidates scored,
      forEach (scoreElement R fuel h) (scores, []) els
      = Some (scores1, candidates) /\
      forEach (adjustCandidate fuel h) (scores1, []) candidates
      = Some (scores', scored) /\
      res = topCandidatesOrBody doc (bubbleSort scored)
              (if (nb <=? 0)%Z then DefaultNTopCandidates else nb)).
  { destruct (forEach _ [] DefaultTagsToScore) as [els|];
      cbn [mbind option_bind]; [|discriminate].
    destruct (forEach (scoreElement R fuel h) (scores, []) els)
      as [[scores1 candidates]|] eqn:H1; cbn [mbind option_bind];
      [|discriminate].
    destruct (forEach (adjustCandidate fuel h) (scores1, []) candidates)
      as [[scores2 scored]|] eqn:H2; cbn [mbind option_bind];
      [|discriminate].
    intros [= <- <-]. by exists els, scores1, candidates, scored. }
  assert (Hmain :
    (mains ← GetElementsByTagName fuel h (DocumentElement doc) "main";
     match mains with
     | [m] => Some ([m], scores)
     | _ =>
       elementsToScore ←
         forEach (fun acc tag =>
                    elements ← GetElementsByTagName fuel h (Body doc) tag;
                    Some (acc ++ elements)) [] DefaultTagsToScore;
       '(scores, candidates) ←
         forEach (scoreElement R fuel h) (scores, []) elementsToScore;
       '(scores, scoredCandidates) ←
         forEach (adjustCandidate fuel h) (scores, []) candidates;
       Some (topCandidatesOrBody doc (bubbleSort scoredCandidates)
               (if (nb <=? 0)%Z then DefaultNTopCandidates else nb), scores)
     end) = Some (res, scores') ->
    (exists a, res = [a] /\ scores' = scores) \/
    exists els scores1 candidates scored,
      forEach (scoreElement R fuel h) (scores, []) els
      = Some (scores1, candidates) /\
      forEach (adjustCandidate fuel h) (scores1, []) candidates
      = Some (scores', scored) /\
      res = topCandidatesOrBody doc (bubbleSort scored)
              (if (nb <=? 0)%Z then DefaultNTopCandidates else nb)).
  { destruct (GetElementsByTagName fuel h (DocumentElement doc) "main")
      as [mains|]; cbn [mbind option_bind]; [|discriminate].
    destruct mains as [|m [|m2 mains]]; [by right; apply Hscore| |by right; apply Hscore].
    intros [= <- <-]. left. by exists m. }
  destruct articles as [|a [|a2 articles]]; [exact Hmain| |exact Hmain].
  intros [= <- <-]. left. by exists a.
Qed.

Lemma isDuplicate_false scored c :
  isDuplicate scored c = false -> c ∉ map element scored.
Proof.
  unfold isDuplicate. induction scored as [|sc scored IH]; simpl.
  - intros _ H. by apply elem_of_nil in H.
  - intros H. apply orb_false_iff in H as [H1 H2].
    apply bool_decide_eq_false in H1. intros Hin.
    apply elem_of_cons in Hin as [->|Hin]; [done|]. by apply IH.
Qed.

Lemma adjustCandidate_NoDup fuel h st c st' :
  NoDup (map element (snd st)) ->
  adjustCandidate fuel h st c = Some st' ->
  NoDup (map element (snd st')).
Proof.
  intros Hst. unfold adjustCandidate. destruct st as [scores scored].
  destruct (scores !! c) as [d|]; [|by intros [= <-]].
  destruct (GetLinkDensity fuel h c) as [ld|]; simpl; [|discriminate].
  destruct (GetTextDensity fuel h c) as [td|]; simpl; [|discriminate].
  match goal with |- context [promote fuel h ?s c (Parent h c)] =>
    destruct (promote fuel h s c (Parent h c)) as [cur|] eqn:Hcur end;
    simpl; [|discriminate].
  match goal with |- context [?m !! cur] => destruct (m !! cur) end;
    [|by intros [= <-]].
  destruct (isDuplicate scored cur) eqn:Hd; intros [= <-]; [done|].
  simpl in *. rewrite map_app. simpl. apply NoDup_app. split; [done|].
  split.
  - intros x Hx Hx'. apply list_elem_of_singleton in Hx'. subst x.
    by apply (isDuplicate_false _ _ Hd).
  - apply NoDup_singleton.
Qed.

Lemma forEach_adjustCandidate_NoDup fuel h cs : forall st st',
  NoDup (map element (snd st)) ->
  forEach (adjustCandidate fuel h) st cs = Some st' ->
  NoDup (map element (snd st')).
Proof.
  induction cs as [|c cs IH]; intros st st' Hst; simpl.
  - by intros [= <-].
  - destruct (adjustCandidate fuel h st c) as [st1|] eqn:H1;
      cbn [mbind option_bind]; [|discriminate].
    apply IH. by eapply adjustCandidate_NoDup.
Qed.

Lemma NoDup_map_take {A B} (f : A -> B) (l : list A) : forall k,
  NoDup (map f l) -> NoDup (map f (take k l)).
Proof.
  induction l as [|x l IH]; intros k Hl; [by destruct k|].
  destruct k as [|k]; simpl; [apply NoDup_nil_2|].
  simpl in Hl. apply NoDup_cons in Hl as [Hx Hl].
  apply NoDup_cons. split; [|by apply IH].
  intros Hin. apply Hx. apply list_elem_of_In, in_map_iff.
  apply list_elem_of_In, in_map_iff in Hin as (y & Hy & Hin).
  exists y. split; [done|]. apply list_elem_of_In.
  apply list_elem_of_In in Hin. eapply elem_of_sublist; [exact Hin|].
  apply sublist_take.
Qed.

Lemma map_Permutation {A B} (f : A -> B) (l l' : list A) :
  l ≡ₚ l' -> map f l ≡ₚ map f l'.
Proof. apply Permutation_map. Qed.

Lemma topCandidatesOrBody_NoDup doc scored nb :
  NoDup (map element scored) -> NoDup (topCandidatesOrBody doc scored nb).
Proof.
  intros Hs. unfold topCandidatesOrBody. set (k := Z.to_nat _).
  assert (Ht : NoDup (map element (take k scored)))
    by (by apply NoDup_map_take).
  destruct (map element (take k scored)) as [|x l]; [|done].
  destruct (Body doc) as [b|]; [apply NoDup_singleton|done].
Qed.

(** X17. [FindMainCandidates] never returns the same element twice, and
    what it returns are elements of the graph, provided the body is one. *)
Theorem candidates_are_distinct_elements R fuel h scores doc nb res scores' :
  FindMainCandidates R fuel h scores doc nb = Some (res, scores') ->
  NoDup res /\
  ((forall b, Body doc = Some b -> is_elem h b) -> Forall (is_elem h) res).
Proof.
  intros Hrun. split; [|intros Hb; by eapply FindMainCandidates_elems].
  apply FindMainCandidates_cases in Hrun
    as [(a & -> & _) | (els & scores1 & candidates & scored & _ & Hadj & ->)].
  - apply NoDup_singleton.
  - apply topCandidatesOrBody_NoDup.
    assert (Hnd : NoDup (map element scored)).
    { apply (forEach_adjustCandidate_NoDup fuel h candidates (scores1, [])
               (scores', scored)); [apply NoDup_nil_2|done]. }
    assert (Hp : map element (bubbleSort scored) ≡ₚ map element scored)
      by apply map_Permutation, bubbleSort_Permutation.
    by rewrite Hp.
Qed.

Lemma candidates_are_distinct_elements_witness :
  NoDup [3; 2]%positive /\
  ((forall b, Body twoDivsDoc = Some b -> is_elem twoDivsHeap b) ->
   Forall (is_elem twoDivsHeap) [3; 2]%positive).
Proof.
  eapply (candidates_are_distinct_elements utilRegexps 6 twoDivsHeap ∅
            twoDivsDoc 2).
  vm_compute. reflexivity.
Defined.

(** ** InitializeNode *)

Lemma tagScore_values t :
  let s := tagScore 0 t in
  s = (0 + 5)%Q \/ s = (0 + 3)%Q \/ s = (0 - 3)%Q \/ s = (0 - 5)%Q \/ s = 0%Q.
Proof.
  unfold tagScore. cbv zeta. set (lt := Strings.ToLower t).
  destruct (String.eqb lt "div"); [by left|].
  destruct (in_list lt ["pre"; "td"; "blockquote"]); [by right; left|].
  destruct (in_list lt ["address"; "ol"; "ul"; "dl"; "dd"; "dt"; "li"; "form"]);
    [by right; right; left|].
  destruct (in_list lt ["h1"; "h2"; "h3"; "h4"; "h5"; "h6"; "th"]);
    [by right; right; right; left|].
  by right; right; right; right.
Qed.

Lemma initialScore_range R e :
  (-55 <= initialScore R e)%Q /\ (initialScore R e <= 55)%Q.
Proof.
  unfold initialScore.
  destruct (tagScore_values (TagName e)) as [H|[H|[H|[H|H]]]];
    simpl in H; rewrite H;
    destruct (GetClassWeight_values R e) as [G|[G|[G|[G|G]]]];
    simpl in G; rewrite G; split; vm_compute; discriminate.
Qed.

(** X18. [InitializeNode] succeeds on elements only, and overwrites whatever
    score the element had with a fresh one between -55 and 55: the tag score
    plus the class weight.  No other score changes. *)
Theorem InitializeNode_resets_score R h scores node scores' :
  InitializeNode R h scores node = Some scores' ->
  exists e,
    AsVElement h node = Some e /\
    scores' !! node = Some (mkReadabilityData (initialScore R e)) /\
    (-55 <= initialScore R e)%Q /\ (initialScore R e <= 55)%Q /\
    forall q, q <> node -> scores' !! q = scores !! q.
Proof.
  unfold InitializeNode.
  destruct (AsVElement h node) as [e|]; cbn [mbind option_bind];
    [|discriminate].
  intros [= <-]. exists e. split; [done|]. split.
  - by rewrite lookup_insert_eq.
  - destruct (initialScore_range R e) as [Hlo Hhi].
    split; [done|]. split; [done|].
    intros q Hq. by rewrite lookup_insert_ne.
Qed.

Lemma InitializeNode_resets_score_witness :
  exists e,
    AsVElement twoDivsHeap 3%positive = Some e /\
    (<[3%positive := mkReadabilityData 30]>
       (<[3%positive := mkReadabilityData 1000]> (∅ : Scores)))
      !! 3%positive
    = Some (mkReadabilityData (initialScore utilRegexps e)) /\
    (-55 <= initialScore utilRegexps e)%Q /\
    (initialScore utilRegexps e <= 55)%Q /\
    forall q, q <> 3%positive ->
      (<[3%positive := mkReadabilityData 30]>
         (<[3%positive := mkReadabilityData 1000]> (∅ : Scores))) !! q
      = (<[3%positive := mkReadabilityData 1000]> (∅ : Scores)) !! q.
Proof.
  apply (InitializeNode_resets_score utilRegexps twoDivsHeap
           (<[3%positive := mkReadabilityData 1000]> ∅) 3%positive).
  vm_compute. reflexivity.
Defined.

(** ** CountNodes *)

Lemma sumZ_app (a b : list Z) : sumZ (a ++ b) = (sumZ a + sumZ b)%Z.
Proof.
  unfold sumZ. induction a as [|x a IH]; simpl; [done|]. rewrite IH. lia.
Qed.

Lemma countChildren_walk (rec : loc -> option Z) f h cs : forall rest n,
  (forall c l, f c = Some l ->
     is_Some (AsVElement h c) ->
     rec c = Some (Z.of_nat (length l) + sumZ (map (nonElementChildren h) l))%Z) ->
  collect (fun child =>
             match AsVElement h child with
             | Some _ => f child
             | None => Some []
             end) cs = Some rest ->
  countChildren rec h cs n
  = Some (n + Z.of_nat (length rest)
          + sumZ (map (nonElementChildren h) rest)
          + Z.of_nat (length (filter (fun c => AsVElement h c = None) cs)))%Z.
Proof.
  induction cs as [|c cs IH]; intros rest n Hrec Hcol.
  - injection Hcol as <-. simpl. f_equal. lia.
  - apply collect_Some_cons in Hcol as (r & rs & Hr & Hrs & ->).
    simpl countChildren. rewrite filter_cons.
    destruct (AsVElement h c) as [ce|] eqn:Hc.
    + rewrite (Hrec c r Hr) by (by rewrite Hc). cbn [mbind option_bind].
      rewrite (IH rs _ Hrec Hrs).
      destruct (decide (Some ce = None)) as [?|_]; [done|].
      f_equal. rewrite length_app, map_app, sumZ_app. lia.
    + injection Hr as <-. rewrite (IH rs _ Hrec Hrs).
      destruct (decide (None = None)) as [_|?]; [|done].
      f_equal. rewrite app_nil_l. simpl length. lia.
Qed.

Lemma CountNodes_elem_walk fuel h : forall p all,
  getElementsByTagNameInternal fuel h p ["*"] = Some all ->
  CountNodes_elem fuel h p
  = Some (Z.of_nat (length all) + sumZ (map (nonElementChildren h) all))%Z.
Proof.
  induction fuel as [|fuel IH]; intros p all; simpl; [discriminate|].
  destruct (AsVElement h p) as [e|] eqn:He; cbn [mbind option_bind];
    [|discriminate].
  destruct (collect _ (Children e)) as [rest|] eqn:Hrest;
    cbn [mbind option_bind]; [|discriminate].
  intros [= <-].
  rewrite (countChildren_walk (CountNodes_elem fuel h)
             (fun c => getElementsByTagNameInternal fuel h c ["*"])
             h (Children e) rest 1).
  - f_equal. simpl. unfold nonElementChildren at 2. rewrite He. lia.
  - intros c l Hl _. by apply IH.
  - exact Hrest.
Qed.

(** X19. [CountNodes] counts the whole subtree: one for every element the
    walk from the element reaches, plus one for every entry of their child
    lists that is not an element.  It returns whenever the walk does. *)
Theorem CountNodes_counts_subtree fuel h element all :
  GetElementsByTagName fuel h (Some element) "*" = Some all ->
  CountNodes fuel h (Some element)
  = Some (Z.of_nat (length all) + sumZ (map (nonElementChildren h) all))%Z.
Proof.
  unfold GetElementsByTagName. cbn [mbind option_bind]. simpl.
  apply CountNodes_elem_walk.
Qed.

Lemma CountNodes_counts_subtree_witness :
  CountNodes 6 twoDivsHeap (Some 2%positive)
  = Some (Z.of_nat (length [2; 3; 4; 6; 7]%positive)
          + sumZ (map (nonElementChildren twoDivsHeap)
                    [2; 3; 4; 6; 7]%positive))%Z.
Proof.
  apply (CountNodes_counts_subtree 6 twoDivsHeap 2%positive).
  vm_compute. reflexivity.
Defined.

Lemma countChildren_ge (rec : loc -> option Z) h cs : forall n r,
  (forall c m, rec c = Some m -> (0 <= m)%Z) ->
  countChildren rec h cs n = Some r -> (n <= r)%Z.
Proof.
  induction cs as [|c cs IH]; intros n r Hrec; simpl.
  - intros [= <-]. lia.
  - destruct (AsVElement h c).
    + destruct (rec c) as [m|] eqn:Hm; cbn [mbind option_bind];
        [|discriminate].
      intros Hr. apply IH in Hr; [|done]. apply Hrec in Hm. lia.
    + intros Hr. apply IH in Hr; [|done]. lia.
Qed.

Lemma CountNodes_elem_pos fuel h : forall p n,
  CountNodes_elem fuel h p = Some n -> (1 <= n)%Z.
Proof.
  induction fuel as [|fuel IH]; intros p n; simpl; [discriminate|].
  destruct (AsVElement h p) as [e|]; cbn [mbind option_bind]; [|discriminate].
  apply countChildren_ge. intros c m Hm. apply IH in Hm. lia.
Qed.

(** ** ExtractContent *)

(** The branches of [ExtractContent], read off its result. *)
Lemma ExtractContent_shape X R fuel h scores doc options r scores' :
  ExtractContent X R fuel h scores doc options = Some (r, scores') ->
  let charThreshold :=
    if (CharThreshold options <=? 0)%Z then DefaultCharThreshold
    else CharThreshold options in
  (forall c, Root r = Some c ->
     exists rest text linkDensity,
       FindMainCandidates R fuel h scores doc
         (if (NbTopCandidates options <=? 0)%Z then DefaultNTopCandidates
          else NbTopCandidates options) = Some (c :: rest, scores') /\
       GetInnerText fuel h c false = Some text /\
       GetLinkDensity fuel h c = Some linkDensity /\
       (charThreshold <= Strings.len text)%Z /\
       (linkDensity <= 1 # 2)%Q /\
       (1 <= NodeCount r)%Z) /\
  (Root r = None -> NodeCount r = 0%Z) /\
  (ForcedPageType options = "" -> Root r <> None ->
   PageType_ r = PageTypeArticle) /\
  (ForcedPageType options <> "" -> PageType_ r = ForcedPageType options) /\
  (Header r <> None \/ Footer r <> None \/ OtherSignificantNodes r <> [] ->
   PageType_ r = PageTypeArticle /\ Root r = None).
Proof.
  unfold ExtractContent.
  set (ct := if (CharThreshold options <=? 0)%Z then _ else _).
  set (nb := if (NbTopCandidates options <=? 0)%Z then _ else _).
  destruct (FindMainCandidates R fuel h scores doc nb)
    as [[candidates scores1]|] eqn:Hfind; cbn [mbind option_bind];
    [|discriminate].
  set (content := match candidates with
                  | [] => Some None
                  | topCandidate :: _ => _
                  end).
  destruct content as [articleContent|] eqn:Hcontent;
    cbn [mbind option_bind]; [|discriminate].
  assert (Hroot : forall c, articleContent = Some c ->
            exists rest text linkDensity,
              candidates = c :: rest /\
              GetInnerText fuel h c false = Some text /\
              GetLinkDensity fuel h c = Some linkDensity /\
              (ct <= Strings.len text)%Z /\ (linkDensity <= 1 # 2)%Q).
  { intros c ->. subst content. destruct candidates as [|top rest];
      [discriminate|].
    destruct (GetInnerText fuel h top false) as [text|] eqn:Ht;
      cbn [mbind option_bind] in Hcontent; [|discriminate].
    destruct (GetLinkDensity fuel h top) as [ld|] eqn:Hld;
      cbn [mbind option_bind] in Hcontent; [|discriminate].
    destruct ((ct <=? Strings.len text)%Z && Qle_bool ld (1 # 2)) eqn:Hok;
      [|discriminate].
    injection Hcontent as <-. apply andb_true_iff in Hok as [H1 H2].
    exists rest, text, ld. split; [done|]. split; [done|]. split; [done|].
    split; [lia|]. by apply Qle_bool_iff. }
  clear Hcontent.
  set (pt := if String.eqb (ForcedPageType options) "" then _ else _).
  destruct pt as [pageType|] eqn:Hpt; cbn [mbind option_bind];
    [|discriminate].
  set (st := if String.eqb pageType PageTypeArticle
                && bool_decide (articleContent = None) then _ else _).
  destruct st as [[[header footer] others]|] eqn:Hst;
    cbn [mbind option_bind]; [|discriminate].
  destruct (CountNodes fuel h articleContent) as [nodeCount|] eqn:Hcount;
    cbn [mbind option_bind]; [|discriminate].
  intros [= <- <-]. simpl. split; [|split; [|split; [|split]]].
  - intros c ->.
    destruct (Hroot c eq_refl) as (rest & text & ld & -> & Ht & Hld & H1 & H2).
    exists rest, text, ld. split; [done|]. split; [done|]. split; [done|].
    split; [done|]. split; [done|].
    simpl in Hcount. by apply CountNodes_elem_pos in Hcount.
  - intros ->. simpl in Hcount. by injection Hcount as <-.
  - intros Hf Hr. subst pt. rewrite Hf in Hpt. simpl in Hpt.
    destruct articleContent as [c|]; [|done]. by injection Hpt as <-.
  - intros Hf. subst pt. apply String.eqb_neq in Hf. rewrite Hf in Hpt.
    by injection Hpt as <-.
  - intros Hs. subst st.
    destruct (String.eqb pageType PageTypeArticle) eqn:Hart; simpl in Hst.
    + destruct (bool_decide (articleContent = None)) eqn:Hnone.
      * apply String.eqb_eq in Hart. apply bool_decide_eq_true in Hnone.
        done.
      * injection Hst as <- <- <-. by destruct Hs as [?|[?|?]].
    + injection Hst as <- <- <-. by destruct Hs as [?|[?|?]].
Qed.

(** X20. What [ExtractContent] returns hangs together.  A root is the first
    candidate, with text of at least the threshold length and a link density
    of at most one half, and its nodes are counted; without a root the node
    count is zero.  Unless a page type is forced, a root makes the page an
    article.  Header, footer and other significant nodes are only filled in
    for an article without root. *)
Theorem ExtractContent_result_shape X R fuel h scores doc options r scores' :
  ExtractContent X R fuel h scores doc options = Some (r, scores') ->
  let charThreshold :=
    if (CharThreshold options <=? 0)%Z then DefaultCharThreshold
    else CharThreshold options in
  (forall c, Root r = Some c ->
     exists rest text linkDensity,
       FindMainCandidates R fuel h scores doc
         (if (NbTopCandidates options <=? 0)%Z then DefaultNTopCandidates
          else NbTopCandidates options) = Some (c :: rest, scores') /\
       GetInnerText fuel h c false = Some text /\
       GetLinkDensity fuel h c = Some linkDensity /\
       (charThreshold <= Strings.len text)%Z /\
       (linkDensity <= 1 # 2)%Q /\
       (1 <= NodeCount r)%Z) /\
  (Root r = None -> NodeCount r = 0%Z) /\
  (ForcedPageType options = "" -> Root r <> None ->
   PageType_ r = PageTypeArticle) /\
  (ForcedPageType options <> "" -> PageType_ r = ForcedPageType options) /\
  (Header r <> None \/ Footer r <> None \/ OtherSignificantNodes r <> [] ->
   PageType_ r = PageTypeArticle /\ Root r = None).
Proof. apply ExtractContent_shape. Qed.

Lemma ExtractContent_result_shape_witness :
  exists r scores',
    ExtractContent exampleCollaborators utilRegexps 6 twoDivsHeap ∅
      twoDivsDoc (mkReadabilityOptions 50 5 false "") = Some (r, scores') /\
    Root r = Some 3%positive /\
    (1 <= NodeCount r)%Z /\ PageType_ r = PageTypeArticle.
Proof.
  destruct (ExtractContent exampleCollaborators utilRegexps 6 twoDivsHeap ∅
              twoDivsDoc (mkReadabilityOptions 50 5 false ""))
    as [[r scores']|] eqn:E; [|vm_compute in E; discriminate E].
  exists r, scores'. split; [done|].
  assert (Hr : Root r = Some 3%positive).
  { pose proof E as E'. vm_compute in E'. by injection E' as <- _. }
  destruct (ExtractContent_result_shape _ _ _ _ _ _ _ _ _ E)
    as (H1 & _ & H3 & _).
  split; [done|]. split.
  - destruct (H1 _ Hr) as (rest & text & ld & _ & _ & _ & _ & _ & Hn). done.
  - apply H3; [done|]. by rewrite Hr.
Defined.

(** X21. [GetContentByPageType] never hands out the structural elements
    that [ExtractContent] found: for an article it returns title, byline and
    root only, and for any other page type the header, the footer, the list
    of other significant nodes and the ARIA tree are all empty. *)
Theorem structural_elements_never_surface X R fuel h scores doc options r
    scores' (A : Type) :
  ExtractContent X R fuel h scores doc options = Some (r, scores') ->
  GetContentByPageType (A := A) r None
  = (if String.eqb (PageType_ r) PageTypeArticle
     then ArticleContent (Title r) (Byline r) (Root r)
     else OtherContent (Title r) None None [] None).
Proof.
  intros Hrun. unfold GetContentByPageType.
  destruct (String.eqb (PageType_ r) PageTypeArticle) eqn:Hart; [done|].
  destruct (ExtractContent_shape _ _ _ _ _ _ _ _ _ Hrun)
    as (_ & _ & _ & _ & Hs).
  apply String.eqb_neq in Hart.
  destruct (Header r) as [x|] eqn:Hh.
  { exfalso. apply Hart. apply Hs. by left. }
  destruct (Footer r) as [x|] eqn:Hf.
  { exfalso. apply Hart. apply Hs. right. by left. }
  destruct (OtherSignificantNodes r) as [|x l] eqn:Ho; [done|].
  exfalso. apply Hart. apply Hs. right. by right.
Qed.

Lemma structural_elements_never_surface_witness :
  exists r,
    GetContentByPageType (A := unit) r None
    = (if String.eqb (PageType_ r) PageTypeArticle
       then ArticleContent (Title r) (Byline r) (Root r)
       else OtherContent (Title r) None None [] None) /\
    PageType_ r = PageTypeOther.
Proof.
  destruct (ExtractContent exampleCollaborators utilRegexps 3 emptyBodyHeap
              ∅ emptyBodyDoc defaultOptions)
    as [[r scores']|] eqn:E; [|vm_compute in E; discriminate E].
  exists r. split.
  - exact (structural_elements_never_surface _ _ _ _ _ _ _ _ _ unit E).
  - pose proof E as E'. vm_compute in E'. by injection E' as <- _.
Defined.

(** [ExtractContent] reads its options through their defaults: a
    threshold or a number of candidates that is zero or negative stands for
    the default, and [GenerateAriaTree] has no effect at all. *)
Lemma ExtractContent_reads_defaults X R fuel h scores doc ct nb g g' forced :
  ExtractContent X R fuel h scores doc (mkReadabilityOptions ct nb g forced)
  = ExtractContent X R fuel h scores doc
      (mkReadabilityOptions
         (if (ct <=? 0)%Z then CharThreshold DefaultOptions else ct)
         (if (nb <=? 0)%Z then NbTopCandidates DefaultOptions else nb)
         g' forced).
Proof.
  unfold ExtractContent. simpl.
  change DefaultCharThreshold with 500%Z.
  change DefaultNTopCandidates with 5%Z.
  destruct (ct <=? 0)%Z eqn:Hct; destruct (nb <=? 0)%Z eqn:Hnb; simpl;
    rewrite ?Hct, ?Hnb; reflexivity.
Qed.

(** ** FindStructuralElements *)

(** X22. The other significant nodes that [FindStructuralElements] returns
    are pairwise distinct, and each is a visible element that is a
    significant node or a semantic tag and does not lie inside the header or
    the footer that was found; unless it is the body, it is neither the
    header nor the footer itself. *)
Theorem other_significant_nodes_spec fuel h doc header footer others :
  FindStructuralElements fuel h doc = Some (header, footer, others) ->
  NoDup others /\
  forall n, n ∈ others ->
    exists e,
      AsVElement h n = Some e /\
      IsProbablyVisible e = true /\
      (IsSignificantNode e || IsSemanticTag h e) = true /\
      isInside fuel h (Body doc) [header; footer] (Some n) = Some false /\
      (Body doc <> Some n -> header <> Some n /\ footer <> Some n).
Proof.
  unfold FindStructuralElements.
  destruct (findHeader fuel h doc) as [hd|]; cbn [mbind option_bind];
    [|discriminate].
  destruct (findFooter fuel h doc hd) as [ft|]; cbn [mbind option_bind];
    [|discriminate].
  repeat (match goal with
          | |- context [GetElementsByTagName ?f ?hh ?b ?t ≫= _] =>
              destruct (GetElementsByTagName f hh b t);
              cbn [mbind option_bind]; [|discriminate]
          end).
  destruct (AddSignificantElementsByClassOrId _ _ _ _) as [potential|];
    cbn [mbind option_bind]; [|discriminate].
  match goal with
  | |- context [forEach ?body [] potential] =>
      destruct (forEach body [] potential) as [res|] eqn:Hloop;
      cbn [mbind option_bind]; [|discriminate];
      pose proof (forEach_inv body
        (fun acc => NoDup acc /\
           forall n, n ∈ acc ->
             exists e,
               AsVElement h n = Some e /\
               IsProbablyVisible e = true /\
               (IsSignificantNode e || IsSemanticTag h e) = true /\
               isInside fuel h (Body doc) [hd; ft] (Some n) = Some false /\
               (Body doc <> Some n -> hd <> Some n /\ ft <> Some n))
        (fun _ => True) potential) as Hinv
  end.
  intros [= <- <- <-]. apply (Hinv (Forall_true _ _ (fun _ => I))) with [];
    [|split; [apply NoDup_nil_2|intros n Hn; by apply elem_of_nil in Hn]
     |exact Hloop].
  clear Hinv Hloop. intros acc n acc' [Hnd Hacc] _.
  destruct (isInside fuel h (Body doc) [hd; ft] (Some n)) as [inside|] eqn:Hin;
    cbn [mbind option_bind]; [|discriminate].
  destruct inside; simpl; [by intros [= <-]|].
  destruct (bool_decide (n ∈ acc)) eqn:Hdup; simpl; [by intros [= <-]|].
  apply bool_decide_eq_false in Hdup.
  destruct (AsVElement h n) as [e|] eqn:He; cbn [mbind option_bind];
    [|discriminate].
  destruct (IsProbablyVisible e && (IsSignificantNode e || IsSemanticTag h e))
    eqn:Hok; intros [= <-]; [|done].
  apply andb_true_iff in Hok as [Hvis Hsig]. split.
  - apply NoDup_app. split; [done|]. split; [|apply NoDup_singleton].
    intros x Hx Hx'. apply list_elem_of_singleton in Hx'. by subst x.
  - intros m Hm. apply elem_of_app in Hm as [Hm|Hm]; [by apply Hacc|].
    apply list_elem_of_singleton in Hm. subst m. exists e.
    split; [done|]. split; [done|]. split; [done|]. split; [done|].
    intros Hb.
    destruct fuel as [|fuel']; simpl in Hin.
    + destruct (bool_decide (Some n = Body doc)) eqn:E1.
      { apply bool_decide_eq_true in E1. by symmetry in E1. }
      destruct (bool_decide (Some n ∈ [hd; ft])) eqn:E2; [discriminate|].
      apply bool_decide_eq_false in E2. split; intros ->; apply E2.
      * by left.
      * right. by left.
    + destruct (bool_decide (Some n = Body doc)) eqn:E1.
      { apply bool_decide_eq_true in E1. by symmetry in E1. }
      destruct (bool_decide (Some n ∈ [hd; ft])) eqn:E2; [discriminate|].
      apply bool_decide_eq_false in E2. split; intros ->; apply E2.
      * by left.
      * right. by left.
Qed.

Lemma other_significant_nodes_spec_witness :
  NoDup [3%positive] /\
  forall n, n ∈ [3%positive] ->
    exists e,
      AsVElement twoDivsHeap n = Some e /\
      IsProbablyVisible e = true /\
      (IsSignificantNode e || IsSemanticTag twoDivsHeap e) = true /\
      isInside 6 twoDivsHeap (Body twoDivsDoc) [None; None] (Some n)
      = Some false /\
      (Body twoDivsDoc <> Some n -> None <> Some n /\ None <> Some n).
Proof.
  apply (other_significant_nodes_spec 6 twoDivsHeap twoDivsDoc None None
           [3%positive]).
  vm_compute. reflexivity.
Defined.

(** * Further properties: the page classifier *)

Lemma classifyByUrl_nil fuel h charThreshold url :
  classifyByUrl fuel h [] charThreshold url = Some (Some PageTypeOther)
  \/ classifyByUrl fuel h [] charThreshold url = Some None.
Proof.
  unfold classifyByUrl.
  destruct (Strings.Contains url "/articles/"); [by left|].
  destruct (digitOnlyPattern _ || _); [by left|].
  destruct (topLevelPattern url || userPagePattern url); [by left|by right].
Qed.

(** X23. Without candidates the page is never an article: [ClassifyPageType]
    returns [PageTypeOther] for every document, threshold and URL, also for
    a URL that looks like an article's. *)
Theorem no_candidates_is_other fuel h scores doc charThreshold url :
  ClassifyPageType fuel h scores doc [] charThreshold url
  = Some PageTypeOther.
Proof.
  unfold ClassifyPageType.
  set (ct := if (charThreshold <=? 0)%Z then _ else _).
  destruct (negb (String.eqb url "")); [|done].
  by destruct (classifyByUrl_nil fuel h ct url) as [-> | ->].
Qed.

Lemma classifyByUrl_binary fuel h candidates charThreshold url pageType :
  classifyByUrl fuel h candidates charThreshold url = Some (Some pageType) ->
  pageType = PageTypeArticle \/ pageType = PageTypeOther.
Proof.
  unfold classifyByUrl.
  destruct (Strings.Contains url "/articles/").
  { destruct (0 <? _)%Z; intros [= <-]; auto. }
  destruct (digitOnlyPattern _ || _).
  { destruct (0 <? _)%Z; intros [= <-]; auto. }
  destruct (topLevelPattern url || userPagePattern url); [|discriminate].
  destruct candidates as [|c0 rest]; [intros [= <-]; auto|].
  destruct (GetInnerText fuel h c0 false) as [text|]; cbn [mbind option_bind];
    [|discriminate].
  destruct (_ <? _)%Z; [|intros [= <-]; auto].
  destruct (GetLinkDensity fuel h c0) as [ld|]; cbn [mbind option_bind];
    [|discriminate].
  destruct (Qltb ld (3 # 10)); intros [= <-]; auto.
Qed.

Lemma classifyByContent_binary fuel h scores doc candidates charThreshold
    pageType :
  classifyByContent fuel h scores doc candidates charThreshold = Some pageType ->
  pageType = PageTypeArticle \/ pageType = PageTypeOther.
Proof.
  unfold classifyByContent.
  destruct candidates as [|top rest]; [intros [= <-]; auto|].
  destruct (countStructure fuel h doc) as [n|]; cbn [mbind option_bind];
    [|discriminate].
  destruct (hasIndexPageCharacteristics n); [intros [= <-]; auto|].
  destruct (semanticTagRule fuel h top charThreshold n) as [semantic|] eqn:Hs;
    cbn [mbind option_bind]; [|discriminate].
  destruct semantic as [pt|].
  { intros [= <-]. unfold semanticTagRule in Hs.
    destruct (AsVElement h top) as [te|]; cbn [mbind option_bind] in Hs;
      [|discriminate].
    destruct (IsSemanticTag h te); [|discriminate].
    destruct (GetInnerText fuel h top false) as [text|];
      cbn [mbind option_bind] in Hs; [|discriminate].
    destruct (GetLinkDensity fuel h top) as [ld|];
      cbn [mbind option_bind] in Hs; [|discriminate].
    destruct (_ && _).
    - destruct (10 <? _)%Z; injection Hs as <-; auto.
    - destruct (_ <? 100)%Z; [|discriminate]. injection Hs as <-; auto. }
  destruct (GetInnerText fuel h top false) as [text|];
    cbn [mbind option_bind]; [|discriminate].
  destruct (GetLinkDensity fuel h top) as [ld|];
    cbn [mbind option_bind]; [|discriminate].
  destruct (articleFeatures charThreshold text ld n); [intros [= <-]; auto|].
  destruct (scoreParityRule fuel h scores doc (top :: rest) ld n)
    as [balanced|]; cbn [mbind option_bind]; [|discriminate].
  destruct balanced; [intros [= <-]; auto|].
  destruct (Body doc) as [body|]; cbn [mbind option_bind]; [|discriminate].
  destruct (GetInnerText fuel h body false) as [bodyText|];
    cbn [mbind option_bind]; [|discriminate].
  intros [= <-]. unfold finalRules.
  destruct (_ && _); [auto|].
  destruct (_ && _); [|auto].
  destruct (10 <? _)%Z; auto.
Qed.

(** X24. Whatever the document, the candidates and the URL,
    [ClassifyPageType] answers [PageTypeArticle] or [PageTypeOther] and
    nothing else. *)
Theorem classification_is_binary fuel h scores doc candidates charThreshold
    url pageType :
  ClassifyPageType fuel h scores doc candidates charThreshold url
  = Some pageType ->
  pageType = PageTypeArticle \/ pageType = PageTypeOther.
Proof.
  unfold ClassifyPageType.
  set (ct := if (charThreshold <=? 0)%Z then _ else _).
  destruct (negb (String.eqb url "")).
  - destruct (classifyByUrl fuel h candidates ct url) as [byUrl|] eqn:Hu;
      cbn [mbind option_bind]; [|discriminate].
    destruct byUrl as [pt|].
    + intros [= <-]. by eapply classifyByUrl_binary.
    + apply classifyByContent_binary.
  - cbn [mbind option_bind]. apply classifyByContent_binary.
Qed.

Lemma classification_is_binary_witness :
  PageTypeOther = PageTypeArticle \/ PageTypeOther = PageTypeOther.
Proof.
  apply (classification_is_binary 6 linkHeadingHeap linkHeadingScores
           linkHeadingDoc [3; 6; 9]%positive 500 "" PageTypeOther).
  vm_compute. reflexivity.
Defined.

(** X25. A page whose body has no [h1], [h2] or [h3] heading is never an
    article for the content rules: when no URL is given, [ClassifyPageType]
    returns [PageTypeOther] for it, whatever its candidates and their
    text. *)
Theorem headingless_page_is_other fuel h scores doc candidates charThreshold :
  GetElementsByTagName fuel h (Body doc) "h1" = Some [] ->
  GetElementsByTagName fuel h (Body doc) "h2" = Some [] ->
  GetElementsByTagName fuel h (Body doc) "h3" = Some [] ->
  is_Some (countStructure fuel h doc) ->
  ClassifyPageType fuel h scores doc candidates charThreshold ""
  = Some PageTypeOther.
Proof.
  intros H1 H2 H3 [n Hn]. unfold ClassifyPageType. simpl.
  unfold classifyByContent. destruct candidates as [|top rest]; [done|].
  rewrite Hn. cbn [mbind option_bind].
  assert (Hh : headingCount n = 0%Z).
  { unfold countStructure in Hn. rewrite H1, H2, H3 in Hn.
    cbn [mbind option_bind] in Hn.
    repeat (match type of Hn with
            | context [GetElementsByTagName ?f ?hh ?b ?t ≫= _] =>
                destruct (GetElementsByTagName f hh b t);
                cbn [mbind option_bind] in Hn; [|discriminate]
            end).
    destruct (Body doc) as [b|]; cbn [mbind option_bind] in Hn;
      [|discriminate].
    destruct (AsVElement h b) as [be|]; cbn [mbind option_bind] in Hn;
      [|discriminate].
    by injection Hn as <-. }
  unfold hasIndexPageCharacteristics. rewrite Hh. simpl.
  by rewrite !orb_true_r.
Qed.

Lemma headingless_page_is_other_witness :
  ClassifyPageType 6 twoDivsHeap ∅ twoDivsDoc [3; 2]%positive 50 ""
  = Some PageTypeOther.
Proof.
  apply (headingless_page_is_other 6 twoDivsHeap ∅ twoDivsDoc).
  - vm_compute. reflexivity.
  - vm_compute. reflexivity.
  - vm_compute. reflexivity.
  - vm_compute. eauto.
Defined.

(** ** The URL rules *)

Lemma Contains_nonempty url lit :
  lit <> "" -> Strings.Contains url lit = true -> url <> "".
Proof. intros Hl Hc ->. destruct lit; [done|]. simpl in Hc. discriminate. Qed.

(** X26. When [GetExpectedPageTypeByUrl] expects an article because the URL
    contains [/articles/] or ends in something like an identifier,
    [ClassifyPageType] decides by that URL alone: the page is an article if
    there is any candidate, whatever the document looks like. *)
Theorem article_url_decides fuel h scores doc candidates charThreshold url :
  GetExpectedPageTypeByUrl url = PageTypeArticle ->
  threeDepthPattern url = false \/ Strings.Contains url "/articles/" = true ->
  ClassifyPageType fuel h scores doc candidates charThreshold url
  = Some (if (0 <? Z.of_nat (length candidates))%Z
          then PageTypeArticle else PageTypeOther).
Proof.
  unfold GetExpectedPageTypeByUrl, ClassifyPageType, classifyByUrl.
  set (ct := if (charThreshold <=? 0)%Z then _ else _).
  intros Hexp Hthree.
  destruct (Strings.Contains url "/articles/") eqn:Hart.
  - assert (Hne : url <> "") by (by eapply Contains_nonempty; [|exact Hart]).
    apply String.eqb_neq in Hne. rewrite Hne. simpl. done.
  - destruct Hthree as [Hthree|?]; [|discriminate]. rewrite Hthree in Hexp.
    destruct (digitOnlyPattern _ || _) eqn:Hid; [|discriminate].
    assert (Hne : url <> "").
    { intros ->. vm_compute in Hid. discriminate. }
    apply String.eqb_neq in Hne. rewrite Hne. simpl. done.
Qed.

Lemma article_url_decides_witness :
  ClassifyPageType 6 twoDivsHeap ∅ twoDivsDoc [3; 2]%positive 500
    "https://example.com/p/12345.html"
  = Some (if (0 <? Z.of_nat (length [3; 2]%positive))%Z
          then PageTypeArticle else PageTypeOther).
Proof.
  apply (article_url_decides 6 twoDivsHeap ∅ twoDivsDoc).
  - vm_compute. reflexivity.
  - left. vm_compute. reflexivity.
Defined.

(** * Further properties: the documents the parser builds *)

(** ** Allocation and the node operations *)

Lemma alloc_fresh (h : Heap) : h !! alloc h = None.
Proof.
  apply (not_elem_of_dom (D := gset loc)). unfold alloc. apply is_fresh.
Qed.

Lemma AsVElement_insert_eq (h : Heap) p e :
  AsVElement (<[p := ElementNode e]> h) p = Some e.
Proof. unfold AsVElement. by rewrite lookup_insert_eq. Qed.

Lemma AsVElement_insert_text (h : Heap) p t :
  AsVElement (<[p := TextNode t]> h) p = None.
Proof. unfold AsVElement. by rewrite lookup_insert_eq. Qed.

Lemma AsVElement_insert_ne (h : Heap) p q n :
  p <> q -> AsVElement (<[p := n]> h) q = AsVElement h q.
Proof. intros Hne. unfold AsVElement. by rewrite lookup_insert_ne. Qed.

Lemma AsVElement_lookup (h : Heap) p e :
  AsVElement h p = Some e -> h !! p = Some (ElementNode e).
Proof.
  unfold AsVElement. destruct (h !! p) as [[t|e']|]; try discriminate.
  by intros [= ->].
Qed.

Lemma SetAttribute_insert (h : Heap) p e name value :
  SetAttribute (<[p := ElementNode e]> h) p name value
  = Some (<[p := ElementNode (mkVElement (parent e) (TagName e)
                                (<[name := value]> (Attributes e))
                                (Children e))]> h).
Proof.
  unfold SetAttribute. rewrite AsVElement_insert_eq.
  cbn [mbind option_bind]. by rewrite insert_insert_eq.
Qed.

Lemma setAttributes_insert attr : forall (h : Heap) p e,
  setAttributes (<[p := ElementNode e]> h) p attr
  = Some (<[p := ElementNode (withAttributes e attr)]> h).
Proof.
  unfold setAttributes, withAttributes.
  induction attr as [|a attr IH]; intros h p e; cbn [forEach foldl].
  - by destruct e.
  - rewrite SetAttribute_insert. cbn [mbind option_bind].
    rewrite IH. done.
Qed.

Lemma AppendChild_new (h : Heap) par pe p n :
  AsVElement h par = Some pe -> par <> p ->
  AppendChild (<[p := n]> h) par p
  = Some (attach h par pe p
            (match n with
             | TextNode t => TextNode (mkVText (Some par) (TextContent t))
             | ElementNode e =>
                 ElementNode (mkVElement (Some par) (TagName e)
                                (Attributes e) (Children e))
             end)).
Proof.
  intros Hpar Hne. unfold AppendChild, SetParent, attach.
  rewrite lookup_insert_eq.
  destruct n as [t|e]; cbn [mbind option_bind]; rewrite insert_insert_eq;
    rewrite AsVElement_insert_ne by done; rewrite Hpar;
    cbn [mbind option_bind]; done.
Qed.

(** ** Attaching a new leaf keeps the forest in shape *)

Lemma AsVElement_attach (h : Heap) par pe p n x :
  par <> p ->
  AsVElement (attach h par pe p n) x
  = if decide (x = par) then Some (setChildren pe (Children pe ++ [p]))
    else if decide (x = p)
         then match n with ElementNode e => Some e | TextNode _ => None end
         else AsVElement h x.
Proof.
  intros Hne. unfold attach.
  destruct (decide (x = par)) as [->|Hx].
  - apply AsVElement_insert_eq.
  - rewrite AsVElement_insert_ne by done.
    destruct (decide (x = p)) as [->|Hxp].
    + destruct n; [apply AsVElement_insert_text|apply AsVElement_insert_eq].
    + by apply AsVElement_insert_ne.
Qed.

Lemma has_depth_keeps h h' d : forall p,
  keeps_elements h h' -> has_depth h d p -> has_depth h' d p.
Proof.
  induction d as [|d IH]; intros p Hk; simpl.
  - intros (e & He & Hp). destruct (Hk p e He) as (e' & He' & Hp' & _).
    exists e'. split; [done|]. congruence.
  - intros (e & q & He & Hp & Hq).
    destruct (Hk p e He) as (e' & He' & Hp' & _).
    exists e', q. split; [done|]. split; [congruence|]. by apply IH.
Qed.

Lemma keeps_elements_refl h : keeps_elements h h.
Proof. intros p e He. by exists e. Qed.

Lemma keeps_elements_trans h1 h2 h3 :
  keeps_elements h1 h2 -> keeps_elements h2 h3 -> keeps_elements h1 h3.
Proof.
  intros H12 H23 p e He.
  destruct (H12 p e He) as (e2 & He2 & Hp2 & Ht2).
  destruct (H23 p e2 He2) as (e3 & He3 & Hp3 & Ht3).
  exists e3. split; [done|]. split; congruence.
Qed.

Lemma keeps_elements_attach (h : Heap) par pe p n :
  AsVElement h par = Some pe -> h !! p = None ->
  keeps_elements h (attach h par pe p n).
Proof.
  intros Hpar Hp x e He.
  assert (Hne : par <> p).
  { intros ->. unfold AsVElement in Hpar. by rewrite Hp in Hpar. }
  rewrite AsVElement_attach by done.
  destruct (decide (x = par)) as [->|Hx].
  - rewrite Hpar in He. injection He as <-. by eexists.
  - destruct (decide (x = p)) as [->|Hxp].
    + unfold AsVElement in He. by rewrite Hp in He.
    + by exists e.
Qed.

Lemma Shaped_attach M (h : Heap) par pe p n d :
  Shaped M h -> AsVElement h par = Some pe -> h !! p = None ->
  has_depth h d par -> (S d <= M)%nat -> leaf_of par n ->
  Shaped M (attach h par pe p n) /\
  (forall e, n = ElementNode e -> has_depth (attach h par pe p n) (S d) p).
Proof.
  intros (Hdepth & Hpc & Hnd & Hclosed & Hlow) Hpar Hp Hd HM Hleaf.
  assert (Hne : par <> p).
  { intros ->. unfold AsVElement in Hpar. by rewrite Hp in Hpar. }
  pose proof (keeps_elements_attach h par pe p n Hpar Hp) as Hk.
  set (h' := attach h par pe p n) in *.
  assert (Hnew : forall e, n = ElementNode e -> has_depth h' (S d) p).
  { intros e ->. simpl. destruct Hleaf as (Hpe & _).
    exists e, par. split.
    - subst h'. rewrite AsVElement_attach by done.
      destruct (decide (p = par)) as [->|_]; [done|].
      by destruct (decide (p = p)).
    - split; [done|]. by apply (has_depth_keeps h). }
  assert (Hfresh : forall q qe, AsVElement h q = Some qe -> p ∉ Children qe).
  { intros q qe Hq Hin. destruct (Hclosed q qe p Hq Hin) as [? Hx].
    by rewrite Hp in Hx. }
  rewrite ParentConsistent_spec in Hpc.
  split; [|exact Hnew]. split; [|split; [|split; [|split]]].
  - intros x e He. subst h'. rewrite AsVElement_attach in He by done.
    destruct (decide (x = par)) as [->|Hx].
    + exists d. split; [lia|]. by apply (has_depth_keeps h).
    + destruct (decide (x = p)) as [->|Hxp].
      * destruct n as [t|e0]; [discriminate|]. injection He as ->.
        exists (S d). split; [done|]. by apply (Hnew e).
      * destruct (Hdepth x e He) as (dx & Hdx & Hx').
        exists dx. split; [done|]. by apply (has_depth_keeps h).
  - apply ParentConsistent_spec. intros q qe c ce Hq Hc Hce.
    subst h'. rewrite AsVElement_attach in Hq, Hce by done.
    assert (Hold : forall qe0, AsVElement h q = Some qe0 -> c ∈ Children qe0 ->
                     parent ce = Some q).
    { intros qe0 Hq0 Hc0.
      destruct (decide (c = par)) as [->|Hcp].
      - injection Hce as <-. simpl. by apply (Hpc q qe0 par pe).
      - destruct (decide (c = p)) as [->|Hcn].
        + exfalso. by apply (Hfresh q qe0 Hq0).
        + by apply (Hpc q qe0 c ce). }
    destruct (decide (q = par)) as [->|Hqp].
    + injection Hq as <-. simpl in Hc. apply elem_of_app in Hc as [Hc|Hc].
      * by apply (Hold pe).
      * apply list_elem_of_singleton in Hc. subst c.
        destruct (decide (p = par)) as [?|_]; [done|].
        destruct (decide (p = p)) as [_|?]; [|done].
        destruct n as [t|e0]; [discriminate|]. injection Hce as <-.
        by destruct Hleaf.
    + destruct (decide (q = p)) as [->|Hqn].
      * destruct n as [t|e0]; [discriminate|]. injection Hq as <-.
        destruct Hleaf as (_ & Hnil & _). rewrite Hnil in Hc.
        by apply elem_of_nil in Hc.
      * by apply (Hold qe).
  - intros x e He. subst h'. rewrite AsVElement_attach in He by done.
    destruct (decide (x = par)) as [->|Hx].
    + injection He as <-. simpl. apply NoDup_app. split; [by apply (Hnd par)|].
      split; [|apply NoDup_singleton].
      intros y Hy Hy'. apply list_elem_of_singleton in Hy'. subst y.
      by apply (Hfresh par pe).
    + destruct (decide (x = p)) as [->|Hxp].
      * destruct n as [t|e0]; [discriminate|]. injection He as <-.
        destruct Hleaf as (_ & -> & _). apply NoDup_nil_2.
      * by apply (Hnd x).
  - intros q qe c Hq Hc. subst h'. rewrite AsVElement_attach in Hq by done.
    assert (Hold : forall qe0, AsVElement h q = Some qe0 -> c ∈ Children qe0 ->
                     is_Some (attach h par pe p n !! c)).
    { intros qe0 Hq0 Hc0. unfold attach.
      destruct (decide (c = par)) as [->|Hcp]; [by rewrite lookup_insert_eq|].
      rewrite lookup_insert_ne by done.
      destruct (decide (c = p)) as [->|Hcn]; [by rewrite lookup_insert_eq|].
      rewrite lookup_insert_ne by done. by apply (Hclosed q qe0). }
    destruct (decide (q = par)) as [->|Hqp].
    + injection Hq as <-. simpl in Hc. apply elem_of_app in Hc as [Hc|Hc].
      * by apply (Hold pe).
      * apply list_elem_of_singleton in Hc. subst c. unfold attach.
        rewrite lookup_insert_ne by done. by rewrite lookup_insert_eq.
    + destruct (decide (q = p)) as [->|Hqn].
      * destruct n as [t|e0]; [discriminate|]. injection Hq as <-.
        destruct Hleaf as (_ & Hnil & _). rewrite Hnil in Hc.
        by apply elem_of_nil in Hc.
      * by apply (Hold qe).
  - intros x e He. subst h'. rewrite AsVElement_attach in He by done.
    destruct (decide (x = par)) as [->|Hx].
    + injection He as <-. simpl. by apply (Hlow par).
    + destruct (decide (x = p)) as [->|Hxp].
      * destruct n as [t|e0]; [discriminate|]. injection He as <-.
        by destruct Hleaf as (_ & _ & ?).
      * by apply (Hlow x).
Qed.

(** ** processNode *)

Lemma HtmlNode_induction (P : HtmlNode -> Prop) :
  (forall ty data attr cs, Forall P cs -> P (mkHtmlNode ty data attr cs)) ->
  forall n, P n.
Proof.
  intros H. fix IH 1. intros [ty data attr cs]. apply H.
  induction cs as [|c cs IHcs]; constructor; [apply IH|exact IHcs].
Qed.

Lemma processNode_unfold ty data attr cs par h :
  processNode (mkHtmlNode ty data attr cs) par h
  = match ty with
    | html_ElementNode =>
        let '(element, h) := NewVElement h (Strings.ToLower data) in
        h ← setAttributes h element attr;
        h ← AppendChild h par element;
        forEach (fun h c => processNode c element h) h cs
    | html_TextNode =>
        let '(text, h) := NewVText h data in AppendChild h par text
    | html_DocumentNode => forEach (fun h c => processNode c par h) h cs
    | _ => Some h
    end.
Proof.
  assert (Hloop : forall cs par h,
    (fix children (cs : list HtmlNode) (parentElement : loc) (h : Heap)
       {struct cs} : option Heap :=
       match cs with
       | [] => Some h
       | c :: cs' =>
           h ← processNode c parentElement h;
           children cs' parentElement h
       end) cs par h
    = forEach (fun h c => processNode c par h) h cs).
  { clear. intros cs par. induction cs as [|c cs IH]; intros h; [done|].
    cbn [forEach]. destruct (processNode c par h) as [h1|];
      cbn [mbind option_bind]; [apply IH|done]. }
  destruct ty; try reflexivity.
  - cbn [processNode]. apply Hloop.
  - cbn [processNode]. unfold NewVElement.
    destruct (setAttributes _ _ attr) as [h1|]; cbn [mbind option_bind];
      [|done].
    destruct (AppendChild h1 par (alloc h)) as [h2|];
      cbn [mbind option_bind]; [|done].
    apply Hloop.
Qed.

Lemma html_height_child ty data attr cs c :
  c ∈ cs -> (html_height c < html_height (mkHtmlNode ty data attr cs))%nat.
Proof.
  intros Hc. cbn [html_height]. apply Nat.lt_succ_r.
  induction cs as [|x cs IH]; [by apply elem_of_nil in Hc|].
  apply elem_of_cons in Hc as [->|Hc]; [lia|].
  specialize (IH Hc). lia.
Qed.

Lemma has_depth_elem h d p : has_depth h d p -> is_elem h p.
Proof. destruct d; simpl; [intros (e & He & _)|intros (e & q & He & _)]; by exists e. Qed.

Lemma processNodes_spec M cs :
  Forall (fun c => forall par h d,
            Shaped M h -> has_depth h d par ->
            (d + html_height c <= M)%nat ->
            exists h', processNode c par h = Some h' /\ Shaped M h' /\
                       keeps_elements h h') cs ->
  forall par h d,
    Shaped M h -> has_depth h d par ->
    (forall c, c ∈ cs -> (d + html_height c <= M)%nat) ->
    exists h', forEach (fun h c => processNode c par h) h cs = Some h' /\
               Shaped M h' /\ keeps_elements h h'.
Proof.
  induction 1 as [|c cs Hc Hcs IH]; intros par h d Hs Hd Hh.
  - exists h. split; [done|]. split; [done|]. apply keeps_elements_refl.
  - destruct (Hc par h d Hs Hd) as (h1 & H1 & Hs1 & Hk1); [apply Hh; by left|].
    destruct (IH par h1 d Hs1) as (h2 & H2 & Hs2 & Hk2).
    + by apply (has_depth_keeps h).
    + intros c' Hc'. apply Hh. by right.
    + exists h2. cbn [forEach]. rewrite H1. cbn [mbind option_bind].
      split; [done|]. split; [done|]. by eapply keeps_elements_trans.
Qed.

Lemma processNode_spec M : forall node par h d,
  Shaped M h -> has_depth h d par -> (d + html_height node <= M)%nat ->
  exists h', processNode node par h = Some h' /\ Shaped M h' /\
             keeps_elements h h'.
Proof.
  intros node. induction node as [ty data attr cs IH] using HtmlNode_induction.
  intros par h d Hs Hd Hh. rewrite processNode_unfold.
  destruct (has_depth_elem _ _ _ Hd) as [pe Hpar].
  pose proof (alloc_fresh h) as Hfresh.
  assert (Hne : par <> alloc h).
  { intros Heq. unfold AsVElement in Hpar. rewrite Heq in Hpar.
    by rewrite Hfresh in Hpar. }
  assert (Hcs : forall c, c ∈ cs -> (S d + html_height c <= M)%nat).
  { intros c Hc. pose proof (html_height_child ty data attr cs c Hc). lia. }
  assert (Hd1 : (S d <= M)%nat) by (cbn [html_height] in Hh; lia).
  destruct ty.
  - exists h. split; [done|]. split; [done|]. apply keeps_elements_refl.
  - unfold NewVText. rewrite (AppendChild_new h par pe) by done. simpl.
    eexists. split; [done|]. split.
    + by apply (Shaped_attach M h par pe (alloc h) _ d).
    + by apply keeps_elements_attach.
  - apply (processNodes_spec M cs IH par h d); [done..|].
    intros c Hc. specialize (Hcs c Hc). lia.
  - unfold NewVElement. rewrite setAttributes_insert.
    cbn [mbind option_bind]. rewrite (AppendChild_new h par pe) by done.
    cbn [mbind option_bind]. simpl TagName. simpl Attributes. simpl Children.
    match goal with |- context [attach h par pe (alloc h) ?n] =>
      set (node := n) end.
    destruct (Shaped_attach M h par pe (alloc h) node d) as [Hs1 Hd1'];
      [done..| |].
    { subst node. simpl. split; [done|]. split; [done|]. apply ToLower_idem. }
    destruct (processNodes_spec M cs IH (alloc h)
                (attach h par pe (alloc h) node) (S d)) as (h2 & H2 & Hs2 & Hk2).
    + done.
    + by eapply Hd1'.
    + done.
    + exists h2. split; [done|]. split; [done|].
      eapply keeps_elements_trans; [|exact Hk2].
      by apply keeps_elements_attach.
  - exists h. split; [done|]. split; [done|]. apply keeps_elements_refl.
  - exists h. split; [done|]. split; [done|]. apply keeps_elements_refl.
  - exists h. split; [done|]. split; [done|]. apply keeps_elements_refl.
Qed.

(** ** A forest in shape can be walked *)

Lemma has_depth_unique h d : forall d' p,
  has_depth h d p -> has_depth h d' p -> d = d'.
Proof.
  induction d as [|d IH]; intros [|d'] p; simpl.
  - done.
  - intros (e & He & Hp) (e' & q & He' & Hp' & _). congruence.
  - intros (e & q & He & Hp & _) (e' & He' & Hp'). congruence.
  - intros (e & q & He & Hp & Hq) (e' & q' & He' & Hp' & Hq').
    f_equal. apply (IH d' q); [done|]. congruence.
Qed.

Lemma chain_of_depth h d : forall p f dd,
  has_depth h d p -> (d < f)%nat ->
  is_Some (GetNodeAncestors_loop f h (Some p) 0 dd).
Proof.
  induction d as [|d IH]; intros p f dd Hd Hf;
    (destruct f as [|f]; [lia|]); simpl in Hd |- *.
  - destruct Hd as (e & -> & Hp). cbn [mbind option_bind]. rewrite Hp.
    destruct f; simpl; eauto.
  - destruct Hd as (e & q & -> & Hp & Hq). cbn [mbind option_bind].
    rewrite Hp. destruct (IH q f (dd + 1)%Z Hq) as [l Hl]; [lia|].
    rewrite Hl. simpl. eauto.
Qed.

Lemma collect_is_Some f cs :
  (forall c, c ∈ cs -> is_Some (f c)) -> is_Some (collect f cs).
Proof.
  induction cs as [|c cs IH]; intros H; simpl; [eauto|].
  destruct (H c) as [r ->]; [by left|]. cbn [mbind option_bind].
  destruct IH as [rs ->]; [intros c' Hc'; apply H; by right|].
  simpl. eauto.
Qed.

Lemma walk_of_depth M h :
  Shaped M h -> forall k p d,
  has_depth h d p -> (M < d + k)%nat ->
  is_Some (getElementsByTagNameInternal k h p ["*"]).
Proof.
  intros (Hdepth & Hpc & _). rewrite ParentConsistent_spec in Hpc.
  induction k as [|k IH]; intros p d Hd Hk.
  - destruct (has_depth_elem _ _ _ Hd) as [e He].
    destruct (Hdepth p e He) as (d0 & Hd0 & Hd0').
    pose proof (has_depth_unique _ _ _ _ Hd Hd0'). lia.
  - destruct (has_depth_elem _ _ _ Hd) as [e He]. simpl. rewrite He.
    cbn [mbind option_bind].
    match goal with |- context [collect ?f (Children e)] =>
      destruct (collect_is_Some f (Children e)) as [rest ->] end.
    + intros c Hc. destruct (AsVElement h c) as [ce|] eqn:Hce; [|eauto].
      apply (IH c (S d)); [|lia]. simpl. exists ce, p.
      split; [done|]. split; [|done]. by apply (Hpc p e c ce).
    + simpl. eauto.
Qed.

Lemma Shaped_WellFormed M h fuel :
  Shaped M h -> (M + 2 <= fuel)%nat -> WellFormed fuel h.
Proof.
  intros Hs Hf p n Hp. destruct n as [t|e]; simpl; [done|].
  assert (He : AsVElement h p = Some e) by (unfold AsVElement; by rewrite Hp).
  destruct Hs as (Hdepth & Hrest).
  destruct (Hdepth p e He) as (d & Hd & Hd'). split.
  - apply (walk_of_depth M h (conj Hdepth Hrest) fuel p d); [done|lia].
  - apply (chain_of_depth h d); [done|lia].
Qed.

(** ** New roots, and appending one root to another *)

Lemma Shaped_empty M : Shaped M (∅ : Heap).
Proof.
  assert (H : forall p, AsVElement (∅ : Heap) p = None)
    by (intros p; unfold AsVElement; by rewrite lookup_empty).
  split; [|split; [|split; [|split]]].
  - intros p e He. by rewrite H in He.
  - apply ParentConsistent_spec. intros q qe c ce Hq. by rewrite H in Hq.
  - intros p e He. by rewrite H in He.
  - intros q qe c Hq. by rewrite H in Hq.
  - intros p e He. by rewrite H in He.
Qed.

Lemma Shaped_new_root M (h : Heap) p tag :
  Shaped M h -> h !! p = None -> Strings.ToLower tag = tag ->
  let h' := <[p := ElementNode (mkVElement None tag ∅ [])]> h in
  Shaped M h' /\ keeps_elements h h' /\ has_depth h' 0 p.
Proof.
  intros (Hdepth & Hpc & Hnd & Hclosed & Hlow) Hp Htag h'.
  assert (Hk : keeps_elements h h').
  { intros x e He. subst h'. exists e. split; [|done].
    rewrite AsVElement_insert_ne; [done|].
    intros <-. unfold AsVElement in He. by rewrite Hp in He. }
  assert (H0 : has_depth h' 0 p).
  { simpl. eexists. split; [apply AsVElement_insert_eq|done]. }
  assert (Hcases : forall x e, AsVElement h' x = Some e ->
            (x = p /\ e = mkVElement None tag ∅ []) \/
            (x <> p /\ AsVElement h x = Some e)).
  { intros x e He. subst h'. destruct (decide (x = p)) as [->|Hx].
    - rewrite AsVElement_insert_eq in He. injection He as <-. by left.
    - rewrite AsVElement_insert_ne in He by done. by right. }
  assert (Hfresh : forall q qe, AsVElement h q = Some qe -> p ∉ Children qe).
  { intros q qe Hq Hin. destruct (Hclosed q qe p Hq Hin) as [? Hx].
    by rewrite Hp in Hx. }
  rewrite ParentConsistent_spec in Hpc.
  split; [|done]. split; [|split; [|split; [|split]]].
  - intros x e He. destruct (Hcases x e He) as [[-> ->]|[Hx He']].
    + exists 0%nat. split; [lia|done].
    + destruct (Hdepth x e He') as (d & Hd & Hd').
      exists d. split; [done|]. by apply (has_depth_keeps h).
  - apply ParentConsistent_spec. intros q qe c ce Hq Hc Hce.
    destruct (Hcases q qe Hq) as [[-> ->]|[Hqp Hq']].
    { by apply elem_of_nil in Hc. }
    destruct (Hcases c ce Hce) as [[-> ->]|[Hcp Hc']].
    { exfalso. by apply (Hfresh q qe Hq'). }
    by apply (Hpc q qe c ce).
  - intros x e He. destruct (Hcases x e He) as [[-> ->]|[Hx He']].
    + apply NoDup_nil_2.
    + by apply (Hnd x).
  - intros q qe c Hq Hc. destruct (Hcases q qe Hq) as [[-> ->]|[Hqp Hq']].
    { by apply elem_of_nil in Hc. }
    subst h'. destruct (decide (c = p)) as [->|Hcp].
    + by rewrite lookup_insert_eq.
    + rewrite lookup_insert_ne by done. by apply (Hclosed q qe).
  - intros x e He. destruct (Hcases x e He) as [[-> ->]|[Hx He']].
    + done.
    + by apply (Hlow x).
Qed.

Lemma Shaped_append_root M (h : Heap) q qe b be :
  Shaped M h ->
  AsVElement h q = Some qe -> parent qe = None ->
  AsVElement h b = Some be -> parent be = None -> q <> b ->
  exists h',
    AppendChild h q b = Some h' /\ Shaped (S M) h' /\
    AsVElement h' q = Some (setChildren qe (Children qe ++ [b])) /\
    AsVElement h' b
    = Some (mkVElement (Some q) (TagName be) (Attributes be) (Children be)).
Proof.
  intros (Hdepth & Hpc & Hnd & Hclosed & Hlow) Hq Hqp Hb Hbp Hne.
  set (be' := mkVElement (Some q) (TagName be) (Attributes be) (Children be)).
  set (h' := <[q := ElementNode (setChildren qe (Children qe ++ [b]))]>
               (<[b := ElementNode be']> h)).
  assert (Hrun : AppendChild h q b = Some h').
  { unfold AppendChild, SetParent. rewrite (AsVElement_lookup _ _ _ Hb).
    cbn [mbind option_bind]. rewrite AsVElement_insert_ne by done.
    rewrite Hq. done. }
  assert (Hq' : AsVElement h' q = Some (setChildren qe (Children qe ++ [b])))
    by apply AsVElement_insert_eq.
  assert (Hb' : AsVElement h' b = Some be').
  { subst h'. rewrite AsVElement_insert_ne by done.
    apply AsVElement_insert_eq. }
  assert (Hother : forall x, x <> q -> x <> b ->
            AsVElement h' x = AsVElement h x).
  { intros x Hxq Hxb. subst h'. rewrite !AsVElement_insert_ne by done. done. }
  assert (Hcases : forall x e', AsVElement h' x = Some e' ->
            exists e, AsVElement h x = Some e /\ TagName e' = TagName e /\
              ((x = q /\ e = qe /\ e' = setChildren qe (Children qe ++ [b])) \/
               (x = b /\ e = be /\ e' = be') \/
               (x <> q /\ x <> b /\ e' = e))).
  { intros x e' He'. destruct (decide (x = q)) as [->|Hxq].
    - rewrite Hq' in He'. injection He' as <-. exists qe. split; [done|].
      split; [done|]. by left.
    - destruct (decide (x = b)) as [->|Hxb].
      + rewrite Hb' in He'. injection He' as <-. exists be. split; [done|].
        split; [done|]. right. by left.
      + rewrite Hother in He' by done. exists e'. split; [done|].
        split; [done|]. right. by right. }
  rewrite ParentConsistent_spec in Hpc.
  assert (Hnotb : forall x xe, AsVElement h x = Some xe -> b ∉ Children xe).
  { intros x xe Hx Hin. pose proof (Hpc x xe b be Hx Hin Hb). congruence. }
  assert (Hnotq : forall x xe, AsVElement h x = Some xe -> q ∉ Children xe).
  { intros x xe Hx Hin. pose proof (Hpc x xe q qe Hx Hin Hq). congruence. }
  assert (Hshift : forall d x, has_depth h d x ->
            has_depth h' d x \/ has_depth h' (S d) x).
  { induction d as [|d IH]; intros x; simpl.
    - intros (e & He & Hp). destruct (decide (x = b)) as [->|Hxb].
      + right. exists be', q. split; [done|]. split; [done|].
        eexists. split; [exact Hq'|done].
      + left. destruct (decide (x = q)) as [->|Hxq].
        * eexists. split; [exact Hq'|done].
        * exists e. split; [|done]. by rewrite Hother.
    - intros (e & y & He & Hp & Hy).
      assert (Hxb : x <> b) by (intros ->; congruence).
      assert (Hxq : x <> q) by (intros ->; congruence).
      destruct (IH y Hy) as [H1|H1]; [left|right];
        exists e, y; (split; [by rewrite Hother|]); by split. }
  exists h'. split; [done|]. split; [|by split].
  split; [|split; [|split; [|split]]].
  - intros x e' He'. destruct (Hcases x e' He') as (e & He & _).
    destruct (Hdepth x e He) as (d & Hd & Hd').
    destruct (Hshift d x Hd') as [H1|H1]; [exists d|exists (S d)];
      (split; [lia|done]).
  - apply ParentConsistent_spec. intros x xe' c ce' Hx Hc Hce.
    destruct (Hcases x xe' Hx) as (xe & Hxe & _ & Hxc).
    destruct (Hcases c ce' Hce) as (ce & Hce0 & _ & Hcc).
    assert (Hin : c ∈ Children xe \/ (x = q /\ c = b)).
    { destruct Hxc as [(-> & -> & ->)|[(-> & -> & ->)|(_ & _ & ->)]].
      - simpl in Hc. apply elem_of_app in Hc as [Hc|Hc]; [by left|].
        apply list_elem_of_singleton in Hc. by right.
      - by left.
      - by left. }
    destruct Hin as [Hin|[-> ->]].
    + destruct Hcc as [(-> & -> & ->)|[(-> & -> & ->)|(_ & _ & ->)]].
      * exfalso. by apply (Hnotq x xe).
      * exfalso. by apply (Hnotb x xe).
      * by apply (Hpc x xe c ce).
    + rewrite Hb' in Hce. by injection Hce as <-.
  - intros x e' He'.
    destruct (Hcases x e' He') as (e & He & _ & Hc).
    destruct Hc as [(-> & -> & ->)|[(-> & -> & ->)|(_ & _ & ->)]].
    + simpl. apply NoDup_app. split; [by apply (Hnd q)|].
      split; [|apply NoDup_singleton].
      intros y Hy Hy'. apply list_elem_of_singleton in Hy'. subst y.
      by apply (Hnotb q qe).
    + simpl. by apply (Hnd b).
    + by apply (Hnd x).
  - intros x xe' c Hx Hc.
    assert (Hdom : forall y, is_Some (h !! y) -> is_Some (h' !! y)).
    { intros y Hy. subst h'.
      destruct (decide (y = q)) as [->|Hyq]; [by rewrite lookup_insert_eq|].
      rewrite lookup_insert_ne by done.
      destruct (decide (y = b)) as [->|Hyb]; [by rewrite lookup_insert_eq|].
      by rewrite lookup_insert_ne. }
    destruct (Hcases x xe' Hx) as (xe & Hxe & _ & Hxc).
    destruct Hxc as [(-> & -> & ->)|[(-> & -> & ->)|(_ & _ & ->)]].
    + simpl in Hc. apply elem_of_app in Hc as [Hc|Hc].
      * apply Hdom. by apply (Hclosed q qe).
      * apply list_elem_of_singleton in Hc. subst c. apply Hdom.
        rewrite (AsVElement_lookup _ _ _ Hb). eauto.
    + apply Hdom. by apply (Hclosed b be).
    + apply Hdom. by apply (Hclosed x xe).
  - intros x e' He'. destruct (Hcases x e' He') as (e & He & Ht & _).
    rewrite Ht. by apply (Hlow x).
Qed.

(** ** ParseHTML *)

Lemma findNodes_unfold ty data attr cs found :
  findNodes (mkHtmlNode ty data attr cs) found
  = foldl (fun found c => findNodes c found)
      (match ty with
       | html_ElementNode =>
           if String.eqb (Strings.ToLower data) "html"
           then (Some (mkHtmlNode ty data attr cs), snd found)
           else if String.eqb (Strings.ToLower data) "body"
           then (fst found, Some (mkHtmlNode ty data attr cs))
           else found
       | _ => found
       end) cs.
Proof.
  cbn [findNodes].
  match goal with |- _ ?cs0 ?f0 = _ => generalize f0 end.
  induction cs as [|c cs' IH]; intros f; [done|]. cbn [foldl]. apply IH.
Qed.

(** What [findNodes] finds is no higher than the tree it searched. *)
Lemma findNodes_height : forall n found,
  (forall x, fst (findNodes n found) = Some x ->
     fst found = Some x \/ (html_height x <= html_height n)%nat) /\
  (forall x, snd (findNodes n found) = Some x ->
     snd found = Some x \/ (html_height x <= html_height n)%nat).
Proof.
  intros n. induction n as [ty data attr cs IH] using HtmlNode_induction.
  intros found. rewrite findNodes_unfold.
  set (n := mkHtmlNode ty data attr cs).
  assert (Hloop : forall f,
    (forall x, fst (foldl (fun found c => findNodes c found) f cs) = Some x ->
       fst f = Some x \/ (html_height x < html_height n)%nat) /\
    (forall x, snd (foldl (fun found c => findNodes c found) f cs) = Some x ->
       snd f = Some x \/ (html_height x < html_height n)%nat)).
  { assert (Hh : forall c, c ∈ cs -> (html_height c < html_height n)%nat)
      by (intros c Hc; by apply html_height_child).
    clearbody n. clear found.
    induction IH as [|c cs Hc Hcs IHcs]; intros f; [by split; left|].
    cbn [foldl].
    destruct (IHcs (fun c' Hc' => Hh c' (list_elem_of_further _ _ _ Hc'))
                (findNodes c f)) as [H1 H2].
    destruct (Hc f) as [G1 G2].
    pose proof (Hh c (list_elem_of_here _ _)) as Hlt.
    split; intros x Hx.
    - destruct (H1 x Hx) as [Hf|?]; [|by right].
      destruct (G1 x Hf) as [?|?]; [by left|right; lia].
    - destruct (H2 x Hx) as [Hf|?]; [|by right].
      destruct (G2 x Hf) as [?|?]; [by left|right; lia]. }
  match goal with |- context [foldl _ ?f0 cs] => destruct (Hloop f0) as [H1 H2] end.
  split; intros x Hx.
  - destruct (H1 x Hx) as [Hf|?]; [|right; lia].
    destruct ty; try (by left).
    destruct (String.eqb (Strings.ToLower data) "html").
    + simpl in Hf. injection Hf as <-. by right.
    + destruct (String.eqb (Strings.ToLower data) "body"); by left.
  - destruct (H2 x Hx) as [Hf|?]; [|right; lia].
    destruct ty; try (by left).
    destruct (String.eqb (Strings.ToLower data) "html"); [by left|].
    destruct (String.eqb (Strings.ToLower data) "body"); [|by left].
    simpl in Hf. injection Hf as <-. by right.
Qed.

Lemma processChildren_spec M n par h d :
  Shaped M h -> has_depth h d par -> (d + html_height n <= S M)%nat ->
  exists h', processChildren n par h = Some h' /\ Shaped M h' /\
             keeps_elements h h'.
Proof.
  intros Hs Hd Hh. unfold processChildren.
  apply (processNodes_spec M (html_children n)) with d; [|done..|].
  - apply Forall_forall. intros c _ par' h' d'. apply processNode_spec.
  - intros c Hc. destruct n as [ty data attr cs]. simpl in Hc.
    pose proof (html_height_child ty data attr cs c Hc). lia.
Qed.

Lemma Shaped_mono M M' h : (M <= M')%nat -> Shaped M h -> Shaped M' h.
Proof.
  intros HM (Hdepth & Hrest). split; [|done].
  intros p e He. destruct (Hdepth p e He) as (d & Hd & Hd').
  exists d. split; [lia|done].
Qed.

Lemma convertDocument_spec doc baseURI :
  exists vdoc h,
    convertDocument doc baseURI = Some (vdoc, h) /\
    BaseURI vdoc = baseURI /\ DocumentURI vdoc = baseURI /\
    parsed_shape (S (html_height doc)) vdoc h.
Proof.
  unfold convertDocument.
  destruct (findNodes doc (None, None)) as [hn bn] eqn:Hfind.
  destruct (findNodes_height doc (None, None)) as [Hhn Hbn].
  rewrite Hfind in Hhn, Hbn. simpl in Hhn, Hbn.
  set (H := html_height doc) in *.
  unfold NewVElement at 1. set (p0 := alloc ∅).
  destruct (Shaped_new_root H ∅ p0 "html" (Shaped_empty H)) as (Hs0 & _ & Hd0);
    [apply lookup_empty|done|].
  set (h0 := <[p0 := ElementNode (mkVElement None "html" ∅ [])]> (∅ : Heap))
    in *.
  assert (He0 : AsVElement h0 p0 = Some (mkVElement None "html" ∅ []))
    by apply AsVElement_insert_eq.
  (* the second half: no body element was found among the children *)
  assert (HB : forall h1,
    Shaped H h1 -> keeps_elements h0 h1 ->
    exists h4 b,
      (let '(b, h) := NewVElement h1 "body" in
       h ← match bn with
           | Some bnode => processChildren bnode b h
           | None => Some h
           end;
       h ← AppendChild h p0 b;
       Some (h, b)) = Some (h4, b) /\
      parsed_shape (S H) (mkVDocument (Some p0) (Some b) baseURI baseURI) h4).
  { intros h1 Hs1 Hk1. unfold NewVElement. set (b := alloc h1).
    pose proof (alloc_fresh h1) as Hfresh. fold b in Hfresh.
    destruct (Hk1 p0 _ He0) as (e1 & He1 & Hp1 & Ht1).
    assert (Hne : p0 <> b).
    { intros Heq. unfold AsVElement in He1. rewrite Heq in He1.
      by rewrite Hfresh in He1. }
    destruct (Shaped_new_root H h1 b "body" Hs1 Hfresh eq_refl)
      as (Hs2 & Hk2 & Hd2).
    set (h2 := <[b := ElementNode (mkVElement None "body" ∅ [])]> h1) in *.
    assert (Hb2 : AsVElement h2 b = Some (mkVElement None "body" ∅ []))
      by apply AsVElement_insert_eq.
    assert (H3 : exists h3,
      match bn with
      | Some bnode => processChildren bnode b h2
      | None => Some h2
      end = Some h3 /\ Shaped H h3 /\ keeps_elements h2 h3).
    { destruct bn as [bnode|].
      - apply (processChildren_spec H bnode b h2 0); [done..|].
        destruct (Hbn bnode eq_refl) as [?|?]; [discriminate|]. simpl. lia.
      - exists h2. split; [done|]. split; [done|]. apply keeps_elements_refl. }
    destruct H3 as (h3 & -> & Hs3 & Hk3). cbn [mbind option_bind].
    destruct (Hk3 b _ Hb2) as (be3 & Hbe3 & Hbp3 & Hbt3).
    destruct (Hk2 p0 e1 He1) as (e2 & He2 & Hp2 & Ht2).
    destruct (Hk3 p0 e2 He2) as (e3 & He3 & Hp3 & Ht3).
    destruct (Shaped_append_root H h3 p0 e3 b be3 Hs3 He3) as
      (h4 & Hrun & Hs4 & Hq4 & Hb4);
      [by rewrite Hp3, Hp2, Hp1|done|by rewrite Hbp3|done|].
    rewrite Hrun. cbn [mbind option_bind]. exists h4, b. split; [done|].
    split; [done|]. eexists p0, b, _, _. split; [done|]. split; [done|].
    split; [exact Hq4|]. split; [simpl; by rewrite Ht3, Ht2, Ht1|].
    split; [simpl; by rewrite Hp3, Hp2, Hp1|]. split; [exact Hb4|].
    split; [simpl; by rewrite Hbt3|]. split; [done|].
    simpl. apply elem_of_app. right. by left. }
  (* the first half *)
  assert (HA : forall n, (html_height n <= H)%nat ->
    exists h1, processChildren n p0 h0 = Some h1 /\ Shaped H h1 /\
               keeps_elements h0 h1).
  { intros n Hn. apply (processChildren_spec H n p0 h0 0); [done..|].
    simpl. lia. }
  destruct hn as [hnode|].
  - destruct (HA hnode) as (h1 & -> & Hs1 & Hk1).
    { destruct (Hhn hnode eq_refl) as [?|?]; [discriminate|done]. }
    cbn [mbind option_bind].
    destruct (Hk1 p0 _ He0) as (e1 & He1 & Hp1 & Ht1).
    rewrite He1. cbn [mbind option_bind].
    destruct (findBodyElement h1 (Children e1)) as [b|] eqn:Hfb.
    + cbn [mbind option_bind]. eexists _, h1. split; [done|].
      split; [done|]. split; [done|].
      split; [by apply (Shaped_mono H); [lia|]|].
      unfold findBodyElement in Hfb. apply find_some in Hfb as [Hin Hb].
      apply list_elem_of_In in Hin.
      destruct (AsVElement h1 b) as [be|] eqn:Hbe; [|discriminate].
      apply String.eqb_eq in Hb.
      exists p0, b, e1, be. split; [done|]. split; [done|]. split; [done|].
      split; [simpl in Ht1; congruence|]. split; [simpl in Hp1; congruence|].
      split; [done|]. split; [done|]. split; [|done].
      destruct Hs1 as (_ & Hpc & _). rewrite ParentConsistent_spec in Hpc.
      by apply (Hpc p0 e1 b be).
    + destruct (HB h1 Hs1 Hk1) as (h4 & b & Hrun & Hshape).
      rewrite Hrun. cbn [mbind option_bind].
      eexists _, h4. split; [done|]. split; [done|]. split; [done|]. done.
  - destruct (HA doc) as (h1 & -> & Hs1 & Hk1); [done|].
    cbn [mbind option_bind].
    destruct (HB h1 Hs1 Hk1) as (h4 & b & Hrun & Hshape).
    rewrite Hrun. cbn [mbind option_bind].
    eexists _, h4. split; [done|]. split; [done|]. split; [done|]. done.
Qed.

(** X27. Whatever tree [html.Parse] returns, [ParseHTML] turns it into a
    well-shaped document without ever dereferencing nil: the document
    element is a parentless [html] element, the body is a [body] element
    among its children, no child is listed twice, parent pointers agree
    with the child lists, every tag name is in lower case, and every walk
    and every parent chain ends within the height of the parsed tree plus
    three steps. *)
Theorem parsed_document_is_well_shaped doc baseURI :
  exists vdoc h root body re be,
    convertDocument doc baseURI = Some (vdoc, h) /\
    BaseURI vdoc = baseURI /\
    DocumentElement vdoc = Some root /\ Body vdoc = Some body /\
    AsVElement h root = Some re /\ TagName re = "html" /\
    parent re = None /\
    AsVElement h body = Some be /\ TagName be = "body" /\
    parent be = Some root /\ body ∈ Children re /\
    NoDupChildren h /\ ParentConsistent h /\
    (forall p e, AsVElement h p = Some e ->
       Strings.ToLower (TagName e) = TagName e) /\
    forall fuel, (html_height doc + 3 <= fuel)%nat -> WellFormed fuel h.
Proof.
  destruct (convertDocument_spec doc baseURI)
    as (vdoc & h & Hrun & Hbase & _ & Hs & Hshape).
  destruct Hshape as (root & body & re & be & H1 & H2 & H3 & H4 & H5 & H6
                      & H7 & H8 & H9).
  exists vdoc, h, root, body, re, be.
  repeat (split; [done|]).
  destruct Hs as (Hdepth & Hpc & Hnd & Hclosed & Hlow).
  split; [done|]. split; [done|]. split; [done|].
  intros fuel Hf.
  apply (Shaped_WellFormed (S (html_height doc))); [|lia].
  by repeat split.
Qed.

(** X28. [Extract] over this parser never gets stuck: it hands on the error
    of [html.Parse], and for every tree that [html.Parse] returns it
    produces an article, given a recursion budget of the height of the tree
    plus three. *)
Theorem Extract_returns_on_parsed_input Parse X R fuel htmlContent options :
  ParseHTML X = parser_ParseHTML Parse ->
  (forall err, Parse htmlContent = inr err ->
     Extract X R fuel htmlContent options = Some (inr err)) /\
  (forall tree, Parse htmlContent = inl tree ->
     (html_height tree + 3 <= fuel)%nat ->
     exists r, Extract X R fuel htmlContent options = Some (inl r)).
Proof.
  intros HX. split.
  - intros err Herr. unfold Extract. rewrite HX. unfold parser_ParseHTML.
    by rewrite Herr.
  - intros tree Htree Hfuel.
    destruct (convertDocument_spec tree "")
      as (vdoc & h & Hrun & _ & _ & Hs & Hshape).
    destruct Hshape as (root & body & re & be & Hr & Hb & Hre & _ & _ & Hbe
                        & _).
    assert (Hparse : ParseHTML X htmlContent "" = inl (vdoc, h)).
    { rewrite HX. unfold parser_ParseHTML. by rewrite Htree, Hrun. }
    assert (Hwf : WellFormed fuel h).
    { apply (Shaped_WellFormed (S (html_height tree))); [done|lia]. }
    assert (Hre' : is_elem h root) by (by exists re).
    assert (Hbe' : is_elem h body) by (by exists be).
    rewrite (Extract_unfold X R fuel htmlContent options vdoc h Hparse).
    destruct (PreprocessDocument_total fuel vdoc h) as [h1 Hpre].
    { rewrite Hr. by apply WellFormed_traversable. }
    { rewrite Hb. by apply WellFormed_traversable. }
    rewrite Hpre. cbn [mbind option_bind].
    pose proof (PreprocessDocument_unlinks _ _ _ _ Hpre) as Hu.
    set (options' := mkReadabilityOptions _ _ _ _).
    destruct (ExtractContent_total X R fuel h1 ∅ vdoc options' root body)
      as [[r scores] Hext]; try done.
    { by eapply WellFormed_unlinks. }
    { by eapply is_elem_unlinks. }
    { by eapply is_elem_unlinks. }
    rewrite Hext. cbn [mbind option_bind fst]. by exists r.
Qed.

Lemma Extract_returns_on_parsed_input_witness :
  exists r,
    Extract (parsingCollaborators exampleParse) utilRegexps 8
      "<html><head><title>T</title></head><body><p class=lead>Hello</p></body></html>"
      DefaultOptions = Some (inl r).
Proof.
  apply (proj2 (Extract_returns_on_parsed_input exampleParse
                  (parsingCollaborators exampleParse) utilRegexps 8
                  "<html><head><title>T</title></head><body><p class=lead>Hello</p></body></html>"
                  DefaultOptions eq_refl) exampleTree).
  - reflexivity.
  - vm_compute. lia.
Defined.

(** ** AppendChild *)

(** X29. [AppendChild] does not move a node: appending an element that is
    already listed under another element leaves it in that child list while
    its parent pointer names the new parent, so parent pointers and child
    lists no longer agree. *)
Theorem AppendChild_does_not_detach h e child q qe ce h' :
  AppendChild h e child = Some h' ->
  AsVElement h q = Some qe -> child ∈ Children qe -> q <> e ->
  AsVElement h child = Some ce ->
  (exists qe', AsVElement h' q = Some qe' /\ child ∈ Children qe') /\
  Parent h' child = Some e /\
  ~ ParentConsistent h'.
Proof.
  intros Hrun Hq Hin Hne Hc.
  unfold AppendChild, SetParent in Hrun.
  rewrite (AsVElement_lookup _ _ _ Hc) in Hrun.
  cbn [mbind option_bind] in Hrun.
  set (ce' := mkVElement (Some e) (TagName ce) (Attributes ce) (Children ce))
    in *.
  destruct (AsVElement (<[child := ElementNode ce']> h) e) as [pe|] eqn:Hpe;
    cbn [mbind option_bind] in Hrun; [|discriminate].
  injection Hrun as <-.
  assert (Hq' : exists qe', AsVElement
            (<[e := ElementNode (setChildren pe (Children pe ++ [child]))]>
               (<[child := ElementNode ce']> h)) q = Some qe' /\
            child ∈ Children qe').
  { rewrite AsVElement_insert_ne by done.
    destruct (decide (q = child)) as [->|Hqc].
    - rewrite AsVElement_insert_eq. exists ce'. split; [done|].
      rewrite Hc in Hq. injection Hq as <-. done.
    - rewrite AsVElement_insert_ne by done. by exists qe. }
  assert (Hpar : exists ce2, AsVElement
            (<[e := ElementNode (setChildren pe (Children pe ++ [child]))]>
               (<[child := ElementNode ce']> h)) child = Some ce2 /\
            parent ce2 = Some e).
  { destruct (decide (child = e)) as [->|Hce].
    - rewrite AsVElement_insert_eq. eexists. split; [done|].
      rewrite AsVElement_insert_eq in Hpe. injection Hpe as <-. done.
    - rewrite AsVElement_insert_ne by done. rewrite AsVElement_insert_eq.
      by exists ce'. }
  split; [done|]. split.
  - destruct Hpar as (ce2 & Hce2 & Hp). unfold Parent. by rewrite Hce2.
  - intros Hpc. rewrite ParentConsistent_spec in Hpc.
    destruct Hq' as (qe' & Hqe' & Hin').
    destruct Hpar as (ce2 & Hce2 & Hp).
    pose proof (Hpc q qe' child ce2 Hqe' Hin' Hce2). congruence.
Qed.

Lemma AppendChild_does_not_detach_witness :
  exists h',
    AppendChild twoDivsHeap 6%positive 4%positive = Some h' /\
    (exists qe', AsVElement h' 3%positive = Some qe' /\
                 4%positive ∈ Children qe') /\
    Parent h' 4%positive = Some 6%positive /\
    ~ ParentConsistent h'.
Proof.
  destruct (AppendChild twoDivsHeap 6%positive 4%positive) as [h'|] eqn:E;
    [|vm_compute in E; discriminate E].
  exists h'. split; [done|].
  apply (AppendChild_does_not_detach twoDivsHeap 6%positive 4%positive
           3%positive
           (mkVElement (Some 2%positive) "div" (<["class" := "content"]> ∅)
              [4%positive])
           (mkVElement (Some 3%positive) "p" ∅ [5%positive]) h').
  - exact E.
  - vm_compute. reflexivity.
  - apply list_elem_of_here.
  - discriminate.
  - vm_compute. reflexivity.
Defined.

(** ** Parsing, then preprocessing *)

Lemma nil_of_no_elements {A} (l : list A) : (forall x, x ∉ l) -> l = [].
Proof. destruct l as [|x l]; [done|]. intros H. exfalso. apply (H x). by left. Qed.

(** X30. Preprocessing a parsed page cleans it, whatever the page: after
    [ParseHTML] and [PreprocessDocument] a search from the document element
    finds no element with a tag of [tagsToRemove], and the walk from the body
    meets no element that looks like an ad, except the body itself should it
    look like one. *)
Theorem parsed_page_is_cleaned tree baseURI fuel :
  (html_height tree + 3 <= fuel)%nat ->
  exists vdoc h h1 body l,
    convertDocument tree baseURI = Some (vdoc, h) /\
    PreprocessDocument fuel vdoc h = Some h1 /\
    (forall tagName, tagName ∈ tagsToRemove ->
       GetElementsByTagName fuel h1 (DocumentElement vdoc) tagName = Some []) /\
    Body vdoc = Some body /\
    GetElementsByTagName fuel h1 (Some body) "*" = Some l /\
    forall p e, p ∈ l -> AsVElement h1 p = Some e -> isLikelyAd e = true ->
      p = body.
Proof.
  intros Hfuel.
  destruct (convertDocument_spec tree baseURI)
    as (vdoc & h & Hrun & _ & _ & Hs & Hshape).
  destruct Hshape as (root & body & re & be & Hr & Hb & Hre & Htag & _ & Hbe
                      & _).
  assert (Hwf : WellFormed fuel h)
    by (apply (Shaped_WellFormed (S (html_height tree))); [done|lia]).
  destruct Hs as (_ & Hpc & Hnd & _).
  assert (Htr : traversable fuel h (DocumentElement vdoc)).
  { rewrite Hr. apply WellFormed_traversable; [done|]. by exists re. }
  assert (Htb : traversable fuel h (Body vdoc)).
  { rewrite Hb. apply WellFormed_traversable; [done|]. by exists be. }
  destruct (PreprocessDocument_total fuel vdoc h Htr Htb) as [h1 Hpre].
  pose proof (PreprocessDocument_unlinks _ _ _ _ Hpre) as Hu.
  destruct (PreprocessDocument_settled _ _ _ _ Hnd Hpre) as [Htags Hads].
  assert (Hpc1 : ParentConsistent h1) by (by eapply ParentConsistent_unlinks).
  assert (Htr1 : traversable fuel h1 (DocumentElement vdoc))
    by (by eapply traversable_unlinks).
  assert (Htb1 : traversable fuel h1 (Body vdoc))
    by (by eapply traversable_unlinks).
  rewrite Hb in Htb1. destruct Htb1 as [l Hl].
  exists vdoc, h, h1, body, l. split; [done|]. split; [done|].
  split; [|split; [done|split; [done|]]].
  - intros t Ht. destruct (tagsToRemove_lower t Ht) as [Hlow Hstar].
    destruct Htr1 as [all Hall].
    rewrite (GetElementsByTagName_filter fuel h1 _ t all);
      [|by rewrite Hlow|done].
    f_equal. apply nil_of_no_elements. intros p Hp.
    assert (Hfound : GetElementsByTagName fuel h1 (DocumentElement vdoc) t
                     = Some (filter (fun x => hasTag h1 (Strings.ToLower t) x
                                              = true) all)).
    { apply GetElementsByTagName_filter; [by rewrite Hlow|done]. }
    rewrite Forall_forall in Htags.
    pose proof (Htags t Ht h1 (unlinks_only_refl h1) _ Hfound) as Hun.
    rewrite Forall_forall in Hun.
    pose proof (found_is_linked _ _ _ _ _ _ Hpc1 Hfound Hp (Hun p Hp)) as Heq.
    rewrite Hr in Heq. injection Heq as <-.
    apply list_elem_of_filter in Hp as [Hp _].
    apply hasTag_TagName in Hp as (re1 & Hre1 & Ht1).
    destruct (unlinks_elem _ _ _ _ Hu Hre) as (re1' & Hre1' & _ & Ht1' & _).
    rewrite Hre1 in Hre1'. injection Hre1' as <-.
    rewrite Hlow in Ht1. rewrite Ht1', Htag in Ht1. subst t.
    unfold tagsToRemove in Ht.
    repeat (apply elem_of_cons in Ht as [Ht|Ht]; [discriminate Ht|]).
    by apply elem_of_nil in Ht.
  - intros p e Hp He Had.
    rewrite <- Hb in Hl. specialize (Hads l Hl).
    rewrite Forall_forall in Hads.
    pose proof (found_is_linked _ _ _ _ _ _ Hpc1 Hl Hp (Hads p Hp e He Had))
      as Heq.
    rewrite Hb in Heq. by injection Heq as <-.
Qed.

Lemma parsed_page_is_cleaned_witness :
  exists vdoc h h1 body l,
    convertDocument noisyTree "" = Some (vdoc, h) /\
    PreprocessDocument 8 vdoc h = Some h1 /\
    (forall tagName, tagName ∈ tagsToRemove ->
       GetElementsByTagName 8 h1 (DocumentElement vdoc) tagName = Some []) /\
    Body vdoc = Some body /\
    GetElementsByTagName 8 h1 (Some body) "*" = Some l /\
    forall p e, p ∈ l -> AsVElement h1 p = Some e -> isLikelyAd e = true ->
      p = body.
Proof.
  apply (parsed_page_is_cleaned noisyTree "" 8).
  vm_compute. lia.
Defined.
